(* ===== verification/_CoqProject ===== *)
-Q . S2P
Prelude.v
Flags.v
Types.v
Geth.v
L1Info.v
Deposits.v
Batches.v
SSZ.v
EngineJSON.v
L2Source.v
Sync.v
Step.v
DriverState.v
Rollup.v
Startup.v
Progress.v
FakeChain.v
Agreement.v
L1Source.v
L1Rollup.v
Batching.v
TxMgr.v
NodeAPI.v
Gossip.v
GossipTopic.v
Threads.v
History.v
Submitter.v
Sending.v
Discovery.v
Withdrawals.v
Resources.v
Node.v
PeerAPI.v
P2PConfig.v
DiscoverySetup.v
Service.v
Programs.v
Publication.v
CommandLine.v
NodeRPC.v
StateViz.v
