(* ===== verification/Prelude.v ===== *)
(** * Verification of the optimistic-specs rollup (op-node, op-batcher, op-proposer)

    The repository holds the Go programs of an optimistic rollup.  The rollup node
    (op-node) derives an L2 chain from L1: it fetches L1 blocks and receipts, reads
    deposits from the logs of the deposit contract and batches from the transactions to
    the batch inbox, turns them into payload attributes and drives an L2 execution engine
    with them; as a sequencer it also builds new blocks and gossips them to its peers.  The
    batcher (op-batcher) asks a node for bundles of L2 transactions and submits them to L1;
    the proposer (op-proposer) submits output roots.

    ** The files, and the code each models

    - Prelude.v: Go errors and results, the effect monad, machine integers, bytes and
      slices, the hash function, and the lemmas and tactics the other files share.
    - Flags.v: the flags each program declares (op-node/flags, op-batcher/flags,
      op-proposer/flags).
    - Types.v: block identifiers and the rollup configuration (op-node/eth/id.go,
      op-node/rollup/types.go), the Engine API types (op-node/l2/api.go).
    - Geth.v: the part of go-ethereum the code relies on, as a class of parameters.
    - L1Info.v: the L1 attributes in the first transaction of a block
      (op-node/rollup/derive/l1_block_info.go).
    - Deposits.v: deposit logs to deposit transactions, and the L1 attributes transaction
      (op-node/rollup/derive/payload_attributes.go).
    - Batches.v: the batch format (op-node/rollup/derive/batch.go), and filtering and
      completing the batches of an epoch (payload_attributes.go).
    - SSZ.v: the codec of execution payloads (op-node/l2/ssz.go).
    - EngineJSON.v: the text codecs of the Engine API types, and payloads as JSON
      (op-node/l2/api.go).
    - L2Source.v: payloads, blocks, batches of blocks, withdrawal proofs and the engine
      client (op-node/l2/api.go, util.go, source.go).
    - Sync.v: where to resume after a restart or a reorg (op-node/rollup/sync).
    - Step.v: block creation, verification and epoch insertion
      (op-node/rollup/driver/step.go).
    - DriverState.v: the driver's state machine and event loop
      (op-node/rollup/driver/state.go), a step relation over its channels.
    - L1Source.v: the L1 RPC client with its caches (op-node/l1/source.go, receipts.go,
      types.go).
    - Batching.v: concurrent batched requests and the request semaphore
      (op-node/l1/batching.go, request_sema.go), step relations over go-routines.
    - TxMgr.v: publication with rising gas prices (op-proposer/txmgr), a step relation over
      the publishing go-routines.
    - NodeAPI.v: batch bundles and output roots on request (op-node/node/api.go,
      bundle_builder.go).
    - Gossip.v: signing, publishing and validating gossiped blocks (op-node/p2p/signer.go,
      gossip.go), a step relation over concurrent validators.
    - GossipTopic.v: the set-up of pubsub and the subscriber of the blocks' topic
      (op-node/p2p/gossip.go).
    - Threads.v: no code of its own; code that several go-routines run at the same time, as
      sequences of atomic steps, and the rules for it.
    - History.v: the batcher's record of submitted blocks (op-batcher/db/history_db.go).
    - Submitter.v: a tick of the service loop (op-proposer/service.go) and the drivers of the
      batcher (op-batcher/sequencer/driver.go) and of the proposer
      (op-proposer/drivers/l2output/driver.go).
    - Sending.v: the transaction manager of TxMgr.v, calling the driver and the backend, as
      an implementation of the interface that Submitter.v uses.
    - Discovery.v: the discovery record and the discovery process (op-node/p2p/discovery.go),
      a step relation over its go-routines.
    - Withdrawals.v: proofs of withdrawals and their finalization (op-node/withdrawals).
    - Resources.v: what a node opens and closes, as a trace (the interface that the two ways
      to set up p2p implement, op-node/p2p/config.go).
    - Node.v: retries (op-node/backoff), the node's life cycle with a trace of what it opens
      and closes (op-node/node/node.go, op-node/p2p/node.go), and the heads and payloads it
      passes on (op-node/eth/heads.go).
    - PeerAPI.v: the report on peers and their administration (op-node/p2p/rpc_server.go).
    - P2PConfig.v: the peer-to-peer configuration and the host made from it
      (op-node/p2p/config.go, host.go, prepared.go).
    - DiscoverySetup.v: the local record and the discovery service of a configuration
      (op-node/p2p/discovery.go, prepared.go).
    - Service.v: the node program: flags to configuration, logging, and the run of the node
      (op-node/service.go, cmd/main.go, node/log.go, node/config.go).
    - Programs.v: the batch submitter and the output submitter: flags to configuration, the
      set-up, the service and its loop (op-batcher, op-proposer, their config.go).
    - NodeRPC.v: the RPC server of a node, the client of its L2 node, and the clients of the
      server (op-node/node/server.go, op-node/p2p/rpc_client.go, op-node/l2/source.go).
    - CommandLine.v: the main functions (op-node/cmd, op-batcher/cmd, op-proposer/cmd): the
      programs as functions of what is given for their flags.
    - StateViz.v: the viewer of snapshot logs (op-node/cmd/stateviz).
    - Publication.v: no code of its own; batch submitter, rollup node and verifier together.
    - Rollup.v: no code of its own; the driver over whole runs against the derivation of the
      rollup as one function of the L1 chain.
    - Startup.v: no code of its own; the driver from its start: a fresh node, and a restart
      on a chain that a driver derived.
    - Progress.v: no code of its own; the driver over services that work: it catches up.
    - FakeChain.v: the fake chains of the repository's tests
      (op-node/testutils/fake_chain.go), and the tests of sync and of the driver that use
      them, replayed on the model.
    - L1Rollup.v: no code of its own; the driver of Rollup.v on the client of L1Source.v.
    - Agreement.v: no code of its own; sequencer, batches and verifier together.

    ** How the model reads

    A definition keeps the name of the Go function it translates; a method carries its
    type's name where the bare name is taken ([History_AppendEntry],
    [LocalSigner_Sign]); the body of a loop is a Fixpoint named after the function
    ([insertEpoch_loop]).  A function that returns an error is a [res]; an index out of
    range, a nil dereference and an explicit panic are its constructor [Panic].  Code that
    calls out runs in the monad [M W] over an abstract world [W], and what it calls is a
    class: [Engine], [Downloader], [RPCClient], [EthClient], [Files], ...; methods on an
    object's fields run over [S * W].  Fixed-width integers are Z with their wrap-around
    written out ([+64], [to_int64]); hashes and addresses are big-endian integers.
    Go-routines, timers and channels are events of step relations, one event per
    operation that other go-routines can see; a run is a list of events.  A driver's
    functions that the publishing go-routines of [Send] call at the same time are a [Co], a
    sequence of atomic steps, which the events of a schedule interleave.

    Third-party code is a parameter: hashing, RLP, the trie, transaction encodings and
    signatures, snappy, JSON, LRU caches, the RPC servers.  Where a theorem needs its
    documented behaviour, that is a class of laws ([RLPLaws], [GethLaws], [LRULaws],
    [EcdsaLaws], [FilesLaws], ...), and the theorem's witness has a concrete instance.

    Loops the code bounds by data recurse on that data.  The others have fuel, and
    [OutOfFuel] is a result the code does not have: FindL2Heads has the height of the chain
    ([FindL2Heads_terminates] shows that it suffices as long as the links of the L2 node do
    not run in a circle; on one that do the code does not return, the lemma
    [FindL2Heads_diverges]); the collection of
    a bundle has 100 rounds and its encoding one per batch ([GetBatchBundle_total]); a retried
    operation has its number of attempts ([Do_loop_wp]); the
    completion of batches has one round per block time of the epoch's range.

    ** What the theorems show

    - The rollup: the L2 chain is a pure function of the L1 chain ([derive_chain]), and the
      safe chain of any node at any time is a value of it, from the safe head that the node
      started with ([safe_chain_derived]); the derived chains of two nodes agree block by
      block ([nodes_agree]); the L1 client meets what these ask of the L1 services, also
      with an RPC that is not trusted, provided that it answers with the blocks it is asked
      for and that the statuses of receipts are 0 or 1, which the receipts root does not
      pin down ([source_safe_chain], the lemma [fetchReceipts_status_unbound]).  They
      are about L1 chains whose heads come one by one; what a reorg of L1 does to the heads is [safe_head_moves] and [FindL2Heads_spec].  A node
      that starts on the genesis of L2 only ever has derived safe heads
      ([fresh_node_derived]), and one restarted on a chain that a node derived goes on with
      it ([restart_derived]); on an engine that holds blocks nobody derived, the safe head
      of a restart is not derived (the lemma [Start_unverified]).  When its services work, a
      verifier derives the whole of the L1 chain that it is given
      ([verifier_catches_up]).
    - Formats: the L1 attributes, deposit logs, batches and payloads read back as they were
      written ([L1BlockInfo_codec], [UnmarshalLogEvent_codec], [EncodeBatches_roundtrip],
      [MarshalSSZ_roundtrip], and the lemma [ExecutionPayload_json]), what the decoders accept
      ([UnmarshalSSZ_canonical]), when they panic ([UnmarshalSSZ_panics_iff]); the deposits
      of a block are exactly its deposit logs ([UserDeposits_spec]).
    - The whole way round: the blocks that the sequencer builds on one L1 origin, whose
      batches the batcher publishes, are the blocks that every verifier derives, but for
      empty blocks at the end of the epoch ([sequencer_verifier_agree]); a node that holds
      them keeps them without a reorg ([insertEpoch_keeps]).
    - Derivation: only the sequencer's batches count ([BatchesFromEVMTransactions_spec]);
      the filter keeps the first valid batch of each time ([FilterBatches_spec]); completion
      yields one batch per block time, up to the origin's time
      ([FillMissingBatches_completes]); a block, its payload and its batch agree
      ([BlockAsPayload_agrees]).
    - Sync: FindL2Heads finds the specified heads ([FindL2Heads_spec]) and returns
      ([FindL2Heads_terminates]).
    - Block production: what a successful call of the step functions did to the engine
      ([insertHeadBlock_inv], [verifySafeBlock_spec], [insertEpoch_last_origin],
      [createNewBlock_spec]); [insertEpoch_derives] refines the engine calls to the pure
      derivation.
    - Driver: over all runs, the L1 window is a chain ([window_linked_reachable]), a complete
      window is acted upon ([step_requested]), what may move the heads ([safe_head_moves]);
      the finalized block stays where it was at the start, which is not what
      specs/rollup-node.md asks for ([finalized_never_moves]).
    - L1 access: against an RPC that lies, all data returned and cached is authentic
      ([Source_authentic], [fetchReceipts_spec], [L1Range_spec]); a batched request is
      complete and does not deadlock ([fetchBatched_complete]).
    - Submission: [Send] returns confirmed receipts only ([Send_returns]); a bundle always
      comes and leaves no batch out ([GetBatchBundle_total]); the history file
      ([history_file_wf]); over whole runs of the programs, that what the batch submitter
      publishes is the batches of the L2 chain, recorded before it is sent
      ([BatchSubmitter_publishes]), and what the output submitter commits to
      ([OutputSubmitter_publishes]).  The history file has no lock: two publishers can leave
      one that cannot be read ([racing_publishers]).
    - Gossip: the driver is handed the payload of each message passed on, once and in order,
      and each is signed by the sequencer ([delivered_authentic]); the record of seen blocks
      is bounded ([seen_bounded]); what is published is accepted in time, and only then
      ([PublishL2Payload_accepted]).
    - The node: what it opens it closes, but for one client and for what a set-up of p2p or
      of the L1 source that fails leaves behind ([OpNode_releases]);
      discovery learns only nodes of its chain and dials only unconnected ones
      ([discovery_safe]); the network key survives restarts (the lemma
      [loadNetworkPrivKey_stable]),
      no client, host, server or driver runs on a configuration that is not well-formed
      ([opnode_main_configured]; key file and databases are opened before), the
      defaults of the flags are such a configuration (the lemma [defaults_work]), and one
      environment variable cannot be used (the lemma [bootnodes_env_rejected]).
    - Withdrawals: what the finalization parameters prove
      ([FinalizeWithdrawalParameters_spec]).
    - Tools: the viewer shows every entry of a log, in the order of time (the
      lemma [rows_of_log]).
    - Tests: the cases of TestFindSyncStart and TestDriver hold of the model (the lemmas of
      these names in FakeChain.v).

    Theorems about effects are proved by rules over the results of a computation
    ([preserves], [keeps], [M_returns]), or by weakest preconditions over every outcome,
    errors and panics included ([wp] and the tactic [wp_step]).

    Components are composed through interfaces: the driver's theorems are proved against
    [Output], whose law [NewDriver_output_moves_origin] discharges for step.go; the window
    of the driver relies on [L1Range_linked], what [L1Range_spec] shows of L1Source.v; what
    Rollup.v asks of the services is the record [node_ok], which [source_node_ok] discharges
    for L1Source.v beside an engine; the
    submission drivers' are proved against [TxManager], which Sending.v implements for every
    schedule of the go-routines ([SimpleTxManager_laws]), and [HistoryDatabase], which
    [JSON_HistoryDatabase] implements; Programs.v puts them together.  The rollup API is over
    [L2EthClient], which [ReadOnlySource] implements, and its clients get what its methods
    give (the lemma [clients_of_node]).

    ** Not modelled

    - The text that [fmt.Errorf] builds from its arguments (the constant part is kept),
      logs, metrics, tracing hooks, contexts but for their cancellation where it steers
      control flow, and timeouts, which are events.
    - Big integers that could be nil are options only where the code can meet nil
      ([rc_BlockNumber], [dep_Mint]); headers are taken with their number and base fee.
    - Log lines: no logic of their own.  Reading a file, and writing the data to an open
      one, is one step of the file system, however many system calls it takes.  The polling
      of [WaitForFinalizationPeriod] has fuel and no theorem that it ends: it waits for the
      chain.
    - Generated contract bindings, Solidity and TypeScript packages, and the test
      harnesses but for the fake chains (op-e2e, testlog, mocks, random values). *)

From Stdlib Require Import Strings.Byte.
From Stdlib Require Export ZArith Lia.
From Corelib Require Export Init.Byte.
From stdpp Require Export base list gmap strings fin_maps sorting.

#[global] Open Scope Z_scope.

(** ** Go errors and results *)

(** A Go [error] value.  [EMsg] is a fresh error ([errors.New], or [fmt.Errorf]
    with [%v], which forgets the cause); [EWrap] is [fmt.Errorf] with [%w]; the
    other constructors are the sentinel values the code compares against. *)
Inductive error : Type :=
  | EMsg (msg : string)
  | EWrap (msg : string) (cause : error)
  | ENotFound
  | EWrongChain
  | ETooDeepReorg
  | ETooManyRetries
  | ECanceled.

#[export] Instance error_eq_dec : EqDecision error.
Proof. solve_decision. Defined.

(** The text of an error, as [err.Error()] returns it. *)
Fixpoint error_text (e : error) : string :=
  match e with
  | EMsg s => s
  | EWrap s c => s +:+ error_text c
  | ENotFound => "not found"
  | EWrongChain => "wrong chain"
  | ETooDeepReorg => "reorg is too deep"
  | ETooManyRetries => "too many retries"
  | ECanceled => "context canceled"
  end.

(** [errors.Is(err, target)] for a sentinel [target]: follows [%w] only. *)
Fixpoint errors_is (target e : error) : bool :=
  bool_decide (e = target) ||
  match e with EWrap _ c => errors_is target c | _ => false end.

(** What a Go function returning [(A, error)] does: it returns a value, returns
    a non-nil error, or panics (index or slice out of range, nil dereference,
    division by zero).  [OutOfFuel] is no behaviour of the code: it is what a model
    of an unbounded loop returns when its fuel is too small. *)
Inductive res (A : Type) : Type :=
  | Ok (a : A)
  | Err (e : error)
  | Panic
  | OutOfFuel.
Arguments Ok {A} a.
Arguments Err {A} e.
Arguments Panic {A}.
Arguments OutOfFuel {A}.

#[export] Instance res_ret : MRet res := fun A a => Ok a.
#[export] Instance res_bind : MBind res := fun A B f r =>
  match r with Ok a => f a | Err e => Err e | Panic => Panic | OutOfFuel => OutOfFuel end.
#[export] Instance res_fmap : FMap res := fun A B f r =>
  match r with Ok a => Ok (f a) | Err e => Err e | Panic => Panic | OutOfFuel => OutOfFuel end.

(** The call returns, with a value or an error. *)
Definition returns {A} (r : res A) : bool :=
  match r with Ok _ | Err _ => true | _ => false end.
Definition is_ok {A} (r : res A) : bool :=
  match r with Ok _ => true | _ => false end.

(** [if b { return err }] *)
Definition fail_if (b : bool) (e : error) : res unit := if b then Err e else Ok tt.
(** [if b { panic }] *)
Definition panic_if (b : bool) : res unit := if b then Panic else Ok tt.

(** [fmt.Errorf("msg: %v", err)] and [fmt.Errorf("msg: %w", err)]. *)
Definition wrapv (msg : string) (e : error) : error := EMsg (msg +:+ error_text e).
Definition wrapw (msg : string) (e : error) : error := EWrap msg e.

Definition map_err {A} (f : error -> error) (r : res A) : res A :=
  match r with Err e => Err (f e) | r => r end.

(** ** Effectful code

    Code that calls a service (L1 RPC, L2 engine, file system, clock) runs in a
    state monad over an abstract world [W]; the calls themselves are members of
    the interface classes of each component. *)
Definition M (W A : Type) : Type := W -> res A * W.

#[export] Instance M_ret {W} : MRet (M W) := fun A a w => (Ok a, w).
#[export] Instance M_bind {W} : MBind (M W) := fun A B f c w =>
  match c w with
  | (Ok a, w') => f a w'
  | (Err e, w') => (Err e, w')
  | (Panic, w') => (Panic, w')
  | (OutOfFuel, w') => (OutOfFuel, w')
  end.

Definition lift {W A} (r : res A) : M W A := fun w => (r, w).
Definition throw {W A} (e : error) : M W A := fun w => (Err e, w).
Definition M_err {W A} (f : error -> error) (c : M W A) : M W A := fun w =>
  let '(r, w') := c w in (map_err f r, w').
(** Reads the [(value, err)] pair without returning: panics still propagate. *)
Definition attempt {W A} (c : M W A) : M W (error + A) := fun w =>
  match c w with
  | (Ok a, w') => (Ok (inr a), w')
  | (Err e, w') => (Ok (inl e), w')
  | (Panic, w') => (Panic, w')
  | (OutOfFuel, w') => (OutOfFuel, w')
  end.

(** The methods of an object with fields [S] that calls the outside world [W]: read and
    write the fields, and call out. *)
Definition get {S W} : M (S * W) S := fun sw => (Ok sw.1, sw).
Definition modify {S W} (f : S -> S) : M (S * W) unit := fun sw => (Ok tt, (f sw.1, sw.2)).
Definition call {S W A} (c : M W A) : M (S * W) A := fun sw =>
  let '(r, w') := c sw.2 in (r, (sw.1, w')).

(** ** Machine integers

    A Go [uintN] is a [Z] in [0, 2^N); every operation that can leave the range
    is followed by the wrap-around. *)
Abbreviation uint64 := Z (only parsing).
Abbreviation uint32 := Z (only parsing).
Abbreviation Hash := Z (only parsing).     (* common.Hash, [32]byte, big endian *)
Abbreviation Address := Z (only parsing).  (* common.Address, [20]byte, big endian *)
Abbreviation bigInt := Z (only parsing).   (* *big.Int *)

(** Package time, in nanoseconds *)
Definition time_Second : Z := 1000000000.
Definition time_Millisecond : Z := 1000000.

Definition wrap (w : Z) (z : Z) : Z := z mod 2 ^ w.
Definition in_range (w : Z) (z : Z) : Prop := 0 <= z < 2 ^ w.
Definition in_rangeb (w : Z) (z : Z) : bool := (0 <=? z) && (z <? 2 ^ w).
(** [int64(x)] of a [uint64]: two's complement reinterpretation. *)
Definition to_int64 (z : Z) : Z :=
  if wrap 64 z <? 2 ^ 63 then wrap 64 z else wrap 64 z - 2 ^ 64.

Declare Scope go_scope.
Delimit Scope go_scope with go.
Notation "a +64 b" := (wrap 64 (a + b)) (at level 50, left associativity) : go_scope.
Notation "a -64 b" := (wrap 64 (a - b)) (at level 50, left associativity) : go_scope.
Notation "a *64 b" := (wrap 64 (a * b)) (at level 40, left associativity) : go_scope.
Notation "a +32 b" := (wrap 32 (a + b)) (at level 50, left associativity) : go_scope.
Notation "a -32 b" := (wrap 32 (a - b)) (at level 50, left associativity) : go_scope.
Notation "a *32 b" := (wrap 32 (a * b)) (at level 40, left associativity) : go_scope.
#[global] Open Scope go_scope.

Lemma wrap_range w z : 0 <= w -> in_range w (wrap w z).
Proof. intros. unfold in_range, wrap. apply Z.mod_pos_bound. lia. Qed.
Lemma wrap_small w z : in_range w z -> wrap w z = z.
Proof. unfold in_range, wrap. apply Z.mod_small. Qed.
Lemma in_rangeb_spec w z : in_rangeb w z = true <-> in_range w z.
Proof. unfold in_rangeb, in_range. lia. Qed.

(** ** Bytes *)
#[export] Instance byte_eq_dec : EqDecision byte.
Proof. intros x y. apply Byte.byte_eq_dec. Defined.

Definition b2z (b : byte) : Z := Z.of_N (Byte.to_N b).
Definition z2b (z : Z) : byte :=
  match Byte.of_N (Z.to_N (z mod 256)) with Some b => b | None => x00 end.

Lemma b2z_range b : 0 <= b2z b < 256.
Proof. unfold b2z. pose proof (Byte.to_N_bounded b). lia. Qed.
Lemma z2b_b2z b : z2b (b2z b) = b.
Proof.
  unfold z2b. rewrite Z.mod_small by apply b2z_range.
  unfold b2z. by rewrite N2Z.id, Byte.of_to_N.
Qed.
Lemma b2z_z2b z : b2z (z2b z) = z mod 256.
Proof.
  unfold z2b. pose proof (Z.mod_pos_bound z 256 ltac:(lia)).
  destruct (Byte.of_N _) as [b|] eqn:E.
  - unfold b2z. rewrite (Byte.to_of_N _ E). lia.
  - apply Byte.of_N_None_iff in E. lia.
Qed.
Lemma b2z_inj b1 b2 : b2z b1 = b2z b2 -> b1 = b2.
Proof. intros E. rewrite <-(z2b_b2z b1), <-(z2b_b2z b2). by rewrite E. Qed.

(** Little- and big-endian renderings of an integer on [n] bytes. *)
Fixpoint le_bytes (n : nat) (z : Z) : list byte :=
  match n with
  | O => []
  | S n => z2b z :: le_bytes n (z / 256)
  end.
Fixpoint le_value (l : list byte) : Z :=
  match l with
  | [] => 0
  | b :: l => b2z b + 256 * le_value l
  end.
Definition be_bytes (n : nat) (z : Z) : list byte := reverse (le_bytes n z).
Definition be_value (l : list byte) : Z := le_value (reverse l).

Lemma length_le_bytes n z : length (le_bytes n z) = n.
Proof. revert z. induction n; intros; simpl; auto. Qed.
Lemma length_be_bytes n z : length (be_bytes n z) = n.
Proof. unfold be_bytes. by rewrite length_reverse, length_le_bytes. Qed.

Lemma pow256_S n : 256 ^ Z.of_nat (S n) = 256 * 256 ^ Z.of_nat n.
Proof. rewrite Nat2Z.inj_succ, Z.pow_succ_r; lia. Qed.

Lemma le_value_range l : 0 <= le_value l < 256 ^ Z.of_nat (length l).
Proof.
  induction l as [|b l IH]; [done|].
  change (length (b :: l)) with (S (length l)). rewrite pow256_S.
  simpl le_value. pose proof (b2z_range b). lia.
Qed.
Lemma be_value_range l : 0 <= be_value l < 256 ^ Z.of_nat (length l).
Proof. unfold be_value. rewrite <-(length_reverse l). apply le_value_range. Qed.

Lemma le_value_bytes n z : le_value (le_bytes n z) = z mod 256 ^ Z.of_nat n.
Proof.
  revert z. induction n as [|n IH]; intros z.
  - simpl. by rewrite Z.mod_1_r.
  - simpl le_value. rewrite IH, b2z_z2b, pow256_S.
    rewrite Z.rem_mul_r by lia. done.
Qed.
Lemma be_value_bytes n z : be_value (be_bytes n z) = z mod 256 ^ Z.of_nat n.
Proof. unfold be_value, be_bytes. by rewrite reverse_involutive, le_value_bytes. Qed.

Lemma le_bytes_value l : le_bytes (length l) (le_value l) = l.
Proof.
  induction l as [|b l IH]; [done|].
  simpl. pose proof (b2z_range b).
  replace (b2z b + 256 * le_value l) with (le_value l * 256 + b2z b) by lia.
  f_equal.
  - apply b2z_inj. rewrite b2z_z2b. rewrite Z.add_comm, Z.mod_add by lia.
    by apply Z.mod_small.
  - rewrite Z.div_add_l by lia. rewrite (Z.div_small (b2z b)) by done.
    by rewrite Z.add_0_r, IH.
Qed.
Lemma be_bytes_value l : be_bytes (length l) (be_value l) = l.
Proof.
  unfold be_bytes, be_value. rewrite <-(length_reverse l), le_bytes_value.
  apply reverse_involutive.
Qed.
Lemma be_bytes_value_n n l : length l = n -> be_bytes n (be_value l) = l.
Proof. intros <-. apply be_bytes_value. Qed.
Lemma le_bytes_value_n n l : length l = n -> le_bytes n (le_value l) = l.
Proof. intros <-. apply le_bytes_value. Qed.

Lemma be_value_bytes_small n w z :
  w = 8 * Z.of_nat n -> in_range w z -> be_value (be_bytes n z) = z.
Proof.
  intros -> [? ?]. rewrite be_value_bytes. apply Z.mod_small.
  rewrite Z.pow_mul_r in * by lia. done.
Qed.
Lemma le_value_bytes_small n w z :
  w = 8 * Z.of_nat n -> in_range w z -> le_value (le_bytes n z) = z.
Proof.
  intros -> [? ?]. rewrite le_value_bytes. apply Z.mod_small.
  rewrite Z.pow_mul_r in * by lia. done.
Qed.
Lemma be_value_in_range n w l :
  w = 8 * Z.of_nat n -> length l = n -> in_range w (be_value l).
Proof.
  intros -> <-. pose proof (be_value_range l). unfold in_range.
  by rewrite Z.pow_mul_r by lia.
Qed.
Lemma le_value_in_range n w l :
  w = 8 * Z.of_nat n -> length l = n -> in_range w (le_value l).
Proof.
  intros -> <-. pose proof (le_value_range l). unfold in_range.
  by rewrite Z.pow_mul_r by lia.
Qed.

Lemma le_bytes_add n g z :
  le_bytes (n + g) z = le_bytes n z ++ le_bytes g (z / 256 ^ Z.of_nat n).
Proof.
  revert z. induction n as [|n IH]; intros z; [by rewrite Z.div_1_r|].
  simpl. by rewrite IH, pow256_S, Z.div_div by lia.
Qed.
Lemma le_bytes_zero n : le_bytes n 0 = replicate n x00.
Proof.
  induction n as [|n IH]; [done|].
  change (z2b 0 :: le_bytes n 0 = x00 :: replicate n x00). by rewrite IH.
Qed.
(** A short integer on a wide field is left-padded with zeros. *)
Lemma be_bytes_pad m g n z :
  m = (g + n)%nat -> 0 <= z < 256 ^ Z.of_nat n ->
  be_bytes m z = replicate g x00 ++ be_bytes n z.
Proof.
  intros -> ?. unfold be_bytes. rewrite Nat.add_comm, le_bytes_add, reverse_app.
  by rewrite Z.div_small, le_bytes_zero, reverse_replicate.
Qed.

(** ** Slices *)

Definition zlen {A} (l : list A) : Z := Z.of_nat (length l).

(** [l[lo:hi]], with Go's bounds check. *)
Definition slice {A} (l : list A) (lo hi : Z) : res (list A) :=
  if (0 <=? lo) && (lo <=? hi) && (hi <=? zlen l)
  then Ok (take (Z.to_nat (hi - lo)) (drop (Z.to_nat lo) l))
  else Panic.

(** [l[i]] *)
Definition index {A} (l : list A) (i : Z) : res A :=
  if 0 <=? i then
    match l !! Z.to_nat i with Some x => Ok x | None => Panic end
  else Panic.

(** [copy(buf[lo:hi], src)]: the updated buffer. *)
Definition blit {A} (buf : list A) (lo hi : Z) (src : list A) : res (list A) :=
  if (0 <=? lo) && (lo <=? hi) && (hi <=? zlen buf) then
    let s := take (Z.to_nat (hi - lo)) src in
    Ok (take (Z.to_nat lo) buf ++ s ++ drop (Z.to_nat lo + length s) buf)
  else Panic.

Lemma slice_ok {A} (l : list A) lo hi :
  0 <= lo <= hi -> hi <= zlen l ->
  slice l lo hi = Ok (take (Z.to_nat (hi - lo)) (drop (Z.to_nat lo) l)).
Proof. intros. unfold slice. by rewrite !(proj2 (Z.leb_le _ _)) by lia. Qed.

Lemma slice_panic {A} (l : list A) lo hi : hi < lo -> slice l lo hi = Panic.
Proof. intros. unfold slice. rewrite (proj2 (Z.leb_gt lo hi)) by lia. by rewrite andb_false_r. Qed.

Lemma slice_app {A} (pre mid post : list A) lo hi :
  lo = zlen pre -> hi = zlen pre + zlen mid ->
  slice (pre ++ mid ++ post) lo hi = Ok mid.
Proof.
  intros -> ->. rewrite slice_ok by (unfold zlen; rewrite ?length_app; lia).
  f_equal. unfold zlen. rewrite Nat2Z.id, drop_app_length.
  replace (Z.to_nat _) with (length mid) by lia. by rewrite take_app_length.
Qed.

Lemma slice_length {A} (l s : list A) lo hi :
  slice l lo hi = Ok s -> zlen s = hi - lo /\ 0 <= lo <= hi /\ hi <= zlen l.
Proof.
  unfold slice. case_match eqn:E; [|done]. intros [= <-].
  unfold zlen in *. rewrite length_take, length_drop. lia.
Qed.

Lemma slice_no_panic {A} (l : list A) lo hi :
  0 <= lo <= hi -> hi <= zlen l -> exists s, slice l lo hi = Ok s /\ zlen s = hi - lo.
Proof.
  intros H1 H2. rewrite slice_ok by done. eexists; split; [done|].
  unfold zlen in *. rewrite length_take, length_drop. lia.
Qed.

(** Cuts the first [n] elements off a suffix. *)
Lemma drop_cut {A} (l : list A) (i n j : nat) :
  j = (i + n)%nat -> drop i l = take n (drop i l) ++ drop j l.
Proof. intros ->. by rewrite <-drop_drop, take_drop. Qed.

Lemma blit_app {A} (pre rest src : list A) lo hi :
  lo = zlen pre -> hi = lo + zlen src -> zlen src <= zlen rest ->
  blit (pre ++ rest) lo hi src = Ok ((pre ++ src) ++ drop (length src) rest).
Proof.
  intros -> -> ?. unfold blit, zlen in *. rewrite length_app.
  rewrite !(proj2 (Z.leb_le _ _)) by lia. cbn [andb]. f_equal.
  rewrite Nat2Z.id, take_app_length.
  rewrite take_ge by lia. rewrite drop_app_add.
  by rewrite <-app_assoc.
Qed.

Lemma filter_all {A} (P : A -> Prop) `{forall x, Decision (P x)} l : Forall P l -> filter P l = l.
Proof. induction 1 as [|x l ? _ IH]; [done|]. by rewrite filter_cons_True, IH. Qed.
Lemma filter_none {A} (P : A -> Prop) `{forall x, Decision (P x)} l :
  Forall (fun x => ~ P x) l -> filter P l = [].
Proof. induction 1 as [|x l ? _ IH]; [done|]. by rewrite filter_cons_False. Qed.


Lemma zlen_app {A} (l1 l2 : list A) : zlen (l1 ++ l2) = zlen l1 + zlen l2.
Proof. unfold zlen. rewrite length_app. lia. Qed.
Lemma zlen_nonneg {A} (l : list A) : 0 <= zlen l.
Proof. unfold zlen. lia. Qed.
Lemma zlen_cons {A} (x : A) l : zlen (x :: l) = 1 + zlen l.
Proof. unfold zlen. simpl. lia. Qed.
Lemma zlen_be_bytes n z : zlen (be_bytes n z) = Z.of_nat n.
Proof. unfold zlen. by rewrite length_be_bytes. Qed.
Lemma zlen_le_bytes n z : zlen (le_bytes n z) = Z.of_nat n.
Proof. unfold zlen. by rewrite length_le_bytes. Qed.

Lemma blit_replicate {A} (pre src : list A) (x : A) (k g : nat) lo hi :
  lo = zlen pre + Z.of_nat g -> hi = lo + zlen src ->
  (g + length src <= k)%nat ->
  blit (pre ++ replicate k x) lo hi src =
    Ok ((pre ++ replicate g x ++ src) ++ replicate (k - g - length src) x).
Proof.
  intros -> -> ?. unfold zlen.
  replace k with (g + (k - g))%nat at 1 by lia.
  rewrite replicate_add, app_assoc, (app_assoc pre).
  rewrite blit_app; unfold zlen; rewrite ?length_app, ?length_replicate; try lia.
  by rewrite drop_replicate.
Qed.

(** ** [encoding/binary] and [math/big] *)

(** [binary.BigEndian.PutUint64(buf[lo:hi], v)] *)
Definition put_be64 (buf : list byte) (lo hi : Z) (v : uint64) : res (list byte) :=
  if hi - lo <? 8 then Panic else blit buf lo hi (be_bytes 8 v).
(** [binary.BigEndian.Uint64(s)] *)
Definition get_be64 (s : list byte) : res uint64 :=
  if zlen s <? 8 then Panic else Ok (be_value (take 8 s)).
(** [binary.LittleEndian.PutUint64(buf[lo:hi], v)], and for 32 bits *)
Definition put_le64 (buf : list byte) (lo hi : Z) (v : uint64) : res (list byte) :=
  if hi - lo <? 8 then Panic else blit buf lo hi (le_bytes 8 v).
Definition put_le32 (buf : list byte) (lo hi : Z) (v : uint32) : res (list byte) :=
  if hi - lo <? 4 then Panic else blit buf lo hi (le_bytes 4 v).
(** [binary.LittleEndian.Uint64(s)], and for 32 bits *)
Definition get_le64 (s : list byte) : res uint64 :=
  if zlen s <? 8 then Panic else Ok (le_value (take 8 s)).
Definition get_le32 (s : list byte) : res uint32 :=
  if zlen s <? 4 then Panic else Ok (le_value (take 4 s)).
(** [z.FillBytes(buf)] for a buffer of [n] bytes: panics when [z] does not fit. *)
Definition fill_bytes (n : nat) (z : bigInt) : res (list byte) :=
  if Z.abs z <? 256 ^ Z.of_nat n then Ok (be_bytes n (Z.abs z)) else Panic.

Lemma put_be64_replicate (pre : list byte) k g lo hi v :
  lo = zlen pre + Z.of_nat g -> hi = lo + 8 -> (g + 8 <= k)%nat ->
  put_be64 (pre ++ replicate k x00) lo hi v =
    Ok ((pre ++ replicate g x00 ++ be_bytes 8 v) ++ replicate (k - g - 8) x00).
Proof.
  intros ? -> ?. unfold put_be64. case_match; [lia|].
  rewrite (blit_replicate _ _ _ _ g); rewrite ?zlen_be_bytes, ?length_be_bytes; done.
Qed.
Lemma get_be64_ok s v : zlen s = 8 -> be_value s = v -> get_be64 s = Ok v.
Proof.
  unfold get_be64, zlen. intros E <-. case_match; [lia|].
  by rewrite take_ge by lia.
Qed.
Lemma fill_bytes_small n z :
  0 <= z < 256 ^ Z.of_nat n -> fill_bytes n z = Ok (be_bytes n z).
Proof.
  intros ?. unfold fill_bytes. rewrite Z.abs_eq by lia. case_match; [done|lia].
Qed.

(** ** The hash function of go-ethereum's crypto package *)
Class Keccak := {
  Keccak256 : list byte -> Hash;
  Keccak256_range : forall l, in_range 256 (Keccak256 l);
}.

(** A concrete instance, for the witnesses only. *)
Definition toy_keccak (l : list byte) : Hash :=
  wrap 256 (foldl (fun h b => h * 257 + b2z b + 1) 7 l).
Lemma toy_keccak_range l : in_range 256 (toy_keccak l).
Proof. by apply wrap_range. Qed.
Definition ToyKeccak : Keccak := {|
  Keccak256 := toy_keccak; Keccak256_range := toy_keccak_range |}.

(** ** Automation *)
Create HintDb go.
Create Rewrite HintDb go.
#[export] Hint Rewrite @zlen_app @zlen_cons zlen_be_bytes zlen_le_bytes
  length_be_bytes length_le_bytes @length_app @length_take @length_drop @length_replicate : go.
(** Closes a goal about the lengths of concatenations. *)
Ltac len := unfold zlen in *; autorewrite with go in *; simpl length in *; try lia.
#[export] Hint Resolve wrap_range wrap_small zlen_nonneg : go.

(** [copy] into a longer slice *)
Lemma blit_short {A} (pre rest src : list A) lo hi :
  lo = zlen pre -> lo + zlen src <= hi -> hi <= lo + zlen rest ->
  blit (pre ++ rest) lo hi src = Ok (pre ++ src ++ drop (length src) rest).
Proof.
  intros -> ? ?. pose proof (zlen_nonneg pre). pose proof (zlen_nonneg src). unfold blit.
  rewrite !(proj2 (Z.leb_le _ _)) by (rewrite ?zlen_app; lia). cbn [andb]. f_equal.
  rewrite (take_ge src) by len. unfold zlen. by rewrite Nat2Z.id, take_app_length, drop_app_add.
Qed.

(** Evaluates the ground slice bounds [Z.to_nat c]. *)
Ltac nat_consts :=
  repeat match goal with
  | |- context [Z.to_nat ?z] =>
      let n := eval vm_compute in (Z.to_nat z) in
      let b := eval vm_compute in (Nat.leb n 0) in
      lazymatch b with true => idtac | false => idtac end;
      change (Z.to_nat z) with n
  end.

(** Evaluates the ground machine additions [c1 +64 c2]. *)
Ltac wrap_consts :=
  repeat match goal with
  | |- context [wrap 64 (?a + ?b)] =>
      let v := eval vm_compute in (wrap 64 (a + b)) in
      lazymatch v with Z0 => idtac | Zpos _ => idtac end;
      change (wrap 64 (a + b)) with v
  end.

(** Runs through a [res] computation known to succeed. *)
Lemma res_bind_ok {A B} (f : A -> res B) (r : res A) b :
  r ≫= f = Ok b <-> exists a, r = Ok a /\ f a = Ok b.
Proof.
  split.
  - destruct r; simpl; try done. eauto.
  - by intros (a & -> & ?).
Qed.
Lemma Ok_inj {A} (a b : A) : Ok a = Ok b -> a = b.
Proof. congruence. Qed.
Lemma fail_if_ok b e u : fail_if b e = Ok u <-> b = false.
Proof. destruct u, b; simpl; split; done. Qed.
Lemma panic_if_ok b u : panic_if b = Ok u <-> b = false.
Proof. destruct u, b; simpl; split; done. Qed.
Lemma map_err_ok {A} f (r : res A) a : map_err f r = Ok a <-> r = Ok a.
Proof. destruct r; simpl; split; congruence. Qed.

Ltac go_inv1 :=
  match goal with
  | H : _ ≫= _ = Ok _ |- _ => apply res_bind_ok in H as (? & ? & H)
  | H : mret _ = Ok _ |- _ => injection H as ?; subst
  | H : Ok _ = Ok _ |- _ => injection H as ?; subst
  | H : Err _ = Ok _ |- _ => discriminate H
  | H : Panic = Ok _ |- _ => discriminate H
  | H : OutOfFuel = Ok _ |- _ => discriminate H
  | H : fail_if _ _ = Ok _ |- _ => apply fail_if_ok in H
  | H : panic_if _ = Ok _ |- _ => apply panic_if_ok in H
  | H : map_err _ _ = Ok _ |- _ => apply map_err_ok in H
  end.
Ltac go_inv := repeat go_inv1.

Lemma res_bind_returns {A B} (f : A -> res B) (r : res A) :
  returns r = true -> (forall a, r = Ok a -> returns (f a) = true) ->
  returns (r ≫= f) = true.
Proof. destruct r; simpl; auto. Qed.
Lemma M_bind_ok {W A B} (f : A -> M W B) (c : M W A) w b w' :
  (c ≫= f) w = (Ok b, w') <-> exists a w1, c w = (Ok a, w1) /\ f a w1 = (Ok b, w').
Proof.
  unfold mbind, M_bind. destruct (c w) as [[a|e| |] w1] eqn:E; split.
  all: try (intros; simplify_eq; done).
  all: try (intros (? & ? & ? & ?); simplify_eq; done).
  eauto.
Qed.
Lemma M_err_ok {W A} f (c : M W A) w a w' :
  M_err f c w = (Ok a, w') <-> c w = (Ok a, w').
Proof.
  unfold M_err. destruct (c w) as [[]]; simpl; split; intros; simplify_eq; done.
Qed.
Lemma lift_ok {W A} (r : res A) (w w' : W) a :
  lift r w = (Ok a, w') <-> r = Ok a /\ w = w'.
Proof. unfold lift. split; [intros [= -> ->]; done|]. by intros [-> ->]. Qed.

(** *** World invariants: [I] holds after the computation, whatever its result. *)
Definition preserves {W A} (I : W -> Prop) (c : M W A) : Prop := forall w, I w -> I (c w).2.

Lemma preserves_run {W A} (I : W -> Prop) (c : M W A) w r w' :
  preserves I c -> I w -> c w = (r, w') -> I w'.
Proof. intros Hc Hw E. specialize (Hc w Hw). by rewrite E in Hc. Qed.

Lemma preserves_bind {W A B} (I : W -> Prop) (c : M W A) (f : A -> M W B) :
  preserves I c -> (forall a, preserves I (f a)) -> preserves I (c ≫= f).
Proof.
  intros Hc Hf w Hw. unfold mbind, M_bind. specialize (Hc w Hw).
  destruct (c w) as [[a|e| |] w']; [apply Hf|..]; exact Hc.
Qed.
Lemma preserves_ret {W A} (I : W -> Prop) (a : A) : preserves I (mret a).
Proof. by intros w. Qed.
Lemma preserves_lift {W A} (I : W -> Prop) (r : res A) : preserves I (lift r).
Proof. by intros w. Qed.
Lemma preserves_throw {W A} (I : W -> Prop) e : preserves I (throw (A:=A) e).
Proof. by intros w. Qed.
Lemma preserves_M_err {W A} (I : W -> Prop) f (c : M W A) : preserves I c -> preserves I (M_err f c).
Proof. intros Hc w Hw. unfold M_err. specialize (Hc w Hw). by destruct (c w). Qed.
Lemma preserves_attempt {W A} (I : W -> Prop) (c : M W A) : preserves I c -> preserves I (attempt c).
Proof. intros Hc w Hw. unfold attempt. specialize (Hc w Hw). by destruct (c w) as [[]]. Qed.
(** Walks through a computation down to the calls of the interfaces. *)
Ltac preserves_step :=
  match goal with
  | |- preserves _ (_ ≫= _) => apply preserves_bind; [|intros ?]
  | |- preserves _ (mret _) => apply preserves_ret
  | |- preserves _ (lift _) => apply preserves_lift
  | |- preserves _ (throw _) => apply preserves_throw
  | |- preserves _ (M_err _ _) => apply preserves_M_err
  | |- preserves _ (attempt _) => apply preserves_attempt
  | |- preserves _ (let '(_, _) := ?p in _) => destruct p
  | |- preserves _ (if ?b then _ else _) => destruct b
  | |- preserves _ (match ?x with _ => _ end) => destruct x
  end.
Ltac preserves_tac := repeat (preserves_step; cbv beta zeta); auto.

(** *** Invariant and result: [I] holds afterwards, and what is returned satisfies [Q]. *)
Definition keeps {W A} (I : W -> Prop) (c : M W A) (Q : A -> Prop) : Prop :=
  forall w, I w -> I (c w).2 /\ forall a, (c w).1 = Ok a -> Q a.

Lemma keeps_bind {W A B} (I : W -> Prop) (c : M W A) (Q : A -> Prop) (f : A -> M W B) R :
  keeps I c Q -> (forall a, Q a -> keeps I (f a) R) -> keeps I (c ≫= f) R.
Proof.
  intros Hc Hf w Hw. unfold mbind, M_bind. destruct (Hc w Hw) as [H1 H2].
  destruct (c w) as [[a|e| |] w']; cbn in *; [by apply (Hf a (H2 _ eq_refl))|split; done..].
Qed.
Lemma keeps_ret {W A} (I : W -> Prop) (a : A) (Q : A -> Prop) : Q a -> keeps I (mret a) Q.
Proof. intros Ha w Hw. split; [done|]. by intros ? [= <-]. Qed.
Lemma keeps_lift {W A} (I : W -> Prop) (r : res A) (Q : A -> Prop) :
  (forall a, r = Ok a -> Q a) -> keeps I (lift r) Q.
Proof. intros Hr w Hw. by split. Qed.
Lemma keeps_throw {W A} (I : W -> Prop) e (Q : A -> Prop) : keeps I (throw e) Q.
Proof. intros w Hw. by split. Qed.
Lemma keeps_M_err {W A} (I : W -> Prop) f (c : M W A) Q : keeps I c Q -> keeps I (M_err f c) Q.
Proof.
  intros Hc w Hw. unfold M_err. destruct (Hc w Hw) as [H1 H2].
  destruct (c w) as [r w']. cbn in *. split; [done|]. intros a E. apply H2. by destruct r.
Qed.
Lemma keeps_weaken {W A} (I : W -> Prop) (c : M W A) (Q R : A -> Prop) :
  keeps I c Q -> (forall a, Q a -> R a) -> keeps I c R.
Proof. intros Hc HQ w Hw. destruct (Hc w Hw). auto. Qed.
Lemma keeps_post {W A} (I : W -> Prop) (c : M W A) (Q R : A -> Prop) :
  keeps I c Q -> (forall w a w', c w = (Ok a, w') -> R a) -> keeps I c (fun a => Q a /\ R a).
Proof.
  intros Hc HR w Hw. destruct (Hc w Hw) as [H1 H2]. split; [done|]. intros a Ha. split; [by apply H2|].
  apply (HR w a (c w).2). rewrite <-Ha. by destruct (c w).
Qed.
Lemma keeps_preserves {W A} (I : W -> Prop) (c : M W A) : preserves I c -> keeps I c (fun _ => True).
Proof. intros Hc w Hw. auto. Qed.
Lemma keeps_attempt {A S} (J : S -> Prop) (c : M S A) (Q : A -> Prop) :
  keeps J c Q -> keeps J (attempt c) (fun r => forall a, r = inr a -> Q a).
Proof.
  intros Hc w Hw. destruct (Hc w Hw) as [H1' H2']. unfold attempt.
  destruct (c w) as [[a|e| |] w']; cbn in *; split; try done.
  - intros r [= <-] b [= <-]. by apply H2'.
  - by intros r [= <-].
Qed.
(** What is returned was answered in some world. *)
Lemma keeps_answer {W A} (I : W -> Prop) (c : M W A) :
  preserves I c -> keeps I c (fun a => exists w w', c w = (Ok a, w')).
Proof.
  intros Hc w Hw. split; [by apply Hc|]. intros a E. exists w, (c w).2.
  by destruct (c w) as [r w']; cbn in *; subst r.
Qed.
Lemma keeps_call {S W A} (I : S * W -> Prop) (c : M W A) :
  (forall s w w', I (s, w) -> I (s, w')) -> keeps I (call c) (fun _ => True).
Proof. intros HI [s w] Hw. unfold call. cbn. destruct (c w). eauto. Qed.

(** *** A computation that returns, with a value or an error, from any world. *)
Definition M_returns {W A} (c : M W A) : Prop := forall w, returns (c w).1 = true.

Lemma M_returns_bind {W A B} (c : M W A) (f : A -> M W B) :
  M_returns c -> (forall a w w', c w = (Ok a, w') -> returns (f a w').1 = true) -> M_returns (c ≫= f).
Proof.
  intros Hc Hf w. unfold mbind, M_bind. specialize (Hc w).
  destruct (c w) as [[a|e| |] w'] eqn:E; cbn in *; [by eapply Hf|done..].
Qed.
Lemma M_returns_lift {W A} (r : res A) : returns r = true -> M_returns (W:=W) (lift r).
Proof. by intros Hr w. Qed.
Lemma M_returns_M_err {W A} f (c : M W A) : M_returns c -> M_returns (M_err f c).
Proof. intros Hc w. specialize (Hc w). unfold M_err. by destruct (c w) as [[]]. Qed.
Lemma M_returns_attempt {W A} (c : M W A) : M_returns c -> M_returns (attempt c).
Proof. intros Hc w. specialize (Hc w). unfold attempt. by destruct (c w) as [[]]. Qed.
Lemma map_err_returns {A} f (r : res A) : returns r = true -> returns (map_err f r) = true.
Proof. by destruct r. Qed.

(** *** Weakest preconditions over every outcome: the result, an error or a panic *)
Definition wp {W A} (c : M W A) (Q : res A -> W -> Prop) (w : W) : Prop := Q (c w).1 (c w).2.

Lemma wp_bind {W A B} (c : M W A) (f : A -> M W B) Q w :
  wp c (fun r w' => match r with
    | Ok a => wp (f a) Q w' | Err e => Q (Err e) w' | Panic => Q Panic w' | OutOfFuel => Q OutOfFuel w'
    end) w -> wp (c ≫= f) Q w.
Proof. unfold wp, mbind, M_bind. by destruct (c w) as [[]]. Qed.
Lemma wp_ret {W A} (a : A) Q (w : W) : Q (Ok a) w -> wp (mret a) Q w.
Proof. done. Qed.
Lemma wp_throw {W A} e Q (w : W) : Q (@Err A e) w -> wp (throw e) Q w.
Proof. done. Qed.
Lemma wp_lift {W A} (r : res A) Q (w : W) : Q r w -> wp (lift r) Q w.
Proof. done. Qed.
Lemma wp_get {S W} Q (sw : S * W) : Q (Ok sw.1) sw -> wp get Q sw.
Proof. done. Qed.
Lemma wp_modify {S W} (f : S -> S) Q (s : S) (w : W) : Q (Ok tt) (f s, w) -> wp (modify f) Q (s, w).
Proof. done. Qed.
Lemma wp_call {S W A} (c : M W A) Q (s : S) (w : W) : wp c (fun r w' => Q r (s, w')) w -> wp (call c) Q (s, w).
Proof. unfold wp, call. cbn. by destruct (c w). Qed.
Lemma wp_M_err {W A} f (c : M W A) Q (w : W) : wp c (fun r w' => Q (map_err f r) w') w -> wp (M_err f c) Q w.
Proof. unfold wp, M_err. by destruct (c w). Qed.
Lemma wp_attempt {W A} (c : M W A) Q (w : W) :
  wp c (fun r w' => match r with
    | Ok a => Q (Ok (inr a)) w' | Err e => Q (Ok (inl e)) w' | Panic => Q Panic w' | OutOfFuel => Q OutOfFuel w'
    end) w -> wp (attempt c) Q w.
Proof. unfold wp, attempt. by destruct (c w) as [[]]. Qed.
Lemma wp_mono {W A} (c : M W A) (Q R : res A -> W -> Prop) w :
  wp c Q w -> (forall r w', Q r w' -> R r w') -> wp c R w.
Proof. unfold wp. auto. Qed.

Ltac wp_step :=
  match goal with
  | |- wp (_ ≫= _) _ _ => apply wp_bind
  | |- wp (mret _) _ _ => apply wp_ret
  | |- wp (throw _) _ _ => apply wp_throw
  | |- wp (lift _) _ _ => apply wp_lift
  | |- wp get _ _ => apply wp_get
  | |- wp (modify _) _ (_, _) => apply wp_modify
  | |- wp (call _) _ (_, _) => apply wp_call
  | |- wp (M_err _ _) _ _ => apply wp_M_err
  | |- wp (attempt _) _ _ => apply wp_attempt
  end.

Ltac m_inv1 :=
  match goal with
  | H : (_ ≫= _) _ = (Ok _, _) |- _ => apply M_bind_ok in H as (? & ? & ? & H)
  | H : M_err _ _ _ = (Ok _, _) |- _ => apply M_err_ok in H
  | H : lift _ _ = (Ok _, _) |- _ => apply lift_ok in H as [? ?]; subst
  | H : throw _ _ = (Ok _, _) |- _ => discriminate H
  | H : mret _ _ = (Ok _, _) |- _ => injection H as ? ?; subst
  | _ => go_inv1
  end.
Ltac m_inv := repeat m_inv1.

#[global] Arguments be_bytes : simpl never.
#[global] Arguments be_value : simpl never.
#[global] Arguments le_bytes : simpl never.
#[global] Arguments le_value : simpl never.
#[global] Arguments wrap : simpl never.
