(* ===== verification/Flags.v ===== *)
(** * The flags of the programs

    op-node/flags, op-batcher/flags and op-proposer/flags: what each program declares to
    the command line library (urfave/cli, a parameter), and what that library promises for
    declared flags.  Help texts are left out, and [Hidden] and [TakesFile], which only
    concern the help and shell completion. *)

From S2P Require Import Prelude.
From stdpp Require Import strings.
#[local] Open Scope Z_scope.

(** ** urfave/cli *)

(** A value of a flag, by the type of flag; durations in nanoseconds *)
Inductive FlagValue :=
  | VString (s : string)
  | VBool (b : bool)
  | VInt (n : Z)
  | VUint (n : uint64)
  | VUint64 (n : uint64)
  | VDuration (d : Z)
  | VStringSlice (l : list string).
Record Flag := mkFlag {
  flag_Name : string;
  flag_Required : bool;
  flag_Value : FlagValue;       (* the default; the zero value where the source gives none *)
  flag_EnvVar : string;
}.
(** [cli.Context] *)
Record cliContext := mkCli {
  GlobalString : string -> string;
  GlobalBool : string -> bool;
  GlobalInt : string -> Z;
  GlobalUint : string -> uint64;
  GlobalUint64 : string -> uint64;
  GlobalDuration : string -> Z;
  GlobalStringSlice : string -> list string;
  IsSet : string -> bool;
}.
(** The getter for the type of [v] reads [v]. *)
Definition reads (ctx : cliContext) (name : string) (v : FlagValue) : Prop :=
  match v with
  | VString s => GlobalString ctx name = s
  | VBool b => GlobalBool ctx name = b
  | VInt n => GlobalInt ctx name = n
  | VUint n => GlobalUint ctx name = n
  | VUint64 n => GlobalUint64 ctx name = n
  | VDuration d => GlobalDuration ctx name = d
  | VStringSlice l => GlobalStringSlice ctx name = l
  end.

(** Both are values of the same type of flag. *)
Definition same_type (v v' : FlagValue) : bool :=
  match v, v' with
  | VString _, VString _ | VBool _, VBool _ | VInt _, VInt _ | VUint _, VUint _ | VUint64 _, VUint64 _
  | VDuration _, VDuration _ | VStringSlice _, VStringSlice _ => true
  | _, _ => false
  end.

(** The arguments and environment of a run of a program; [app_Run] is [App.Run] up to the
    call of the action, with the context that the action gets. *)
Class CLI := {
  Invocation : Type;
  argument : Invocation -> Flag -> option (res FlagValue);    (* the flag's, if given *)
  getenv : Invocation -> string -> option string;
  parse_env : FlagValue -> string -> res FlagValue;           (* for the type of the value *)
  app_Run : list Flag -> Invocation -> res cliContext;
}.
(** What is given for a flag: its argument or else its environment variable *)
Definition setting `{CLI} (inv : Invocation) (f : Flag) : option (res FlagValue) :=
  match argument inv f with
  | Some r => Some r
  | None => parse_env (flag_Value f) <$> getenv inv (flag_EnvVar f)
  end.
(** The documented behaviour: the action runs only if every setting is one of its flag's
    type and every required flag has one; a flag without a setting has its default. *)
Class CLILaws `{CLI} := {
  parse_env_string : forall d s, parse_env (VString d) s = Ok (VString s);
  app_Run_reads : forall flags inv ctx f, NoDup (flag_Name <$> flags) ->
    app_Run flags inv = Ok ctx -> f ∈ flags ->
    match setting inv f with
    | Some r => exists v, r = Ok v /\ same_type (flag_Value f) v = true /\ reads ctx (flag_Name f) v
    | None => flag_Required f = false /\ reads ctx (flag_Name f) (flag_Value f)
    end;
  app_Run_IsSet : forall flags inv ctx f, NoDup (flag_Name <$> flags) ->
    app_Run flags inv = Ok ctx -> f ∈ flags ->
    IsSet ctx (flag_Name f) = bool_decide (is_Some (setting inv f));
  app_Run_uint : forall flags inv ctx name, app_Run flags inv = Ok ctx -> in_range 64 (GlobalUint ctx name);
}.

(** ** op-node/flags *)
Module OpNode.
Definition envVarPrefix : string := "ROLLUP_NODE_".
Definition prefixEnvVar (name : string) : string := envVarPrefix +:+ name.
Definition p2pEnv (v : string) : string := prefixEnvVar ("P2P_" +:+ v).

(** flags.go *)
Definition L1NodeAddr : Flag :=
  mkFlag "l1" true (VString "http://127.0.0.1:8545") (prefixEnvVar "L1_ETH_RPC").
Definition L2EngineAddrs : Flag := mkFlag "l2" true (VStringSlice []) (prefixEnvVar "L2_ENGINE_RPC").
Definition RollupConfig : Flag :=
  mkFlag "rollup.config" true (VString EmptyString) (prefixEnvVar "ROLLUP_CONFIG").
Definition L2EthNodeAddr : Flag := mkFlag "l2.eth" true (VString EmptyString) (prefixEnvVar "L2_ETH_RPC").
Definition RPCListenAddr : Flag := mkFlag "rpc.addr" true (VString EmptyString) (prefixEnvVar "RPC_ADDR").
Definition RPCListenPort : Flag := mkFlag "rpc.port" true (VInt 0) (prefixEnvVar "RPC_PORT").
Definition L1TrustRPC : Flag := mkFlag "l1.trustrpc" false (VBool false) (prefixEnvVar "L1_TRUST_RPC").
Definition SequencingEnabledFlag : Flag :=
  mkFlag "sequencing.enabled" false (VBool false) (prefixEnvVar "SEQUENCING_ENABLED").
Definition LogLevelFlag : Flag := mkFlag "log.level" false (VString "info") (prefixEnvVar "LOG_LEVEL").
Definition LogFormatFlag : Flag := mkFlag "log.format" false (VString "text") (prefixEnvVar "LOG_FORMAT").
Definition LogColorFlag : Flag := mkFlag "log.color" false (VBool false) (prefixEnvVar "LOG_COLOR").
Definition SnapshotLog : Flag :=
  mkFlag "snapshotlog.file" false (VString EmptyString) (prefixEnvVar "SNAPSHOT_LOG").

(** p2p_flags.go *)
Definition DisableP2P : Flag := mkFlag "p2p.disable" false (VBool false) (p2pEnv "DISABLE").
Definition NoDiscovery : Flag := mkFlag "p2p.no-discovery" false (VBool false) (p2pEnv "NO_DISCOVERY").
Definition P2PPrivPath : Flag :=
  mkFlag "p2p.priv.path" false (VString "opnode_p2p_priv.txt") (p2pEnv "PRIV_PATH").
Definition P2PPrivRaw : Flag := mkFlag "p2p.priv.raw" false (VString EmptyString) (p2pEnv "PRIV_RAW").
Definition ListenIP : Flag := mkFlag "p2p.listen.ip" false (VString "0.0.0.0") (p2pEnv "LISTEN_IP").
Definition ListenTCPPort : Flag := mkFlag "p2p.listen.tcp" false (VUint 9222) (p2pEnv "LISTEN_TCP_PORT").
Definition ListenUDPPort : Flag := mkFlag "p2p.listen.udp" false (VUint 0) (p2pEnv "LISTEN_UDP_PORT").
Definition AdvertiseIP : Flag :=
  mkFlag "p2p.advertise.ip" false (VString EmptyString) (p2pEnv "ADVERTISE_IP").
Definition AdvertiseTCPPort : Flag := mkFlag "p2p.advertise.tcp" false (VUint 0) (p2pEnv "ADVERTISE_TCP").
Definition AdvertiseUDPPort : Flag := mkFlag "p2p.advertise.udp" false (VUint 0) (p2pEnv "ADVERTISE_TCP").
Definition Bootnodes : Flag := mkFlag "p2p.bootnodes" false (VString EmptyString) (p2pEnv "BOOTNODES").
Definition StaticPeers : Flag := mkFlag "p2p.static" false (VString EmptyString) (p2pEnv "BOOTNODES").
Definition HostMux : Flag := mkFlag "p2p.mux" false (VString "yamux,mplex") (p2pEnv "MUX").
Definition HostSecurity : Flag := mkFlag "p2p.security" false (VString "noise") (p2pEnv "SECURITY").
Definition PeersLo : Flag := mkFlag "p2p.peers.lo" false (VUint 20) (p2pEnv "PEERS_LO").
Definition PeersHi : Flag := mkFlag "p2p.peers.hi" false (VUint 30) (p2pEnv "PEERS_HI").
Definition PeersGrace : Flag :=
  mkFlag "p2p.peers.grace" false (VDuration (30 * time_Second)) (p2pEnv "PEERS_GRACE").
Definition NAT : Flag := mkFlag "p2p.nat" false (VBool false) (p2pEnv "NAT").
Definition UserAgent : Flag := mkFlag "p2p.useragent" false (VString "optimism") (p2pEnv "AGENT").
Definition TimeoutNegotiation : Flag :=
  mkFlag "p2p.timeout.negotiation" false (VDuration (10 * time_Second)) (p2pEnv "TIMEOUT_NEGOTIATION").
Definition TimeoutAccept : Flag :=
  mkFlag "p2p.timeout.accept" false (VDuration (10 * time_Second)) (p2pEnv "TIMEOUT_ACCEPT").
Definition TimeoutDial : Flag :=
  mkFlag "p2p.timeout.dial" false (VDuration (10 * time_Second)) (p2pEnv "TIMEOUT_DIAL").
Definition PeerstorePath : Flag :=
  mkFlag "p2p.peerstore.path" false (VString "opnode_peerstore_db") (p2pEnv "PEERSTORE_PATH").
Definition DiscoveryPath : Flag :=
  mkFlag "p2p.discovery.path" false (VString "opnode_discovery_db") (p2pEnv "DISCOVERY_PATH").
Definition SequencerP2PKeyFlag : Flag :=
  mkFlag "p2p.sequencer.key" false (VString EmptyString) (p2pEnv "SEQUENCER_KEY").

Definition p2pFlags : list Flag :=
  [DisableP2P; NoDiscovery; P2PPrivPath; P2PPrivRaw; ListenIP; ListenTCPPort; ListenUDPPort;
   AdvertiseIP; AdvertiseTCPPort; AdvertiseUDPPort; Bootnodes; StaticPeers; HostMux; HostSecurity;
   PeersLo; PeersHi; PeersGrace; NAT; UserAgent; TimeoutNegotiation; TimeoutAccept; TimeoutDial;
   PeerstorePath; DiscoveryPath; SequencerP2PKeyFlag].
Definition requiredFlags : list Flag :=
  [L1NodeAddr; L2EngineAddrs; RollupConfig; L2EthNodeAddr; RPCListenAddr; RPCListenPort].
Definition optionalFlags : list Flag :=
  [L1TrustRPC; SequencingEnabledFlag; LogLevelFlag; LogFormatFlag; LogColorFlag; SnapshotLog] ++ p2pFlags.
Definition Flags : list Flag := requiredFlags ++ optionalFlags.
End OpNode.

(** ** op-batcher/flags *)
Module OpBatcher.
Definition envVarPrefix : string := "BATCH_SUBMITTER_".
Definition prefixEnvVar (name : string) : string := envVarPrefix +:+ name.

Definition L1EthRpcFlag : Flag := mkFlag "l1-eth-rpc" true (VString EmptyString) "L1_ETH_RPC".
Definition L2EthRpcFlag : Flag := mkFlag "l2-eth-rpc" true (VString EmptyString) "L2_ETH_RPC".
Definition RollupRpcFlag : Flag := mkFlag "rollup-rpc" true (VString EmptyString) "ROLLUP_RPC".
Definition MinL1TxSizeBytesFlag : Flag :=
  mkFlag "min-l1-tx-size-bytes" true (VUint64 0) (prefixEnvVar "MIN_L1_TX_SIZE_BYTES").
Definition MaxL1TxSizeBytesFlag : Flag :=
  mkFlag "max-l1-tx-size-bytes" true (VUint64 0) (prefixEnvVar "MAX_L1_TX_SIZE_BYTES").
Definition PollIntervalFlag : Flag :=
  mkFlag "poll-interval" true (VDuration 0) (prefixEnvVar "POLL_INTERVAL").
Definition NumConfirmationsFlag : Flag :=
  mkFlag "num-confirmations" true (VUint64 0) (prefixEnvVar "NUM_CONFIRMATIONS").
Definition SafeAbortNonceTooLowCountFlag : Flag :=
  mkFlag "safe-abort-nonce-too-low-count" true (VUint64 0) (prefixEnvVar "SAFE_ABORT_NONCE_TOO_LOW_COUNT").
Definition ResubmissionTimeoutFlag : Flag :=
  mkFlag "resubmission-timeout" true (VDuration 0) (prefixEnvVar "RESUBMISSION_TIMEOUT").
Definition MnemonicFlag : Flag := mkFlag "mnemonic" true (VString EmptyString) (prefixEnvVar "MNEMONIC").
Definition SequencerHDPathFlag : Flag :=
  mkFlag "sequencer-hd-path" true (VString EmptyString) (prefixEnvVar "SEQUENCER_HD_PATH").
Definition SequencerHistoryDBFilenameFlag : Flag :=
  mkFlag "sequencer-history-db-filename" true (VString EmptyString) (prefixEnvVar "SEQUENCER_HISTORY_DB_FILENAME").
Definition SequencerGenesisHashFlag : Flag :=
  mkFlag "sequencer-genesis-hash" true (VString EmptyString) (prefixEnvVar "SEQUENCER_GENESIS_HASH").
Definition SequencerBatchInboxAddressFlag : Flag :=
  mkFlag "sequencer-batch-inbox-address" true (VString EmptyString) (prefixEnvVar "SEQUENCER_BATCH_INBOX_ADDRESS").
Definition LogLevelFlag : Flag := mkFlag "log-level" false (VString "info") (prefixEnvVar "LOG_LEVEL").
Definition LogTerminalFlag : Flag := mkFlag "log-terminal" false (VBool false) (prefixEnvVar "LOG_TERMINAL").

Definition requiredFlags : list Flag :=
  [L1EthRpcFlag; L2EthRpcFlag; RollupRpcFlag; MinL1TxSizeBytesFlag; MaxL1TxSizeBytesFlag;
   PollIntervalFlag; NumConfirmationsFlag; SafeAbortNonceTooLowCountFlag; ResubmissionTimeoutFlag;
   MnemonicFlag; SequencerHDPathFlag; SequencerHistoryDBFilenameFlag; SequencerGenesisHashFlag;
   SequencerBatchInboxAddressFlag].
Definition optionalFlags : list Flag := [LogLevelFlag; LogTerminalFlag].
Definition Flags : list Flag := requiredFlags ++ optionalFlags.
End OpBatcher.

(** ** op-proposer/flags *)
Module OpProposer.
Definition envVarPrefix : string := "OUTPUT_SUBMITTER_".
Definition prefixEnvVar (name : string) : string := envVarPrefix +:+ name.

Definition L1EthRpcFlag : Flag := mkFlag "l1-eth-rpc" true (VString EmptyString) "L1_ETH_RPC".
Definition L2EthRpcFlag : Flag := mkFlag "l2-eth-rpc" true (VString EmptyString) "L2_ETH_RPC".
Definition RollupRpcFlag : Flag := mkFlag "rollup-rpc" true (VString EmptyString) "ROLLUP_RPC".
Definition L2OOAddressFlag : Flag := mkFlag "l2oo-address" true (VString EmptyString) "L2OO_ADDRESS".
Definition PollIntervalFlag : Flag :=
  mkFlag "poll-interval" true (VDuration 0) (prefixEnvVar "POLL_INTERVAL").
Definition NumConfirmationsFlag : Flag :=
  mkFlag "num-confirmations" true (VUint64 0) (prefixEnvVar "NUM_CONFIRMATIONS").
Definition SafeAbortNonceTooLowCountFlag : Flag :=
  mkFlag "safe-abort-nonce-too-low-count" true (VUint64 0) (prefixEnvVar "SAFE_ABORT_NONCE_TOO_LOW_COUNT").
Definition ResubmissionTimeoutFlag : Flag :=
  mkFlag "resubmission-timeout" true (VDuration 0) (prefixEnvVar "RESUBMISSION_TIMEOUT").
Definition MnemonicFlag : Flag := mkFlag "mnemonic" true (VString EmptyString) (prefixEnvVar "MNEMONIC").
Definition L2OutputHDPathFlag : Flag :=
  mkFlag "l2-output-hd-path" true (VString EmptyString) (prefixEnvVar "L2_OUTPUT_HD_PATH").
Definition LogLevelFlag : Flag := mkFlag "log-level" false (VString "info") (prefixEnvVar "LOG_LEVEL").
Definition LogTerminalFlag : Flag := mkFlag "log-terminal" false (VBool false) (prefixEnvVar "LOG_TERMINAL").

Definition requiredFlags : list Flag :=
  [L1EthRpcFlag; L2EthRpcFlag; RollupRpcFlag; L2OOAddressFlag; PollIntervalFlag; NumConfirmationsFlag;
   SafeAbortNonceTooLowCountFlag; ResubmissionTimeoutFlag; MnemonicFlag; L2OutputHDPathFlag].
Definition optionalFlags : list Flag := [LogLevelFlag; LogTerminalFlag].
Definition Flags : list Flag := requiredFlags ++ optionalFlags.
End OpProposer.

(** ** Declared flags *)

#[local] Ltac decide_now := match goal with |- ?P => refine (bool_decide_unpack P _); vm_compute; exact I end.

(** No two flags of a program have the same name, so the library finds each of them. *)
Lemma names_distinct :
  NoDup (flag_Name <$> OpNode.Flags) /\ NoDup (flag_Name <$> OpBatcher.Flags) /\ NoDup (flag_Name <$> OpProposer.Flags).
Proof. split_and!; decide_now. Qed.
(** Two flags of op-node have the environment variable of another flag; the others have one
    of their own. *)
Lemma env_vars_shared :
  NoDup (flag_EnvVar <$> OpBatcher.Flags) /\ NoDup (flag_EnvVar <$> OpProposer.Flags) /\
  flag_EnvVar OpNode.AdvertiseTCPPort = flag_EnvVar OpNode.AdvertiseUDPPort /\
  flag_EnvVar OpNode.Bootnodes = flag_EnvVar OpNode.StaticPeers /\
  NoDup (flag_EnvVar <$> filter (fun f => ~ flag_Name f ∈ ["p2p.advertise.udp"; "p2p.static"]) OpNode.Flags).
Proof. split_and!; (reflexivity || decide_now). Qed.

#[export] Instance FlagValue_eq_dec : EqDecision FlagValue.
Proof. solve_decision. Defined.
#[export] Instance Flag_eq_dec : EqDecision Flag.
Proof. solve_decision. Defined.

(** Two contexts read the same for a flag. *)
Definition same_reading (ctx ctx' : cliContext) (f : Flag) : Prop :=
  let name := flag_Name f in
  IsSet ctx name = IsSet ctx' name /\
  match flag_Value f with
  | VString _ => GlobalString ctx name = GlobalString ctx' name
  | VBool _ => GlobalBool ctx name = GlobalBool ctx' name
  | VInt _ => GlobalInt ctx name = GlobalInt ctx' name
  | VUint _ => GlobalUint ctx name = GlobalUint ctx' name
  | VUint64 _ => GlobalUint64 ctx name = GlobalUint64 ctx' name
  | VDuration _ => GlobalDuration ctx name = GlobalDuration ctx' name
  | VStringSlice _ => GlobalStringSlice ctx name = GlobalStringSlice ctx' name
  end.

(** [rewrite_readings H]: what [ctx] reads for declared flags is what [ctx'] reads, by [H]
    that all of them read the same. *)
Ltac rewrite_readings ctx ctx' Hs :=
  let mem f l := constr:(bool_decide_unpack (f ∈ l) ltac:(vm_compute; exact I)) in
  let flags := lazymatch type of Hs with Forall _ ?l => l end in
  repeat match goal with
  | |- context [IsSet ctx (flag_Name ?f)] =>
      let m := mem f flags in
      rewrite (proj1 (proj1 (Forall_forall _ _) Hs f m) : IsSet ctx (flag_Name f) = IsSet ctx' (flag_Name f))
  | |- context [?get ctx (flag_Name ?f)] =>
      let m := mem f flags in
      rewrite (proj2 (proj1 (Forall_forall _ _) Hs f m) : get ctx (flag_Name f) = get ctx' (flag_Name f))
  end.

Section CLIProofs.
Context `{CLILaws}.

Lemma default_reads flags inv ctx f :
  NoDup (flag_Name <$> flags) -> app_Run flags inv = Ok ctx -> f ∈ flags -> setting inv f = None ->
  reads ctx (flag_Name f) (flag_Value f).
Proof. intros Hn Hr Hf Hs. pose proof (app_Run_reads _ _ _ _ Hn Hr Hf) as E. rewrite Hs in E. apply E. Qed.
Lemma required_set flags inv ctx f :
  NoDup (flag_Name <$> flags) -> app_Run flags inv = Ok ctx -> f ∈ flags -> flag_Required f = true ->
  is_Some (setting inv f).
Proof.
  intros Hn Hr Hf Hq. pose proof (app_Run_reads _ _ _ _ Hn Hr Hf) as E.
  destruct (setting inv f); [done|]. by destruct E as [E _]; rewrite Hq in E.
Qed.
(** What is given for the declared flags determines what they read. *)
Lemma settings_determine flags inv inv' ctx ctx' f :
  NoDup (flag_Name <$> flags) -> app_Run flags inv = Ok ctx -> app_Run flags inv' = Ok ctx' -> f ∈ flags ->
  setting inv f = setting inv' f -> same_reading ctx ctx' f.
Proof.
  intros Hn Hr Hr' Hf Hs. split.
  - by rewrite (app_Run_IsSet _ _ _ _ Hn Hr Hf), (app_Run_IsSet _ _ _ _ Hn Hr' Hf), Hs.
  - pose proof (app_Run_reads _ _ _ _ Hn Hr Hf) as E. pose proof (app_Run_reads _ _ _ _ Hn Hr' Hf) as E'.
    rewrite <-Hs in E'. destruct (setting inv f) as [r|].
    + destruct E as (v & -> & Ht & E), E' as (v' & [= <-] & _ & E').
      destruct (flag_Value f), v; try done; cbn in E, E'; congruence.
    + destruct E as [_ E], E' as [_ E']. destruct (flag_Value f); cbn in E, E'; congruence.
Qed.
End CLIProofs.
