(* ===== verification/Types.v ===== *)
(** * Shared data types

    The block identifiers of op-node/eth/id.go, the rollup configuration of
    op-node/rollup/types.go, and the Engine API types of op-node/l2/api.go. *)

From S2P Require Import Prelude.

(** ** op-node/eth/id.go *)

Record BlockID := mkBlockID {
  id_Hash : Hash;
  id_Number : uint64;
}.

Record L2BlockRef := mkL2BlockRef {
  l2_Hash : Hash;
  l2_Number : uint64;
  l2_ParentHash : Hash;
  l2_Time : uint64;
  l2_L1Origin : BlockID;
  l2_SequenceNumber : uint64; (* distance to first block of epoch *)
}.

Record L1BlockRef := mkL1BlockRef {
  l1_Hash : Hash;
  l1_Number : uint64;
  l1_ParentHash : Hash;
  l1_Time : uint64;
}.

#[export] Instance BlockID_eq_dec : EqDecision BlockID.
Proof. solve_decision. Defined.
#[export] Instance L2BlockRef_eq_dec : EqDecision L2BlockRef.
Proof. solve_decision. Defined.
#[export] Instance L1BlockRef_eq_dec : EqDecision L1BlockRef.
Proof. solve_decision. Defined.

(** The zero values [eth.BlockID{}], [eth.L2BlockRef{}], [eth.L1BlockRef{}]. *)
Definition zeroBlockID : BlockID := mkBlockID 0 0.
Definition zeroL2BlockRef : L2BlockRef := mkL2BlockRef 0 0 0 0 zeroBlockID 0.
Definition zeroL1BlockRef : L1BlockRef := mkL1BlockRef 0 0 0 0.

Definition L1BlockRef_ID (id : L1BlockRef) : BlockID :=
  mkBlockID (l1_Hash id) (l1_Number id).

Definition L1BlockRef_ParentID (id : L1BlockRef) : BlockID :=
  let n := id_Number (L1BlockRef_ID id) in
  mkBlockID (l1_ParentHash id) (if 0 <? n then n - 1 else n).

Definition L2BlockRef_ID (id : L2BlockRef) : BlockID :=
  mkBlockID (l2_Hash id) (l2_Number id).

Definition L2BlockRef_ParentID (id : L2BlockRef) : BlockID :=
  let n := id_Number (L2BlockRef_ID id) in
  mkBlockID (l2_ParentHash id) (if 0 <? n then n - 1 else n).

(** ** op-node/rollup/types.go *)

Record Genesis := mkGenesis {
  gen_L1 : BlockID;
  gen_L2 : BlockID;
  gen_L2Time : uint64;
}.

Record Config := mkConfig {
  cfg_Genesis : Genesis;
  cfg_BlockTime : uint64;
  cfg_MaxSequencerDrift : uint64;
  cfg_SeqWindowSize : uint64;
  cfg_L1ChainID : bigInt;
  cfg_L2ChainID : bigInt;
  cfg_P2PSequencerAddress : Address;
  cfg_FeeRecipientAddress : Address;
  cfg_BatchInboxAddress : Address;
  cfg_BatchSenderAddress : Address;
  cfg_DepositContractAddress : Address;
}.

(** [Config.Check] *)
Definition Config_Check (cfg : Config) : res unit :=
  if cfg_BlockTime cfg =? 0 then Err (EMsg "block time cannot be 0")
  else if cfg_SeqWindowSize cfg <? 2 then
    Err (EMsg "sequencing window size must at least be 2")
  else if id_Hash (gen_L1 (cfg_Genesis cfg)) =? 0 then
    Err (EMsg "genesis l1 hash cannot be empty")
  else if id_Hash (gen_L2 (cfg_Genesis cfg)) =? 0 then
    Err (EMsg "genesis l2 hash cannot be empty")
  else if id_Hash (gen_L2 (cfg_Genesis cfg)) =? id_Hash (gen_L1 (cfg_Genesis cfg)) then
    Err (EMsg "achievement get! rollup inception: L1 and L2 genesis cannot be the same")
  else if cfg_DepositContractAddress cfg =? 0 then
    Err (EMsg "did not provide deposit contract address ")
  else Ok tt.

Lemma Config_Check_ok cfg :
  Config_Check cfg = Ok tt -> cfg_BlockTime cfg <> 0 /\ 2 <= cfg_SeqWindowSize cfg.
Proof. unfold Config_Check. repeat case_match; try done. lia. Qed.

(** ** op-node/l2/api.go *)

(** A [l2.Data]: an opaque (encoded) transaction. *)
Abbreviation Data := (list byte) (only parsing).

Record ExecutionPayload := mkExecutionPayload {
  pl_ParentHash : Hash;
  pl_FeeRecipient : Address;
  pl_StateRoot : Hash;
  pl_ReceiptsRoot : Hash;
  pl_LogsBloom : Z; (* [256]byte *)
  pl_PrevRandao : Hash;
  pl_BlockNumber : uint64;
  pl_GasLimit : uint64;
  pl_GasUsed : uint64;
  pl_Timestamp : uint64;
  pl_ExtraData : list byte;
  pl_BaseFeePerGas : Z; (* uint256.Int *)
  pl_BlockHash : Hash;
  pl_Transactions : list Data;
}.

#[export] Instance ExecutionPayload_eq_dec : EqDecision ExecutionPayload.
Proof. solve_decision. Defined.

(** [ExecutionPayload.ID] and [ExecutionPayload.ParentID] *)
Definition ExecutionPayload_ID (payload : ExecutionPayload) : BlockID :=
  mkBlockID (pl_BlockHash payload) (pl_BlockNumber payload).

Definition ExecutionPayload_ParentID (payload : ExecutionPayload) : BlockID :=
  let n := pl_BlockNumber payload in
  mkBlockID (pl_ParentHash payload) (if 0 <? n then n - 1 else n).

Record PayloadAttributes := mkPayloadAttributes {
  at_Timestamp : uint64;
  at_PrevRandao : Hash;
  at_SuggestedFeeRecipient : Address;
  at_Transactions : list Data;
  at_NoTxPool : bool;
}.

#[export] Instance PayloadAttributes_eq_dec : EqDecision PayloadAttributes.
Proof. solve_decision. Defined.

(** [ExecutePayloadStatus]: the named values, and any other string. *)
Inductive ExecutePayloadStatus :=
  | ExecutionValid
  | ExecutionInvalid
  | ExecutionSyncing
  | ExecutionAccepted
  | ExecutionInvalidBlockHash
  | ExecutionInvalidTerminalBlock
  | ExecutionOther (s : string).

#[export] Instance ExecutePayloadStatus_eq_dec : EqDecision ExecutePayloadStatus.
Proof. solve_decision. Defined.

Record PayloadStatusV1 := mkPayloadStatusV1 {
  ps_Status : ExecutePayloadStatus;
  ps_LatestValidHash : Hash;
  ps_ValidationError : string;
}.

Record ForkchoiceState := mkForkchoiceState {
  fc_HeadBlockHash : Hash;
  fc_SafeBlockHash : Hash;
  fc_FinalizedBlockHash : Hash;
}.

#[export] Instance ForkchoiceState_eq_dec : EqDecision ForkchoiceState.
Proof. solve_decision. Defined.

(** A [beacon.PayloadID] is an opaque 8-byte identifier. *)
Abbreviation PayloadID := Z (only parsing).

Record ForkchoiceUpdatedResult := mkForkchoiceUpdatedResult {
  fr_PayloadStatus : PayloadStatusV1;
  fr_PayloadID : option PayloadID;
}.
