(* ===== verification/Geth.v ===== *)
(** * The parts of go-ethereum the node relies on

    Transactions, receipts and logs are go-ethereum values.  Their data is
    modelled as the code reads it; the transaction codec, the signature recovery,
    the trie root and RLP are parameters ([Class GethTypes]) whose documented
    behaviour, where a theorem needs it, is a law of [GethLaws]. *)

From S2P Require Import Prelude Types.

(** [types.Log] *)
Record Log := mkLog {
  log_Address : Address;
  log_Topics : list Hash;
  log_Data : list byte;
  log_BlockNumber : uint64;
  log_TxHash : Hash;
  log_TxIndex : uint64;
  log_BlockHash : Hash;
  log_Index : uint64;
  log_Removed : bool;
}.

(** [types.Receipt] *)
Record Receipt := mkReceipt {
  rc_Type : byte;
  rc_PostState : list byte;
  rc_Status : uint64;
  rc_CumulativeGasUsed : uint64;
  rc_Bloom : Z;
  rc_Logs : list Log;
  rc_TransactionIndex : uint64;
  rc_BlockNumber : option bigInt; (* a nil pointer when the JSON has none *)
  rc_BlockHash : Hash;
  rc_TxHash : Hash;
}.
(** [types.ReceiptStatusSuccessful] *)
Definition ReceiptStatusSuccessful : uint64 := 1.
Definition ReceiptStatusFailed : uint64 := 0.

(** What the encoding of a receipt in the receipts trie has of it: its type, the status
    ([Receipt.statusEncoding]: the post state where there is one, else whether the status
    is the failed one), the gas, the bloom filter, and the address, topics and data of its
    logs.  Positions, hashes and the log indices are not part of it. *)
Definition statusEncoding (r : Receipt) : list byte :=
  match rc_PostState r with
  | [] => if rc_Status r =? ReceiptStatusFailed then [] else [x01]
  | s => s
  end.
Definition log_consensus (l : Log) : Address * list Hash * list byte :=
  (log_Address l, log_Topics l, log_Data l).
Definition consensus (r : Receipt) : byte * list byte * uint64 * Z * list (Address * list Hash * list byte) :=
  (rc_Type r, statusEncoding r, rc_CumulativeGasUsed r, rc_Bloom r, log_consensus <$> rc_Logs r).

(** [types.DepositTx]; a nil [To] or [Mint] pointer is [None]. *)
Record DepositTx := mkDepositTx {
  dep_SourceHash : Hash;
  dep_From : Address;
  dep_To : option Address;
  dep_Mint : option bigInt;
  dep_Value : bigInt;
  dep_Gas : uint64;
  dep_Data : list byte;
}.

#[export] Instance DepositTx_eq_dec : EqDecision DepositTx.
Proof. solve_decision. Defined.

(** [types.Header]; [hdr_Hash] is computed by the library (RLP and Keccak). *)
Record Header := mkHeader {
  hdr_ParentHash : Hash;
  hdr_UncleHash : Hash;
  hdr_Coinbase : Address;
  hdr_Root : Hash;
  hdr_TxHash : Hash;
  hdr_ReceiptHash : Hash;
  hdr_Bloom : Z;
  hdr_Difficulty : bigInt;
  hdr_Number : bigInt;
  hdr_GasLimit : uint64;
  hdr_GasUsed : uint64;
  hdr_Time : uint64;
  hdr_Extra : list byte;
  hdr_MixDigest : Hash;
  hdr_Nonce : uint64;
  hdr_BaseFee : bigInt;
}.

Class GethTypes := {
  Transaction : Type;
  tx_Type : Transaction -> byte;
  tx_Data : Transaction -> list byte;
  tx_To : Transaction -> option Address;
  tx_Hash : Transaction -> Hash;
  tx_MarshalBinary : Transaction -> res (list byte);
  tx_UnmarshalBinary : list byte -> res Transaction;
  DepositTxType : byte;
  NewDepositTx : DepositTx -> Transaction;          (* types.NewTx *)
  tx_Sender : bigInt -> Transaction -> res Address; (* NewLondonSigner(id).Sender(tx) *)
  DeriveSha_bytes : list (list byte) -> Hash;       (* DeriveSha of raw encodings *)
  DeriveSha_txs : list Transaction -> Hash;
  DeriveSha_receipts : list Receipt -> Hash;
  header_Hash : Header -> Hash;
  EmptyRootHash : Hash;
  EmptyUncleHash : Hash;
}.

(** The documented behaviour of the transaction codec (EIP-2718 envelopes). *)
Class GethLaws `{GethTypes} := {
  tx_roundtrip : forall tx b, tx_MarshalBinary tx = Ok b -> tx_UnmarshalBinary b = Ok tx;
  deposit_type : forall dep, tx_Type (NewDepositTx dep) = DepositTxType;
  deposit_data : forall dep, tx_Data (NewDepositTx dep) = dep_Data dep;
  tx_encoding_type : forall tx b, tx_MarshalBinary tx = Ok b ->
    exists t rest, b = t :: rest /\ (t = DepositTxType <-> tx_Type tx = DepositTxType);
  derive_sha_encoding : forall txs encs,
    Forall2 (fun tx b => tx_MarshalBinary tx = Ok b) txs encs ->
    DeriveSha_bytes encs = DeriveSha_txs txs;
}.

(** [types.Block]; its hash is its header's. *)
Record Block `{GethTypes} := mkBlock {
  bl_Header : Header;
  bl_Transactions : list Transaction;
}.
Definition bl_Hash `{GethTypes} (bl : Block) : Hash := header_Hash (bl_Header bl).
(** [block.NumberU64()]: the low 64 bits of the header's big integer. *)
Definition bl_NumberU64 `{GethTypes} (bl : Block) : uint64 := wrap 64 (hdr_Number (bl_Header bl)).

(** ** A concrete instance, for the witnesses only

    A transaction is a type byte and a calldata; its encoding is the type byte
    followed by the calldata. *)
Definition ToyGeth : GethTypes := {|
  Transaction := byte * list byte;
  tx_Type := fst;
  tx_Data := snd;
  tx_To := fun tx => Some (zlen (snd tx));
  tx_Hash := fun tx => toy_keccak (fst tx :: snd tx);
  tx_MarshalBinary := fun tx => Ok (fst tx :: snd tx);
  tx_UnmarshalBinary := fun b =>
    match b with [] => Err (EMsg "empty typed transaction bytes") | t :: d => Ok (t, d) end;
  DepositTxType := x7e;
  NewDepositTx := fun dep => (x7e, dep_Data dep);
  tx_Sender := fun id tx => Ok (id + 7);
  DeriveSha_bytes := fun l => toy_keccak (concat l);
  DeriveSha_txs := fun l => toy_keccak (concat ((fun tx => fst tx :: snd tx) <$> l));
  DeriveSha_receipts := fun l => toy_keccak (concat ((fun r => be_bytes 8 (rc_Status r)) <$> l));
  header_Hash := fun h => toy_keccak (be_bytes 8 (hdr_Number h) ++ be_bytes 32 (hdr_ParentHash h));
  EmptyRootHash := 11;
  EmptyUncleHash := 12;
|}.

Lemma ToyGethLaws : @GethLaws ToyGeth.
Proof.
  split; simpl; try done.
  - by intros [] ? [= <-].
  - intros [t d] b [= <-]. exists t, d. done.
  - intros txs encs H. do 2 f_equal.
    induction H as [|[t d] b txs encs [= <-] _ IH]; [done|]. cbn. by rewrite IH.
Qed.
