(* ===== verification/L1Info.v ===== *)
(** * The L1 attributes of an L2 block

    op-node/rollup/derive/l1_block_info.go: the calldata of the first transaction
    of every L2 block, from which the node reads back the L1 origin. *)

From S2P Require Import Prelude Types.

Record L1BlockInfo := mkL1BlockInfo {
  bi_Number : uint64;
  bi_Time : uint64;
  bi_BaseFee : bigInt;
  bi_BlockHash : Hash;
  bi_SequenceNumber : uint64;
}.

#[export] Instance L1BlockInfo_eq_dec : EqDecision L1BlockInfo.
Proof. solve_decision. Defined.

Section L1Info.
Context `{Keccak}.

Definition L1InfoFuncSignature : string :=
  "setL1BlockValues(uint64,uint64,uint256,bytes32,uint64)".
Definition L1InfoFuncBytes4 : list byte :=
  take 4 (be_bytes 32 (Keccak256 (String.list_byte_of_string L1InfoFuncSignature))).

(** [L1BlockInfo.MarshalBinary] *)
Definition L1BlockInfo_MarshalBinary (info : L1BlockInfo) : res (list byte) :=
  let data := replicate (4 + 32 + 32 + 32 + 32 + 32) x00 in
  let offset := 0 in
  data ← blit data offset 4 L1InfoFuncBytes4;
  let offset := offset + 4 in
  data ← put_be64 data (offset + 24) (offset + 32) (bi_Number info);
  let offset := offset + 32 in
  data ← put_be64 data (offset + 24) (offset + 32) (bi_Time info);
  let offset := offset + 32 in
  fee ← fill_bytes 32 (bi_BaseFee info);
  data ← blit data offset (offset + 32) fee;
  let offset := offset + 32 in
  data ← blit data offset (offset + 32) (be_bytes 32 (bi_BlockHash info));
  let offset := offset + 32 in
  data ← put_be64 data (offset + 24) (offset + 32) (bi_SequenceNumber info);
  Ok data.

(** [L1BlockInfo.UnmarshalBinary] *)
Definition L1BlockInfo_UnmarshalBinary (data : list byte) : res L1BlockInfo :=
  if negb (zlen data =? 4 + 32 + 32 + 32 + 32 + 32) then
    Err (EMsg "data is unexpected length")
  else
  let padding := replicate 24 x00 in
  let offset := 4 in
  s ← slice data (offset + 24) (offset + 32);
  number ← get_be64 s;
  pad ← slice data offset (offset + 24);
  _ ← fail_if (bool_decide (pad <> padding))
        (EMsg "l1 info number exceeds uint64 bounds");
  let offset := offset + 32 in
  s ← slice data (offset + 24) (offset + 32);
  time ← get_be64 s;
  pad ← slice data offset (offset + 24);
  _ ← fail_if (bool_decide (pad <> padding))
        (EMsg "l1 info time exceeds uint64 bounds");
  let offset := offset + 32 in
  fee ← slice data offset (offset + 32);
  let offset := offset + 32 in
  hash ← slice data offset (offset + 32);
  let offset := offset + 32 in
  s ← slice data (offset + 24) (offset + 32);
  seq ← get_be64 s;
  pad ← slice data offset (offset + 24);
  _ ← fail_if (bool_decide (pad <> padding))
        (EMsg "l1 info sequence number exceeds uint64 bounds");
  Ok (mkL1BlockInfo number time (be_value fee) (be_value hash) seq).

(** [L1InfoDepositTxData] *)
Definition L1InfoDepositTxData (data : list byte) : res L1BlockInfo :=
  L1BlockInfo_UnmarshalBinary data.

(** The values a Go [L1BlockInfo] can hold, with a base fee of at most 256 bits. *)
Definition L1BlockInfo_ok (info : L1BlockInfo) : Prop :=
  in_range 64 (bi_Number info) /\ in_range 64 (bi_Time info) /\
  in_range 256 (bi_BaseFee info) /\ in_range 256 (bi_BlockHash info) /\
  in_range 64 (bi_SequenceNumber info).

(** ** Lemmas *)

Definition zeros (n : nat) : list byte := replicate n x00.

(** The layout of the calldata. *)
Definition L1BlockInfo_layout (info : L1BlockInfo) : list byte :=
  L1InfoFuncBytes4 ++
  (zeros 24 ++ be_bytes 8 (bi_Number info)) ++
  (zeros 24 ++ be_bytes 8 (bi_Time info)) ++
  be_bytes 32 (bi_BaseFee info) ++
  be_bytes 32 (bi_BlockHash info) ++
  (zeros 24 ++ be_bytes 8 (bi_SequenceNumber info)).

Lemma length_L1InfoFuncBytes4 : length L1InfoFuncBytes4 = 4%nat.
Proof. unfold L1InfoFuncBytes4. rewrite length_take, length_be_bytes. lia. Qed.
Hint Rewrite length_L1InfoFuncBytes4 : go.

Lemma L1BlockInfo_MarshalBinary_layout info :
  in_range 256 (bi_BaseFee info) ->
  L1BlockInfo_MarshalBinary info = Ok (L1BlockInfo_layout info).
Proof.
  intros Hfee. unfold L1BlockInfo_MarshalBinary. cbv zeta.
  rewrite (fill_bytes_small 32) by exact Hfee.
  rewrite <-(app_nil_l (replicate _ x00)).
  rewrite (blit_replicate _ _ _ _ 0) by len. cbn [mbind res_bind].
  rewrite (put_be64_replicate _ _ 24) by len. cbn [mbind res_bind].
  rewrite (put_be64_replicate _ _ 24) by len. cbn [mbind res_bind].
  rewrite (blit_replicate _ _ _ _ 0) by len. cbn [mbind res_bind].
  rewrite (blit_replicate _ _ _ _ 0) by len. cbn [mbind res_bind].
  rewrite (put_be64_replicate _ _ 24) by len. cbn [mbind res_bind].
  reflexivity.
Qed.

(** Reading the fields back; each slice of the layout reduces by computation. *)
Lemma L1BlockInfo_UnmarshalBinary_layout info :
  L1BlockInfo_ok info ->
  L1BlockInfo_UnmarshalBinary (L1BlockInfo_layout info) = Ok info.
Proof.
  intros (Hn & Ht & Hf & Hh & Hs).
  transitivity (Ok (mkL1BlockInfo (be_value (be_bytes 8 (bi_Number info)))
    (be_value (be_bytes 8 (bi_Time info))) (be_value (be_bytes 32 (bi_BaseFee info)))
    (be_value (be_bytes 32 (bi_BlockHash info)))
    (be_value (be_bytes 8 (bi_SequenceNumber info))))).
  { reflexivity. }
  rewrite !(be_value_bytes_small 8 64), !(be_value_bytes_small 32 256) by done.
  by destruct info.
Qed.

(** The decoder in terms of the raw segments of a 164-byte input. *)
Lemma L1BlockInfo_UnmarshalBinary_segments data :
  zlen data = 164 ->
  let seg i n := take n (drop i data) in
  L1BlockInfo_UnmarshalBinary data =
    (_ ← fail_if (bool_decide (seg 4%nat 24%nat <> zeros 24))
           (EMsg "l1 info number exceeds uint64 bounds");
     _ ← fail_if (bool_decide (seg 36%nat 24%nat <> zeros 24))
           (EMsg "l1 info time exceeds uint64 bounds");
     _ ← fail_if (bool_decide (seg 132%nat 24%nat <> zeros 24))
           (EMsg "l1 info sequence number exceeds uint64 bounds");
     Ok (mkL1BlockInfo (be_value (seg 28%nat 8%nat)) (be_value (seg 60%nat 8%nat))
           (be_value (seg 68%nat 32%nat)) (be_value (seg 100%nat 32%nat))
           (be_value (seg 156%nat 8%nat)))).
Proof.
  intros Hlen seg. unfold L1BlockInfo_UnmarshalBinary. rewrite Hlen. cbv zeta.
  simpl negb. cbv iota.
  rewrite !slice_ok by (rewrite ?Hlen; lia). cbn [mbind res_bind].
  assert (forall i, (i + 8 <= 164)%nat ->
    get_be64 (take 8 (drop i data)) = Ok (be_value (take 8 (drop i data)))) as Hget.
  { intros i ?. apply get_be64_ok; [|done]. len. }
  pose proof (Hget 28%nat ltac:(lia)) as E1. pose proof (Hget 60%nat ltac:(lia)) as E2.
  pose proof (Hget 156%nat ltac:(lia)) as E3.
  unfold seg. nat_consts. rewrite E1, E2, E3. reflexivity.
Qed.

Lemma L1BlockInfo_UnmarshalBinary_inv data info :
  L1BlockInfo_UnmarshalBinary data = Ok info ->
  L1BlockInfo_ok info /\ L1BlockInfo_layout info = L1InfoFuncBytes4 ++ drop 4 data.
Proof.
  intros E. assert (zlen data = 164) as Hlen.
  { unfold L1BlockInfo_UnmarshalBinary in E. case_match eqn:Hl; [done|lia]. }
  rewrite L1BlockInfo_UnmarshalBinary_segments in E by done. cbv zeta in E.
  unfold zlen in Hlen. go_inv.
  repeat match goal with H : bool_decide _ = false |- _ =>
    apply bool_decide_eq_false, dec_stable in H end.
  split.
  { unfold L1BlockInfo_ok. split_and!; cbn;
      first [ apply (be_value_in_range 8); [reflexivity|len; fail]
            | apply (be_value_in_range 32); [reflexivity|len; fail] ]. }
  unfold L1BlockInfo_layout.
  cbn [bi_Number bi_Time bi_BaseFee bi_BlockHash bi_SequenceNumber].
  rewrite !(be_bytes_value_n 8), !(be_bytes_value_n 32) by len.
  assert (drop 4 data = take 24 (drop 4 data) ++ take 8 (drop 28 data) ++
    take 24 (drop 36 data) ++ take 8 (drop 60 data) ++ take 32 (drop 68 data) ++
    take 32 (drop 100 data) ++ take 24 (drop 132 data) ++ take 8 (drop 156 data))
    as Hcut.
  { rewrite <-(app_nil_r (take 8 (drop 156 data))), <-(drop_ge data 164) by lia.
    rewrite <-!drop_cut by lia. done. }
  rewrite Hcut, <-!app_assoc. congruence.
Qed.

Lemma L1BlockInfo_UnmarshalBinary_returns data :
  returns (L1BlockInfo_UnmarshalBinary data) = true.
Proof.
  destruct (decide (zlen data = 164)).
  - rewrite L1BlockInfo_UnmarshalBinary_segments by done. cbv zeta.
    repeat (apply res_bind_returns; [by unfold fail_if; case_match|intros ? _]).
    done.
  - unfold L1BlockInfo_UnmarshalBinary. case_match eqn:E; [done|lia].
Qed.

(** ** Properties *)

Lemma L1BlockInfo_roundtrip info :
  L1BlockInfo_ok info ->
  L1BlockInfo_MarshalBinary info ≫= L1BlockInfo_UnmarshalBinary = Ok info.
Proof.
  intros Hok. rewrite L1BlockInfo_MarshalBinary_layout by apply Hok.
  by apply L1BlockInfo_UnmarshalBinary_layout.
Qed.

Lemma L1InfoDepositTxData_canonical data :
  match L1InfoDepositTxData data with
  | Ok info => L1BlockInfo_ok info /\
      L1BlockInfo_MarshalBinary info = Ok (L1InfoFuncBytes4 ++ drop 4 data)
  | Err _ => True
  | _ => False
  end.
Proof.
  pose proof (L1BlockInfo_UnmarshalBinary_returns data) as Hp.
  unfold L1InfoDepositTxData.
  destruct (L1BlockInfo_UnmarshalBinary data) as [info| | |] eqn:E; try done.
  apply L1BlockInfo_UnmarshalBinary_inv in E as [Hok <-]. split; [done|].
  apply L1BlockInfo_MarshalBinary_layout, Hok.
Qed.

(** The selector is not examined: the calldata of any function with these arguments decodes
    to the same info. *)
Lemma L1InfoDepositTxData_any_selector sel sel' args :
  length sel = 4%nat -> length sel' = 4%nat ->
  L1InfoDepositTxData (sel ++ args) = L1InfoDepositTxData (sel' ++ args).
Proof.
  intros Hs Hs'.
  assert (Hz : zlen (sel ++ args) = zlen (sel' ++ args)) by (unfold zlen; rewrite !length_app; lia).
  assert (Hsl : forall a b, 4 <= a -> slice (sel ++ args) a b = slice (sel' ++ args) a b).
  { intros a b Ha. unfold slice. rewrite Hz. case_match; [|done]. do 2 f_equal.
    rewrite !drop_app_ge by lia. by rewrite Hs, Hs'. }
  unfold L1InfoDepositTxData, L1BlockInfo_UnmarshalBinary. cbv zeta. rewrite Hz.
  destruct (negb _); [done|]. by rewrite !Hsl by done.
Qed.

(** [C28] The codec of the L1 attributes.  Round trip: what [MarshalBinary] writes is read
    back exactly by [UnmarshalBinary], for every value the Go struct can hold.
    Conversely the decoder accepts a calldata only if its bytes after the first four are
    those of the encoding of the result.  The four are the function selector, which the
    decoder does not examine: it accepts the calldata of any other function with these
    arguments.  The result fits the Go fields; and no input makes the decoder panic. *)
Theorem L1BlockInfo_codec :
  (forall info, L1BlockInfo_ok info ->
    L1BlockInfo_MarshalBinary info ≫= L1BlockInfo_UnmarshalBinary = Ok info) /\
  (forall data,
    match L1InfoDepositTxData data with
    | Ok info => L1BlockInfo_ok info /\
        L1BlockInfo_MarshalBinary info = Ok (L1InfoFuncBytes4 ++ drop 4 data)
    | Err _ => True
    | _ => False
    end).
Proof. split; [exact L1BlockInfo_roundtrip|exact L1InfoDepositTxData_canonical]. Qed.
End L1Info.

Lemma L1BlockInfo_codec_witness :
  let info := mkL1BlockInfo 17 1654000000 1000000007 (2 ^ 200 + 5) 3 in
  L1BlockInfo_MarshalBinary (H := ToyKeccak) info ≫= L1BlockInfo_UnmarshalBinary
    = Ok info.
Proof.
  intros info. apply (L1BlockInfo_codec (H := ToyKeccak)).
  repeat split; vm_compute; congruence.
Defined.
