(* ===== verification/Deposits.v ===== *)
(** * Deposits

    op-node/rollup/derive/payload_attributes.go, first half: the deposits of an L2
    block, read from the logs of an L1 block's receipts, and the L1 info deposit
    that starts every L2 block. *)

From S2P Require Import Prelude Types Geth L1Info.

(** The [L1Info] interface: what the derivation reads of an L1 block. *)
Record L1Info := mkL1Info {
  li_Hash : Hash;
  li_ParentHash : Hash;
  li_Root : Hash;
  li_NumberU64 : uint64;
  li_Time : uint64;
  li_MixDigest : Hash;
  li_BaseFee : bigInt;
  li_ReceiptHash : Hash;
}.
Definition L1Info_ID (i : L1Info) : BlockID := mkBlockID (li_Hash i) (li_NumberU64 i).
Definition L1Info_BlockRef (i : L1Info) : L1BlockRef :=
  mkL1BlockRef (li_Hash i) (li_NumberU64 i) (li_ParentHash i) (li_Time i).

Record UserDepositSource := mkUserDepositSource {
  uds_L1BlockHash : Hash;
  uds_LogIndex : uint64;
}.
Definition UserDepositSourceDomain : uint64 := 0.
Definition L1InfoDepositSourceDomain : uint64 := 1.
Record L1InfoDepositSource := mkL1InfoDepositSource {
  lis_L1BlockHash : Hash;
  lis_SeqNumber : uint64;
}.

(** [common.BytesToAddress]: keeps the last 20 bytes. *)
Definition BytesToAddress (b : list byte) : Address := wrap 160 (be_value b).

Definition L1InfoPredeployAddr : Address := 0x4200000000000000000000000000000000000015.
Definition L1InfoDepositerAddress : Address := 0xdeaddeaddeaddeaddeaddeaddeaddeaddead0001.

Section Deposits.
Context `{Keccak}.

Definition DepositEventABI : string :=
  "TransactionDeposited(address,address,uint256,uint256,uint64,bool,bytes)".
Definition DepositEventABIHash : Hash :=
  Keccak256 (String.list_byte_of_string DepositEventABI).

(** [UserDepositSource.SourceHash] *)
Definition UserDepositSource_SourceHash (dep : UserDepositSource) : res Hash :=
  let input := replicate (32 * 2) x00 in
  input ← blit input 0 32 (be_bytes 32 (uds_L1BlockHash dep));
  input ← put_be64 input (32 * 2 - 8) (zlen input) (uds_LogIndex dep);
  let depositIDHash := Keccak256 input in
  let domainInput := replicate (32 * 2) x00 in
  domainInput ← put_be64 domainInput (32 - 8) 32 UserDepositSourceDomain;
  domainInput ← blit domainInput 32 (zlen domainInput) (be_bytes 32 depositIDHash);
  Ok (Keccak256 domainInput).

(** [L1InfoDepositSource.SourceHash] *)
Definition L1InfoDepositSource_SourceHash (dep : L1InfoDepositSource) : res Hash :=
  let input := replicate (32 * 2) x00 in
  input ← blit input 0 32 (be_bytes 32 (lis_L1BlockHash dep));
  input ← put_be64 input (32 * 2 - 8) (zlen input) (lis_SeqNumber dep);
  let depositIDHash := Keccak256 input in
  let domainInput := replicate (32 * 2) x00 in
  domainInput ← put_be64 domainInput (32 - 8) 32 L1InfoDepositSourceDomain;
  domainInput ← blit domainInput 32 (zlen domainInput) (be_bytes 32 depositIDHash);
  Ok (Keccak256 domainInput).

(** [UnmarshalLogEvent] *)
Definition UnmarshalLogEvent (ev : Log) : res DepositTx :=
  if negb (zlen (log_Topics ev) =? 3) then
    Err (EMsg "expected 3 event topics (event identity, indexed from, indexed to)")
  else
  topic0 ← index (log_Topics ev) 0;
  _ ← fail_if (negb (topic0 =? DepositEventABIHash))
        (EMsg "invalid deposit event selector");
  _ ← fail_if (zlen (log_Data ev) <? 6 * 32) (EMsg "deposit event data too small");
  let source := mkUserDepositSource (log_BlockHash ev) (log_Index ev) in
  sourceHash ← UserDepositSource_SourceHash source;
  topic1 ← index (log_Topics ev) 1;
  let from := BytesToAddress (drop 12 (be_bytes 32 topic1)) in
  topic2 ← index (log_Topics ev) 2;
  let to := BytesToAddress (drop 12 (be_bytes 32 topic2)) in
  let offset := 0 in
  s ← slice (log_Data ev) offset (offset +64 32);
  let mint := be_value s in
  (* 0 mint is represented as nil to skip minting code *)
  let mint := if mint =? 0 then None else Some mint in
  let offset := offset +64 32 in
  s ← slice (log_Data ev) offset (offset +64 32);
  let value := be_value s in
  let offset := offset +64 32 in
  s ← slice (log_Data ev) offset (offset +64 32);
  let gas := be_value s in
  _ ← fail_if (negb (in_rangeb 64 gas)) (EMsg "bad gas value");
  let offset := offset +64 32 in
  isCreation ← index (log_Data ev) (offset +64 31);
  let to := if b2z isCreation =? 0 then Some to else None in
  let offset := offset +64 32 in
  s ← slice (log_Data ev) offset (offset +64 32);
  let dataOffset := be_value s in
  let offset := offset +64 32 in
  _ ← fail_if (negb (dataOffset =? offset)) (EMsg "incorrect data offset");
  s ← slice (log_Data ev) offset (offset +64 32);
  let dataLen := be_value s in
  let offset := offset +64 32 in
  _ ← fail_if (negb (in_rangeb 64 dataLen)) (EMsg "data too large");
  (* The data may be padded to a multiple of 32 bytes *)
  let maxExpectedLen := wrap 64 (zlen (log_Data ev)) -64 offset in
  _ ← fail_if (maxExpectedLen <? dataLen) (EMsg "data length too long");
  data ← slice (log_Data ev) offset (offset +64 dataLen);
  Ok (mkDepositTx sourceHash from to mint value gas data).

(** [L1InfoDeposit] *)
Definition L1InfoDeposit (seqNumber : uint64) (block : L1Info) : res DepositTx :=
  let infoDat := mkL1BlockInfo (li_NumberU64 block) (li_Time block) (li_BaseFee block)
                   (li_Hash block) seqNumber in
  data ← L1BlockInfo_MarshalBinary infoDat;
  let source := mkL1InfoDepositSource (li_Hash block) seqNumber in
  sourceHash ← L1InfoDepositSource_SourceHash source;
  Ok (mkDepositTx sourceHash L1InfoDepositerAddress (Some L1InfoPredeployAddr) None
        0 99999999 data).

(** The test of [UserDeposits] for a deposit log. *)
Definition is_deposit_log (addr : Address) (l : Log) : bool :=
  (log_Address l =? addr) &&
  match log_Topics l with t :: _ => t =? DepositEventABIHash | [] => false end.

(** [UserDeposits]: the inner loop over [rec.Logs], the outer one over the
    receipts; [acc] is the pair [(out, errs)]. *)
Fixpoint UserDeposits_logs (addr : Address) (logs : list Log)
    (acc : list DepositTx * list error) : res (list DepositTx * list error) :=
  match logs with
  | [] => Ok acc
  | l :: logs =>
      let '(out, errs) := acc in
      if is_deposit_log addr l then
        match UnmarshalLogEvent l with
        | Err e => UserDeposits_logs addr logs
            (out, errs ++ [wrapw "malformatted L1 deposit log: " e])
        | Ok dep => UserDeposits_logs addr logs (out ++ [dep], errs)
        | Panic => Panic
        | OutOfFuel => OutOfFuel
        end
      else UserDeposits_logs addr logs acc
  end.

Fixpoint UserDeposits_receipts (addr : Address) (receipts : list Receipt)
    (acc : list DepositTx * list error) : res (list DepositTx * list error) :=
  match receipts with
  | [] => Ok acc
  | r :: receipts =>
      if negb (rc_Status r =? ReceiptStatusSuccessful)
      then UserDeposits_receipts addr receipts acc
      else acc ← UserDeposits_logs addr (rc_Logs r) acc;
           UserDeposits_receipts addr receipts acc
  end.

Definition UserDeposits (receipts : list Receipt) (depositContractAddr : Address)
    : res (list DepositTx * list error) :=
  UserDeposits_receipts depositContractAddr receipts ([], []).

Context `{GethTypes}.

(** [L1InfoDepositBytes] *)
Definition L1InfoDepositBytes (seqNumber : uint64) (l1Info : L1Info) : res Data :=
  dep ← map_err (wrapv "failed to create L1 info tx: ") (L1InfoDeposit seqNumber l1Info);
  map_err (wrapv "failed to encode L1 info tx: ") (tx_MarshalBinary (NewDepositTx dep)).

(** The encoding loop of [DeriveDeposits]. *)
Fixpoint DeriveDeposits_encode (deps : list DepositTx) (acc : list Data * list error)
    : res (list Data * list error) :=
  match deps with
  | [] => Ok acc
  | dep :: deps =>
      let '(encodedTxs, errs) := acc in
      match tx_MarshalBinary (NewDepositTx dep) with
      | Err e => DeriveDeposits_encode deps
                   (encodedTxs, errs ++ [EMsg "failed to encode user tx"])
      | Ok opaqueTx => DeriveDeposits_encode deps (encodedTxs ++ [opaqueTx], errs)
      | Panic => Panic
      | OutOfFuel => OutOfFuel
      end
  end.

(** [DeriveDeposits] *)
Definition DeriveDeposits (receipts : list Receipt) (depositContractAddr : Address)
    : res (list Data * list error) :=
  '(userDeposits, errs) ← UserDeposits receipts depositContractAddr;
  DeriveDeposits_encode userDeposits ([], errs).

(** The deposit source identifier of specs/deposits.md:
    [keccak256(bytes32(domain), keccak256(l1BlockHash, bytes32(index)))]. *)
Definition sourceHash_spec (domain : Z) (l1BlockHash : Hash) (i : uint64) : Hash :=
  Keccak256 (be_bytes 32 domain ++
    be_bytes 32 (Keccak256 (be_bytes 32 l1BlockHash ++ be_bytes 32 i))).

Lemma UserDepositSource_SourceHash_eq dep :
  in_range 64 (uds_LogIndex dep) ->
  UserDepositSource_SourceHash dep =
    Ok (sourceHash_spec 0 (uds_L1BlockHash dep) (uds_LogIndex dep)).
Proof.
  intros Hi. unfold sourceHash_spec, UserDepositSourceDomain.
  rewrite (be_bytes_pad 32 24 8 (uds_LogIndex dep)) by first [done | exact Hi].
  rewrite (be_bytes_pad 32 24 8 0) by done. reflexivity.
Qed.

Lemma L1InfoDepositSource_SourceHash_eq dep :
  in_range 64 (lis_SeqNumber dep) ->
  L1InfoDepositSource_SourceHash dep =
    Ok (sourceHash_spec 1 (lis_L1BlockHash dep) (lis_SeqNumber dep)).
Proof.
  intros Hi. unfold sourceHash_spec, L1InfoDepositSourceDomain.
  rewrite (be_bytes_pad 32 24 8 (lis_SeqNumber dep)) by first [done | exact Hi].
  rewrite (be_bytes_pad 32 24 8 1) by done. reflexivity.
Qed.

(** What [UnmarshalLogEvent] computes from the 32-byte words of the log data,
    once the topics and the size are right. *)
Definition UnmarshalLogEvent_words (ev : Log) (t1 t2 : Hash) : res DepositTx :=
  let d := log_Data ev in
  let word i := be_value (take 32 (drop (32 * i) d)) in
  _ ← fail_if (negb (in_rangeb 64 (word 2%nat))) (EMsg "bad gas value");
  _ ← fail_if (negb (word 4%nat =? 160)) (EMsg "incorrect data offset");
  _ ← fail_if (negb (in_rangeb 64 (word 5%nat))) (EMsg "data too large");
  _ ← fail_if (zlen d - 192 <? word 5%nat) (EMsg "data length too long");
  Ok (mkDepositTx (sourceHash_spec 0 (log_BlockHash ev) (log_Index ev))
        (wrap 160 t1)
        (if b2z (nth 127 d x00) =? 0 then Some (wrap 160 t2) else None)
        (if word 0%nat =? 0 then None else Some (word 0%nat))
        (word 1%nat) (word 2%nat)
        (take (Z.to_nat (word 5%nat)) (drop 192 d))).

Lemma BytesToAddress_topic t :
  in_range 256 t -> BytesToAddress (drop 12 (be_bytes 32 t)) = wrap 160 t.
Proof.
  intros Ht. unfold BytesToAddress, be_bytes, be_value.
  change 32%nat with (20 + 12)%nat. rewrite le_bytes_add, reverse_app.
  rewrite drop_app_length' by (by rewrite length_reverse, length_le_bytes).
  rewrite reverse_involutive, le_value_bytes. unfold wrap.
  change (256 ^ Z.of_nat 20) with (2 ^ 160). by rewrite Z.mod_mod.
Qed.

Lemma index_nth {A} (l : list A) (i : Z) d :
  0 <= i < zlen l -> index l i = Ok (nth (Z.to_nat i) l d).
Proof.
  intros Hi. unfold index, zlen in *. rewrite (proj2 (Z.leb_le _ _)) by lia.
  destruct (lookup_lt_is_Some_2 l (Z.to_nat i) ltac:(lia)) as [x Hx].
  rewrite Hx. f_equal. symmetry. by apply nth_lookup_Some.
Qed.

Lemma UnmarshalLogEvent_wordsE ev t1 t2 :
  log_Topics ev = [DepositEventABIHash; t1; t2] ->
  192 <= zlen (log_Data ev) < 2 ^ 64 ->
  in_range 64 (log_Index ev) -> in_range 256 t1 -> in_range 256 t2 ->
  UnmarshalLogEvent ev = UnmarshalLogEvent_words ev t1 t2.
Proof.
  intros Ht Hd Hi H1 H2. unfold UnmarshalLogEvent, UnmarshalLogEvent_words.
  rewrite Ht. cbn -[slice index be_value Z.eqb Z.ltb fail_if].
  change (zlen [DepositEventABIHash; t1; t2] =? 3) with true. cbn [negb].
  change (index [DepositEventABIHash; t1; t2] 0) with (Ok DepositEventABIHash).
  change (index [DepositEventABIHash; t1; t2] 1) with (Ok t1).
  change (index [DepositEventABIHash; t1; t2] 2) with (Ok t2).
  cbn [mbind res_bind]. rewrite Z.eqb_refl. cbn [negb fail_if].
  rewrite (proj2 (Z.ltb_ge _ _)) by lia. cbn [fail_if].
  rewrite UserDepositSource_SourceHash_eq by done.
  rewrite !BytesToAddress_topic by done. wrap_consts.
  rewrite (index_nth _ 127 x00) by lia.
  rewrite !slice_ok by lia. nat_consts. cbn [mbind res_bind].
  set (gas := be_value (take 32 (drop 64 _))).
  destruct (in_rangeb 64 gas); cbn [fail_if negb]; [|done].
  set (off := be_value (take 32 (drop 128 _))).
  destruct (off =? 160); cbn [fail_if negb]; [|done].
  set (dlen := be_value (take 32 (drop 160 _))).
  destruct (in_rangeb 64 dlen) eqn:Hl; cbn [fail_if negb]; [|done].
  rewrite (wrap_small 64 (zlen _)) by (unfold in_range; lia).
  rewrite (wrap_small 64 (zlen _ - _)) by (unfold in_range; lia).
  destruct (Z.ltb_spec (zlen (log_Data ev) - 192) dlen); cbn [fail_if]; [done|].
  apply in_rangeb_spec in Hl. unfold in_range in Hl.
  rewrite (wrap_small 64 (192 + dlen)) by (unfold in_range; lia).
  rewrite slice_ok by lia. cbn [mbind res_bind].
  by replace (Z.to_nat (192 + dlen - 192)) with (Z.to_nat dlen) by lia.
Qed.

(** ** The encoder of the deposit contract's event, as the tests write it *)

(** [GenerateDepositLog] of payload_attributes_test.go, with the block hash and
    the log index the L1 node fills in. *)
Definition GenerateDepositLog (addr : Address) (blockHash : Hash) (logIndex : uint64)
    (deposit : DepositTx) : res Log :=
  let toBytes := match dep_To deposit with Some to => to | None => 0 end in
  let topics := [DepositEventABIHash; dep_From deposit; toBytes] in
  let data := replicate (6 * 32) x00 in
  let offset := 0 in
  data ← match dep_Mint deposit with
         | Some m => b ← fill_bytes 32 m; blit data offset (offset + 32) b
         | None => Ok data
         end;
  let offset := offset + 32 in
  b ← fill_bytes 32 (dep_Value deposit);
  data ← blit data offset (offset + 32) b;
  let offset := offset + 32 in
  data ← put_be64 data (offset + 24) (offset + 32) (dep_Gas deposit);
  let offset := offset + 32 in
  data ← match dep_To deposit with
         | None => blit data (offset + 31) (offset + 32) [x01] (* isCreation *)
         | Some _ => Ok data
         end;
  let offset := offset + 32 in
  data ← put_be64 data (offset + 24) (offset + 32) (5 * 32);
  let offset := offset + 32 in
  data ← put_be64 data (offset + 24) (offset + 32) (wrap 64 (zlen (dep_Data deposit)));
  let data := data ++ dep_Data deposit in
  let data :=
    if negb (zlen data mod 32 =? 0)
    then data ++ replicate (Z.to_nat (32 - zlen data mod 32)) x00 else data in
  Ok (mkLog addr topics data 0 0 0 blockHash logIndex false).

(** The deposits the contract can emit. *)
Definition DepositTx_ok (blockHash : Hash) (logIndex : uint64) (dep : DepositTx) : Prop :=
  dep_SourceHash dep = sourceHash_spec 0 blockHash logIndex /\
  in_range 160 (dep_From dep) /\
  match dep_To dep with Some to => in_range 160 to | None => True end /\
  match dep_Mint dep with Some m => in_range 256 m /\ m <> 0 | None => True end /\
  in_range 256 (dep_Value dep) /\ in_range 64 (dep_Gas dep) /\
  zlen (dep_Data dep) < 2 ^ 63.

Definition deposit_head (dep : DepositTx) : list byte :=
  be_bytes 32 (default 0 (dep_Mint dep)) ++ be_bytes 32 (dep_Value dep) ++
  (replicate 24 x00 ++ be_bytes 8 (dep_Gas dep)) ++
  (replicate 31 x00 ++ [match dep_To dep with None => x01 | Some _ => x00 end]) ++
  (replicate 24 x00 ++ be_bytes 8 160) ++
  (replicate 24 x00 ++ be_bytes 8 (zlen (dep_Data dep))).

Lemma GenerateDepositLog_layout addr bh idx dep :
  DepositTx_ok bh idx dep ->
  exists pad, GenerateDepositLog addr bh idx dep =
    Ok (mkLog addr [DepositEventABIHash; dep_From dep; default 0 (dep_To dep)]
          (deposit_head dep ++ dep_Data dep ++ pad) 0 0 0 bh idx false) /\
    zlen pad < 32.
Proof.
  intros (_ & _ & _ & Hm & Hv & _ & Hd). unfold GenerateDepositLog. cbv zeta.
  rewrite (fill_bytes_small 32 (dep_Value dep)) by exact Hv.
  rewrite (wrap_small 64 (zlen _))
    by (unfold in_range; pose proof (zlen_nonneg (dep_Data dep)); lia).
  set (finish := fun data => if negb (zlen data mod 32 =? 0)
    then data ++ replicate (Z.to_nat (32 - zlen data mod 32)) x00 else data).
  assert (forall d, exists pad, finish d = d ++ pad /\ zlen pad < 32) as Hfin.
  { intros d. unfold finish. pose proof (Z.mod_pos_bound (zlen d) 32 ltac:(lia)).
    destruct (Z.eqb_spec (zlen d mod 32) 0); cbn [negb].
    - exists []. by rewrite app_nil_r.
    - eexists; split; [done|]. unfold zlen at 1. rewrite length_replicate. lia. }
  destruct (Hfin (deposit_head dep ++ dep_Data dep)) as (pad & Hpad & Hlen).
  exists pad. split; [|done]. rewrite app_assoc, <-Hpad.
  destruct (dep_Mint dep) as [m|] eqn:Em; destruct (dep_To dep) as [to|] eqn:Eto.
  all: try rewrite (fill_bytes_small 32 m) by apply Hm.
  all: unfold finish, deposit_head; rewrite Em, Eto; try reflexivity.
Qed.

Lemma be_value_padded v :
  in_range 64 v -> be_value (replicate 24 x00 ++ be_bytes 8 v) = v.
Proof.
  intros Hv. rewrite <-(be_bytes_pad 32 24 8) by done.
  apply (be_value_bytes_small 32 256); [done|]. unfold in_range in *. lia.
Qed.

Lemma UnmarshalLogEvent_words_layout bh idx dep pad addr :
  DepositTx_ok bh idx dep -> zlen pad < 32 ->
  UnmarshalLogEvent_words
    (mkLog addr [DepositEventABIHash; dep_From dep; default 0 (dep_To dep)]
       (deposit_head dep ++ dep_Data dep ++ pad) 0 0 0 bh idx false)
    (dep_From dep) (default 0 (dep_To dep)) = Ok dep.
Proof.
  intros (Hs & Hf & Ht & Hm & Hv & Hg & Hd) Hpad.
  unfold UnmarshalLogEvent_words. cbn [log_Data log_BlockHash log_Index].
  pose proof (zlen_nonneg (dep_Data dep)) as Hnn. pose proof (zlen_nonneg pad).
  set (d := deposit_head dep ++ dep_Data dep ++ pad).
  assert (forall i w, take 32 (drop (32 * i) d) = w ->
    be_value (take 32 (drop (32 * i) d)) = be_value w) as Hw by congruence.
  rewrite (Hw 0%nat (be_bytes 32 (default 0 (dep_Mint dep))) eq_refl).
  rewrite (Hw 1%nat (be_bytes 32 (dep_Value dep)) eq_refl).
  rewrite (Hw 2%nat (replicate 24 x00 ++ be_bytes 8 (dep_Gas dep)) eq_refl).
  rewrite (Hw 4%nat (replicate 24 x00 ++ be_bytes 8 160) eq_refl).
  rewrite (Hw 5%nat (replicate 24 x00 ++ be_bytes 8 (zlen (dep_Data dep))) eq_refl).
  assert (in_range 64 (zlen (dep_Data dep))) by (unfold in_range; lia).
  assert (in_range 256 (default 0 (dep_Mint dep))) as Hm'.
  { destruct (dep_Mint dep); cbn; [apply Hm|done]. }
  rewrite !be_value_padded by done. rewrite !(be_value_bytes_small 32 256) by done.
  rewrite !(proj2 (in_rangeb_spec _ _)) by done. cbn [negb fail_if mbind res_bind].
  rewrite Z.eqb_refl. cbn [negb fail_if mbind res_bind].
  assert (zlen d = 192 + zlen (dep_Data dep) + zlen pad) as ->.
  { unfold d. rewrite !zlen_app. change (zlen (deposit_head dep)) with 192. lia. }
  rewrite (proj2 (Z.ltb_ge _ _)) by lia. cbn [fail_if mbind res_bind]. f_equal.
  change (nth 127 d x00) with match dep_To dep with None => x01 | Some _ => x00 end.
  change (drop 192 d) with (dep_Data dep ++ pad).
  rewrite <-Hs, (wrap_small 160 (dep_From dep)) by done.
  rewrite take_app_length' by (unfold zlen; lia).
  assert ((if default 0 (dep_Mint dep) =? 0 then None
    else Some (default 0 (dep_Mint dep))) = dep_Mint dep) as ->.
  { destruct (dep_Mint dep) as [m|]; cbn; [|done].
    destruct (Z.eqb_spec m 0); [|done]. by destruct Hm. }
  destruct dep as [? ? [to|] ? ? ? ?]; cbn in *; [|done].
  by rewrite (wrap_small 160 to).
Qed.

(** The logs [UnmarshalLogEvent] accepts. *)
Definition deposit_log_wf (ev : Log) (t1 t2 : Hash) : Prop :=
  let word i := be_value (take 32 (drop (32 * i) (log_Data ev))) in
  log_Topics ev = [DepositEventABIHash; t1; t2] /\ 192 <= zlen (log_Data ev) /\
  in_range 64 (word 2%nat) /\ word 4%nat = 160 /\
  word 5%nat <= zlen (log_Data ev) - 192.

(** The values a Go [types.Log] can hold. *)
Definition Log_ok (l : Log) : Prop :=
  zlen (log_Data l) < 2 ^ 63 /\ in_range 64 (log_Index l) /\
  Forall (in_range 256) (log_Topics l).

(** The three shapes of a log: wrong topics or too short, or decoded by words. *)
Lemma UnmarshalLogEvent_cases ev :
  Log_ok ev ->
  (exists e, UnmarshalLogEvent ev = Err e /\ forall t1 t2, ~ deposit_log_wf ev t1 t2) \/
  (exists t1 t2, log_Topics ev = [DepositEventABIHash; t1; t2] /\
     192 <= zlen (log_Data ev) /\
     UnmarshalLogEvent ev = UnmarshalLogEvent_words ev t1 t2).
Proof.
  intros (Hd & Hi & Ht).
  destruct (log_Topics ev) as [|t0 [|t1 [|t2 [|? ?]]]] eqn:E.
  1-3: left; eexists; split; [by unfold UnmarshalLogEvent; rewrite E|].
  1-3: intros ? ? (? & _); congruence.
  2: { left. eexists; split; [|intros ? ? (? & _); congruence].
       unfold UnmarshalLogEvent. rewrite E, !zlen_cons. pose proof (zlen_nonneg l).
       by rewrite (proj2 (Z.eqb_neq _ 3)) by lia. }
  destruct (decide (t0 = DepositEventABIHash)) as [->|Hne].
  2: { left. eexists; split; [|intros ? ? (? & _); congruence].
       unfold UnmarshalLogEvent. rewrite E.
       change (index [t0; t1; t2] 0) with (Ok t0). cbn [mbind res_bind].
       rewrite (proj2 (Z.eqb_neq t0 _)) by done. done. }
  destruct (decide (192 <= zlen (log_Data ev))) as [Hl|Hl].
  - right. exists t1, t2. rewrite !Forall_cons in Ht. split_and!; try done.
    destruct Ht as (_ & ? & ? & _). apply UnmarshalLogEvent_wordsE; done || lia.
  - left. eexists; split; [|intros ? ? (? & ? & _); lia].
    unfold UnmarshalLogEvent. rewrite E.
    change (index [_; t1; t2] 0) with (Ok DepositEventABIHash). cbn [mbind res_bind].
    rewrite (Z.eqb_refl DepositEventABIHash). cbn [negb fail_if mbind res_bind].
    rewrite (proj2 (Z.ltb_lt _ _)) by lia. done.
Qed.

Lemma UnmarshalLogEvent_words_ok ev t1 t2 :
  log_Topics ev = [DepositEventABIHash; t1; t2] -> 192 <= zlen (log_Data ev) < 2 ^ 63 ->
  match UnmarshalLogEvent_words ev t1 t2 with
  | Ok _ => deposit_log_wf ev t1 t2
  | Err _ => ~ deposit_log_wf ev t1 t2
  | _ => False
  end.
Proof.
  intros Ht Hd. unfold UnmarshalLogEvent_words, deposit_log_wf. cbv zeta.
  set (w2 := be_value (take 32 (drop (32 * 2) _))).
  set (w4 := be_value (take 32 (drop (32 * 4) _))).
  set (w5 := be_value (take 32 (drop (32 * 5) _))).
  assert (0 <= w5) by apply be_value_range.
  destruct (in_rangeb 64 w2) eqn:E2; cbn [negb fail_if mbind res_bind].
  2: { intros (_ & _ & H2%in_rangeb_spec & _). congruence. }
  destruct (Z.eqb_spec w4 160); cbn [negb fail_if mbind res_bind];
    [|by intros (_ & _ & _ & ? & _)].
  destruct (in_rangeb 64 w5) eqn:E5; cbn [negb fail_if mbind res_bind].
  2: { unfold in_rangeb in E5. lia. }
  destruct (Z.ltb_spec (zlen (log_Data ev) - 192) w5); cbn [negb fail_if mbind res_bind].
  { lia. }
  apply in_rangeb_spec in E2. split_and!; done || lia.
Qed.

Lemma UnmarshalLogEvent_returns ev : Log_ok ev -> returns (UnmarshalLogEvent ev) = true.
Proof.
  intros Hok. destruct (UnmarshalLogEvent_cases ev Hok)
    as [(e & -> & Hn)|(t1 & t2 & Ht & Hl & ->)]; [done|].
  pose proof (UnmarshalLogEvent_words_ok ev t1 t2 Ht ltac:(unfold Log_ok in Hok; lia)) as Hw.
  by destruct (UnmarshalLogEvent_words ev t1 t2).
Qed.

(** ** Properties *)

Lemma UnmarshalLogEvent_spec ev :
  Log_ok ev ->
  match UnmarshalLogEvent ev with
  | Ok dep => exists t1 t2, deposit_log_wf ev t1 t2 /\
      UnmarshalLogEvent_words ev t1 t2 = Ok dep
  | Err _ => forall t1 t2, ~ deposit_log_wf ev t1 t2
  | _ => False
  end.
Proof.
  intros Hok. destruct (UnmarshalLogEvent_cases ev Hok)
    as [(e & -> & Hn)|(t1 & t2 & Ht & Hl & ->)]; [done|].
  pose proof (UnmarshalLogEvent_words_ok ev t1 t2 Ht ltac:(unfold Log_ok in Hok; lia)) as Hw.
  destruct (UnmarshalLogEvent_words ev t1 t2) eqn:E; try done.
  - by exists t1, t2.
  - intros t1' t2' Hwf. assert (t1 = t1' /\ t2 = t2') as [<- <-]; [|done].
    destruct Hwf as (Ht' & _). rewrite Ht in Ht'. by simplify_eq.
Qed.

Lemma UnmarshalLogEvent_roundtrip addr bh idx dep :
  DepositTx_ok bh idx dep -> in_range 64 idx ->
  GenerateDepositLog addr bh idx dep ≫= UnmarshalLogEvent = Ok dep.
Proof.
  intros Hok Hi. destruct (GenerateDepositLog_layout addr bh idx dep Hok) as (pad & -> & Hp).
  cbn [mbind res_bind].
  assert (zlen (deposit_head dep ++ dep_Data dep ++ pad) =
    192 + zlen (dep_Data dep) + zlen pad) as Hlen.
  { rewrite !zlen_app. change (zlen (deposit_head dep)) with 192. lia. }
  pose proof (zlen_nonneg (dep_Data dep)). pose proof (zlen_nonneg pad).
  destruct Hok as (Hs & Hf & Ht & Hrest). unfold in_range in *.
  rewrite (UnmarshalLogEvent_wordsE _ (dep_From dep) (default 0 (dep_To dep))).
  - by apply UnmarshalLogEvent_words_layout.
  - done.
  - cbn [log_Data]. rewrite Hlen. destruct Hrest as (_ & _ & _ & ?). lia.
  - done.
  - unfold in_range. lia.
  - unfold in_range. destruct (dep_To dep); cbn; lia.
Qed.

(** [C29] The codec of deposit logs.  [UnmarshalLogEvent] never panics (every slice and
    index it takes is in range), it accepts exactly the well-formed deposit logs, and the
    deposit it returns carries the fields of the log, with the source hash of
    specs/deposits.md, a zero mint as nil and a creation as nil recipient.  Round trip: the
    log the deposit contract emits for a deposit decodes to that deposit, whatever the
    padding of its calldata. *)
Theorem UnmarshalLogEvent_codec :
  (forall ev, Log_ok ev ->
    match UnmarshalLogEvent ev with
    | Ok dep => exists t1 t2, deposit_log_wf ev t1 t2 /\ UnmarshalLogEvent_words ev t1 t2 = Ok dep
    | Err _ => forall t1 t2, ~ deposit_log_wf ev t1 t2
    | _ => False
    end) /\
  (forall addr bh idx dep, DepositTx_ok bh idx dep -> in_range 64 idx ->
    GenerateDepositLog addr bh idx dep ≫= UnmarshalLogEvent = Ok dep).
Proof. split; [exact UnmarshalLogEvent_spec|exact UnmarshalLogEvent_roundtrip]. Qed.

(** The deposit logs of the successful receipts, in order. *)
Definition deposit_logs (addr : Address) (receipts : list Receipt) : list Log :=
  receipts ≫= fun r =>
    if rc_Status r =? ReceiptStatusSuccessful
    then filter (fun l => is_deposit_log addr l = true) (rc_Logs r) else [].

Definition ok_of (l : Log) : option DepositTx :=
  match UnmarshalLogEvent l with Ok dep => Some dep | _ => None end.
Definition err_of (l : Log) : option error :=
  match UnmarshalLogEvent l with
  | Err e => Some (wrapw "malformatted L1 deposit log: " e) | _ => None end.

Lemma UserDeposits_logs_spec addr logs out errs :
  Forall Log_ok logs ->
  let ls := filter (fun l => is_deposit_log addr l = true) logs in
  UserDeposits_logs addr logs (out, errs) =
    Ok (out ++ omap ok_of ls, errs ++ omap err_of ls).
Proof.
  cbv zeta. intros Hok. revert out errs. induction Hok as [|l logs Hl _ IH]; intros out errs.
  { cbn. by rewrite !app_nil_r. }
  cbn [UserDeposits_logs]. rewrite filter_cons.
  destruct (is_deposit_log addr l); [|by rewrite decide_False by done].
  rewrite decide_True by done. cbn [omap list_omap]. unfold ok_of at 1, err_of at 1.
  pose proof (UnmarshalLogEvent_returns l Hl).
  destruct (UnmarshalLogEvent l); [| |done|done]; rewrite IH, <-app_assoc; done.
Qed.

Lemma UserDeposits_receipts_spec addr receipts out errs :
  Forall (fun r => Forall Log_ok (rc_Logs r)) receipts ->
  UserDeposits_receipts addr receipts (out, errs) =
    Ok (out ++ omap ok_of (deposit_logs addr receipts),
        errs ++ omap err_of (deposit_logs addr receipts)).
Proof.
  intros Hok. revert out errs. induction Hok as [|r rs Hr _ IH]; intros out errs.
  { cbn. by rewrite !app_nil_r. }
  cbn [UserDeposits_receipts]. unfold deposit_logs. rewrite bind_cons, !omap_app.
  destruct (rc_Status r =? ReceiptStatusSuccessful); cbn [negb].
  - rewrite UserDeposits_logs_spec by done. cbn [mbind res_bind].
    by rewrite IH, <-!app_assoc.
  - apply IH.
Qed.

(** What the deposits depend on of a receipt. *)
Definition receipt_read (r : Receipt) : uint64 * list Log := (rc_Status r, rc_Logs r).
Lemma UserDeposits_read rs rs' addr :
  receipt_read <$> rs = receipt_read <$> rs' -> UserDeposits rs addr = UserDeposits rs' addr.
Proof.
  unfold UserDeposits. generalize (@nil DepositTx, @nil error). revert rs'.
  induction rs as [|r rs IH]; intros [|r' rs'] acc E; try done. injection E as Es El E.
  cbn [UserDeposits_receipts]. rewrite Es, El. destruct (negb _); [by apply IH|].
  destruct (UserDeposits_logs addr (rc_Logs r') acc); cbn [mbind res_bind]; auto.
Qed.
Lemma DeriveDeposits_read rs rs' addr :
  receipt_read <$> rs = receipt_read <$> rs' -> DeriveDeposits rs addr = DeriveDeposits rs' addr.
Proof. intros E. unfold DeriveDeposits. by rewrite (UserDeposits_read rs rs'). Qed.

(** [C13] [UserDeposits] decodes the deposit logs of the successful receipts in
    order: the deposits and the errors it returns partition them, so no deposit
    log is dropped, duplicated or reordered, and no other log contributes. *)
Theorem UserDeposits_spec receipts addr :
  Forall (fun r => Forall Log_ok (rc_Logs r)) receipts ->
  let logs := deposit_logs addr receipts in
  UserDeposits receipts addr = Ok (omap ok_of logs, omap err_of logs) /\
  (length (omap ok_of logs) + length (omap err_of logs) = length logs)%nat.
Proof.
  intros Hok logs. split; [by apply (UserDeposits_receipts_spec addr receipts [] [])|].
  assert (Forall Log_ok logs) as Hl.
  { apply Forall_forall. intros l. unfold logs, deposit_logs.
    rewrite list_elem_of_bind. intros (r & Hin & Hr).
    rewrite Forall_forall in Hok. specialize (Hok r Hr).
    case_match; [|by apply elem_of_nil in Hin].
    apply list_elem_of_filter in Hin as [_ Hin]. rewrite Forall_forall in Hok. auto. }
  clearbody logs. induction Hl as [|l ls Hl _ IH]; [done|].
  pose proof (UnmarshalLogEvent_returns l Hl) as Hp.
  cbn [omap list_omap]. unfold ok_of at 1, err_of at 1.
  destruct (UnmarshalLogEvent l); cbn [length]; [lia|lia|done|done].
Qed.
End Deposits.

(** ** Witnesses: one deposit of 5 bytes of calldata, minting and sending. *)
Section Witnesses.
#[local] Existing Instance ToyKeccak.

Definition deposit_example : DepositTx :=
  mkDepositTx (sourceHash_spec 0 77 3) 0xabc (Some 0xdef) (Some 1000) 999 50000
    [x01; x02; x03; x04; x05].
Definition log_example : Log :=
  match GenerateDepositLog 0x1234 77 3 deposit_example with
  | Ok l => l | _ => mkLog 0 [] [] 0 0 0 0 0 false end.

Lemma Log_ok_example : Log_ok log_example.
Proof.
  split_and!; [vm_compute; done|vm_compute; done|].
  repeat constructor; vm_compute; done.
Defined.

Lemma UnmarshalLogEvent_codec_witness :
  match UnmarshalLogEvent log_example with
  | Ok dep => exists t1 t2, deposit_log_wf log_example t1 t2 /\
      UnmarshalLogEvent_words log_example t1 t2 = Ok dep
  | Err _ => forall t1 t2, ~ deposit_log_wf log_example t1 t2
  | _ => False
  end /\
  GenerateDepositLog 0x1234 77 3 deposit_example ≫= UnmarshalLogEvent = Ok deposit_example.
Proof.
  split; [apply (proj1 UnmarshalLogEvent_codec log_example), Log_ok_example|].
  apply (proj2 UnmarshalLogEvent_codec 0x1234 77 3 deposit_example).
  - repeat split; vm_compute; congruence.
  - split; vm_compute; congruence.
Defined.

Definition receipts_example : list Receipt :=
  [mkReceipt x02 [] 0 21000 0 [log_example] 0 (Some 1) 77 5;
   mkReceipt x02 [] 1 21000 0 [log_example; mkLog 0x1234 [DepositEventABIHash] [] 0 0 0 77 4 false;
                mkLog 0x9999 [] [] 0 0 0 77 5 false] 1 (Some 1) 77 6].

Lemma UserDeposits_spec_witness :
  let logs := deposit_logs 0x1234 receipts_example in
  UserDeposits receipts_example 0x1234 = Ok (omap ok_of logs, omap err_of logs) /\
  (length (omap ok_of logs) + length (omap err_of logs) = length logs)%nat.
Proof.
  apply (UserDeposits_spec receipts_example 0x1234).
  repeat (apply Forall_cons; split); try apply Forall_nil; try done.
  all: repeat (apply Forall_cons; split); try apply Forall_nil; try done.
  all: try apply Log_ok_example.
  all: split_and!; [vm_compute; done|vm_compute; done|].
  all: repeat constructor; vm_compute; done.
Defined.

Example UserDeposits_example :
  UserDeposits receipts_example 0x1234 = Ok ([deposit_example],
    [wrapw "malformatted L1 deposit log: "
       (EMsg "expected 3 event topics (event identity, indexed from, indexed to)")]).
Proof. vm_compute. done. Qed.
End Witnesses.
