(* ===== verification/Batches.v ===== *)
(** * Sequencer batches

    op-node/rollup/derive/batch.go (the batch and bundle formats) and the batch
    half of payload_attributes.go: reading the batches out of L1 transactions,
    filtering them, and completing them to one batch per L2 block. *)

From S2P Require Import Prelude Types Geth.

Definition BatchV1Type : Z := 0.
Definition BatchBundleV1Type : Z := 0.
Definition BatchBundleV2Type : Z := 1.

(** [BatchV1]; [BatchData] embeds it and adds nothing. *)
Record BatchV1 := mkBatchV1 {
  b_Epoch : uint64; (* aka l1 num *)
  b_Timestamp : uint64;
  b_Transactions : list Data;
}.
Abbreviation BatchData := BatchV1 (only parsing).

#[export] Instance BatchV1_eq_dec : EqDecision BatchV1.
Proof. solve_decision. Defined.

(** go-ethereum's rlp package, as batch.go calls it. *)
Class RLP := {
  rlp_bytes : list byte -> list byte;          (* Encode(w, []byte) *)
  rlp_list : list (list byte) -> list byte;    (* list header around encoded items *)
  rlp_BatchV1 : BatchV1 -> res (list byte);    (* Encode(buf, &b.BatchV1) *)
  rlp_items : list byte -> res (list (list byte)); (* Decode(r, &list): the items *)
  rlp_s_Bytes : list byte -> res (list byte);      (* s.Bytes() on one item *)
  rlp_DecodeBatchV1 : list byte -> res BatchV1;    (* DecodeBytes(data, &b.BatchV1) *)
}.

(** The documented round trips of the package. *)
Class RLPLaws `{RLP} := {
  rlp_items_list : forall items, rlp_items (rlp_list items) = Ok items;
  rlp_s_Bytes_bytes : forall b, rlp_s_Bytes (rlp_bytes b) = Ok b;
  rlp_BatchV1_roundtrip : forall b e, rlp_BatchV1 b = Ok e -> rlp_DecodeBatchV1 e = Ok b;
}.

Section Format.
Context `{RLP}.

(** [BatchData.encodeTyped] and [MarshalBinary] *)
Definition encodeTyped (b : BatchData) : res (list byte) :=
  e ← rlp_BatchV1 b; Ok (z2b BatchV1Type :: e).
Definition BatchData_MarshalBinary (b : BatchData) : res (list byte) := encodeTyped b.

(** [BatchData.EncodeRLP] *)
Definition BatchData_EncodeRLP (b : BatchData) : res (list byte) :=
  buf ← encodeTyped b; Ok (rlp_bytes buf).

(** [BatchData.decodeTyped] and [UnmarshalBinary] *)
Definition decodeTyped (data : list byte) : res BatchData :=
  match data with
  | [] => Err (EMsg "batch too short")
  | t :: rest =>
      if b2z t =? BatchV1Type then rlp_DecodeBatchV1 rest
      else Err (EMsg "unrecognized batch type")
  end.
Definition BatchData_UnmarshalBinary (data : list byte) : res BatchData :=
  decodeTyped data.

(** [BatchData.DecodeRLP] *)
Definition BatchData_DecodeRLP (item : list byte) : res BatchData :=
  v ← rlp_s_Bytes item; decodeTyped v.

Fixpoint mapM_res {A B} (f : A -> res B) (l : list A) : res (list B) :=
  match l with
  | [] => Ok []
  | x :: l => y ← f x; ys ← mapM_res f l; Ok (y :: ys)
  end.

(** [DecodeBatches] *)
Definition DecodeBatches (r : list byte) : res (list BatchData) :=
  match r with
  | [] => Err (EMsg "failed to read batch bundle type byte: EOF")
  | t :: r =>
      if b2z t =? BatchBundleV1Type then
        map_err (wrapv "failed to decode v1 batches list: ")
          (items ← rlp_items r; mapM_res BatchData_DecodeRLP items)
      else if b2z t =? BatchBundleV2Type then Err (EMsg "bundle v2 not supported yet")
      else Err (EMsg "unrecognized batch bundle type")
  end.

(** [EncodeBatches]: the bytes written to [w] (a buffer, which never fails). *)
Definition EncodeBatches (batches : list BatchData) : res (list byte) :=
  let bundleType := BatchBundleV1Type in
  if bundleType =? BatchBundleV1Type then
    payload ← map_err (wrapv "failed to encode RLP-list payload of v1 bundle: ")
      (items ← mapM_res BatchData_EncodeRLP batches; Ok (rlp_list items));
    Ok (z2b bundleType :: payload)
  else if bundleType =? BatchBundleV2Type then Err (EMsg "bundle v2 not supported yet")
  else Err (EMsg "unrecognized batch bundle type").
End Format.

Section Derivation.
Context `{RLP} `{GethTypes}.

(** [BatchesFromEVMTransactions]: the inner loop over one list of transactions. *)
Fixpoint BatchesFromEVMTransactions_txs (config : Config) (txs : list Transaction)
    (out : list BatchData) : res (list BatchData) :=
  match txs with
  | [] => Ok out
  | tx :: txs =>
      if bool_decide (tx_To tx = Some (cfg_BatchInboxAddress config)) then
        match tx_Sender (cfg_L1ChainID config) tx with
        | Err _ => BatchesFromEVMTransactions_txs config txs out
        | Ok seqDataSubmitter =>
            if negb (seqDataSubmitter =? cfg_BatchSenderAddress config)
            then BatchesFromEVMTransactions_txs config txs out
            else match DecodeBatches (tx_Data tx) with
                 | Err _ => BatchesFromEVMTransactions_txs config txs out
                 | Ok batches => BatchesFromEVMTransactions_txs config txs (out ++ batches)
                 | Panic => Panic
                 | OutOfFuel => OutOfFuel
                 end
        | Panic => Panic
        | OutOfFuel => OutOfFuel
        end
      else BatchesFromEVMTransactions_txs config txs out
  end.

Fixpoint BatchesFromEVMTransactions_lists (config : Config)
    (txLists : list (list Transaction)) (out : list BatchData) : res (list BatchData) :=
  match txLists with
  | [] => Ok out
  | txs :: txLists =>
      out ← BatchesFromEVMTransactions_txs config txs out;
      BatchesFromEVMTransactions_lists config txLists out
  end.

Definition BatchesFromEVMTransactions (config : Config)
    (txLists : list (list Transaction)) : res (list BatchData) :=
  BatchesFromEVMTransactions_lists config txLists [].

(** The loop of [ValidBatch] over the batch's transactions. *)
Fixpoint ValidBatch_txs (txs : list Data) : bool :=
  match txs with
  | [] => true
  | txBytes :: txs =>
      match txBytes with
      | [] => false (* transaction data must not be empty *)
      | t :: _ => if bool_decide (t = DepositTxType) then false else ValidBatch_txs txs
      end
  end.

(** [ValidBatch]; the remainder panics when the block time is 0. *)
Definition ValidBatch (batch : BatchData) (config : Config) (epoch minL2Time maxL2Time : uint64)
    : res bool :=
  if negb (b_Epoch batch =? epoch) then Ok false
  else if cfg_BlockTime config =? 0 then Panic
  else if negb ((b_Timestamp batch -64 gen_L2Time (cfg_Genesis config))
                  mod cfg_BlockTime config =? 0) then Ok false
  else if b_Timestamp batch <? minL2Time then Ok false
  else if maxL2Time <=? b_Timestamp batch then Ok false
  else Ok (ValidBatch_txs (b_Transactions batch)).

(** [FilterBatches]; [uniqueTime] is the set of timestamps seen. *)
Fixpoint FilterBatches_loop (config : Config) (epoch minL2Time maxL2Time : uint64)
    (batches : list BatchData) (uniqueTime : gset Z) (out : list BatchData)
    : res (list BatchData) :=
  match batches with
  | [] => Ok out
  | batch :: batches =>
      valid ← ValidBatch batch config epoch minL2Time maxL2Time;
      if negb valid then
        FilterBatches_loop config epoch minL2Time maxL2Time batches uniqueTime out
      else if bool_decide (b_Timestamp batch ∈ uniqueTime) then
        (* block already exists, batch is duplicate (first batch persists) *)
        FilterBatches_loop config epoch minL2Time maxL2Time batches uniqueTime out
      else FilterBatches_loop config epoch minL2Time maxL2Time batches
             ({[b_Timestamp batch]} ∪ uniqueTime) (out ++ [batch])
  end.

Definition FilterBatches (config : Config) (epoch minL2Time maxL2Time : uint64)
    (batches : list BatchData) : res (list BatchData) :=
  FilterBatches_loop config epoch minL2Time maxL2Time batches ∅ [].

(** [FillMissingBatches]: the first loop collects the batches by timestamp and
    raises the head; the second emits one batch per block time. *)
Definition FillMissingBatches_collect (batches : list BatchData) (newHead : uint64)
    : gmap Z BatchData * uint64 :=
  foldl (fun acc b =>
    let '(m, newHead) := acc in
    (<[b_Timestamp b := b]> m,
     if newHead <? b_Timestamp b then b_Timestamp b else newHead)) (∅, newHead) batches.

Fixpoint FillMissingBatches_emit (fuel : nat) (m : gmap Z BatchData)
    (epoch blockTime newHead t : uint64) (out : list BatchData) : res (list BatchData) :=
  match fuel with
  | O => OutOfFuel
  | S fuel =>
      if t <=? newHead then
        let b := match m !! t with Some b => b | None => mkBatchV1 epoch t [] end in
        FillMissingBatches_emit fuel m epoch blockTime newHead (t +64 blockTime) (out ++ [b])
      else Ok out
  end.

Definition FillMissingBatches (fuel : nat) (batches : list BatchData)
    (epoch blockTime minL2Time nextL1Time : uint64) : res (list BatchData) :=
  let newHeadL2Timestamp := minL2Time in
  let newHeadL2Timestamp :=
    if newHeadL2Timestamp +64 blockTime <? nextL1Time
    then nextL1Time -64 blockTime else newHeadL2Timestamp in
  let '(m, newHeadL2Timestamp) := FillMissingBatches_collect batches newHeadL2Timestamp in
  FillMissingBatches_emit fuel m epoch blockTime newHeadL2Timestamp minL2Time [].
End Derivation.

(** ** The bundle format *)
Section FormatProofs.
Context `{RLPLaws}.

Lemma decodeTyped_encodeTyped b e : encodeTyped b = Ok e -> decodeTyped e = Ok b.
Proof.
  unfold encodeTyped. intros E. go_inv. unfold decodeTyped.
  change (b2z (z2b BatchV1Type) =? BatchV1Type) with true. cbv iota.
  by apply rlp_BatchV1_roundtrip.
Qed.

Lemma BatchData_DecodeRLP_EncodeRLP b e :
  BatchData_EncodeRLP b = Ok e -> BatchData_DecodeRLP e = Ok b.
Proof.
  unfold BatchData_EncodeRLP, BatchData_DecodeRLP. intros E. go_inv.
  rewrite rlp_s_Bytes_bytes. cbn [mbind res_bind]. by apply decodeTyped_encodeTyped.
Qed.

Lemma mapM_res_inverse {A B} (f : A -> res B) (g : B -> res A) l l' :
  (forall x y, f x = Ok y -> g y = Ok x) -> mapM_res f l = Ok l' -> mapM_res g l' = Ok l.
Proof.
  intros Hfg. revert l'. induction l as [|x l IH]; intros l' E; cbn in E; go_inv; [done|].
  cbn. by erewrite Hfg, IH by done.
Qed.

Lemma EncodeBatches_roundtrip batches e :
  EncodeBatches batches = Ok e -> DecodeBatches e = Ok batches.
Proof.
  unfold EncodeBatches. simpl (BatchBundleV1Type =? _). cbv iota. intros E. go_inv.
  unfold DecodeBatches. change (b2z (z2b BatchBundleV1Type) =? BatchBundleV1Type) with true. cbv iota.
  rewrite rlp_items_list. cbn [mbind res_bind].
  by erewrite (mapM_res_inverse BatchData_EncodeRLP) by eauto using BatchData_DecodeRLP_EncodeRLP.
Qed.

End FormatProofs.

(** ** Reading, filtering and completing batches *)
Section DerivationProofs.
Context `{RLP} `{GethTypes}.

(** The batches one transaction contributes. *)
Definition tx_batches (config : Config) (tx : Transaction) : list BatchData :=
  if bool_decide (tx_To tx = Some (cfg_BatchInboxAddress config)) then
    match tx_Sender (cfg_L1ChainID config) tx with
    | Ok sender =>
        if sender =? cfg_BatchSenderAddress config then
          match DecodeBatches (tx_Data tx) with Ok batches => batches | _ => [] end
        else []
    | _ => []
    end
  else [].

Lemma BatchesFromEVMTransactions_txs_spec config txs out :
  (forall tx, tx ∈ txs -> returns (tx_Sender (cfg_L1ChainID config) tx) = true /\
              returns (DecodeBatches (tx_Data tx)) = true) ->
  BatchesFromEVMTransactions_txs config txs out = Ok (out ++ (txs ≫= tx_batches config)).
Proof.
  revert out. induction txs as [|tx txs IH]; intros out Hret.
  { cbn. by rewrite app_nil_r. }
  destruct (Hret tx ltac:(left)) as [H1 H2].
  specialize (fun out => IH out (fun tx' Hin => Hret tx' (list_elem_of_further _ _ _ Hin))).
  cbn [BatchesFromEVMTransactions_txs]. rewrite bind_cons. unfold tx_batches at 1.
  case_bool_decide; [|apply IH].
  revert H1 H2. destruct (tx_Sender _ tx) as [a| | |]; try done; intros _ H2.
  destruct (a =? _); cbn [negb]; [|apply IH].
  revert H2. destruct (DecodeBatches _); try done; intros _.
  by rewrite IH, <-app_assoc.
Qed.

Lemma BatchesFromEVMTransactions_lists_spec config txLists out :
  (forall txs tx, txs ∈ txLists -> tx ∈ txs ->
     returns (tx_Sender (cfg_L1ChainID config) tx) = true /\
     returns (DecodeBatches (tx_Data tx)) = true) ->
  BatchesFromEVMTransactions_lists config txLists out =
    Ok (out ++ (concat txLists ≫= tx_batches config)).
Proof.
  revert out. induction txLists as [|txs txLists IH]; intros out Hret.
  { cbn. by rewrite app_nil_r. }
  cbn [BatchesFromEVMTransactions_lists].
  rewrite BatchesFromEVMTransactions_txs_spec by (intros; eapply Hret; [left|done]).
  cbn [mbind res_bind concat]. rewrite IH.
  - by rewrite bind_app, <-app_assoc.
  - intros txs' tx Hin. apply Hret. by right.
Qed.

(** [C14] The batches read from L1 are exactly those of the transactions sent to
    the batch inbox and signed by the configured batcher whose calldata decodes,
    in the order of the blocks and transactions; anything else is ignored and
    never aborts the reading. *)
Theorem BatchesFromEVMTransactions_spec config txLists :
  (forall txs tx, txs ∈ txLists -> tx ∈ txs ->
     returns (tx_Sender (cfg_L1ChainID config) tx) = true /\
     returns (DecodeBatches (tx_Data tx)) = true) ->
  BatchesFromEVMTransactions config txLists =
    Ok (concat txLists ≫= tx_batches config).
Proof. apply (BatchesFromEVMTransactions_lists_spec config txLists []). Qed.

(** *** FilterBatches *)

Definition valid (config : Config) (epoch minL2Time maxL2Time : Z) (b : BatchData) : Prop :=
  ValidBatch b config epoch minL2Time maxL2Time = Ok true.

#[export] Instance valid_dec config epoch lo hi b : Decision (valid config epoch lo hi b).
Proof.
  unfold valid. destruct (ValidBatch b config epoch lo hi) as [[]| | |].
  1: by left.
  all: by right.
Defined.

Lemma ValidBatch_returns config epoch lo hi b :
  cfg_BlockTime config <> 0 -> exists v, ValidBatch b config epoch lo hi = Ok v.
Proof.
  intros Hbt. unfold ValidBatch. rewrite (proj2 (Z.eqb_neq (cfg_BlockTime config) 0)) by done.
  repeat case_match; eauto.
Qed.

Lemma valid_inv config epoch lo hi b :
  valid config epoch lo hi b ->
  b_Epoch b = epoch /\ lo <= b_Timestamp b < hi /\
  (b_Timestamp b -64 gen_L2Time (cfg_Genesis config)) mod cfg_BlockTime config = 0 /\
  ValidBatch_txs (b_Transactions b) = true.
Proof.
  unfold valid, ValidBatch. intros E. repeat case_match; simplify_eq.
  repeat match goal with
  | H : negb _ = false |- _ => apply negb_false_iff in H
  | H : (_ =? _) = true |- _ => apply Z.eqb_eq in H
  end. split_and!; lia || congruence.
Qed.

(** The reference: the valid batches, keeping the first of each timestamp. *)
Fixpoint first_per_time (seen : gset Z) (batches : list BatchData) : list BatchData :=
  match batches with
  | [] => []
  | b :: batches =>
      if decide (b_Timestamp b ∈ seen) then first_per_time seen batches
      else b :: first_per_time ({[b_Timestamp b]} ∪ seen) batches
  end.

Lemma FilterBatches_loop_spec config epoch lo hi batches seen out :
  cfg_BlockTime config <> 0 ->
  FilterBatches_loop config epoch lo hi batches seen out =
    Ok (out ++ first_per_time seen (filter (valid config epoch lo hi) batches)).
Proof.
  intros Hbt. revert seen out. induction batches as [|b batches IH]; intros seen out.
  { cbn. by rewrite app_nil_r. }
  cbn [FilterBatches_loop].
  destruct (ValidBatch_returns config epoch lo hi b Hbt) as [[] Hv];
    rewrite Hv; cbn [mbind res_bind negb].
  - rewrite filter_cons_True by done. cbn [first_per_time].
    case_bool_decide; [by rewrite decide_True by done|].
    rewrite decide_False by done. by rewrite IH, <-app_assoc.
  - rewrite filter_cons_False by (unfold valid; congruence). done.
Qed.

Lemma first_per_time_sublist seen bs : first_per_time seen bs `sublist_of` bs.
Proof.
  revert seen. induction bs as [|b bs IH]; intros seen; cbn; [constructor|].
  case_decide; by constructor.
Qed.
Lemma first_per_time_fresh seen bs b :
  b ∈ first_per_time seen bs -> b_Timestamp b ∉ seen.
Proof.
  revert seen. induction bs as [|b' bs IH]; intros seen; cbn; [by intros ?%elem_of_nil|].
  case_decide; [apply IH|]. intros [->|Hin]%elem_of_cons; [done|].
  apply IH in Hin. set_solver.
Qed.
Lemma first_per_time_NoDup seen bs : NoDup (b_Timestamp <$> first_per_time seen bs).
Proof.
  revert seen. induction bs as [|b bs IH]; intros seen; cbn; [constructor|].
  case_decide; [apply IH|]. rewrite fmap_cons. constructor; [|apply IH].
  intros (b' & Heq & Hin)%list_elem_of_fmap. apply first_per_time_fresh in Hin. set_solver.
Qed.
Lemma first_per_time_first seen pre b post :
  b_Timestamp b ∉ seen -> b_Timestamp b ∉ b_Timestamp <$> pre ->
  b ∈ first_per_time seen (pre ++ b :: post).
Proof.
  revert seen. induction pre as [|b' pre IH]; intros seen Hs Hp; cbn.
  - rewrite decide_False by done. left.
  - rewrite fmap_cons, not_elem_of_cons in Hp. destruct Hp as [Hne Hp].
    case_decide; [by apply IH|]. right. apply IH; [|done].
    rewrite not_elem_of_union, not_elem_of_singleton. done.
Qed.

(** [C11] [FilterBatches] returns, in order and without repeated timestamps, valid
    batches only, and for each timestamp the first valid batch that carries it. *)
Theorem FilterBatches_spec config epoch lo hi batches :
  cfg_BlockTime config <> 0 ->
  exists out, FilterBatches config epoch lo hi batches = Ok out /\
    out `sublist_of` batches /\ Forall (valid config epoch lo hi) out /\
    NoDup (b_Timestamp <$> out) /\
    forall pre b post, batches = pre ++ b :: post -> valid config epoch lo hi b ->
      (forall b', b' ∈ pre -> valid config epoch lo hi b' ->
         b_Timestamp b' <> b_Timestamp b) -> b ∈ out.
Proof.
  intros Hbt. eexists. split; [by apply FilterBatches_loop_spec|]. rewrite app_nil_l.
  split_and!.
  - etrans; [apply first_per_time_sublist|]. apply sublist_filter.
  - apply Forall_forall. intros b Hin.
    by eapply list_elem_of_filter, elem_of_sublist, first_per_time_sublist.
  - apply first_per_time_NoDup.
  - intros pre b post -> Hv Hfirst. rewrite filter_app, filter_cons_True by done.
    apply first_per_time_first; [set_solver|].
    intros (b' & Heq & [Hb' Hin]%list_elem_of_filter)%list_elem_of_fmap.
    by apply (Hfirst b').
Qed.

(** *** FillMissingBatches *)

(** The head timestamp the fill loop runs up to. *)
Definition fill_head (batches : list BatchData) (blockTime minL2Time nextL1Time : Z) : Z :=
  foldl Z.max (if minL2Time + blockTime <? nextL1Time
               then nextL1Time - blockTime else minL2Time)
    (b_Timestamp <$> batches).
(** The batch emitted for time [t]: the last one given for it, or an empty one. *)
Definition fill_batch (batches : list BatchData) (epoch t : Z) : BatchData :=
  match list_find (fun b => b_Timestamp b = t) (reverse batches) with
  | Some (_, b) => b
  | None => mkBatchV1 epoch t []
  end.

Lemma FillMissingBatches_collect_snoc bs b newHead :
  FillMissingBatches_collect (bs ++ [b]) newHead =
    let '(m, h) := FillMissingBatches_collect bs newHead in
    (<[b_Timestamp b := b]> m, if h <? b_Timestamp b then b_Timestamp b else h).
Proof. unfold FillMissingBatches_collect. by rewrite foldl_snoc. Qed.

Lemma list_find_cons {A} (P : A -> Prop) `{forall x, Decision (P x)} x l :
  list_find P (x :: l) = if decide (P x) then Some (0%nat, x) else prod_map S id <$> list_find P l.
Proof. done. Qed.

Lemma FillMissingBatches_collect_spec bs newHead :
  let '(m, h) := FillMissingBatches_collect bs newHead in
  h = foldl Z.max newHead (b_Timestamp <$> bs) /\
  forall t, m !! t = snd <$> list_find (fun b => b_Timestamp b = t) (reverse bs).
Proof.
  induction bs as [|b bs IH] using rev_ind; [done|].
  rewrite FillMissingBatches_collect_snoc.
  destruct (FillMissingBatches_collect bs newHead) as [m h].
  destruct IH as [-> Hm]. split.
  - rewrite fmap_app, foldl_app. cbn. case_match; lia.
  - intros t. rewrite reverse_app. cbn -[list_find]. rewrite lookup_insert.
    change (reverse [b] ++ reverse bs) with (b :: reverse bs).
    rewrite list_find_cons. repeat case_decide; try done.
    rewrite Hm. by destruct (list_find _ _) as [[]|].
Qed.

Lemma FillMissingBatches_emit_spec m epoch bt h n fuel t out :
  (n < fuel)%nat -> 0 < bt -> 0 <= t ->
  (forall k, (k < n)%nat -> t + Z.of_nat k * bt <= h) ->
  h < t + Z.of_nat n * bt < 2 ^ 64 ->
  FillMissingBatches_emit fuel m epoch bt h t out =
    Ok (out ++ ((fun k => let t' := t + Z.of_nat k * bt in
          default (mkBatchV1 epoch t' []) (m !! t')) <$> seq 0 n)).
Proof.
  intros Hf Hbt. revert fuel t out Hf.
  induction n as [|n IH]; intros [|fuel] t out Hf Ht Hk Hh; try lia.
  - cbn. rewrite (proj2 (Z.leb_gt _ _)) by lia. by rewrite app_nil_r.
  - cbn [FillMissingBatches_emit].
    rewrite (proj2 (Z.leb_le t h)) by (specialize (Hk 0%nat ltac:(lia)); lia).
    rewrite wrap_small by (unfold in_range; nia).
    rewrite IH; try lia.
    + change (seq 0 (S n)) with (0%nat :: seq 1 n). rewrite fmap_cons, <-fmap_S_seq.
      rewrite <-app_assoc, <-list_fmap_compose. do 2 f_equal. cbn [app]. f_equal.
      * replace (t + Z.of_nat 0 * bt) with t by lia. destruct (m !! t); reflexivity.
      * apply list_fmap_ext. intros i k _. cbn.
        replace (t + Z.of_nat (S k) * bt) with (t + bt + Z.of_nat k * bt) by lia. reflexivity.
    + intros k ?. specialize (Hk (S k) ltac:(lia)). lia.
Qed.

Lemma foldl_max_base l z : z <= foldl Z.max z l.
Proof. revert z. induction l as [|x l IH]; intros z; cbn; [lia|]. specialize (IH (Z.max z x)). lia. Qed.
Lemma fill_head_min bs bt lo next : 0 < bt -> lo <= fill_head bs bt lo next.
Proof.
  intros Hbt. unfold fill_head. etrans; [|apply foldl_max_base]. case_match; lia.
Qed.
Lemma fill_head_next bs bt lo next : 0 < bt -> next - bt <= fill_head bs bt lo next.
Proof.
  intros ?. unfold fill_head. etrans; [|apply foldl_max_base]. case_match; lia.
Qed.

(** [FillMissingBatches] terminates and returns one batch for each of the
    times [minL2Time, minL2Time + blockTime, ...] up to the head (the latest batch,
    or the next L1 block less a block time), at least one: the last batch given for
    that time, or else an empty batch of the epoch.  The sums must fit 64 bits and
    the fuel cover the steps. *)
Lemma FillMissingBatches_spec fuel batches epoch bt minL2Time nextL1Time :
  0 < bt -> 0 <= minL2Time -> 0 <= nextL1Time < 2 ^ 64 ->
  Forall (fun b => 0 <= b_Timestamp b < 2 ^ 64) batches ->
  let h := fill_head batches bt minL2Time nextL1Time in
  let n := S (Z.to_nat ((h - minL2Time) / bt)) in
  h + bt < 2 ^ 64 -> (n < fuel)%nat ->
  FillMissingBatches fuel batches epoch bt minL2Time nextL1Time =
    Ok ((fun k => fill_batch batches epoch (minL2Time + Z.of_nat k * bt)) <$> seq 0 n).
Proof.
  intros Hbt Hmin Hnext Hbs h n Hfit Hfuel. unfold FillMissingBatches.
  pose proof (fill_head_min batches bt minL2Time nextL1Time Hbt) as Hh. fold h in Hh.
  assert (Hbt64 : minL2Time + bt < 2 ^ 64) by lia.
  set (h0 := if _ <? _ then _ else _).
  assert (E0 : h0 = if minL2Time + bt <? nextL1Time then nextL1Time - bt else minL2Time).
  { unfold h0. rewrite (wrap_small 64 (minL2Time + bt)) by (unfold in_range; lia).
    case_match; [|done]. apply wrap_small. unfold in_range. lia. }
  pose proof (FillMissingBatches_collect_spec batches h0) as Hc.
  destruct (FillMissingBatches_collect batches h0) as [m hd]. destruct Hc as [-> Hm].
  rewrite E0. fold (fill_head batches bt minL2Time nextL1Time). fold h.
  pose proof (Z.div_mod (h - minL2Time) bt ltac:(lia)).
  pose proof (Z.mod_pos_bound (h - minL2Time) bt ltac:(lia)).
  pose proof (Z.div_pos (h - minL2Time) bt ltac:(lia) ltac:(lia)).
  rewrite (FillMissingBatches_emit_spec _ _ _ _ n)
    by (subst n; first [lia | intros; nia | nia]).
  rewrite app_nil_l. f_equal. apply list_fmap_ext. intros _ k _. cbn.
  unfold fill_batch. rewrite Hm. by destruct (list_find _ _) as [[]|].
Qed.


Lemma foldl_max_le l z hi : z <= hi -> Forall (fun x => x <= hi) l -> foldl Z.max z l <= hi.
Proof.
  intros Hz Hl. revert z Hz. induction Hl as [|x l ? ? IH]; intros z ?; cbn; [done|].
  apply IH. lia.
Qed.
Lemma foldl_max_ge l z x : x ∈ l -> x <= foldl Z.max z l.
Proof.
  intros Hin. pose proof (list_elem_of_split _ _ Hin) as (l1 & l2 & ->).
  rewrite foldl_app. cbn. generalize (foldl Z.max z l1). intros y.
  pose proof (foldl_max_base l2 (Z.max y x)). lia.
Qed.
Lemma fill_head_ge bs bt lo next b : b ∈ bs -> b_Timestamp b <= fill_head bs bt lo next.
Proof. intros ?. apply foldl_max_ge, list_elem_of_fmap. eauto. Qed.

Lemma FillMissingBatches_emit_prefix fuel m epoch bt h t out full :
  FillMissingBatches_emit fuel m epoch bt h t out = Ok full -> out `prefix_of` full.
Proof.
  revert t out. induction fuel as [|fuel IH]; intros t out E; [done|].
  cbn [FillMissingBatches_emit] in E. case_match; [|by injection E as ->].
  apply IH in E. by eapply prefix_app_l.
Qed.

(** One batch per unit of fuel at most. *)
Lemma FillMissingBatches_emit_length fuel m epoch bt h t out full :
  FillMissingBatches_emit fuel m epoch bt h t out = Ok full ->
  (length full <= length out + fuel)%nat.
Proof.
  revert t out. induction fuel as [|fuel IH]; intros t out E; [done|].
  cbn [FillMissingBatches_emit] in E. destruct (t <=? h); [|injection E as ->; lia].
  apply IH in E. rewrite length_app in E. simpl in E. lia.
Qed.
Lemma FillMissingBatches_length fuel bs epoch bt lo next full :
  FillMissingBatches fuel bs epoch bt lo next = Ok full -> (length full <= fuel)%nat.
Proof.
  unfold FillMissingBatches. cbv zeta. destruct (FillMissingBatches_collect _ _) as [m h].
  apply FillMissingBatches_emit_length.
Qed.

(** At least one batch comes out, unless the times overflow. *)
Lemma FillMissingBatches_nonempty fuel bs epoch bt lo next full :
  0 < bt -> 0 <= lo -> lo + bt < 2 ^ 64 -> next < 2 ^ 64 ->
  FillMissingBatches fuel bs epoch bt lo next = Ok full -> full <> [].
Proof.
  intros Hbt Hlo Hfit Hnext E. unfold FillMissingBatches in E.
  rewrite (wrap_small 64 (lo + bt)) in E by (unfold in_range; lia).
  set (h0 := if lo + bt <? next then next -64 bt else lo) in E.
  assert (Hh0 : lo <= h0).
  { unfold h0. destruct (Z.ltb_spec (lo + bt) next); [|lia].
    rewrite wrap_small by (unfold in_range; lia). lia. }
  pose proof (FillMissingBatches_collect_spec bs h0) as Hc.
  destruct (FillMissingBatches_collect bs h0) as [m h]. destruct Hc as [-> _].
  pose proof (foldl_max_base (b_Timestamp <$> bs) h0).
  destruct fuel as [|fuel]; [done|]. cbn [FillMissingBatches_emit] in E.
  rewrite (proj2 (Z.leb_le _ _)) in E by lia.
  apply FillMissingBatches_emit_prefix in E as [tl ->]. done.
Qed.

(** A batch of the input is the one emitted for its time when times are unique. *)
Lemma fill_batch_elem bs epoch b :
  NoDup (b_Timestamp <$> bs) -> b ∈ bs -> fill_batch bs epoch (b_Timestamp b) = b.
Proof.
  intros Hnd Hin. unfold fill_batch.
  assert (Huniq : forall b', b' ∈ bs -> b_Timestamp b' = b_Timestamp b -> b' = b).
  { intros b' Hin' Ht. apply list_elem_of_lookup in Hin as [i Hi], Hin' as [j Hj].
    assert (j = i) as ->.
    { eapply NoDup_lookup; [exact Hnd|by rewrite list_lookup_fmap, Hj|].
      rewrite list_lookup_fmap, Hi. cbn. by rewrite Ht. }
    congruence. }
  destruct (list_find _ (reverse bs)) as [[i b']|] eqn:E.
  - apply list_find_Some in E as (Hl & Ht & _). apply Huniq; [|done].
    apply elem_of_reverse. by eapply list_elem_of_lookup_2.
  - apply list_find_None in E. rewrite Forall_forall in E.
    exfalso. apply (E b); [by apply elem_of_reverse|done].
Qed.
Lemma fill_batch_cases bs epoch t :
  (fill_batch bs epoch t ∈ bs /\ b_Timestamp (fill_batch bs epoch t) = t) \/
  fill_batch bs epoch t = mkBatchV1 epoch t [].
Proof.
  unfold fill_batch. destruct (list_find _ _) as [[i b']|] eqn:E; [left|by right].
  apply list_find_Some in E as (Hl & Ht & _). split; [|done].
  apply elem_of_reverse. by eapply list_elem_of_lookup_2.
Qed.

(** [C12] One epoch's batches: completing the filtered batches terminates and gives
    at least one batch, the [k]-th for time [minL2Time + k * blockTime], all of them
    of the epoch and with well-formed transactions; no filtered batch is lost; and
    the last is less than two block times short of the next L1 block. *)
Theorem FillMissingBatches_completes config epoch lo hi next batches out fuel :
  let bt := cfg_BlockTime config in
  let gen := gen_L2Time (cfg_Genesis config) in
  let h := fill_head out bt lo next in
  0 < bt -> 0 <= gen <= lo -> (lo - gen) mod bt = 0 ->
  0 <= next < 2 ^ 64 -> hi <= 2 ^ 64 -> h + bt < 2 ^ 64 ->
  Z.of_nat fuel > 1 + (h - lo) / bt ->
  FilterBatches config epoch lo hi batches = Ok out ->
  exists full, FillMissingBatches fuel out epoch bt lo next = Ok full /\
    full <> [] /\
    (forall k b, full !! k = Some b ->
       b_Timestamp b = lo + Z.of_nat k * bt /\ b_Epoch b = epoch /\
       ValidBatch_txs (b_Transactions b) = true) /\
    (forall b, b ∈ out -> b ∈ full) /\
    next < lo + Z.of_nat (length full - 1) * bt + 2 * bt.
Proof.
  intros bt gen h Hbt Hgen Halign Hnext Hhi Hfit Hfuel Hf.
  unfold FilterBatches in Hf. rewrite FilterBatches_loop_spec in Hf by (fold bt; lia).
  rewrite app_nil_l in Hf.
  assert (Hval : Forall (valid config epoch lo hi) out).
  { injection Hf as <-. apply Forall_forall. intros b Hin.
    by eapply list_elem_of_filter, elem_of_sublist, first_per_time_sublist. }
  assert (Hnd : NoDup (b_Timestamp <$> out)).
  { injection Hf as <-. apply first_per_time_NoDup. }
  rewrite Forall_forall in Hval.
  pose proof (fill_head_min out bt lo next Hbt) as Hmin. fold h in Hmin.
  pose proof (fill_head_next out bt lo next Hbt) as Hnx. fold h in Hnx.
  pose proof (Z.div_mod (h - lo) bt ltac:(lia)) as Hdiv.
  pose proof (Z.mod_pos_bound (h - lo) bt ltac:(lia)) as Hmod.
  pose proof (Z.div_pos (h - lo) bt ltac:(lia) ltac:(lia)) as Hpos.
  eexists. split; [apply FillMissingBatches_spec; fold h; try lia|].
  { apply Forall_forall. intros b Hin. apply Hval, valid_inv in Hin. lia. }
  fold h. split_and!.
  - done.
  - intros k b Hk. apply list_lookup_fmap_Some in Hk as (k' & -> & Hk').
    apply lookup_seq in Hk' as [-> _]. change (0 + k)%nat with k.
    destruct (fill_batch_cases out epoch (lo + Z.of_nat k * bt)) as [[Hin Ht]| ->]; [|done].
    apply Hval, valid_inv in Hin. tauto.
  - intros b Hin. pose proof (Hval b Hin) as Hv. apply valid_inv in Hv as (_ & Hr & Ha & _).
    rewrite wrap_small in Ha by (unfold in_range; fold gen; lia). fold bt gen in Ha.
    assert (Hq : (b_Timestamp b - lo) mod bt = 0).
    { replace (b_Timestamp b - lo) with ((b_Timestamp b - gen) - (lo - gen)) by lia.
      rewrite Zminus_mod, Ha, Halign. apply Z.mod_0_l. lia. }
    pose proof (Z.div_mod (b_Timestamp b - lo) bt ltac:(lia)) as Hbd.
    pose proof (fill_head_ge out bt lo next b Hin) as Hge. fold h in Hge.
    pose proof (Z.div_le_mono (b_Timestamp b - lo) (h - lo) bt ltac:(lia) ltac:(lia)).
    pose proof (Z.div_pos (b_Timestamp b - lo) bt ltac:(lia) ltac:(lia)).
    apply list_elem_of_fmap. exists (Z.to_nat ((b_Timestamp b - lo) / bt)). split.
    + rewrite Z2Nat.id by lia.
      replace (lo + _) with (b_Timestamp b) by lia. by rewrite fill_batch_elem.
    + apply elem_of_seq. lia.
  - rewrite length_fmap, length_seq. nia.
Qed.
End DerivationProofs.

(** ** Witnesses

    A toy RLP: an item is its bytes, each after [x01], closed by [x00]; a batch is
    encoded only when its integers fit 64 bits. *)
Definition toy_item (b : list byte) : list byte := (b ≫= fun x => [x01; x]) ++ [x00].

Fixpoint toy_parse (l : list byte) (cur : list byte) : res (list (list byte)) :=
  match l with
  | [] => if bool_decide (cur = []) then Ok [] else Err (EMsg "unexpected EOF")
  | x00 :: l => items ← toy_parse l []; Ok (cur :: items)
  | x01 :: b :: l => toy_parse l (cur ++ [b])
  | _ => Err (EMsg "bad byte")
  end.

Definition toy_encode_batch (b : BatchV1) : res (list byte) :=
  if in_rangeb 64 (b_Epoch b) && in_rangeb 64 (b_Timestamp b) then
    Ok (be_bytes 8 (b_Epoch b) ++ be_bytes 8 (b_Timestamp b) ++ (b_Transactions b ≫= toy_item))
  else Err (EMsg "rlp: integer out of range").
Definition toy_decode_batch (l : list byte) : res BatchV1 :=
  txs ← toy_parse (drop 16 l) [];
  Ok (mkBatchV1 (be_value (take 8 l)) (be_value (take 8 (drop 8 l))) txs).

Lemma toy_parse_item b rest cur :
  toy_parse (toy_item b ++ rest) cur = (items ← toy_parse rest []; Ok ((cur ++ b) :: items)).
Proof.
  unfold toy_item. revert cur. induction b as [|x b IH]; intros cur.
  - cbn. by rewrite app_nil_r.
  - rewrite bind_cons. cbn [app toy_parse]. rewrite IH. by rewrite <-app_assoc.
Qed.
Lemma toy_parse_items items : toy_parse (items ≫= toy_item) [] = Ok items.
Proof.
  induction items as [|i items IH]; [done|].
  rewrite bind_cons, toy_parse_item, IH. done.
Qed.

Definition ToyRLP : RLP := {|
  rlp_bytes := toy_item;
  rlp_list := fun items => items ≫= toy_item;
  rlp_BatchV1 := toy_encode_batch;
  rlp_items := fun l => toy_parse l [];
  rlp_s_Bytes := fun item =>
    l ← toy_parse item []; match l with [b] => Ok b | _ => Err (EMsg "not one item") end;
  rlp_DecodeBatchV1 := toy_decode_batch;
|}.

Lemma ToyRLPLaws : @RLPLaws ToyRLP.
Proof.
  split; cbn.
  - apply toy_parse_items.
  - intros b. rewrite <-(app_nil_r (toy_item b)), toy_parse_item. done.
  - intros [ep ts txs] e. unfold toy_encode_batch, toy_decode_batch.
    cbn [b_Epoch b_Timestamp b_Transactions]. case_match eqn:E; [|done]. intros <-%Ok_inj.
    apply andb_prop in E as [He Ht]. rewrite in_rangeb_spec in *.
    assert (Hd : forall z r, drop 8 (be_bytes 8 z ++ r) = r).
    { intros. rewrite drop_app_ge, length_be_bytes by len. apply drop_0. }
    change (drop 16 ?l) with (drop (8 + 8) l). rewrite <-drop_drop, !Hd, toy_parse_items.
    cbn [mbind res_bind]. rewrite !take_app_le, !take_ge by len.
    by rewrite !(be_value_bytes_small 8 64).
Qed.

Definition example_batches : list BatchData :=
  [ mkBatchV1 5 104 [[x02; x11]; [x03]]; mkBatchV1 5 102 []; mkBatchV1 5 104 [[x02; x22]];
    mkBatchV1 6 106 []; mkBatchV1 5 103 []; mkBatchV1 5 106 [[x7e]] ].
Definition example_config : Config :=
  mkConfig (mkGenesis (mkBlockID 1 0) (mkBlockID 2 0) 100) 2 10 4 900 901 77 78 4 907 79.

Lemma EncodeBatches_roundtrip_witness :
  exists e, @EncodeBatches ToyRLP example_batches = Ok e /\
            @DecodeBatches ToyRLP e = Ok example_batches.
Proof.
  eexists. split; [vm_compute; reflexivity|].
  apply (@EncodeBatches_roundtrip ToyRLP ToyRLPLaws). vm_compute. reflexivity.
Defined.

(** The toy recipient of a transaction is its calldata's length, the inbox is 4. *)
Definition example_txLists : list (list (byte * list byte)) :=
  [ [ (x02, [x00; x00; x00; x00]); (x02, [x01]) ];
    [ (x02, [x00; x01; x00; x01]) ] ].

Lemma BatchesFromEVMTransactions_spec_witness :
  @BatchesFromEVMTransactions ToyRLP ToyGeth example_config example_txLists =
    Ok (concat example_txLists ≫= @tx_batches ToyRLP ToyGeth example_config).
Proof.
  apply (@BatchesFromEVMTransactions_spec ToyRLP ToyGeth).
  assert (H : Forall (Forall (fun tx =>
      returns (@tx_Sender ToyGeth (cfg_L1ChainID example_config) tx) = true /\
      returns (@DecodeBatches ToyRLP (@tx_Data ToyGeth tx)) = true)) example_txLists).
  { repeat constructor. }
  intros txs tx H1 H2. rewrite Forall_forall in H. specialize (H txs H1).
  rewrite Forall_forall in H. by apply H.
Defined.

Lemma FilterBatches_spec_witness :
  exists out, @FilterBatches ToyGeth example_config 5 102 110 example_batches = Ok out /\
    (b_Timestamp <$> out) = [104; 102] /\ NoDup (b_Timestamp <$> out).
Proof.
  destruct (@FilterBatches_spec ToyGeth example_config 5 102 110 example_batches) as (out & E & _ & _ & H & _).
  - vm_compute. discriminate.
  - exists out. split; [done|]. split; [|done]. vm_compute in E. by injection E as <-.
Defined.

Definition example_filtered : list BatchData :=
  [ mkBatchV1 5 104 [[x02; x11]; [x03]]; mkBatchV1 5 102 [] ].

Lemma FillMissingBatches_completes_witness :
  exists full, FillMissingBatches 10 example_filtered 5 2 102 109 = Ok full /\
    (forall b, b ∈ example_filtered -> b ∈ full).
Proof.
  destruct (@FillMissingBatches_completes ToyGeth example_config 5 102 110 109
              example_batches example_filtered 10) as (full & E & _ & _ & H & _).
  1-2, 4-6: by vm_compute.
  - reflexivity.
  - reflexivity.
  - by vm_compute.
  - by exists full.
Defined.
