(* ===== verification/SSZ.v ===== *)
(** * SSZ encoding of execution payloads

    op-node/l2/ssz.go: the hand-written SSZ codec that the p2p gossip uses for
    [ExecutionPayload].  Offsets are [uint32] and wrap; the buffer comes from a
    pool and holds the bytes of its last use. *)

From S2P Require Import Prelude Types.

Definition executionPayloadFixedPart : uint32 :=
  32 + 20 + 32 + 32 + 256 + 32 + 8 + 8 + 8 + 8 + 4 + 32 + 32 + 4.
Definition maxTransactionsPerPayload : uint32 := Z.shiftl 1 20.

(** [SizeSSZ] *)
Fixpoint SizeSSZ_txs (txs : list Data) (full : uint32) : uint32 :=
  match txs with
  | [] => full
  | tx :: txs => SizeSSZ_txs txs (full +32 wrap 32 (zlen tx))
  end.
Definition SizeSSZ (payload : ExecutionPayload) : uint32 :=
  let full := executionPayloadFixedPart +32 wrap 32 (zlen (pl_ExtraData payload)) in
  let full := full +32 (wrap 32 (zlen (pl_Transactions payload)) *32 4) in
  SizeSSZ_txs (pl_Transactions payload) full.

(** The 64-bit limb [z[i]] of a [uint256.Int]. *)
Definition limb (z : Z) (i : Z) : uint64 := wrap 64 (Z.shiftr z (64 * i)).

Definition marshalBytes32LE (out : list byte) (z : Z) : res (list byte) :=
  _ ← index out 31;
  out ← put_le64 out 0 8 (limb z 0);
  out ← put_le64 out 8 16 (limb z 1);
  out ← put_le64 out 16 24 (limb z 2);
  put_le64 out 24 32 (limb z 3).

Definition unmarshalBytes32LE (in_ : list byte) : res Z :=
  _ ← index in_ 31;
  z0 ← (s ← slice in_ 0 8; get_le64 s);
  z1 ← (s ← slice in_ 8 16; get_le64 s);
  z2 ← (s ← slice in_ 16 24; get_le64 s);
  z3 ← (s ← slice in_ 24 32; get_le64 s);
  Ok (z0 + Z.shiftl z1 64 + Z.shiftl z2 128 + Z.shiftl z3 192).

(** [copy(buf[offset:offset+n], src); offset += n]: the buffer and the offset.
    [PutUint64] and [PutUint32] on a slice of 8 and 4 bytes have the same form. *)
Definition put (st : list byte * uint32) (n : uint32) (src : list byte)
    : res (list byte * uint32) :=
  let '(buf, offset) := st in
  buf ← blit buf offset (offset +32 n) src;
  Ok (buf, offset +32 n).

(** [buf[offset:offset+n]; offset += n] *)
Definition get (buf : list byte) (offset n : uint32) : res (list byte * uint32) :=
  s ← slice buf offset (offset +32 n);
  Ok (s, offset +32 n).

Fixpoint marshalTransactions_loop (txs : list Data) (out : list byte)
    (offset txOffset : uint32) : res (list byte) :=
  match txs with
  | [] => Ok out
  | tx :: txs =>
      out ← put_le32 out offset (offset +32 4) txOffset;
      let offset := offset +32 4 in
      let nextTxOffset := txOffset +32 wrap 32 (zlen tx) in
      out ← blit out txOffset nextTxOffset tx;
      marshalTransactions_loop txs out offset nextTxOffset
  end.
Definition marshalTransactions (out : list byte) (txs : list Data) : res (list byte) :=
  marshalTransactions_loop txs out 0 (wrap 32 (zlen txs) *32 4).

(** [MarshalSSZ]: the bytes written to [w]; [pool] is the content, up to its
    capacity, of the buffer the pool hands out. *)
Definition MarshalSSZ (pool : list byte) (payload : ExecutionPayload) : res (list byte) :=
  let scope := SizeSSZ payload in
  let buf := if wrap 32 (zlen pool) <? scope then replicate (Z.to_nat scope) x00
             else take (Z.to_nat scope) pool in
  let st := (buf, 0) in
  st ← put st 32 (be_bytes 32 (pl_ParentHash payload));
  st ← put st 20 (be_bytes 20 (pl_FeeRecipient payload));
  st ← put st 32 (be_bytes 32 (pl_StateRoot payload));
  st ← put st 32 (be_bytes 32 (pl_ReceiptsRoot payload));
  st ← put st 256 (be_bytes 256 (pl_LogsBloom payload));
  st ← put st 32 (be_bytes 32 (pl_PrevRandao payload));
  st ← put st 8 (le_bytes 8 (pl_BlockNumber payload));
  st ← put st 8 (le_bytes 8 (pl_GasLimit payload));
  st ← put st 8 (le_bytes 8 (pl_GasUsed payload));
  st ← put st 8 (le_bytes 8 (pl_Timestamp payload));
  (* offset to ExtraData *)
  st ← put st 4 (le_bytes 4 executionPayloadFixedPart);
  let '(buf, offset) := st in
  out ← slice buf offset (offset +32 32);
  out ← marshalBytes32LE out (pl_BaseFeePerGas payload);
  st ← put (buf, offset) 32 out;
  st ← put st 32 (be_bytes 32 (pl_BlockHash payload));
  (* offset to Transactions *)
  st ← put st 4 (le_bytes 4 (executionPayloadFixedPart +32 wrap 32 (zlen (pl_ExtraData payload))));
  _ ← panic_if (negb (snd st =? executionPayloadFixedPart));
  (* dynamic value 1: ExtraData *)
  st ← put st (wrap 32 (zlen (pl_ExtraData payload))) (pl_ExtraData payload);
  (* dynamic value 2: Transactions *)
  let '(buf, offset) := st in
  out ← slice buf offset (zlen buf);
  out ← marshalTransactions out (pl_Transactions payload);
  blit buf offset (zlen buf) out.

(** The loop of [unmarshalTransactions]: [n] transactions are left, [i + 1 < txCount]
    when [n] is more than one. *)
Fixpoint unmarshalTransactions_loop (n : nat) (in_ : list byte) (scope offset currentTxOffset : uint32)
    (txs : list Data) : res (list Data) :=
  match n with
  | O => Ok txs
  | S n' =>
      '(nextTxOffset, offset) ←
        (if (1 <? n)%nat then
           s ← slice in_ offset (offset +32 4);
           v ← get_le32 s;
           Ok (v, offset +32 4)
         else Ok (scope, offset));
      if (nextTxOffset <? currentTxOffset) || (scope <? nextTxOffset) then
        Err (EMsg "tx has bad next offset")
      else
        tx ← slice in_ currentTxOffset nextTxOffset;
        unmarshalTransactions_loop n' in_ scope offset nextTxOffset (txs ++ [tx])
  end.
Definition unmarshalTransactions (in_ : list byte) : res (list Data) :=
  let scope := wrap 32 (zlen in_) in
  if scope =? 0 then Ok []
  else if scope <? 4 then Err (EMsg "not enough scope to read first tx offset")
  else
    '(s, offset) ← get in_ 0 4;
    firstTxOffset ← get_le32 s;
    if negb (firstTxOffset mod 4 =? 0) then
      Err (EMsg "invalid first tx offset: not a multiple of offset size")
    else if scope <? firstTxOffset then Err (EMsg "invalid first tx offset: out of scope")
    else
      let txCount := firstTxOffset / 4 in
      if maxTransactionsPerPayload <? txCount then Err (EMsg "too many transactions")
      else unmarshalTransactions_loop (Z.to_nat txCount) in_ scope offset firstTxOffset [].

(** [UnmarshalSSZ] after the read: [buf] holds the [scope] bytes. *)
Definition UnmarshalSSZ_fields (scope : uint32) (buf : list byte) : res ExecutionPayload :=
  '(ParentHash, offset) ← get buf 0 32;
  '(FeeRecipient, offset) ← get buf offset 20;
  '(StateRoot, offset) ← get buf offset 32;
  '(ReceiptsRoot, offset) ← get buf offset 32;
  '(LogsBloom, offset) ← get buf offset 256;
  '(PrevRandao, offset) ← get buf offset 32;
  '(s, offset) ← get buf offset 8; BlockNumber ← get_le64 s;
  '(s, offset) ← get buf offset 8; GasLimit ← get_le64 s;
  '(s, offset) ← get buf offset 8; GasUsed ← get_le64 s;
  '(s, offset) ← get buf offset 8; Timestamp ← get_le64 s;
  '(s, offset) ← get buf offset 4; extraDataOffset ← get_le32 s;
  if negb (extraDataOffset =? executionPayloadFixedPart) then
    Err (EMsg "unexpected extra data offset")
  else
    '(s, offset) ← get buf offset 32; BaseFeePerGas ← unmarshalBytes32LE s;
    '(BlockHash, offset) ← get buf offset 32;
    '(s, offset) ← get buf offset 4; transactionsOffset ← get_le32 s;
    _ ← panic_if (negb (offset =? executionPayloadFixedPart));
    if ((extraDataOffset +32 32) <? transactionsOffset) || (scope <? transactionsOffset) then
      Err (EMsg "extra-data is too large")
    else
      ExtraData ← slice buf extraDataOffset transactionsOffset;
      s ← slice buf transactionsOffset (zlen buf);
      txs ← map_err (wrapv "failed to unmarshal transactions list: ") (unmarshalTransactions s);
      Ok (mkExecutionPayload (be_value ParentHash) (be_value FeeRecipient) (be_value StateRoot)
            (be_value ReceiptsRoot) (be_value LogsBloom) (be_value PrevRandao)
            BlockNumber GasLimit GasUsed Timestamp ExtraData BaseFeePerGas
            (be_value BlockHash) txs).

(** [UnmarshalSSZ]; [r] holds the bytes the reader can deliver.  The pooled buffer is
    fully overwritten by the read, so its old content does not appear. *)
Definition UnmarshalSSZ (scope : uint32) (r : list byte) : res ExecutionPayload :=
  if scope <? executionPayloadFixedPart then
    Err (EMsg "scope too small to decode execution payload")
  else if zlen r <? scope then
    Err (wrapw "failed to read fixed-size part of ExecutionPayload: " (EMsg "unexpected EOF"))
  else UnmarshalSSZ_fields scope (take (Z.to_nat scope) r).

(** ** The encoded layout *)

(** The offsets of the transactions, the first at [cur], and the list's encoding. *)
Fixpoint enc_offs (cur : Z) (txs : list Data) : list byte :=
  match txs with
  | [] => []
  | tx :: txs => le_bytes 4 cur ++ enc_offs (cur + zlen tx) txs
  end.
Definition enc_txs (txs : list Data) : list byte :=
  enc_offs (4 * zlen txs) txs ++ concat txs.

(** The fourteen fields of the fixed part, as raw segments, and the dynamic part. *)
Record segments := mkSegments {
  sg_ParentHash : list byte; sg_FeeRecipient : list byte; sg_StateRoot : list byte;
  sg_ReceiptsRoot : list byte; sg_LogsBloom : list byte; sg_PrevRandao : list byte;
  sg_BlockNumber : list byte; sg_GasLimit : list byte; sg_GasUsed : list byte;
  sg_Timestamp : list byte; sg_ExtraOffset : list byte; sg_BaseFee : list byte;
  sg_BlockHash : list byte; sg_TxsOffset : list byte; sg_tail : list byte;
}.
Definition sg_widths (g : segments) : Prop :=
  zlen (sg_ParentHash g) = 32 /\ zlen (sg_FeeRecipient g) = 20 /\
  zlen (sg_StateRoot g) = 32 /\ zlen (sg_ReceiptsRoot g) = 32 /\
  zlen (sg_LogsBloom g) = 256 /\ zlen (sg_PrevRandao g) = 32 /\
  zlen (sg_BlockNumber g) = 8 /\ zlen (sg_GasLimit g) = 8 /\ zlen (sg_GasUsed g) = 8 /\
  zlen (sg_Timestamp g) = 8 /\ zlen (sg_ExtraOffset g) = 4 /\ zlen (sg_BaseFee g) = 32 /\
  zlen (sg_BlockHash g) = 32 /\ zlen (sg_TxsOffset g) = 4.
Definition sg_bytes (g : segments) : list byte :=
  sg_ParentHash g ++ sg_FeeRecipient g ++ sg_StateRoot g ++ sg_ReceiptsRoot g ++
  sg_LogsBloom g ++ sg_PrevRandao g ++ sg_BlockNumber g ++ sg_GasLimit g ++ sg_GasUsed g ++
  sg_Timestamp g ++ sg_ExtraOffset g ++ sg_BaseFee g ++ sg_BlockHash g ++ sg_TxsOffset g ++
  sg_tail g.

Definition sg_of (p : ExecutionPayload) : segments := {|
  sg_ParentHash := be_bytes 32 (pl_ParentHash p);
  sg_FeeRecipient := be_bytes 20 (pl_FeeRecipient p);
  sg_StateRoot := be_bytes 32 (pl_StateRoot p);
  sg_ReceiptsRoot := be_bytes 32 (pl_ReceiptsRoot p);
  sg_LogsBloom := be_bytes 256 (pl_LogsBloom p);
  sg_PrevRandao := be_bytes 32 (pl_PrevRandao p);
  sg_BlockNumber := le_bytes 8 (pl_BlockNumber p);
  sg_GasLimit := le_bytes 8 (pl_GasLimit p);
  sg_GasUsed := le_bytes 8 (pl_GasUsed p);
  sg_Timestamp := le_bytes 8 (pl_Timestamp p);
  sg_ExtraOffset := le_bytes 4 executionPayloadFixedPart;
  sg_BaseFee := le_bytes 32 (pl_BaseFeePerGas p);
  sg_BlockHash := be_bytes 32 (pl_BlockHash p);
  sg_TxsOffset := le_bytes 4 (executionPayloadFixedPart + zlen (pl_ExtraData p));
  sg_tail := pl_ExtraData p ++ enc_txs (pl_Transactions p);
|}.

(** The values a Go [ExecutionPayload] can hold, with the limits of the format. *)
Definition payload_ok (p : ExecutionPayload) : Prop :=
  in_range 256 (pl_ParentHash p) /\ in_range 160 (pl_FeeRecipient p) /\
  in_range 256 (pl_StateRoot p) /\ in_range 256 (pl_ReceiptsRoot p) /\
  in_range 2048 (pl_LogsBloom p) /\ in_range 256 (pl_PrevRandao p) /\
  in_range 64 (pl_BlockNumber p) /\ in_range 64 (pl_GasLimit p) /\
  in_range 64 (pl_GasUsed p) /\ in_range 64 (pl_Timestamp p) /\
  in_range 256 (pl_BaseFeePerGas p) /\ in_range 256 (pl_BlockHash p) /\
  zlen (pl_ExtraData p) <= 32 /\
  zlen (pl_Transactions p) <= maxTransactionsPerPayload /\
  zlen (sg_bytes (sg_of p)) < 2 ^ 32.

(** ** Generic steps of the codec *)

Lemma le_bytes_mod n w z : w = 8 * Z.of_nat n -> le_bytes n (wrap w z) = le_bytes n z.
Proof.
  intros ->. unfold wrap. rewrite Z.pow_mul_r by lia. change (2 ^ 8) with 256.
  rewrite <-le_value_bytes. by rewrite le_bytes_value_n by apply length_le_bytes.
Qed.

Lemma le_value_app l1 l2 :
  le_value (l1 ++ l2) = le_value l1 + 256 ^ Z.of_nat (length l1) * le_value l2.
Proof.
  induction l1 as [|b l1 IH]; [by rewrite Z.mul_1_l|].
  change (length (b :: l1)) with (S (length l1)). rewrite pow256_S.
  change (b2z b + 256 * le_value (l1 ++ l2) =
          (b2z b + 256 * le_value l1) + 256 * 256 ^ Z.of_nat (length l1) * le_value l2).
  rewrite IH. lia.
Qed.

Lemma get_le64_ok s : zlen s = 8 -> get_le64 s = Ok (le_value s).
Proof. unfold get_le64, zlen. intros E. case_match; [lia|]. by rewrite take_ge by lia. Qed.
Lemma get_le32_ok s : zlen s = 4 -> get_le32 s = Ok (le_value s).
Proof. unfold get_le32, zlen. intros E. case_match; [lia|]. by rewrite take_ge by lia. Qed.

Lemma index_ok {A} (l : list A) i : 0 <= i < zlen l -> exists x, index l i = Ok x.
Proof.
  intros H. unfold index. case_match; [|lia].
  destruct (l !! Z.to_nat i) eqn:E; [eauto|].
  apply lookup_ge_None in E. unfold zlen in H. lia.
Qed.

Lemma slice_at {A} (l s post : list A) lo hi :
  drop (Z.to_nat lo) l = s ++ post -> 0 <= lo <= zlen l -> hi = lo + zlen s ->
  slice l lo hi = Ok s /\ drop (Z.to_nat hi) l = post.
Proof.
  intros Hd Hlo ->. pose proof (zlen_nonneg s) as Hs.
  assert (length l - Z.to_nat lo = length s + length post)%nat as Hl.
  { by rewrite <-length_drop, Hd, length_app. }
  unfold zlen in *. split.
  - rewrite slice_ok by (unfold zlen; lia). rewrite Hd. f_equal.
    replace (Z.to_nat _) with (length s) by lia. by rewrite take_app_length.
  - replace (Z.to_nat _) with (Z.to_nat lo + length s)%nat by lia.
    rewrite <-drop_drop, Hd. by rewrite drop_app_length.
Qed.

Lemma get_at buf o n s post :
  drop (Z.to_nat o) buf = s ++ post -> 0 <= o <= zlen buf -> zlen s = n -> o + n < 2 ^ 32 ->
  get buf o n = Ok (s, o + n) /\ drop (Z.to_nat (o + n)) buf = post.
Proof.
  intros Hd Ho <- Hfit. pose proof (zlen_nonneg s). unfold get.
  rewrite wrap_small by (unfold in_range; lia).
  destruct (slice_at buf s post o (o + zlen s) Hd Ho eq_refl) as [-> ?]. done.
Qed.

(** The buffer is written up to the offset [o] and has [k] bytes left. *)
Definition at_cursor (st : list byte * uint32) (pre : list byte) (o k : Z) : Prop :=
  exists rest, st = (pre ++ rest, o) /\ o = zlen pre /\ zlen rest = k.

Lemma put_at st pre o k n src :
  at_cursor st pre o k -> zlen src = n -> n <= k -> o + n < 2 ^ 32 ->
  exists st', put st n src = Ok st' /\ at_cursor st' (pre ++ src) (o + n) (k - n).
Proof.
  intros (rest & -> & -> & <-) <- Hk Hfit. unfold put.
  pose proof (zlen_nonneg pre). pose proof (zlen_nonneg src).
  rewrite wrap_small by (unfold in_range; lia).
  rewrite blit_app by lia. eexists. split; [done|].
  exists (drop (length src) rest). split_and!; [done|by rewrite zlen_app|].
  unfold zlen in *. rewrite length_drop. lia.
Qed.

Lemma cursor_slice st pre o k n :
  at_cursor st pre o k -> 0 <= n <= k ->
  exists s, slice st.1 o (o + n) = Ok s /\ zlen s = n /\ st.2 = o.
Proof.
  intros (rest & -> & -> & <-) Hn. pose proof (zlen_nonneg pre).
  destruct (slice_no_panic (pre ++ rest) (zlen pre) (zlen pre + n)) as (s & ? & ?);
    [lia|rewrite zlen_app; lia|]. exists s. split_and!; [done|lia|done].
Qed.
Lemma cursor_len st pre o k : at_cursor st pre o k -> zlen st.1 = o + k.
Proof. intros (rest & -> & -> & <-). cbn. apply zlen_app. Qed.
Lemma cursor_final buf o pre k src :
  at_cursor (buf, o) pre o k -> zlen src = k -> blit buf o (zlen buf) src = Ok (pre ++ src).
Proof.
  intros (rest & [= ->] & -> & <-) Hl. unfold zlen in *.
  rewrite blit_app; unfold zlen; rewrite ?length_app; try lia.
  rewrite drop_ge by lia. by rewrite app_nil_r.
Qed.

Lemma blit_over {A} (pre src dst post : list A) lo hi :
  lo = zlen pre -> hi = zlen pre + zlen src -> zlen dst = zlen src ->
  blit (pre ++ dst ++ post) lo hi src = Ok (pre ++ src ++ post).
Proof.
  intros -> -> E. unfold zlen in *. rewrite blit_app; unfold zlen; rewrite ?length_app; try lia.
  rewrite <-app_assoc. do 3 f_equal. replace (length src) with (length dst) by lia.
  by rewrite drop_app_length.
Qed.

Lemma put_le64_eq buf lo v : put_le64 buf lo (lo + 8) v = blit buf lo (lo + 8) (le_bytes 8 v).
Proof. unfold put_le64. case_match; [lia|done]. Qed.
Lemma put_le32_eq buf lo v : put_le32 buf lo (lo + 4) v = blit buf lo (lo + 4) (le_bytes 4 v).
Proof. unfold put_le32. case_match; [lia|done]. Qed.

Lemma marshalBytes32LE_ok out z :
  zlen out = 32 -> marshalBytes32LE out z = Ok (le_bytes 32 z).
Proof.
  intros Hl. unfold marshalBytes32LE.
  destruct (index_ok out 31 ltac:(lia)) as [x ->]. cbn [mbind res_bind].
  assert (exists a b c d, out = a ++ b ++ c ++ d /\ zlen a = 8 /\ zlen b = 8 /\ zlen c = 8 /\ zlen d = 8)
    as (a & b & c & d & -> & Ha & Hb & Hc & Hd).
  { exists (take 8 out), (take 8 (drop 8 out)), (take 8 (drop 16 out)), (drop 24 out).
    split; [by rewrite <-!drop_cut, take_drop by lia|]. len. }
  rewrite (put_le64_eq _ 0). change (a ++ ?r) with ([] ++ a ++ r).
  rewrite (blit_over [] _ a (b ++ c ++ d)) by len. cbn [mbind res_bind app].
  rewrite (put_le64_eq _ 8), (blit_over _ _ b (c ++ d)) by len. cbn [mbind res_bind].
  rewrite (put_le64_eq _ 16), app_assoc, (blit_over _ _ c d) by len. cbn [mbind res_bind].
  rewrite (put_le64_eq _ 24), (app_assoc _ (le_bytes 8 (limb z 2))).
  rewrite <-(app_nil_r d), (blit_over _ _ d []) by len. rewrite app_nil_r. f_equal.
  unfold limb. rewrite !le_bytes_mod by done. rewrite !Z.shiftr_div_pow2 by lia.
  change (le_bytes 32 z) with (le_bytes (8 + (8 + (8 + 8))) z). rewrite !le_bytes_add.
  rewrite !Z.div_div by lia. rewrite <-!app_assoc. by rewrite Z.div_1_r.
Qed.

Lemma unmarshalBytes32LE_ok s : zlen s = 32 -> unmarshalBytes32LE s = Ok (le_value s).
Proof.
  intros Hl. unfold unmarshalBytes32LE.
  destruct (index_ok s 31 ltac:(lia)) as [x ->]. cbn [mbind res_bind].
  rewrite !slice_ok by lia. cbn [mbind res_bind].
  rewrite !get_le64_ok by len. cbn [mbind res_bind]. f_equal. nat_consts.
  transitivity (le_value (take 8 (drop 0 s) ++ take 8 (drop 8 s) ++ take 8 (drop 16 s) ++
                          take 8 (drop 24 s))).
  - rewrite !le_value_app, !Z.shiftl_mul_pow2 by lia.
    rewrite !length_take, !length_drop. unfold zlen in Hl.
    rewrite !Nat.min_l by lia. lia.
  - f_equal. rewrite (take_ge (drop 24 s)) by len. by rewrite <-!drop_cut by lia.
Qed.

(** ** The transactions list *)

Lemma marshalTransactions_loop_ok txs A X B Y offset txOffset :
  offset = zlen A -> txOffset = zlen A + zlen X + zlen B ->
  zlen X = 4 * zlen txs -> zlen Y = zlen (concat txs) ->
  zlen A + zlen X + zlen B + zlen Y < 2 ^ 32 ->
  marshalTransactions_loop txs (A ++ X ++ B ++ Y) offset txOffset =
    Ok (A ++ enc_offs txOffset txs ++ B ++ concat txs).
Proof.
  revert A X B Y offset txOffset.
  induction txs as [|tx txs IH]; intros A X B Y offset txOffset -> -> HX HY Hfit.
  { assert (X = []) as -> by (destruct X; [done|len]).
    assert (Y = []) as -> by (destruct Y; [done|len]). done. }
  pose proof (zlen_nonneg A); pose proof (zlen_nonneg B); pose proof (zlen_nonneg tx).
  pose proof (zlen_nonneg (concat txs)). pose proof (zlen_nonneg txs).
  cbn [concat] in HY. rewrite zlen_app in HY. rewrite zlen_cons in HX.
  cbn [marshalTransactions_loop].
  rewrite !(wrap_small 32) by (unfold in_range; lia || (rewrite wrap_small; unfold in_range; lia)).
  rewrite <-(take_drop 4 X), <-(take_drop (length tx) Y), <-!app_assoc.
  rewrite put_le32_eq, blit_over by len. cbn [mbind res_bind].
  rewrite (app_assoc (le_bytes 4 _)), (app_assoc (_ ++ _) B), (app_assoc A).
  rewrite blit_over by len. cbn [mbind res_bind].
  rewrite <-!app_assoc, (app_assoc A), (app_assoc B).
  rewrite (IH (A ++ _) (drop 4 X) (B ++ tx)) by len.
  cbn [concat enc_offs]. rewrite <-!app_assoc. repeat f_equal; len.
Qed.

Lemma zlen_enc_offs cur txs : zlen (enc_offs cur txs) = 4 * zlen txs.
Proof.
  revert cur. induction txs as [|tx txs IH]; intros cur; [done|].
  cbn [enc_offs]. rewrite zlen_app, IH, zlen_le_bytes, zlen_cons. lia.
Qed.
Lemma zlen_enc_txs txs : zlen (enc_txs txs) = 4 * zlen txs + zlen (concat txs).
Proof. unfold enc_txs. by rewrite zlen_app, zlen_enc_offs. Qed.

Lemma marshalTransactions_ok out txs :
  zlen out = zlen (enc_txs txs) -> zlen out < 2 ^ 32 ->
  marshalTransactions out txs = Ok (enc_txs txs).
Proof.
  intros Hl Hfit. rewrite zlen_enc_txs in Hl. unfold marshalTransactions.
  pose proof (zlen_nonneg txs). pose proof (zlen_nonneg (concat txs)).
  rewrite (wrap_small 32 (zlen txs)), wrap_small by (unfold in_range; lia).
  pose proof (marshalTransactions_loop_ok txs [] (take (Z.to_nat (4 * zlen txs)) out) []
    (drop (Z.to_nat (4 * zlen txs)) out) 0 (zlen txs * 4)) as Hloop.
  cbn [app] in Hloop. rewrite take_drop in Hloop. rewrite Hloop by len.
  unfold enc_txs. by rewrite Z.mul_comm.
Qed.

Lemma SizeSSZ_txs_eq txs full :
  0 <= full -> full + zlen (concat txs) < 2 ^ 32 ->
  SizeSSZ_txs txs full = full + zlen (concat txs).
Proof.
  revert full. induction txs as [|tx txs IH]; intros full H0 Hfit; cbn [SizeSSZ_txs concat] in *.
  { unfold zlen. simpl. lia. }
  rewrite zlen_app in *. pose proof (zlen_nonneg tx). pose proof (zlen_nonneg (concat txs)).
  rewrite (wrap_small 32 (zlen tx)), wrap_small by (unfold in_range; lia).
  rewrite IH; lia.
Qed.

Lemma zlen_sg_of p :
  zlen (sg_bytes (sg_of p)) =
    executionPayloadFixedPart + zlen (pl_ExtraData p) + zlen (enc_txs (pl_Transactions p)).
Proof.
  unfold sg_bytes, sg_of. cbn -[le_bytes be_bytes]. rewrite !zlen_app.
  rewrite !zlen_be_bytes, !zlen_le_bytes. unfold executionPayloadFixedPart. lia.
Qed.

Lemma SizeSSZ_eq p :
  zlen (sg_bytes (sg_of p)) < 2 ^ 32 -> SizeSSZ p = zlen (sg_bytes (sg_of p)).
Proof.
  rewrite zlen_sg_of, zlen_enc_txs. intros Hfit. unfold SizeSSZ.
  change executionPayloadFixedPart with 508 in *.
  pose proof (zlen_nonneg (pl_ExtraData p)). pose proof (zlen_nonneg (pl_Transactions p)).
  pose proof (zlen_nonneg (concat (pl_Transactions p))).
  rewrite (wrap_small 32 (zlen (pl_ExtraData p))), (wrap_small 32 (zlen (pl_Transactions p)))
    by (unfold in_range; lia).
  rewrite (wrap_small 32 (_ * 4)), (wrap_small 32 (508 + _)), wrap_small by (unfold in_range; lia).
  rewrite SizeSSZ_txs_eq; lia.
Qed.

Lemma unmarshalTransactions_loop_ok txs in_ scope offset cur R acc :
  scope = zlen in_ -> 0 <= offset <= scope -> 0 <= cur <= scope -> scope < 2 ^ 32 ->
  drop (Z.to_nat offset) in_ = match txs with [] => [] | t :: ts => enc_offs (cur + zlen t) ts end ++ R ->
  drop (Z.to_nat cur) in_ = concat txs -> (txs <> [] -> cur + zlen (concat txs) = scope) ->
  unmarshalTransactions_loop (length txs) in_ scope offset cur acc = Ok (acc ++ txs).
Proof.
  intros -> Ho Hc Hfit. revert offset cur R acc Ho Hc.
  induction txs as [|t ts IH]; intros offset cur R acc Ho Hc Hoff Hcur Hend.
  { cbn. by rewrite app_nil_r. }
  specialize (Hend ltac:(done)). cbn [concat] in *. rewrite zlen_app in Hend.
  pose proof (zlen_nonneg t). pose proof (zlen_nonneg (concat ts)).
  cbn [length unmarshalTransactions_loop].
  destruct ts as [|t2 ts].
  - cbn [length Nat.ltb Nat.leb mbind res_bind concat]. cbn in Hend.
    destruct (Z.ltb_spec (zlen in_) cur); [lia|]. destruct (Z.ltb_spec (zlen in_) (zlen in_)); [lia|].
    cbn [orb]. destruct (slice_at in_ t [] cur (zlen in_) Hcur) as [-> _]; [lia|len|].
    cbn. done.
  - cbn [length]. change (1 <? S (S (length ts)))%nat with true. cbv iota.
    cbn [enc_offs] in Hoff. rewrite <-app_assoc in Hoff.
    assert (offset + 4 <= zlen in_).
    { apply (f_equal zlen) in Hoff. rewrite zlen_app, zlen_le_bytes in Hoff.
      unfold zlen in *. rewrite length_drop in Hoff. lia. }
    rewrite wrap_small by (unfold in_range; lia).
    destruct (slice_at in_ _ _ offset (offset + 4) Hoff) as [-> Hoff']; [lia|len|].
    cbn [mbind res_bind]. rewrite get_le32_ok by len. cbn [mbind res_bind].
    rewrite (le_value_bytes_small 4 32) by (done || unfold in_range; lia).
    destruct (Z.ltb_spec (cur + zlen t) cur); [lia|].
    destruct (Z.ltb_spec (zlen in_) (cur + zlen t)); [lia|]. cbn [orb].
    destruct (slice_at in_ t _ cur (cur + zlen t) Hcur) as [-> Hcur']; [lia|done|].
    cbn [mbind res_bind].
    change (S (length ts)) with (length (t2 :: ts)).
    rewrite (IH _ _ R) by (done || lia). by rewrite <-app_assoc.
Qed.

Lemma unmarshalTransactions_ok txs :
  zlen txs <= maxTransactionsPerPayload -> zlen (enc_txs txs) < 2 ^ 32 ->
  unmarshalTransactions (enc_txs txs) = Ok txs.
Proof.
  intros Hmax Hfit. unfold unmarshalTransactions.
  pose proof (zlen_nonneg (enc_txs txs)). rewrite wrap_small by (unfold in_range; lia).
  pose proof (zlen_enc_txs txs) as Hl. pose proof (zlen_nonneg (concat txs)).
  destruct txs as [|t ts]; [done|]. pose proof (zlen_nonneg ts).
  rewrite zlen_cons in *. repeat (case_match; [lia|]).
  assert (Henc : enc_txs (t :: ts) = le_bytes 4 (4 * zlen (t :: ts)) ++
            enc_offs (4 * zlen (t :: ts) + zlen t) ts ++ concat (t :: ts)).
  { unfold enc_txs. cbn [enc_offs]. by rewrite <-app_assoc. }
  destruct (get_at (enc_txs (t :: ts)) 0 4 _ _ Henc) as [-> Hd]; [lia|len|lia|].
  cbn [mbind res_bind]. rewrite get_le32_ok by len. cbn [mbind res_bind].
  rewrite (le_value_bytes_small 4 32) by (done || unfold in_range; rewrite zlen_cons; lia).
  rewrite zlen_cons. rewrite (Z.mul_comm 4), Z.mod_mul, Z.div_mul by lia.
  cbn [negb Z.eqb]. destruct (Z.ltb_spec (zlen (enc_txs (t :: ts))) ((1 + zlen ts) * 4)); [lia|].
  destruct (Z.ltb_spec maxTransactionsPerPayload (1 + zlen ts)); [lia|].
  replace (Z.to_nat (1 + zlen ts)) with (length (t :: ts)) by (unfold zlen; simpl; lia).
  rewrite (unmarshalTransactions_loop_ok (t :: ts) _ _ _ _ (concat (t :: ts))); try done; try lia.
  - rewrite Hd, zlen_cons. by rewrite (Z.mul_comm 4).
  - unfold enc_txs. rewrite zlen_cons.
    pose proof (zlen_enc_offs (4 * (1 + zlen ts)) (t :: ts)) as Ho.
    rewrite (zlen_cons t ts) in Ho.
    replace (Z.to_nat _) with (length (enc_offs (4 * (1 + zlen ts)) (t :: ts)))
      by (unfold zlen in *; lia).
    by rewrite drop_app_length.
Qed.

(** ** The fixed part *)

(** The payload read from the segments, given its transactions. *)
Definition extra_len (g : segments) : nat :=
  Z.to_nat (le_value (sg_TxsOffset g) - executionPayloadFixedPart).
Definition payload_of (g : segments) (txs : list Data) : ExecutionPayload :=
  mkExecutionPayload (be_value (sg_ParentHash g)) (be_value (sg_FeeRecipient g))
    (be_value (sg_StateRoot g)) (be_value (sg_ReceiptsRoot g)) (be_value (sg_LogsBloom g))
    (be_value (sg_PrevRandao g)) (le_value (sg_BlockNumber g)) (le_value (sg_GasLimit g))
    (le_value (sg_GasUsed g)) (le_value (sg_Timestamp g)) (take (extra_len g) (sg_tail g))
    (le_value (sg_BaseFee g)) (be_value (sg_BlockHash g)) txs.

(** What the decoder does with the segments of its input. *)
Definition decode_segments (g : segments) : res ExecutionPayload :=
  let transactionsOffset := le_value (sg_TxsOffset g) in
  if negb (le_value (sg_ExtraOffset g) =? executionPayloadFixedPart) then
    Err (EMsg "unexpected extra data offset")
  else if (executionPayloadFixedPart + 32 <? transactionsOffset) ||
          (zlen (sg_bytes g) <? transactionsOffset) then
    Err (EMsg "extra-data is too large")
  else if transactionsOffset <? executionPayloadFixedPart then Panic
  else
    txs ← map_err (wrapv "failed to unmarshal transactions list: ")
            (unmarshalTransactions (drop (extra_len g) (sg_tail g)));
    Ok (payload_of g txs).

Ltac get_step Hd Hlen :=
  match goal with
  | |- context [get ?buf ?o ?n] =>
      let H1 := fresh in let H2 := fresh in
      destruct (get_at buf o n _ _ Hd) as [H1 H2]; [lia|assumption|lia|];
      rewrite H1; clear H1 Hd; rename H2 into Hd; cbn [mbind res_bind];
      repeat match goal with
      | |- context [?a + ?b] => is_ground a; is_ground b;
          let v := eval vm_compute in (a + b) in change (a + b) with v in *
      end
  end.

Lemma UnmarshalSSZ_fields_segments g :
  sg_widths g -> zlen (sg_bytes g) < 2 ^ 32 ->
  UnmarshalSSZ_fields (zlen (sg_bytes g)) (sg_bytes g) = decode_segments g.
Proof.
  intros Hw Hfit. unfold UnmarshalSSZ_fields, decode_segments, payload_of, extra_len.
  assert (Hlen : 508 <= zlen (sg_bytes g)).
  { unfold sg_bytes. rewrite !zlen_app. pose proof (zlen_nonneg (sg_tail g)).
    unfold sg_widths in Hw. lia. }
  assert (Hd : drop (Z.to_nat 0) (sg_bytes g) = sg_bytes g) by done.
  unfold sg_bytes in Hd at 2. set (buf := sg_bytes g) in *. clearbody buf.
  destruct Hw as (W1&W2&W3&W4&W5&W6&W7&W8&W9&W10&W11&W12&W13&W14).
  do 6 get_step Hd Hlen.
  do 4 (get_step Hd Hlen; rewrite get_le64_ok by done; cbn [mbind res_bind]).
  get_step Hd Hlen. rewrite get_le32_ok by done. cbn [mbind res_bind].
  destruct (Z.eqb_spec (le_value (sg_ExtraOffset g)) executionPayloadFixedPart) as [->|]; [|done].
  cbn [negb]. get_step Hd Hlen. rewrite unmarshalBytes32LE_ok by done. cbn [mbind res_bind].
  do 2 get_step Hd Hlen. rewrite get_le32_ok by done. cbn [mbind res_bind].
  change (panic_if _) with (Ok tt). cbn [mbind res_bind].
  change (wrap 32 540) with 540.
  pose proof (le_value_in_range 4 32 (sg_TxsOffset g) eq_refl ltac:(unfold zlen in W14; lia)) as Ht.
  change executionPayloadFixedPart with 508 in *. change (508 + 32) with 540.
  set (t := le_value (sg_TxsOffset g)) in *.
  destruct (Z.ltb_spec 540 t); [done|]. destruct (Z.ltb_spec (zlen buf) t); [done|].
  cbn [orb]. destruct (Z.ltb_spec t 508) as [Hlt|Hge].
  { by rewrite (slice_panic _ 508 t). }
  destruct (slice_at buf (take (Z.to_nat (t - 508)) (sg_tail g))
    (drop (Z.to_nat (t - 508)) (sg_tail g)) 508 t) as [-> Hd'].
  - by rewrite take_drop.
  - lia.
  - apply (f_equal zlen) in Hd. unfold zlen in *. rewrite length_drop in Hd.
    rewrite length_take. lia.
  - cbn [mbind res_bind]. rewrite slice_ok by lia. cbn [mbind res_bind].
    rewrite Hd', (take_ge (drop _ (sg_tail g))); [done|]. apply (f_equal length) in Hd'.
    rewrite length_drop in Hd'. unfold zlen in *. lia.
Qed.

(** Every input of at least the fixed size has its segments. *)
Lemma segments_of buf :
  executionPayloadFixedPart <= zlen buf -> exists g, sg_widths g /\ sg_bytes g = buf /\
    sg_ExtraOffset g = take 4 (drop 436 buf) /\ sg_TxsOffset g = take 4 (drop 504 buf).
Proof.
  change executionPayloadFixedPart with 508. intros Hl. unfold zlen in Hl.
  exists (mkSegments (take 32 (drop 0 buf)) (take 20 (drop 32 buf)) (take 32 (drop 52 buf))
    (take 32 (drop 84 buf)) (take 256 (drop 116 buf)) (take 32 (drop 372 buf))
    (take 8 (drop 404 buf)) (take 8 (drop 412 buf)) (take 8 (drop 420 buf))
    (take 8 (drop 428 buf)) (take 4 (drop 436 buf)) (take 32 (drop 440 buf))
    (take 32 (drop 472 buf)) (take 4 (drop 504 buf)) (drop 508 buf)).
  split.
  - unfold sg_widths, zlen. cbn -[take drop].
    rewrite !length_take, !length_drop. split_and!; lia.
  - unfold sg_bytes. cbn -[take drop]. rewrite <-!drop_cut by lia. split; [apply drop_0|done].
Qed.

Ltac put_step :=
  match goal with
  | H : at_cursor ?st ?pre ?o ?k |- context [put ?st ?n ?src] =>
      let H1 := fresh in let st' := fresh "st" in
      destruct (put_at st pre o k n src H) as (st' & H1 & ?); [len|lia|lia|];
      rewrite H1; clear H H1; cbn [mbind res_bind]
  end.

Lemma MarshalSSZ_layout pool p :
  zlen (sg_bytes (sg_of p)) < 2 ^ 32 -> zlen pool < 2 ^ 32 ->
  MarshalSSZ pool p = Ok (sg_bytes (sg_of p)).
Proof.
  intros Hfit Hpool. unfold MarshalSSZ. rewrite SizeSSZ_eq by done.
  set (N := zlen (sg_bytes (sg_of p))) in *.
  assert (HN : N = 508 + zlen (pl_ExtraData p) + zlen (enc_txs (pl_Transactions p)))
    by apply zlen_sg_of.
  pose proof (zlen_nonneg (pl_ExtraData p)). pose proof (zlen_nonneg (enc_txs (pl_Transactions p))).
  pose proof (zlen_nonneg pool).
  rewrite (wrap_small 32 (zlen pool)) by (unfold in_range; lia).
  set (buf := if _ <? _ then _ else _).
  assert (Hc : at_cursor (buf, 0) [] 0 N).
  { exists buf. split_and!; [done..|]. unfold buf. case_match; len. }
  clearbody buf. set (st0 := (buf, 0)) in *. clearbody st0. cbv zeta.
  do 11 put_step.
  match goal with H : at_cursor _ _ ?o _ |- _ =>
    destruct (cursor_slice _ _ _ _ 32 H ltac:(lia)) as (s & Hs & Hsl & Hso) end.
  destruct st10 as [buf1 o1]. cbn [fst snd] in Hs, Hso. subst o1. cbv beta iota.
  rewrite (wrap_small 32 (_ + 32)) by (unfold in_range; lia). rewrite Hs. cbn [mbind res_bind].
  rewrite marshalBytes32LE_ok by done. cbn [mbind res_bind].
  do 3 put_step.
  match goal with H : at_cursor ?st _ _ _ |- _ =>
    pose proof (cursor_slice _ _ _ _ 0 H ltac:(lia)) as (_ & _ & _ & Hso) end.
  rewrite Hso. change (panic_if _) with (Ok tt). cbn [mbind res_bind].
  rewrite (wrap_small 32 (zlen (pl_ExtraData p))) by (unfold in_range; lia).
  put_step.
  match goal with H : at_cursor ?st _ _ ?k |- _ =>
    destruct (cursor_slice _ _ _ _ k H ltac:(lia)) as (out & Ho & Hl & Hso');
    pose proof (cursor_len _ _ _ _ H) as Hlen; rename H into Hc end.
  destruct st13 as [buf2 o2]. cbn [fst snd] in Ho, Hso', Hlen. subst o2. cbv beta iota.
  rewrite Hlen, Ho. cbn [mbind res_bind].
  rewrite marshalTransactions_ok by lia. cbn [mbind res_bind].
  rewrite <-Hlen, (cursor_final _ _ _ _ _ Hc) by lia.
  rewrite (wrap_small 32 (zlen (pl_ExtraData p))), wrap_small
    by (unfold in_range, executionPayloadFixedPart; lia).
  unfold sg_bytes, sg_of. cbn [sg_ParentHash sg_FeeRecipient sg_StateRoot sg_ReceiptsRoot
    sg_LogsBloom sg_PrevRandao sg_BlockNumber sg_GasLimit sg_GasUsed sg_Timestamp
    sg_ExtraOffset sg_BaseFee sg_BlockHash sg_TxsOffset sg_tail].
  by rewrite <-!app_assoc.
Qed.

(** ** Properties *)

Lemma sg_widths_of p : sg_widths (sg_of p).
Proof. unfold sg_widths, sg_of. cbn. rewrite ?zlen_be_bytes, ?zlen_le_bytes. split_and!; done. Qed.

Lemma decode_segments_of p : payload_ok p -> decode_segments (sg_of p) = Ok p.
Proof.
  intros (Hr1&Hr2&Hr3&Hr4&Hr5&Hr6&Hr7&Hr8&Hr9&Hr10&Hr11&Hr12&Hx&Ht&Hfit).
  rewrite zlen_sg_of in Hfit. pose proof (zlen_sg_of p) as HN.
  pose proof (zlen_nonneg (pl_ExtraData p)). pose proof (zlen_nonneg (enc_txs (pl_Transactions p))).
  unfold decode_segments, payload_of, extra_len. rewrite HN. unfold sg_of. cbn -[executionPayloadFixedPart].
  change executionPayloadFixedPart with 508 in *.
  rewrite !(le_value_bytes_small 4 32) by (done || (unfold in_range; lia)).
  cbn [negb Z.eqb Pos.eqb]. set (x := zlen (pl_ExtraData p)) in *. change (508 + 32) with 540.
  destruct (Z.ltb_spec 540 (508 + x)); [lia|].
  destruct (Z.ltb_spec (508 + x + zlen (enc_txs (pl_Transactions p))) (508 + x)); [lia|].
  destruct (Z.ltb_spec (508 + x) 508); [lia|]. cbn [orb].
  replace (Z.to_nat _) with (length (pl_ExtraData p)) by (unfold x, zlen; lia).
  rewrite drop_app_length, take_app_length, unmarshalTransactions_ok by (done || lia).
  cbn [map_err mbind res_bind].
  rewrite !(be_value_bytes_small 32 256), (be_value_bytes_small 20 160),
    (be_value_bytes_small 256 2048), !(le_value_bytes_small 8 64),
    (le_value_bytes_small 32 256) by done.
  by destruct p.
Qed.

Lemma unmarshalTransactions_loop_inv n in_ offset cur acc out :
  0 <= cur <= zlen in_ -> 0 <= offset -> zlen in_ < 2 ^ 32 ->
  (n = 0%nat \/ offset + 4 * (Z.of_nat n - 1) <= zlen in_) ->
  unmarshalTransactions_loop n in_ (zlen in_) offset cur acc = Ok out ->
  exists txs, out = acc ++ txs /\ length txs = n /\ ((0 < n)%nat -> drop (Z.to_nat cur) in_ = concat txs) /\
    take (4 * (n - 1)) (drop (Z.to_nat offset) in_) =
      match txs with [] => [] | t :: ts => enc_offs (cur + zlen t) ts end.
Proof.
  intros Hc Ho Hfit. revert offset cur acc out Hc Ho.
  induction n as [|n IH]; intros offset cur acc out Hc Ho Hn E; cbn [unmarshalTransactions_loop] in E.
  { go_inv. exists []. rewrite app_nil_r. split_and!; [done..|lia|done]. }
  destruct n as [|n].
  - cbn -[slice] in E. destruct (Z.ltb_spec (zlen in_) cur); [lia|].
    destruct (Z.ltb_spec (zlen in_) (zlen in_)); [lia|]. cbn [orb] in E. go_inv.
    exists [x]. split_and!; [done..| |done]. intros _. rewrite slice_ok in H1 by lia.
    apply Ok_inj in H1. subst x. cbn. rewrite app_nil_r, take_ge; [done|]. len.
  - change (1 <? S (S n))%nat with true in E. cbv iota in E.
    apply res_bind_ok in E as ([next o] & E1 & E).
    apply res_bind_ok in E1 as (s & Hs & E1). apply res_bind_ok in E1 as (v & Hv & E1).
    injection E1 as -> <-.
    pose proof (slice_length _ _ _ _ Hs) as (Hsl & Hb & Hb').
    destruct (Z.ltb_spec next cur); [done|]. destruct (Z.ltb_spec (zlen in_) next); [done|].
    cbn [orb] in E. apply res_bind_ok in E as (tx & Htx & E).
    rewrite wrap_small in * by (unfold in_range; lia).
    destruct (IH (offset + 4) next (acc ++ [tx]) out ltac:(lia) ltac:(lia) ltac:(lia) E) as (txs & -> & Hlen & Hcat & Hoffs).
    specialize (Hcat ltac:(lia)). exists (tx :: txs). rewrite <-app_assoc.
    pose proof (slice_length _ _ _ _ Htx) as (Htl & _).
    rewrite slice_ok in Htx, Hs by lia. apply Ok_inj in Htx, Hs.
    rewrite get_le32_ok in Hv by lia. apply Ok_inj in Hv.
    split_and!; [done|simpl; lia| |].
    + intros _. cbn [concat]. rewrite <-Hcat, <-Htx. apply drop_cut. lia.
    + destruct txs as [|t2 txs]; [simpl in Hlen; lia|]. cbn [enc_offs].
      replace (cur + zlen tx) with next by lia. rewrite <-Hoffs, <-Hv.
      rewrite le_bytes_value_n by (unfold zlen in Hsl; lia). rewrite <-Hs.
      replace (Z.to_nat (offset + 4)) with (Z.to_nat offset + 4)%nat by lia.
      replace (Z.to_nat (offset + 4 - offset)) with 4%nat by lia.
      replace (4 * (S (S n) - 1))%nat with (4 + 4 * (S n - 1))%nat by lia.
      by rewrite <-drop_drop, <-(take_take_drop (drop (Z.to_nat offset) in_)).
Qed.

Lemma unmarshalTransactions_loop_returns n in_ offset cur acc :
  0 <= cur <= zlen in_ -> 0 <= offset -> zlen in_ < 2 ^ 32 ->
  (n = 0%nat \/ offset + 4 * (Z.of_nat n - 1) <= zlen in_) ->
  returns (unmarshalTransactions_loop n in_ (zlen in_) offset cur acc) = true.
Proof.
  intros Hc Ho Hfit. revert offset cur acc Hc Ho.
  induction n as [|n IH]; intros offset cur acc Hc Ho Hn; [done|].
  cbn [unmarshalTransactions_loop].
  assert (Hnext : exists next o, 0 <= o /\ (n = 0%nat \/ o + 4 * (Z.of_nat n - 1) <= zlen in_) /\
    (if (1 <? S n)%nat then s ← slice in_ offset (offset +32 4); v ← get_le32 s; Ok (v, offset +32 4)
     else Ok (zlen in_, offset)) = Ok (next, o)).
  { destruct n as [|n]; [exists (zlen in_), offset; tauto|].
    change (1 <? S (S n))%nat with true. cbv iota.
    rewrite wrap_small by (unfold in_range; lia).
    destruct (slice_no_panic in_ offset (offset + 4)) as (s & -> & Hs); [lia..|].
    cbn [mbind res_bind]. rewrite get_le32_ok by lia. cbn [mbind res_bind].
    exists (le_value s), (offset + 4). split_and!; [lia|right; lia|done]. }
  destruct Hnext as (next & o & Ho' & Hn' & ->). cbn [mbind res_bind].
  destruct (Z.ltb_spec next cur); [done|]. destruct (Z.ltb_spec (zlen in_) next); [done|].
  cbn [orb]. destruct (slice_no_panic in_ cur next) as (tx & -> & _); [lia..|].
  cbn [mbind res_bind]. apply IH; [lia|done|done].
Qed.

(** The transactions decoder in terms of the first offset. *)
Lemma unmarshalTransactions_cases in_ :
  zlen in_ < 2 ^ 32 ->
  (in_ = [] /\ unmarshalTransactions in_ = Ok []) \/
  (exists e, unmarshalTransactions in_ = Err e) \/
  exists n, 4 <= zlen in_ /\ 4 * Z.of_nat n <= zlen in_ /\
    Z.of_nat n <= maxTransactionsPerPayload /\
    take 4 in_ = le_bytes 4 (4 * Z.of_nat n) /\
    unmarshalTransactions in_ =
      unmarshalTransactions_loop n in_ (zlen in_) 4 (4 * Z.of_nat n) [].
Proof.
  intros Hfit. unfold unmarshalTransactions. pose proof (zlen_nonneg in_).
  rewrite wrap_small by (unfold in_range; lia).
  destruct (Z.eqb_spec (zlen in_) 0) as [H0|H0]; [left; destruct in_; [done|len]|right].
  destruct (Z.ltb_spec (zlen in_) 4); [left; eauto|].
  destruct (get_at in_ 0 4 (take 4 in_) (drop 4 in_)) as [-> _];
    [by rewrite drop_0, take_drop|lia|len|lia|].
  cbn [mbind res_bind]. rewrite get_le32_ok by len. cbn [mbind res_bind].
  pose proof (le_value_in_range 4 32 (take 4 in_) eq_refl ltac:(len)) as Hr. unfold in_range in Hr.
  set (v := le_value (take 4 in_)) in *. pose proof (Z.div_mod v 4 ltac:(lia)) as Hdm.
  destruct (Z.eqb_spec (v mod 4) 0) as [Hm|]; [|left; cbn; eauto]. cbn [negb].
  pose proof (Z.div_pos v 4 ltac:(lia) ltac:(lia)).
  destruct (Z.ltb_spec (zlen in_) v); [left; eauto|].
  destruct (Z.ltb_spec maxTransactionsPerPayload (v / 4)); [left; eauto|right].
  exists (Z.to_nat (v / 4)). rewrite Z2Nat.id by lia. replace (4 * (v / 4)) with v by lia.
  split_and!; try done. unfold v. by rewrite le_bytes_value_n by len.
Qed.

Lemma unmarshalTransactions_returns in_ :
  zlen in_ < 2 ^ 32 -> returns (unmarshalTransactions in_) = true.
Proof.
  intros Hfit. destruct (unmarshalTransactions_cases in_ Hfit) as
    [(_ & ->)|[(e & ->)|(n & ? & ? & ? & ? & ->)]]; [done..|].
  apply unmarshalTransactions_loop_returns; lia.
Qed.

(** An accepted list is the encoding of its transactions, or announces none and has
    bytes after that. *)
Lemma unmarshalTransactions_inv in_ txs :
  zlen in_ < 2 ^ 32 -> unmarshalTransactions in_ = Ok txs ->
  zlen txs <= maxTransactionsPerPayload /\
  (in_ = enc_txs txs \/ txs = [] /\ exists junk, in_ = le_bytes 4 0 ++ junk).
Proof.
  intros Hfit E. destruct (unmarshalTransactions_cases in_ Hfit) as
    [(-> & E2)|[(e & E2)|(n & H4 & Hn & Hmax & Hfirst & E2)]]; rewrite E2 in E; [|done|].
  { apply Ok_inj in E as <-. split; [by vm_compute|by left]. }
  apply unmarshalTransactions_loop_inv in E as (txs' & -> & <- & Hcat & Hoffs); [|lia..].
  cbn [app] in *. split; [done|]. destruct txs' as [|t ts].
  - right. split; [done|]. exists (drop 4 in_). rewrite <-(take_drop 4 in_) at 1. by rewrite Hfirst.
  - left. specialize (Hcat ltac:(simpl; lia)). unfold enc_txs. cbn [enc_offs].
    change (zlen (t :: ts)) with (Z.of_nat (length (t :: ts))).
    rewrite <-Hfirst, <-Hcat, <-Hoffs, <-app_assoc.
    change (Z.to_nat 4) with 4%nat.
    rewrite <-(drop_cut in_ 4 _ (Z.to_nat (4 * Z.of_nat (length (t :: ts))))) by (simpl length; lia).
    by rewrite take_drop.
Qed.

(** The layout is read back, whatever follows it. *)
Lemma UnmarshalSSZ_layout p rest :
  payload_ok p -> UnmarshalSSZ (SizeSSZ p) (sg_bytes (sg_of p) ++ rest) = Ok p.
Proof.
  intros Hok. pose proof Hok as (_&_&_&_&_&_&_&_&_&_&_&_&_&_&Hfit).
  unfold UnmarshalSSZ. rewrite SizeSSZ_eq by done.
  pose proof (zlen_sg_of p). pose proof (zlen_nonneg (pl_ExtraData p)).
  pose proof (zlen_nonneg (enc_txs (pl_Transactions p))). pose proof (zlen_nonneg rest).
  destruct (Z.ltb_spec (zlen (sg_bytes (sg_of p))) executionPayloadFixedPart); [lia|].
  rewrite zlen_app. destruct (Z.ltb_spec (zlen (sg_bytes (sg_of p)) + zlen rest) (zlen (sg_bytes (sg_of p)))); [lia|].
  unfold zlen at 2. rewrite Nat2Z.id, take_app_length.
  rewrite UnmarshalSSZ_fields_segments by (done || apply sg_widths_of).
  by apply decode_segments_of.
Qed.

(** [C27] SSZ round trip: for a payload within the format's limits, [MarshalSSZ]
    writes exactly [SizeSSZ] bytes, which do not depend on what the pooled buffer
    held, and [UnmarshalSSZ] reads the same payload back from them. *)
Theorem MarshalSSZ_roundtrip pool p :
  payload_ok p -> zlen pool < 2 ^ 32 ->
  exists b, MarshalSSZ pool p = Ok b /\ zlen b = SizeSSZ p /\
    (forall pool', zlen pool' < 2 ^ 32 -> MarshalSSZ pool' p = Ok b) /\
    forall rest, UnmarshalSSZ (SizeSSZ p) (b ++ rest) = Ok p.
Proof.
  intros Hok Hpool. pose proof Hok as (_&_&_&_&_&_&_&_&_&_&_&_&_&_&Hfit).
  exists (sg_bytes (sg_of p)). split_and!; [by apply MarshalSSZ_layout|by rewrite SizeSSZ_eq|
    intros; by apply MarshalSSZ_layout|intros; by apply UnmarshalSSZ_layout].
Qed.

Definition offsets_ok (g : segments) : Prop :=
  le_value (sg_ExtraOffset g) = executionPayloadFixedPart /\
  executionPayloadFixedPart <= le_value (sg_TxsOffset g) <= executionPayloadFixedPart + 32 /\
  le_value (sg_TxsOffset g) <= zlen (sg_bytes g).

Lemma zlen_sg_bytes g :
  sg_widths g -> zlen (sg_bytes g) = executionPayloadFixedPart + zlen (sg_tail g).
Proof.
  intros Hw. unfold sg_bytes. rewrite !zlen_app. unfold sg_widths in Hw.
  change executionPayloadFixedPart with 508. lia.
Qed.

Lemma zlen_extra g :
  sg_widths g -> offsets_ok g ->
  zlen (take (extra_len g) (sg_tail g)) = le_value (sg_TxsOffset g) - executionPayloadFixedPart.
Proof.
  intros Hw (_ & Ht & Hl). rewrite zlen_sg_bytes in Hl by done. unfold extra_len. len.
Qed.

(** Encoding what was read gives the same fixed part. *)
Lemma sg_bytes_payload_of g txs tl :
  sg_widths g -> offsets_ok g -> drop (extra_len g) (sg_tail g) = enc_txs txs ++ tl ->
  sg_bytes (sg_of (payload_of g txs)) ++ tl = sg_bytes g.
Proof.
  intros Hw Hoff Htl. pose proof (zlen_extra g Hw Hoff) as Hn.
  destruct Hw as (W1&W2&W3&W4&W5&W6&W7&W8&W9&W10&W11&W12&W13&W14). destruct Hoff as (Hx & _).
  unfold zlen in W1, W2, W3, W4, W5, W6, W7, W8, W9, W10, W11, W12, W13, W14.
  unfold sg_bytes, sg_of, payload_of.
  cbn [sg_ParentHash sg_FeeRecipient sg_StateRoot sg_ReceiptsRoot sg_LogsBloom sg_PrevRandao
    sg_BlockNumber sg_GasLimit sg_GasUsed sg_Timestamp sg_ExtraOffset sg_BaseFee sg_BlockHash
    sg_TxsOffset sg_tail pl_ParentHash pl_FeeRecipient pl_StateRoot pl_ReceiptsRoot pl_LogsBloom
    pl_PrevRandao pl_BlockNumber pl_GasLimit pl_GasUsed pl_Timestamp pl_ExtraData
    pl_BaseFeePerGas pl_BlockHash pl_Transactions].
  rewrite Hn. replace (executionPayloadFixedPart + (_ - _)) with (le_value (sg_TxsOffset g)) by lia.
  rewrite <-Hx.
  rewrite !(be_bytes_value_n 32), (be_bytes_value_n 20), (be_bytes_value_n 256),
    !(le_bytes_value_n 8), !(le_bytes_value_n 4), (le_bytes_value_n 32) by lia.
  rewrite <-!app_assoc. rewrite <-Htl. by rewrite take_drop.
Qed.

Lemma decode_segments_ok g p :
  decode_segments g = Ok p ->
  offsets_ok g /\ exists txs,
    unmarshalTransactions (drop (extra_len g) (sg_tail g)) = Ok txs /\ p = payload_of g txs.
Proof.
  unfold decode_segments. cbv zeta. intros E.
  destruct (Z.eqb_spec (le_value (sg_ExtraOffset g)) executionPayloadFixedPart) as [Hx|]; [|done].
  cbn [negb] in E.
  destruct (Z.ltb_spec (executionPayloadFixedPart + 32) (le_value (sg_TxsOffset g))); [done|].
  destruct (Z.ltb_spec (zlen (sg_bytes g)) (le_value (sg_TxsOffset g))); [done|]. cbn [orb] in E.
  destruct (Z.ltb_spec (le_value (sg_TxsOffset g)) executionPayloadFixedPart); [done|].
  go_inv. unfold offsets_ok. split; [lia|eauto].
Qed.

Lemma payload_of_ok g txs :
  sg_widths g -> offsets_ok g -> zlen txs <= maxTransactionsPerPayload ->
  zlen (sg_bytes (sg_of (payload_of g txs))) < 2 ^ 32 -> payload_ok (payload_of g txs).
Proof.
  intros Hw Hoff Hmax Hfit. pose proof (zlen_extra g Hw Hoff) as Hn. destruct Hoff as (_ & Ht & _).
  destruct Hw as (W1&W2&W3&W4&W5&W6&W7&W8&W9&W10&W11&W12&W13&W14).
  unfold zlen in W1, W2, W3, W4, W5, W6, W7, W8, W9, W10, W11, W12, W13, W14.
  unfold payload_ok. split_and!; try done; cbn [payload_of pl_ParentHash pl_FeeRecipient pl_StateRoot
    pl_ReceiptsRoot pl_LogsBloom pl_PrevRandao pl_BlockNumber pl_GasLimit pl_GasUsed pl_Timestamp
    pl_ExtraData pl_BaseFeePerGas pl_BlockHash]; try lia.
  all: first [ by apply (be_value_in_range 32); lia | by apply (be_value_in_range 20); lia
    | by apply (be_value_in_range 256); lia | by apply (le_value_in_range 8); lia
    | by apply (le_value_in_range 32); lia ].
Qed.

Lemma UnmarshalSSZ_segments g :
  sg_widths g -> zlen (sg_bytes g) < 2 ^ 32 ->
  UnmarshalSSZ (zlen (sg_bytes g)) (sg_bytes g) = decode_segments g.
Proof.
  intros Hw Hfit. unfold UnmarshalSSZ. pose proof (zlen_sg_bytes g Hw). pose proof (zlen_nonneg (sg_tail g)).
  destruct (Z.ltb_spec (zlen (sg_bytes g)) executionPayloadFixedPart); [lia|].
  rewrite Z.ltb_irrefl, take_ge by len. by apply UnmarshalSSZ_fields_segments.
Qed.

(** [C30] What [UnmarshalSSZ] accepts: the payload read is within the format's limits,
    and encoding it gives the input back, unless the input announces no transactions
    by a zero first offset, in which case any bytes may follow. *)
Theorem UnmarshalSSZ_canonical buf pool p :
  zlen buf < 2 ^ 32 -> zlen pool < 2 ^ 32 -> UnmarshalSSZ (zlen buf) buf = Ok p ->
  payload_ok p /\
  exists b, MarshalSSZ pool p = Ok b /\
    (b = buf \/ pl_Transactions p = [] /\ exists junk, buf = b ++ le_bytes 4 0 ++ junk).
Proof.
  intros Hfit Hpool E.
  destruct (Z.lt_ge_cases (zlen buf) executionPayloadFixedPart) as [|Hl].
  { unfold UnmarshalSSZ in E. case_match; [done|lia]. }
  destruct (segments_of buf Hl) as (g & Hw & <- & _).
  rewrite UnmarshalSSZ_segments in E by done.
  apply decode_segments_ok in E as (Hoff & txs & E & ->).
  apply unmarshalTransactions_inv in E as [Hmax E].
  2:{ rewrite zlen_sg_bytes in Hfit by done. change executionPayloadFixedPart with 508 in Hfit. len. }
  assert (Hb : exists tl, sg_bytes (sg_of (payload_of g txs)) ++ tl = sg_bytes g /\
    (tl = [] \/ txs = [] /\ exists junk, tl = le_bytes 4 0 ++ junk)).
  { destruct E as [E|(-> & junk & E)].
    - exists []. split; [|by left]. apply sg_bytes_payload_of; [done..|]. by rewrite app_nil_r.
    - exists (le_bytes 4 0 ++ junk). split; [by apply sg_bytes_payload_of|eauto]. }
  destruct Hb as (tl & Hb & Htl).
  assert (zlen (sg_bytes (sg_of (payload_of g txs))) < 2 ^ 32).
  { rewrite <-Hb, zlen_app in Hfit. pose proof (zlen_nonneg tl). lia. }
  split; [by apply payload_of_ok|].
  exists (sg_bytes (sg_of (payload_of g txs))). split; [by apply MarshalSSZ_layout|].
  destruct Htl as [->|(-> & junk & ->)]; [left; by rewrite app_nil_r in Hb|right; eauto].
Qed.

(** [C31] The decoder of payloads received from peers panics exactly when the offset of
    the transactions points into the fixed part; on any other input it returns. *)
Theorem UnmarshalSSZ_panics_iff buf :
  zlen buf < 2 ^ 32 ->
  (UnmarshalSSZ (zlen buf) buf = Panic <->
   executionPayloadFixedPart <= zlen buf /\
   le_value (take 4 (drop 436 buf)) = executionPayloadFixedPart /\
   le_value (take 4 (drop 504 buf)) < executionPayloadFixedPart) /\
  (UnmarshalSSZ (zlen buf) buf = Panic \/ returns (UnmarshalSSZ (zlen buf) buf) = true).
Proof.
  intros Hfit.
  destruct (Z.lt_ge_cases (zlen buf) executionPayloadFixedPart) as [|Hl].
  { unfold UnmarshalSSZ. case_match; [|lia]. split; [split; [done|lia]|by right]. }
  destruct (segments_of buf Hl) as (g & Hw & <- & <- & <-).
  rewrite UnmarshalSSZ_segments by done. unfold decode_segments. cbv zeta.
  destruct (Z.eqb_spec (le_value (sg_ExtraOffset g)) executionPayloadFixedPart) as [Hx|]; cbn [negb].
  2: by split; [split; [done|tauto]|by right].
  destruct (Z.ltb_spec (executionPayloadFixedPart + 32) (le_value (sg_TxsOffset g))); cbn [orb].
  { split; [split; [done|lia]|by right]. }
  destruct (Z.ltb_spec (zlen (sg_bytes g)) (le_value (sg_TxsOffset g))).
  { split; [split; [done|lia]|by right]. }
  destruct (Z.ltb_spec (le_value (sg_TxsOffset g)) executionPayloadFixedPart).
  { split; [split; [intros _; tauto|done]|by left]. }
  assert (Hr : returns (unmarshalTransactions (drop (extra_len g) (sg_tail g))) = true).
  { apply unmarshalTransactions_returns. rewrite zlen_sg_bytes in Hfit by done.
    change executionPayloadFixedPart with 508 in Hfit. len. }
  destruct (unmarshalTransactions _); try done; (split; [split; [done|lia]|by right]).
Qed.

(** ** Witnesses *)
Definition payload_example : ExecutionPayload := {|
  pl_ParentHash := 0x1234; pl_FeeRecipient := 0x4200; pl_StateRoot := 5; pl_ReceiptsRoot := 6;
  pl_LogsBloom := 7; pl_PrevRandao := 8; pl_BlockNumber := 9; pl_GasLimit := 30000000;
  pl_GasUsed := 21000; pl_Timestamp := 1700000000; pl_ExtraData := [x01; x02];
  pl_BaseFeePerGas := 1000000007; pl_BlockHash := 2 ^ 255 + 1;
  pl_Transactions := [[x7e; x01; x02]; []; [x02; x03]] |}.

Lemma payload_example_ok : payload_ok payload_example.
Proof. unfold payload_ok, in_range. split_and!; vm_compute; done. Qed.

Lemma MarshalSSZ_roundtrip_witness :
  exists b, MarshalSSZ [] payload_example = Ok b /\
    UnmarshalSSZ (SizeSSZ payload_example) (b ++ [xff]) = Ok payload_example.
Proof.
  destruct (MarshalSSZ_roundtrip [] payload_example) as (b & E & _ & _ & H).
  - apply payload_example_ok.
  - done.
  - exists b. split; [done|apply H].
Defined.

Lemma UnmarshalSSZ_canonical_witness :
  exists buf b, UnmarshalSSZ (zlen buf) buf = Ok payload_example /\
    MarshalSSZ [] payload_example = Ok b.
Proof.
  destruct (UnmarshalSSZ_canonical (sg_bytes (sg_of payload_example)) [] payload_example)
    as (_ & b & E & _); [by vm_compute..|].
  exists (sg_bytes (sg_of payload_example)), b. split; [by vm_compute|done].
Defined.

(** An all-zero message but for the right offset of the extra data. *)
Definition panic_example : list byte :=
  replicate 436 x00 ++ le_bytes 4 executionPayloadFixedPart ++ replicate 68 x00.
Lemma UnmarshalSSZ_panics_iff_witness :
  UnmarshalSSZ (zlen panic_example) panic_example = Panic.
Proof.
  apply (UnmarshalSSZ_panics_iff panic_example); [by vm_compute|].
  split_and!; by vm_compute.
Defined.
