(* ===== verification/EngineJSON.v ===== *)
(** * The JSON of the engine API

    op-node/l2/api.go: the text codecs of the fixed-size and bounded byte types, and the
    payloads as encoding/json writes and reads them by the tags of their fields.  The
    hexadecimal texts of go-ethereum's hexutil and common packages and of uint256 are a
    parameter. *)

From Stdlib Require Import Strings.Ascii.
From S2P Require Import Prelude Types.

(** go-ethereum's hexutil and common, and uint256: the texts of values, and what their
    readers make of the raw JSON of a member or of a text. *)
Class HexUtil := {
  hex_MarshalText : list byte -> string;           (* hexutil.Bytes.MarshalText, Encode *)
  hex_UnmarshalJSON : string -> res (list byte);   (* hexutil.Bytes *)
  hex_UnmarshalText : string -> res (list byte);
  UnmarshalFixedJSON : nat -> string -> res (list byte);
  UnmarshalFixedText : string -> nat -> string -> res (list byte);
  uint64_MarshalText : uint64 -> string;           (* hexutil.Uint64 *)
  uint64_UnmarshalJSON : string -> res uint64;
  uint256_MarshalText : Z -> string;               (* uint256.Int *)
  uint256_UnmarshalJSON : string -> res Z;
}.

Section Codecs.
Context `{HexUtil}.

(** A text as a JSON string; the texts of [HexUtil] have nothing to escape. *)
Definition quote (s : string) : string := String "034"%char (s +:+ String "034"%char EmptyString).

(** [Bytes32] and [Bytes256] *)
Definition Bytes32_UnmarshalJSON (text : string) : res (list byte) := UnmarshalFixedJSON 32 text.
Definition Bytes32_UnmarshalText (text : string) : res (list byte) := UnmarshalFixedText "Bytes32" 32 text.
Definition Bytes32_MarshalText (b : list byte) : string := hex_MarshalText b.
Definition Bytes32_String (b : list byte) : string := hex_MarshalText b.

Definition Bytes256_UnmarshalJSON (text : string) : res (list byte) := UnmarshalFixedJSON 256 text.
Definition Bytes256_UnmarshalText (text : string) : res (list byte) := UnmarshalFixedText "Bytes32" 256 text.
Definition Bytes256_MarshalText (b : list byte) : string := hex_MarshalText b.
Definition Bytes256_String (b : list byte) : string := hex_MarshalText b.

(** [BytesMax32]; the text itself is left out of the error. *)
Definition too_long : error := EMsg "input too long, expected at most 32 hex-encoded, 0x-prefixed, bytes: ".
Definition BytesMax32_UnmarshalJSON (text : string) : res (list byte) :=
  if 64 + 2 + 2 <? Z.of_nat (String.length text) then Err too_long else hex_UnmarshalJSON text.
Definition BytesMax32_UnmarshalText (text : string) : res (list byte) :=
  if 64 + 2 <? Z.of_nat (String.length text) then Err too_long else hex_UnmarshalText text.
Definition BytesMax32_MarshalText (b : list byte) : string := hex_MarshalText b.
Definition BytesMax32_String (b : list byte) : string := hex_MarshalText b.

(** ** Values of JSON: raw literals, arrays and objects *)
Inductive json :=
  | JRaw (text : string)
  | JArr (elems : list json)
  | JObj (members : list (string * json)).

Definition j_text (s : string) : json := JRaw (quote s).
Definition j_bool (b : bool) : json := JRaw (if b then "true" else "false").
Definition j_fixed (n : nat) (v : Z) : json := j_text (hex_MarshalText (be_bytes n v)).
Definition j_data (txs : list Data) : json := JArr ((fun tx => j_text (hex_MarshalText tx)) <$> txs).

(** [json.Marshal]: the members in the order of the fields. *)
Definition Marshal_ExecutionPayload (p : ExecutionPayload) : json := JObj [
  ("parentHash", j_fixed 32 (pl_ParentHash p));
  ("feeRecipient", j_fixed 20 (pl_FeeRecipient p));
  ("stateRoot", j_text (Bytes32_MarshalText (be_bytes 32 (pl_StateRoot p))));
  ("receiptsRoot", j_text (Bytes32_MarshalText (be_bytes 32 (pl_ReceiptsRoot p))));
  ("logsBloom", j_text (Bytes256_MarshalText (be_bytes 256 (pl_LogsBloom p))));
  ("prevRandao", j_text (Bytes32_MarshalText (be_bytes 32 (pl_PrevRandao p))));
  ("blockNumber", j_text (uint64_MarshalText (pl_BlockNumber p)));
  ("gasLimit", j_text (uint64_MarshalText (pl_GasLimit p)));
  ("gasUsed", j_text (uint64_MarshalText (pl_GasUsed p)));
  ("timestamp", j_text (uint64_MarshalText (pl_Timestamp p)));
  ("extraData", j_text (BytesMax32_MarshalText (pl_ExtraData p)));
  ("baseFeePerGas", j_text (uint256_MarshalText (pl_BaseFeePerGas p)));
  ("blockHash", j_fixed 32 (pl_BlockHash p));
  ("transactions", j_data (pl_Transactions p))].

(** [omitempty] leaves out an empty list and a false flag. *)
Definition Marshal_PayloadAttributes (a : PayloadAttributes) : json := JObj (
  [("timestamp", j_text (uint64_MarshalText (at_Timestamp a)));
   ("prevRandao", j_text (Bytes32_MarshalText (be_bytes 32 (at_PrevRandao a))));
   ("suggestedFeeRecipient", j_fixed 20 (at_SuggestedFeeRecipient a))] ++
  (if bool_decide (at_Transactions a = []) then [] else [("transactions", j_data (at_Transactions a))]) ++
  (if at_NoTxPool a then [("noTxPool", j_bool true)] else [])).

Definition Marshal_ForkchoiceState (fc : ForkchoiceState) : json := JObj [
  ("headBlockHash", j_fixed 32 (fc_HeadBlockHash fc));
  ("safeBlockHash", j_fixed 32 (fc_SafeBlockHash fc));
  ("finalizedBlockHash", j_fixed 32 (fc_FinalizedBlockHash fc))].

(** ** [json.Unmarshal] *)

(** Keys match field names exactly, or else up to case, as encoding/json folds it: letters,
    and the two other characters that fold to one (long s and the Kelvin sign). *)
Fixpoint fold_key (l : list byte) : list byte :=
  match l with
  | xc5 :: xbf :: l => x53 :: fold_key l
  | xe2 :: x84 :: xaa :: l => x4b :: fold_key l
  | b :: l => (if (97 <=? b2z b) && (b2z b <=? 122) then z2b (b2z b - 32) else b) :: fold_key l
  | [] => []
  end.
Definition equal_fold (a b : string) : bool :=
  bool_decide (fold_key (String.list_byte_of_string a) = fold_key (String.list_byte_of_string b)).
Definition find_field {A} (fields : list (string * A)) (key : string) : option A :=
  match list_find (fun f => f.1 = key) fields with
  | Some (_, f) => Some f.2
  | None => from_option (fun x => Some x.2.2) None (list_find (fun f => equal_fold f.1 key = true) fields)
  end.

(** The members one after the other, a later one over an earlier; unknown ones are skipped. *)
Fixpoint set_members {S} (fields : list (string * (json -> S -> res S))) (members : list (string * json))
    (v : S) : res S :=
  match members with
  | [] => Ok v
  | (key, j) :: members =>
      v ← match find_field fields key with Some set => set j v | None => Ok v end;
      set_members fields members v
  end.
Definition wrong_type : error := EMsg "json: cannot unmarshal value into Go value".
Definition unmarshal_struct {S} (fields : list (string * (json -> S -> res S))) (j : json) (v : S) : res S :=
  match j with
  | JObj members => set_members fields members v
  | JRaw raw => if String.eqb raw "null" then Ok v else Err wrong_type
  | JArr _ => Err wrong_type
  end.

(** A type with an UnmarshalJSON method gets the raw value; the fixed and bounded byte types
    refuse arrays and objects, which are kept parsed here, as they refuse other types. *)
Definition unmarshaler {A} (f : string -> res A) (j : json) : res A :=
  match j with JRaw raw => f raw | _ => Err wrong_type end.
Definition u_fixed (n : nat) (j : json) : res Z := be_value <$> unmarshaler (UnmarshalFixedJSON n) j.
Definition u_bytes (f : string -> res (list byte)) (j : json) : res Z := be_value <$> unmarshaler f j.
Fixpoint u_list {A} (f : json -> res A) (l : list json) : res (list A) :=
  match l with [] => Ok [] | j :: l => a ← f j; rest ← u_list f l; Ok (a :: rest) end.
Definition u_data (j : json) : res (list Data) :=
  match j with
  | JArr l => u_list (unmarshaler hex_UnmarshalJSON) l
  | JRaw raw => if String.eqb raw "null" then Ok [] else Err wrong_type
  | JObj _ => Err wrong_type
  end.

Definition set_field {A S} (u : json -> res A) (f : A -> S -> S) (j : json) (v : S) : res S :=
  (fun a => f a v) <$> u j.
Definition payload_fields : list (string * (json -> ExecutionPayload -> res ExecutionPayload)) := [
  ("parentHash", set_field (u_fixed 32) (fun a '(mkExecutionPayload _ b c d e f g h i j k l m n) =>
     mkExecutionPayload a b c d e f g h i j k l m n));
  ("feeRecipient", set_field (u_fixed 20) (fun b '(mkExecutionPayload a _ c d e f g h i j k l m n) =>
     mkExecutionPayload a b c d e f g h i j k l m n));
  ("stateRoot", set_field (u_bytes Bytes32_UnmarshalJSON) (fun c '(mkExecutionPayload a b _ d e f g h i j k l m n) =>
     mkExecutionPayload a b c d e f g h i j k l m n));
  ("receiptsRoot", set_field (u_bytes Bytes32_UnmarshalJSON) (fun d '(mkExecutionPayload a b c _ e f g h i j k l m n) =>
     mkExecutionPayload a b c d e f g h i j k l m n));
  ("logsBloom", set_field (u_bytes Bytes256_UnmarshalJSON) (fun e '(mkExecutionPayload a b c d _ f g h i j k l m n) =>
     mkExecutionPayload a b c d e f g h i j k l m n));
  ("prevRandao", set_field (u_bytes Bytes32_UnmarshalJSON) (fun f '(mkExecutionPayload a b c d e _ g h i j k l m n) =>
     mkExecutionPayload a b c d e f g h i j k l m n));
  ("blockNumber", set_field (unmarshaler uint64_UnmarshalJSON) (fun g '(mkExecutionPayload a b c d e f _ h i j k l m n) =>
     mkExecutionPayload a b c d e f g h i j k l m n));
  ("gasLimit", set_field (unmarshaler uint64_UnmarshalJSON) (fun h '(mkExecutionPayload a b c d e f g _ i j k l m n) =>
     mkExecutionPayload a b c d e f g h i j k l m n));
  ("gasUsed", set_field (unmarshaler uint64_UnmarshalJSON) (fun i '(mkExecutionPayload a b c d e f g h _ j k l m n) =>
     mkExecutionPayload a b c d e f g h i j k l m n));
  ("timestamp", set_field (unmarshaler uint64_UnmarshalJSON) (fun j '(mkExecutionPayload a b c d e f g h i _ k l m n) =>
     mkExecutionPayload a b c d e f g h i j k l m n));
  ("extraData", set_field (unmarshaler BytesMax32_UnmarshalJSON) (fun k '(mkExecutionPayload a b c d e f g h i j _ l m n) =>
     mkExecutionPayload a b c d e f g h i j k l m n));
  ("baseFeePerGas", set_field (unmarshaler uint256_UnmarshalJSON) (fun l '(mkExecutionPayload a b c d e f g h i j k _ m n) =>
     mkExecutionPayload a b c d e f g h i j k l m n));
  ("blockHash", set_field (u_fixed 32) (fun m '(mkExecutionPayload a b c d e f g h i j k l _ n) =>
     mkExecutionPayload a b c d e f g h i j k l m n));
  ("transactions", set_field u_data (fun n '(mkExecutionPayload a b c d e f g h i j k l m _) =>
     mkExecutionPayload a b c d e f g h i j k l m n))].
Definition zero_payload : ExecutionPayload := mkExecutionPayload 0 0 0 0 0 0 0 0 0 0 [] 0 0 [].
Definition Unmarshal_ExecutionPayload (j : json) : res ExecutionPayload :=
  unmarshal_struct payload_fields j zero_payload.
End Codecs.

(** ** Round trip *)

(** The documented behaviour of the texts: they read back as what they were written from,
    and those of bytes are "0x" and two digits a byte. *)
Class HexLaws `{HexUtil} := {
  hex_roundtrip b : hex_UnmarshalJSON (quote (hex_MarshalText b)) = Ok b;
  hex_text_roundtrip b : hex_UnmarshalText (hex_MarshalText b) = Ok b;
  hex_length b : String.length (hex_MarshalText b) = (2 + 2 * length b)%nat;
  fixed_roundtrip b : UnmarshalFixedJSON (length b) (quote (hex_MarshalText b)) = Ok b;
  uint64_roundtrip v : in_range 64 v -> uint64_UnmarshalJSON (quote (uint64_MarshalText v)) = Ok v;
  uint256_roundtrip v : in_range 256 v -> uint256_UnmarshalJSON (quote (uint256_MarshalText v)) = Ok v;
}.

(** Values of the widths of the fields. *)
Record payload_ok (p : ExecutionPayload) : Prop := {
  po_hashes : in_range 256 (pl_ParentHash p) /\ in_range 256 (pl_StateRoot p) /\
    in_range 256 (pl_ReceiptsRoot p) /\ in_range 256 (pl_PrevRandao p) /\ in_range 256 (pl_BlockHash p);
  po_address : in_range 160 (pl_FeeRecipient p);
  po_bloom : in_range 2048 (pl_LogsBloom p);
  po_numbers : in_range 64 (pl_BlockNumber p) /\ in_range 64 (pl_GasLimit p) /\
    in_range 64 (pl_GasUsed p) /\ in_range 64 (pl_Timestamp p);
  po_fee : in_range 256 (pl_BaseFeePerGas p);
}.

Section RoundTrip.
Context `{HexLaws}.

Lemma quote_length s : String.length (quote s) = (2 + String.length s)%nat.
Proof.
  assert (E : forall t, String.length (s +:+ t) = (String.length s + String.length t)%nat).
  { intros t. induction s as [|c s IH]; [done|]. change (S (String.length (s +:+ t)) = S (String.length s + String.length t)). by rewrite IH. }
  change (S (String.length (s +:+ String "034"%char EmptyString)) = (2 + String.length s)%nat).
  rewrite E. cbn. lia.
Qed.

(** Bounded bytes are read back exactly when they are within the bound, in both forms. *)
Lemma BytesMax32_codec b :
  BytesMax32_UnmarshalJSON (quote (BytesMax32_MarshalText b)) =
    (if zlen b <=? 32 then Ok b else Err too_long) /\
  BytesMax32_UnmarshalText (BytesMax32_MarshalText b) =
    (if zlen b <=? 32 then Ok b else Err too_long).
Proof.
  unfold BytesMax32_UnmarshalJSON, BytesMax32_UnmarshalText, BytesMax32_MarshalText.
  rewrite quote_length, hex_length, hex_roundtrip, hex_text_roundtrip. unfold zlen.
  destruct (Z.leb_spec (Z.of_nat (length b)) 32).
  - by rewrite !(proj2 (Z.ltb_ge _ _)) by lia.
  - by rewrite !(proj2 (Z.ltb_lt _ _)) by lia.
Qed.

Lemma u_fixed_roundtrip n w v :
  w = 8 * Z.of_nat n -> in_range w v -> u_fixed n (j_fixed n v) = Ok v.
Proof.
  intros Hw Hv. unfold u_fixed, j_fixed, j_text, unmarshaler.
  pose proof (fixed_roundtrip (be_bytes n v)) as E. rewrite length_be_bytes in E. rewrite E. cbn.
  by rewrite (be_value_bytes_small n w v).
Qed.
Lemma u_data_roundtrip txs : u_data (j_data txs) = Ok txs.
Proof.
  unfold j_data, u_data. induction txs as [|tx txs IH]; [done|].
  rewrite fmap_cons. cbn [u_list unmarshaler j_text]. rewrite hex_roundtrip. cbn [mbind res_bind].
  by rewrite IH.
Qed.

Lemma set_member {A S} (fields : list (string * (json -> S -> res S))) key j members v
    (u : json -> res A) f a :
  find_field fields key = Some (set_field u f) -> u j = Ok a ->
  set_members fields ((key, j) :: members) v = set_members fields members (f a v).
Proof. intros E1 E2. cbn [set_members]. unfold set_field in E1. by rewrite E1, E2. Qed.
Lemma set_member_fails {A S} (fields : list (string * (json -> S -> res S))) key j members v
    (u : json -> res A) f e :
  find_field fields key = Some (set_field u f) -> u j = Err e ->
  set_members fields ((key, j) :: members) v = Err e.
Proof. intros E1 E2. cbn [set_members]. unfold set_field in E1. by rewrite E1, E2. Qed.

Lemma u_uint64_roundtrip v :
  in_range 64 v -> unmarshaler uint64_UnmarshalJSON (j_text (uint64_MarshalText v)) = Ok v.
Proof. apply uint64_roundtrip. Qed.
Lemma u_hash_roundtrip v :
  in_range 256 v -> u_bytes Bytes32_UnmarshalJSON (j_text (Bytes32_MarshalText (be_bytes 32 v))) = Ok v.
Proof. by apply (u_fixed_roundtrip 32 256). Qed.
Lemma u_bloom_roundtrip v :
  in_range 2048 v -> u_bytes Bytes256_UnmarshalJSON (j_text (Bytes256_MarshalText (be_bytes 256 v))) = Ok v.
Proof. by apply (u_fixed_roundtrip 256 2048). Qed.

Ltac member lemma := erewrite set_member; [|reflexivity|by apply lemma].

(** A payload reads back as it was written exactly when its extra data is within the
    bound; otherwise reading fails. *)
Lemma ExecutionPayload_json p :
  payload_ok p ->
  Unmarshal_ExecutionPayload (Marshal_ExecutionPayload p) =
    (if zlen (pl_ExtraData p) <=? 32 then Ok p else Err too_long).
Proof.
  intros [(H1 & H2 & H3 & H4 & H5) Ha Hb (N1 & N2 & N3 & N4) Hf].
  unfold Unmarshal_ExecutionPayload, Marshal_ExecutionPayload, unmarshal_struct.
  member (u_fixed_roundtrip 32 256). member (u_fixed_roundtrip 20 160).
  do 2 member u_hash_roundtrip. member u_bloom_roundtrip. member u_hash_roundtrip.
  do 4 member u_uint64_roundtrip.
  pose proof (proj1 (BytesMax32_codec (pl_ExtraData p))) as E.
  destruct (zlen (pl_ExtraData p) <=? 32).
  - member E. member uint256_roundtrip. member (u_fixed_roundtrip 32 256). member u_data_roundtrip.
    by destruct p.
  - eapply set_member_fails; [reflexivity|exact E].
Qed.
End RoundTrip.
