(* ===== verification/L2Source.v ===== *)
(** * The L2 source

    op-node/l2/source.go, util.go and the payload methods of api.go: how the node
    reads blocks from the execution engine, drives it through the Engine API, and
    extracts block references, batches, output roots and account proofs. *)

From S2P Require Import Prelude Types Geth L1Info Deposits Batches.

(** The engine's RPC and ethclient, as source.go calls them.  A result that is read
    even when the call fails is returned next to the error. *)
Class L2RPC `{GethTypes} (W : Type) := {
  client_BlockByHash : Hash -> M W Block;
  client_BlockByNumber : option bigInt -> M W Block; (* nil is the latest block *)
  engine_forkchoiceUpdatedV1 : ForkchoiceState -> option PayloadAttributes ->
    W -> (ForkchoiceUpdatedResult * option error) * W;
  engine_newPayloadV1 : ExecutionPayload -> W -> (PayloadStatusV1 * option error) * W;
  engine_getPayloadV1 : PayloadID -> M W ExecutionPayload;
}.

(** ** api.go *)
Section Payloads.
Context `{GethTypes}.

(** [CheckBlockHash]: the recomputed hash, and whether it matches. *)
Definition CheckBlockHash (payload : ExecutionPayload) : Hash * bool :=
  let txHash := DeriveSha_bytes (pl_Transactions payload) in
  let header := {|
    hdr_ParentHash := pl_ParentHash payload;
    hdr_UncleHash := EmptyUncleHash;
    hdr_Coinbase := pl_FeeRecipient payload;
    hdr_Root := pl_StateRoot payload;
    hdr_TxHash := txHash;
    hdr_ReceiptHash := pl_ReceiptsRoot payload;
    hdr_Bloom := pl_LogsBloom payload;
    hdr_Difficulty := 0;
    hdr_Number := to_int64 (pl_BlockNumber payload);
    hdr_GasLimit := pl_GasLimit payload;
    hdr_GasUsed := pl_GasUsed payload;
    hdr_Time := pl_Timestamp payload;
    hdr_Extra := pl_ExtraData payload;
    hdr_MixDigest := pl_PrevRandao payload;
    hdr_Nonce := 0;
    hdr_BaseFee := pl_BaseFeePerGas payload;
  |} in
  let blockHash := header_Hash header in
  (blockHash, blockHash =? pl_BlockHash payload).

(** [BlockAsPayload]; [uint256.FromBig] keeps the low 256 bits of the two's complement
    and reports an overflow when the magnitude has more than 256 bits. *)
Definition BlockAsPayload (bl : Block) : res ExecutionPayload :=
  let h := bl_Header bl in
  if 2 ^ 256 <=? Z.abs (hdr_BaseFee h) then Err (EMsg "invalid base fee in block")
  else
    opaqueTxs ← mapM_res (fun tx => map_err (wrapv "tx failed to marshal: ") (tx_MarshalBinary tx))
                  (bl_Transactions bl);
    Ok {|
      pl_ParentHash := hdr_ParentHash h;
      pl_FeeRecipient := hdr_Coinbase h;
      pl_StateRoot := hdr_Root h;
      pl_ReceiptsRoot := hdr_ReceiptHash h;
      pl_LogsBloom := hdr_Bloom h;
      pl_PrevRandao := hdr_MixDigest h;
      pl_BlockNumber := bl_NumberU64 bl;
      pl_GasLimit := hdr_GasLimit h;
      pl_GasUsed := hdr_GasUsed h;
      pl_Timestamp := hdr_Time h;
      pl_ExtraData := hdr_Extra h;
      pl_BaseFeePerGas := wrap 256 (hdr_BaseFee h);
      pl_BlockHash := bl_Hash bl;
      pl_Transactions := opaqueTxs;
    |}.

(** ** Block references *)

(** [blockToBlockRef] *)
Definition blockToBlockRef (block : Block) (genesis : Genesis) : res L2BlockRef :=
  '(l1Origin, sequenceNumber) ←
    (if bl_NumberU64 block =? id_Number (gen_L2 genesis) then
       if negb (bl_Hash block =? id_Hash (gen_L2 genesis)) then
         Err (EMsg "expected L2 genesis hash to match L2 block at genesis block number")
       else Ok (gen_L1 genesis, 0)
     else
       match bl_Transactions block with
       | [] => Err (EMsg "l2 block is missing L1 info deposit tx")
       | tx :: _ =>
           if negb (bool_decide (tx_Type tx = DepositTxType)) then
             Err (EMsg "first block tx has unexpected tx type")
           else
             info ← map_err (wrapv "failed to parse L1 info deposit tx from L2 block: ")
                      (L1InfoDepositTxData (tx_Data tx));
             Ok (mkBlockID (bi_BlockHash info) (bi_Number info), bi_SequenceNumber info)
       end);
  Ok {| l2_Hash := bl_Hash block; l2_Number := bl_NumberU64 block;
        l2_ParentHash := hdr_ParentHash (bl_Header block); l2_Time := hdr_Time (bl_Header block);
        l2_L1Origin := l1Origin; l2_SequenceNumber := sequenceNumber |}.

(** [PayloadToBlockRef] *)
Definition PayloadToBlockRef (payload : ExecutionPayload) (genesis : Genesis) : res L2BlockRef :=
  '(l1Origin, sequenceNumber) ←
    (if pl_BlockNumber payload =? id_Number (gen_L2 genesis) then
       if negb (pl_BlockHash payload =? id_Hash (gen_L2 genesis)) then
         Err (EMsg "expected L2 genesis hash to match L2 block at genesis block number")
       else Ok (gen_L1 genesis, 0)
     else
       match pl_Transactions payload with
       | [] => Err (EMsg "l2 block is missing L1 info deposit tx")
       | otx :: _ =>
           tx ← map_err (wrapv "failed to decode first tx to read l1 info from: ")
                  (tx_UnmarshalBinary otx);
           if negb (bool_decide (tx_Type tx = DepositTxType)) then
             Err (EMsg "first payload tx has unexpected tx type")
           else
             info ← map_err (wrapv "failed to parse L1 info deposit tx from L2 block: ")
                      (L1InfoDepositTxData (tx_Data tx));
             Ok (mkBlockID (bi_BlockHash info) (bi_Number info), bi_SequenceNumber info)
       end);
  Ok {| l2_Hash := pl_BlockHash payload; l2_Number := pl_BlockNumber payload;
        l2_ParentHash := pl_ParentHash payload; l2_Time := pl_Timestamp payload;
        l2_L1Origin := l1Origin; l2_SequenceNumber := sequenceNumber |}.

(** ** util.go *)

(** The loop of [BlockToBatch] that encodes the transactions that are not deposits. *)
Fixpoint BlockToBatch_txs (txs : list Transaction) (opaqueTxs : list Data) : res (list Data) :=
  match txs with
  | [] => Ok opaqueTxs
  | tx :: txs =>
      if bool_decide (tx_Type tx = DepositTxType) then BlockToBatch_txs txs opaqueTxs
      else
        otx ← map_err (wrapv "failed to encode tx in block: ") (tx_MarshalBinary tx);
        BlockToBatch_txs txs (opaqueTxs ++ [otx])
  end.

(** [BlockToBatch]; [Ok None] is the nil batch of an empty block. *)
Definition BlockToBatch (block : Block) : res (option BatchData) :=
  match bl_Transactions block with
  | [] => Err (EMsg "expected at least 1 transaction but found none")
  | tx0 :: rest =>
      if negb (bool_decide (tx_Type tx0 = DepositTxType)) then
        Err (EMsg "expected first tx to be a deposit of L1 info")
      else if bool_decide (rest = []) then Ok None
      else
        opaqueTxs ← BlockToBatch_txs (bl_Transactions block) [];
        l1Info ← map_err (wrapv "invalid L1 info deposit tx in block: ")
                   (L1InfoDepositTxData (tx_Data tx0));
        Ok (Some (mkBatchV1 (bi_Number l1Info) (hdr_Time (bl_Header block)) opaqueTxs))
  end.
End Payloads.

(** [ComputeL2OutputRoot] *)
Definition ComputeL2OutputRoot `{Keccak} (l2OutputRootVersion : Z)
    (blockHash blockRoot storageRoot : Hash) : Hash :=
  Keccak256 (be_bytes 32 l2OutputRootVersion ++ be_bytes 32 blockRoot ++
             be_bytes 32 storageRoot ++ be_bytes 32 blockHash).

Record AccountResult := mkAccountResult {
  ar_AccountProof : list (list byte);
  ar_Address : Address;
  ar_Balance : bigInt;
  ar_CodeHash : Hash;
  ar_Nonce : uint64;
  ar_StorageHash : Hash;
}.

(** go-ethereum's trie over a store of nodes keyed by their hash, and the RLP of an
    account [nonce, balance bytes, storage hash, code hash]. *)
Class TrieDB := {
  Trie : Type;
  trie_New : Hash -> gmap Z (list byte) -> res Trie;
  trie_TryGet : Trie -> list byte -> res (list byte);
  rlp_account : uint64 -> bigInt -> Hash -> Hash -> res (list byte);
}.

(** [AccountResult.Verify] *)
Definition AccountResult_Verify `{Keccak} `{TrieDB} (r : AccountResult) (stateRoot : Hash)
    : res unit :=
  accountClaimedValue ← map_err (wrapv "failed to encode account from retrieved values: ")
    (rlp_account (ar_Nonce r) (Z.abs (ar_Balance r)) (ar_StorageHash r) (ar_CodeHash r));
  let db := foldl (fun db encodedNode => <[Keccak256 encodedNode := encodedNode]> db) ∅
              (ar_AccountProof r) in
  let key := Keccak256 (be_bytes 20 (ar_Address r)) in
  proofTrie ← map_err (fun _ => EMsg "failed to load db wrapper around kv store")
                (trie_New stateRoot db);
  accountProofValue ← map_err (wrapv "failed to retrieve account value: ")
                        (trie_TryGet proofTrie (be_bytes 32 key));
  if negb (bool_decide (accountClaimedValue = accountProofValue)) then
    Err (EMsg "L1 RPC is tricking us, account proof does not match provided deserialized values")
  else Ok tt.

(** ** source.go *)
Section Source.
Context `{GethTypes} {W : Type} `{!L2RPC W} (genesis : Genesis).

(** [Source.PayloadByHash] and [Source.PayloadByNumber] *)
Definition PayloadByHash (hash : Hash) : M W ExecutionPayload :=
  block ← M_err (wrapv "failed to retrieve L2 block by hash: ") (client_BlockByHash hash);
  M_err (wrapw "failed to read L2 block as payload: ") (lift (BlockAsPayload block)).

Definition PayloadByNumber (number : option bigInt) : M W ExecutionPayload :=
  block ← M_err (wrapv "failed to retrieve L2 block by number: ") (client_BlockByNumber number);
  M_err (wrapw "failed to read L2 block as payload: ") (lift (BlockAsPayload block)).

(** The text of an error that may be nil, as [%v] prints it. *)
Definition err_text (err : option error) : string :=
  match err with Some e => error_text e | None => "<nil>" end.

(** [Source.ForkchoiceUpdate]: the status decides, the call's error is only printed. *)
Definition ForkchoiceUpdate (fc : ForkchoiceState) (attributes : option PayloadAttributes)
    : M W ForkchoiceUpdatedResult := fun w =>
  let '((result, err), w') := engine_forkchoiceUpdatedV1 fc attributes w in
  (match ps_Status (fr_PayloadStatus result) with
   | ExecutionSyncing => Err (EMsg ("updated forkchoice, but node is syncing: " +:+ err_text err))
   | ExecutionAccepted | ExecutionInvalidTerminalBlock | ExecutionInvalidBlockHash =>
       Err (EMsg ("unexpected status, could not update forkchoice: " +:+ err_text err))
   | ExecutionInvalid => Err (EMsg ("cannot update forkchoice, block is invalid: " +:+ err_text err))
   | ExecutionValid => Ok result
   | ExecutionOther s => Err (EMsg ("unknown forkchoice status: " +:+ s))
   end, w').

(** [Source.NewPayload] *)
Definition NewPayload (payload : ExecutionPayload) : M W unit := fun w =>
  let '((result, err), w') := engine_newPayloadV1 payload w in
  (match err with
   | Some e => Err (wrapv "failed to execute payload: " e)
   | None =>
       match ps_Status result with
       | ExecutionValid => Ok tt
       | ExecutionSyncing => Err (EMsg "failed to execute payload, node is syncing")
       | ExecutionInvalid => Err (EMsg "execution payload was INVALID! ignoring bad block")
       | ExecutionInvalidBlockHash => Err (EMsg "execution payload has INVALID BLOCKHASH!")
       | ExecutionInvalidTerminalBlock =>
           Err (EMsg "engine is misconfigured. Received invalid-terminal-block error")
       | ExecutionAccepted => Err (EMsg "execution payload cannot be validated yet")
       | ExecutionOther s => Err (EMsg ("unknown execution status: " +:+ s))
       end
   end, w').

(** [Source.GetPayload] *)
Definition GetPayload (payloadId : PayloadID) : M W ExecutionPayload :=
  engine_getPayloadV1 payloadId.

(** [Source.L2BlockRefByNumber] and [Source.L2BlockRefByHash]; [ReadOnlySource] has
    the same methods. *)
Definition L2BlockRefByNumber (l2Num : option bigInt) : M W L2BlockRef :=
  block ← M_err (wrapw "failed to determine block-hash of height, could not get header: ")
            (client_BlockByNumber l2Num);
  lift (blockToBlockRef block genesis).

Definition L2BlockRefByHash (l2Hash : Hash) : M W L2BlockRef :=
  block ← M_err (wrapw "failed to determine block-hash of height, could not get header: ")
            (client_BlockByHash l2Hash);
  lift (blockToBlockRef block genesis).
End Source.

(** ** Properties *)
Section Properties.
Context `{GethLaws}.

Lemma mapM_res_Forall2 {A B} (f : A -> res B) l l' :
  mapM_res f l = Ok l' -> Forall2 (fun x y => f x = Ok y) l l'.
Proof.
  revert l'. induction l as [|x l IH]; intros l' E; cbn in E; go_inv; constructor; auto.
Qed.

Lemma BlockAsPayload_inv bl p :
  BlockAsPayload bl = Ok p ->
  Z.abs (hdr_BaseFee (bl_Header bl)) < 2 ^ 256 /\
  Forall2 (fun tx b => tx_MarshalBinary tx = Ok b) (bl_Transactions bl) (pl_Transactions p).
Proof.
  unfold BlockAsPayload. intros E. case_match eqn:Hfee; [done|].
  apply res_bind_ok in E as (encs & Henc & E). apply Ok_inj in E as <-. split; [lia|].
  apply mapM_res_Forall2 in Henc. cbn. eapply Forall2_impl; [done|].
  intros tx b Hb. by apply map_err_ok in Hb.
Qed.

Lemma BlockAsPayload_fields bl p :
  BlockAsPayload bl = Ok p ->
  pl_BlockHash p = bl_Hash bl /\ pl_BlockNumber p = bl_NumberU64 bl /\
  pl_ParentHash p = hdr_ParentHash (bl_Header bl) /\ pl_Timestamp p = hdr_Time (bl_Header bl).
Proof. unfold BlockAsPayload. intros E. case_match; [done|]. by go_inv. Qed.

Lemma PayloadToBlockRef_BlockAsPayload genesis bl p :
  BlockAsPayload bl = Ok p ->
  forall ref, PayloadToBlockRef p genesis = Ok ref <-> blockToBlockRef bl genesis = Ok ref.
Proof.
  intros E ref. destruct (BlockAsPayload_fields _ _ E) as (Eh & En & Ep & Et).
  apply BlockAsPayload_inv in E as [_ Htxs].
  unfold PayloadToBlockRef, blockToBlockRef. rewrite Eh, En, Ep, Et.
  case_match; [done|]. destruct Htxs as [|tx b txs bs Hb _]; [done|].
  rewrite (tx_roundtrip _ _ Hb). cbn [map_err mbind res_bind].
  case_bool_decide; cbn [negb]; [done|]. by split.
Qed.

Lemma CheckBlockHash_BlockAsPayload bl p :
  let h := bl_Header bl in
  hdr_UncleHash h = EmptyUncleHash -> hdr_Difficulty h = 0 -> hdr_Nonce h = 0 ->
  hdr_TxHash h = DeriveSha_txs (bl_Transactions bl) ->
  0 <= hdr_Number h < 2 ^ 63 -> 0 <= hdr_BaseFee h ->
  BlockAsPayload bl = Ok p -> CheckBlockHash p = (bl_Hash bl, true).
Proof.
  intros h Hu Hd Hn Ht Hnum Hfee E. subst h.
  assert (Hh : (CheckBlockHash p).1 = bl_Hash bl).
  { pose proof (BlockAsPayload_inv _ _ E) as [Hfee' Htxs].
    pose proof (derive_sha_encoding _ _ Htxs) as Hsha.
    unfold BlockAsPayload in E. case_match; [done|]. go_inv. cbn in Htxs, Hsha |- *.
    rewrite Hsha, <-Ht, <-Hu. unfold bl_Hash, bl_NumberU64. f_equal.
    rewrite (wrap_small 64 (hdr_Number _)) by (unfold in_range; lia).
    rewrite (wrap_small 256) by (unfold in_range; lia).
    unfold to_int64. rewrite (wrap_small 64) by (unfold in_range; lia).
    rewrite (proj2 (Z.ltb_lt _ _)) by lia. destruct (bl_Header bl). cbn in *. congruence. }
  unfold CheckBlockHash in *. cbv zeta in *. cbn [fst] in Hh. rewrite Hh.
  pose proof (BlockAsPayload_fields _ _ E) as (-> & _). by rewrite Z.eqb_refl.
Qed.

Lemma BlockToBatch_txs_spec txs acc out :
  BlockToBatch_txs txs acc = Ok out ->
  exists encs, out = acc ++ encs /\
    Forall2 (fun tx b => tx_MarshalBinary tx = Ok b)
      (filter (fun tx => tx_Type tx <> DepositTxType) txs) encs.
Proof.
  revert acc. induction txs as [|tx txs IH]; intros acc E; cbn [BlockToBatch_txs] in E.
  { apply Ok_inj in E as <-. exists []. rewrite app_nil_r. by split. }
  case_bool_decide as Ht.
  - rewrite filter_cons_False by (intros Hn; done). by apply IH.
  - rewrite filter_cons_True by done. go_inv. apply IH in E as (encs & -> & Hall).
    exists (x :: encs). rewrite <-app_assoc. split; [done|]. by constructor.
Qed.

Lemma ValidBatch_txs_Forall (encs : list Data) :
  Forall (fun b => exists t rest, b = t :: rest /\ t <> DepositTxType) encs ->
  ValidBatch_txs encs = true.
Proof.
  induction 1 as [|b encs (t & rest & -> & Ht) _ IH]; [done|]. cbn.
  by rewrite bool_decide_eq_false_2.
Qed.

(** [C32] A block and the payload it is converted to agree.  The L1 origin, the sequence
    number, the hashes, number and time that [PayloadToBlockRef] reads from the payload are
    those that [blockToBlockRef] reads from the block, and one is refused exactly when the
    other is; and a post-merge block passes its own hash check: [CheckBlockHash]
    recomputes the block's hash from the payload. *)
Theorem BlockAsPayload_agrees genesis bl p :
  BlockAsPayload bl = Ok p ->
  (forall ref, PayloadToBlockRef p genesis = Ok ref <-> blockToBlockRef bl genesis = Ok ref) /\
  (let h := bl_Header bl in
   hdr_UncleHash h = EmptyUncleHash -> hdr_Difficulty h = 0 -> hdr_Nonce h = 0 ->
   hdr_TxHash h = DeriveSha_txs (bl_Transactions bl) ->
   0 <= hdr_Number h < 2 ^ 63 -> 0 <= hdr_BaseFee h ->
   CheckBlockHash p = (bl_Hash bl, true)).
Proof.
  intros E. split; [by apply PayloadToBlockRef_BlockAsPayload|].
  intros h Hu Hd Hn Ht Hnum Hfee. by apply CheckBlockHash_BlockAsPayload.
Qed.

(** What the batch submitter reads from a block is what the derivation will
    accept: the batch carries the encodings of the transactions that are not deposits,
    in order, the block's time and the epoch of its L1 info transaction, and passes
    [ValidBatch] whenever its time does. *)
Lemma BlockToBatch_valid config bl batch lo hi :
  BlockToBatch bl = Ok (Some batch) ->
  cfg_BlockTime config <> 0 -> lo <= hdr_Time (bl_Header bl) < hi ->
  (hdr_Time (bl_Header bl) -64 gen_L2Time (cfg_Genesis config)) mod cfg_BlockTime config = 0 ->
  ValidBatch batch config (b_Epoch batch) lo hi = Ok true /\
  b_Timestamp batch = hdr_Time (bl_Header bl) /\
  (exists tx0 rest info, bl_Transactions bl = tx0 :: rest /\
     L1InfoDepositTxData (tx_Data tx0) = Ok info /\ b_Epoch batch = bi_Number info) /\
  Forall2 (fun tx b => tx_MarshalBinary tx = Ok b)
    (filter (fun tx => tx_Type tx <> DepositTxType) (bl_Transactions bl)) (b_Transactions batch).
Proof.
  unfold BlockToBatch. intros E Hbt Htime Halign.
  destruct (bl_Transactions bl) as [|tx0 rest] eqn:Etxs; [done|].
  case_bool_decide as Htype; [|done]. cbn [negb] in E.
  case_bool_decide; [done|]. apply res_bind_ok in E as (encs & Hencs & E).
  apply res_bind_ok in E as (info & Hinfo & E). injection E as <-.
  apply map_err_ok in Hinfo. apply BlockToBatch_txs_spec in Hencs as (encs' & -> & Hall).
  cbn [app b_Epoch b_Timestamp b_Transactions] in *. split_and!; [|done|eauto 6|done].
  unfold ValidBatch. cbn [b_Epoch b_Timestamp b_Transactions]. rewrite Z.eqb_refl. cbn [negb].
  rewrite (proj2 (Z.eqb_neq _ _) Hbt), Halign. cbn [negb Z.eqb].
  rewrite (proj2 (Z.ltb_ge _ _)), (proj2 (Z.leb_gt _ _)) by lia. f_equal.
  apply ValidBatch_txs_Forall, Forall_forall. intros b Hb.
  apply list_elem_of_lookup in Hb as [i Hi].
  destruct (Forall2_lookup_r _ _ _ _ _ Hall Hi) as (tx & Htx & Henc).
  apply list_elem_of_lookup_2, list_elem_of_filter in Htx as [Hnd _].
  apply tx_encoding_type in Henc as (t & r & -> & Hiff). exists t, r. tauto.
Qed.
End Properties.

(** ** Witnesses *)
Definition info_data_example : list byte :=
  replicate 4 x00 ++ be_bytes 32 9 ++ be_bytes 32 1000 ++ be_bytes 32 7 ++ be_bytes 32 0xabc ++
  be_bytes 32 2.
Definition txs_example : list (byte * list byte) :=
  [(x7e, info_data_example); (x02, [x01; x02]); (x02, [x03])].
Definition block_example : @Block ToyGeth :=
  @mkBlock ToyGeth {|
    hdr_ParentHash := 77; hdr_UncleHash := @EmptyUncleHash ToyGeth; hdr_Coinbase := 1;
    hdr_Root := 2; hdr_TxHash := @DeriveSha_txs ToyGeth txs_example; hdr_ReceiptHash := 3;
    hdr_Bloom := 4; hdr_Difficulty := 0; hdr_Number := 5; hdr_GasLimit := 6; hdr_GasUsed := 7;
    hdr_Time := 104; hdr_Extra := []; hdr_MixDigest := 8; hdr_Nonce := 0; hdr_BaseFee := 9 |}
    txs_example.
Definition genesis_example : Genesis := mkGenesis (mkBlockID 11 1) (mkBlockID 12 0) 94.

Lemma BlockAsPayload_agrees_witness :
  exists p ref, @BlockAsPayload ToyGeth block_example = Ok p /\
    @PayloadToBlockRef ToyGeth p genesis_example = Ok ref /\ l2_SequenceNumber ref = 2 /\
    @CheckBlockHash ToyGeth p = (bl_Hash block_example, true).
Proof.
  destruct (@BlockAsPayload ToyGeth block_example) as [p| | |] eqn:E; try (vm_compute in E; discriminate).
  destruct (@blockToBlockRef ToyGeth block_example genesis_example) as [ref| | |] eqn:E2;
    try (vm_compute in E2; discriminate).
  destruct (@BlockAsPayload_agrees ToyGeth ToyGethLaws genesis_example block_example p E)
    as [Href Hhash].
  exists p, ref. split_and!.
  - done.
  - apply Href. exact E2.
  - vm_compute in E2. by injection E2 as <-.
  - exact (Hhash eq_refl eq_refl eq_refl eq_refl ltac:(cbn; lia) ltac:(cbn; lia)).
Defined.

Definition config_example : Config := mkConfig genesis_example 2 10 4 900 901 77 78 4 907 79.
