(* ===== verification/Sync.v ===== *)
(** * Reconciling L1 and L2

    op-node/rollup/sync/start.go: [FindL2Heads] walks the L2 chain back from the
    unsafe head, first to a block whose L1 origin is canonical, then through a
    sequencing window of epochs to the safe head. *)

From S2P Require Import Prelude Types.

(** The chains as sync uses them. *)
Class L1Chain (W : Type) := {
  L1HeadBlockRef : M W L1BlockRef;
  L1BlockRefByNumber : uint64 -> M W L1BlockRef;
}.
Class L2Chain (W : Type) := {
  chain_L2BlockRefByHash : Hash -> M W L2BlockRef;
}.

Definition MaxReorgDepth : Z := 500.

Section Sync.
Context {W : Type} `{!L1Chain W} `{!L2Chain W}.

(** [isAheadOrCanonical] *)
Definition isAheadOrCanonical (block : BlockID) : M W (bool * bool) :=
  l1Head ← L1HeadBlockRef;
  if l1_Number l1Head <? id_Number block then mret (true, false)
  else
    canonical ← L1BlockRefByNumber (id_Number block);
    let canonical := l1_Hash canonical =? id_Hash block in
    mret (canonical, canonical).

Definition is_genesis (genesis : Genesis) (n : L2BlockRef) : bool :=
  (l2_Hash n =? id_Hash (gen_L2 genesis)) || (l2_Number n =? id_Number (gen_L2 genesis)).

(** Loop 1: back to the first block with a canonical L1 origin; returns [n],
    [prevL1OriginHash] and [highestPlausibleCanonicalOrigin] at the [break]. *)
Fixpoint FindL2Heads_loop1 (fuel : nat) (genesis : Genesis) (n : L2BlockRef) (reorgDepth : Z)
    (prevL1OriginHash : Hash) (highest : L2BlockRef) : M W (L2BlockRef * Hash * L2BlockRef) :=
  match fuel with
  | O => lift OutOfFuel
  | S fuel =>
      '(stop, prevL1OriginHash, highest) ←
        (if negb (prevL1OriginHash =? id_Hash (l2_L1Origin n)) then
           let prevL1OriginHash := id_Hash (l2_L1Origin n) in
           '(plausible, canonical) ← isAheadOrCanonical (l2_L1Origin n);
           if negb plausible then mret (false, prevL1OriginHash, zeroL2BlockRef)
           else
             let highest := if bool_decide (highest = zeroL2BlockRef) then n else highest in
             mret (canonical, prevL1OriginHash, highest)
         else mret (false, prevL1OriginHash, highest));
      if (stop : bool) then mret (n, prevL1OriginHash, highest)
      else if is_genesis genesis n then throw EWrongChain
      else
        n ← M_err (wrapw "failed to fetch L2 block by hash: ")
              (chain_L2BlockRefByHash (l2_ParentHash n));
        let reorgDepth := reorgDepth + 1 in
        if MaxReorgDepth <=? reorgDepth then throw ETooDeepReorg
        else FindL2Heads_loop1 fuel genesis n reorgDepth prevL1OriginHash highest
  end.

Definition genesis_ref (genesis : Genesis) : L2BlockRef :=
  {| l2_Hash := id_Hash (gen_L2 genesis); l2_Number := id_Number (gen_L2 genesis);
     l2_ParentHash := 0; l2_Time := gen_L2Time genesis; l2_L1Origin := gen_L1 genesis;
     l2_SequenceNumber := 0 |}.

(** Loop 2: back to the first block of the window, or genesis. *)
Fixpoint FindL2Heads_loop2 (fuel : nat) (genesis : Genesis) (seqWindowSize : uint64)
    (n : L2BlockRef) (prevL1OriginHash : Hash) (depth : uint64) : M W L2BlockRef :=
  match fuel with
  | O => lift OutOfFuel
  | S fuel =>
      let '(depth, prevL1OriginHash) :=
        if negb (id_Hash (l2_L1Origin n) =? prevL1OriginHash)
        then (depth +64 1, id_Hash (l2_L1Origin n)) else (depth, prevL1OriginHash) in
      if depth =? seqWindowSize then mret n
      else if is_genesis genesis n then mret (genesis_ref genesis)
      else
        n ← M_err (wrapw "failed to fetch L2 block by hash: ")
              (chain_L2BlockRefByHash (l2_ParentHash n));
        FindL2Heads_loop2 fuel genesis seqWindowSize n prevL1OriginHash depth
  end.

(** [FindL2Heads]: the unsafe and the safe head. *)
Definition FindL2Heads (fuel : nat) (start : L2BlockRef) (seqWindowSize : uint64)
    (genesis : Genesis) : M W (L2BlockRef * L2BlockRef) :=
  '(n, prevL1OriginHash, highestPlausibleCanonicalOrigin) ←
    FindL2Heads_loop1 fuel genesis start 0 0 zeroL2BlockRef;
  safe ← FindL2Heads_loop2 fuel genesis seqWindowSize n prevL1OriginHash 1;
  mret (highestPlausibleCanonicalOrigin, safe).
End Sync.

(** ** Specification on chains that do not change during the search *)
Section Spec.
Context (head : L1BlockRef) (canon : Z -> Hash) (genesis : Genesis).

(** The origin is ahead of the L1 head or canonical, and canonical. *)
Definition canonical (b : L2BlockRef) : Prop :=
  id_Number (l2_L1Origin b) <= l1_Number head /\
  canon (id_Number (l2_L1Origin b)) = id_Hash (l2_L1Origin b).
Definition plausible (b : L2BlockRef) : Prop :=
  l1_Number head < id_Number (l2_L1Origin b) \/ canonical b.

#[export] Instance canonical_dec b : Decision (canonical b).
Proof. unfold canonical. apply _. Defined.
#[export] Instance plausible_dec b : Decision (plausible b).
Proof. unfold plausible. apply _. Defined.

(** The number of epochs (runs of one L1 origin) a chain segment spans. *)
Fixpoint epochs (l : list L2BlockRef) : nat :=
  match l with
  | [] => 0
  | a :: l' =>
      match l' with
      | [] => 1
      | b :: _ => (if decide (id_Hash (l2_L1Origin a) = id_Hash (l2_L1Origin b)) then 0 else 1)
                  + epochs l'
      end
  end.

(** [u] is the highest block such that it and all blocks below it, down to [c], have a
    plausible origin; [pre] are the blocks above [c]. *)
Definition is_unsafe_head (pre : list L2BlockRef) (c u : L2BlockRef) : Prop :=
  exists above below, pre ++ [c] = above ++ u :: below /\ Forall plausible (u :: below) /\
    (above = [] \/ exists above' x, above = above' ++ [x] /\ ~ plausible x).

(** The first block at which the segment spans [window] epochs, or else genesis. *)
Definition safe_head (window : Z) (l : list L2BlockRef) : L2BlockRef :=
  match list_find (fun i => Z.of_nat (epochs (take (S i) l)) = window) (seq 0 (length l)) with
  | Some (_, i) => default (genesis_ref genesis) (l !! i)
  | None => genesis_ref genesis
  end.
End Spec.

Section Proofs.
Context {W : Type} `{!L1Chain W} `{!L2Chain W}.
Context (head : L1BlockRef) (canon : Z -> Hash) (genesis : Genesis).

Hypothesis Hhead : forall w : W, (L1HeadBlockRef w).1 = Ok head.
Hypothesis Hcanon : forall (w : W) n, n <= l1_Number head ->
  exists r, (L1BlockRefByNumber n w).1 = Ok r /\ l1_Hash r = canon n.

(** A chain from its head down to genesis: the L2 node serves each block's parent. *)
Fixpoint chain_ok (l : list L2BlockRef) : Prop :=
  match l with
  | [] => False
  | a :: l' =>
      match l' with
      | [] => is_genesis genesis a = true
      | b :: _ => is_genesis genesis a = false /\
          (forall w : W, (chain_L2BlockRefByHash (l2_ParentHash a) w).1 = Ok b) /\ chain_ok l'
      end
  end.

(** L1 origins are identified by their non-zero hash. *)
Definition origins_ok (l : list L2BlockRef) : Prop :=
  forall a, a ∈ l -> id_Hash (l2_L1Origin a) <> 0 /\
  forall b, b ∈ l -> id_Hash (l2_L1Origin a) = id_Hash (l2_L1Origin b) -> l2_L1Origin a = l2_L1Origin b.

Lemma M_bind_eq {A B} (f : A -> M W B) (c : M W A) w a w' :
  c w = (Ok a, w') -> (c ≫= f) w = f a w'.
Proof. intros E. unfold mbind, M_bind. by rewrite E. Qed.

Lemma isAheadOrCanonical_static w b :
  exists w', isAheadOrCanonical (l2_L1Origin b) w =
    (Ok (bool_decide (plausible head canon b), bool_decide (canonical head canon b)), w').
Proof.
  unfold isAheadOrCanonical. pose proof (Hhead w) as H1.
  destruct (L1HeadBlockRef w) as [r w1] eqn:E1. cbn in H1. subst r.
  rewrite (M_bind_eq _ _ _ _ _ E1). unfold plausible, canonical.
  destruct (Z.ltb_spec (l1_Number head) (id_Number (l2_L1Origin b))).
  - eexists. cbn. rewrite bool_decide_eq_true_2, bool_decide_eq_false_2 by lia. done.
  - destruct (Hcanon w1 (id_Number (l2_L1Origin b)) ltac:(lia)) as (r & H2 & H3).
    destruct (L1BlockRefByNumber _ w1) as [r' w2] eqn:E2. cbn in H2. subst r'.
    rewrite (M_bind_eq _ _ _ _ _ E2). eexists. cbn. rewrite H3.
    destruct (Z.eqb_spec (canon (id_Number (l2_L1Origin b))) (id_Hash (l2_L1Origin b))).
    + by rewrite !bool_decide_eq_true_2 by auto.
    + by rewrite !bool_decide_eq_false_2 by (intros ?; lia).
Qed.

Lemma canonical_origin a b :
  l2_L1Origin a = l2_L1Origin b ->
  (canonical head canon a <-> canonical head canon b) /\
  (plausible head canon a <-> plausible head canon b).
Proof. unfold plausible, canonical. by intros ->. Qed.

(** Loop 1 on a static chain: [cand] is the candidate so far, [k] the depth. *)
Fixpoint walk1 (k : Z) (cand : L2BlockRef) (l : list L2BlockRef)
    : res (list L2BlockRef * L2BlockRef) :=
  match l with
  | [] => OutOfFuel
  | b :: l' =>
      let cand := if bool_decide (plausible head canon b)
                  then (if bool_decide (cand = zeroL2BlockRef) then b else cand)
                  else zeroL2BlockRef in
      if bool_decide (canonical head canon b) then Ok (l, cand)
      else match l' with
           | [] => Err EWrongChain
           | _ => if MaxReorgDepth <=? k + 1 then Err ETooDeepReorg else walk1 (k + 1) cand l'
           end
  end.

(** What the previous block left in [prevL1OriginHash] and the candidate. *)
Definition prev_ok (prev : option L2BlockRef) (prevHash : Hash) (cand : L2BlockRef) : Prop :=
  match prev with
  | None => prevHash = 0 /\ cand = zeroL2BlockRef
  | Some p => prevHash = id_Hash (l2_L1Origin p) /\ ~ canonical head canon p /\
              (plausible head canon p <-> cand <> zeroL2BlockRef)
  end.

Lemma walk1_nonempty k cand l l' c : walk1 k cand l = Ok (l', c) -> l' <> [].
Proof.
  revert k cand. induction l as [|b l IH]; intros k cand E; cbn [walk1] in E; [done|].
  case_bool_decide; [by simplify_eq|]. destruct l; [done|]. case_match; [done|].
  by eapply IH.
Qed.

Lemma FindL2Heads_loop1_static fuel l b prev prevHash k cand w :
  origins_ok (from_option (fun p => [p]) [] prev ++ b :: l) -> chain_ok (b :: l) ->
  prev_ok prev prevHash cand -> (length (b :: l) <= fuel)%nat ->
  exists w', FindL2Heads_loop1 fuel genesis b k prevHash cand w =
    (match walk1 k cand (b :: l) with
     | Ok (l', c) => Ok (hd b l', id_Hash (l2_L1Origin (hd b l')), c)
     | Err e => Err e | Panic => Panic | OutOfFuel => OutOfFuel
     end, w').
Proof.
  revert b prev prevHash k cand l w. induction fuel as [|fuel IH];
    intros b prev prevHash k cand l w Ho Hc Hp Hf; [simpl in Hf; lia|].
  assert (Hin : b ∈ from_option (fun p => [p]) [] prev ++ b :: l) by (apply elem_of_app; right; left).
  assert (Hb0 : id_Hash (l2_L1Origin b) <> 0) by (by apply Ho).
  assert (Hbz : b <> zeroL2BlockRef) by (intros ->; done).
  (* the outcome of the epoch check *)
  set (cand' := if bool_decide (plausible head canon b)
                then (if bool_decide (cand = zeroL2BlockRef) then b else cand) else zeroL2BlockRef).
  assert (Hcheck : exists w1,
    (if negb (prevHash =? id_Hash (l2_L1Origin b)) then
       '(plausible, canonical) ← isAheadOrCanonical (l2_L1Origin b);
       if negb plausible then mret (false, id_Hash (l2_L1Origin b), zeroL2BlockRef)
       else mret (canonical, id_Hash (l2_L1Origin b),
              if bool_decide (cand = zeroL2BlockRef) then b else cand)
     else mret (false, prevHash, cand)) w =
    (Ok (bool_decide (canonical head canon b), id_Hash (l2_L1Origin b), cand'), w1)).
  { destruct (Z.eqb_spec prevHash (id_Hash (l2_L1Origin b))) as [Heq|Hne]; cbn [negb].
    - destruct prev as [p|]; [|destruct Hp; congruence].
      destruct Hp as (-> & Hnc & Hpl).
      assert (Heo : l2_L1Origin p = l2_L1Origin b) by (eapply Ho; [by left|done|done]).
      destruct (canonical_origin _ _ Heo) as [Hcc Hpp]. exists w. unfold cand'.
      rewrite Heo, (bool_decide_eq_false_2 (canonical head canon b)) by tauto. cbn. do 3 f_equal.
      destruct (decide (cand = zeroL2BlockRef)) as [->|].
      + rewrite bool_decide_eq_false_2 by tauto. done.
      + rewrite bool_decide_eq_true_2, bool_decide_eq_false_2 by tauto. done.
    - destruct (isAheadOrCanonical_static w b) as [w1 E]. rewrite (M_bind_eq _ _ _ _ _ E).
      exists w1. unfold cand'. case_bool_decide as Hpl; cbn [negb]; [done|].
      rewrite bool_decide_eq_false_2; [done|]. intros Hcan. apply Hpl. by right. }
  destruct Hcheck as [w1 Hcheck]. cbn [FindL2Heads_loop1]. cbv zeta.
  rewrite (M_bind_eq _ _ _ _ _ Hcheck). clear Hcheck. cbn [walk1]. fold cand'.
  case_bool_decide as Hcan; [by eexists|].
  destruct l as [|b2 l]; cbn [chain_ok] in Hc.
  { rewrite Hc. by eexists. }
  destruct Hc as (-> & Hparent & Hc). specialize (Hparent w1).
  destruct (chain_L2BlockRefByHash (l2_ParentHash b) w1) as [r w2] eqn:E2. cbn in Hparent. subst r.
  rewrite (M_bind_eq _ _ _ b2 w2) by (unfold M_err; by rewrite E2).
  destruct (Z.leb_spec MaxReorgDepth (k + 1)); [by eexists|].
  assert (Hp' : prev_ok (Some b) (id_Hash (l2_L1Origin b)) cand').
  { split_and!; [done..|]. unfold cand'. repeat case_bool_decide; tauto. }
  destruct (IH b2 (Some b) (id_Hash (l2_L1Origin b)) (k + 1) cand' l w2) as [w' ->].
  - intros a Ha. destruct (Ho a) as [H1 H2]; [apply elem_of_app; by right|]. split; [done|].
    intros b' Hb'. apply H2, elem_of_app. by right.
  - exact Hc.
  - exact Hp'.
  - simpl in *. lia.
  - exists w'. pose proof (walk1_nonempty (k + 1) cand' (b2 :: l)) as Hne.
    destruct (walk1 (k + 1) cand' (b2 :: l)) as [[l' c]| | |]; try done.
    destruct l'; [by specialize (Hne _ _ eq_refl)|done].
Qed.

(** The candidate after the blocks [seg]. *)
Definition cand_ok (seg : list L2BlockRef) (cand : L2BlockRef) : Prop :=
  (cand = zeroL2BlockRef /\ (seg = [] \/ exists s x, seg = s ++ [x] /\ ~ plausible head canon x)) \/
  (cand <> zeroL2BlockRef /\ exists above below, seg = above ++ cand :: below /\
     Forall (plausible head canon) (cand :: below) /\
     (above = [] \/ exists s x, above = s ++ [x] /\ ~ plausible head canon x)).

Lemma cand_ok_step seg cand b :
  b <> zeroL2BlockRef -> cand_ok seg cand ->
  cand_ok (seg ++ [b])
    (if bool_decide (plausible head canon b)
     then (if bool_decide (cand = zeroL2BlockRef) then b else cand) else zeroL2BlockRef).
Proof.
  intros Hb Hc. case_bool_decide as Hpl; [|left; split; [done|right; by exists seg, b]].
  destruct Hc as [(-> & Hseg)|(Hne & above & below & -> & Hall & Habove)].
  - rewrite bool_decide_eq_true_2 by done. right. split; [done|].
    exists seg, []. split_and!; [done|by constructor|done].
  - rewrite bool_decide_eq_false_2 by done. right. split; [done|].
    exists above, (below ++ [b]). split_and!; [by rewrite <-app_assoc| |done].
    rewrite app_comm_cons. apply Forall_app. split; [done|by constructor].
Qed.

Lemma walk1_spec seg k cand l :
  (forall b, b ∈ l -> b <> zeroL2BlockRef) -> cand_ok seg cand -> l <> [] -> k < MaxReorgDepth ->
  match list_find (canonical head canon) (take (Z.to_nat (MaxReorgDepth - k)) l) with
  | Some (i, c) => exists cand', walk1 k cand l = Ok (drop i l, cand') /\
                     cand_ok (seg ++ take i l ++ [c]) cand'
  | None => walk1 k cand l =
              Err (if zlen l <=? MaxReorgDepth - k then EWrongChain else ETooDeepReorg)
  end.
Proof.
  revert seg k cand. induction l as [|b l IH]; intros seg k cand Hz Hc Hl Hk; [done|].
  assert (Hb : b <> zeroL2BlockRef) by (apply Hz; left).
  pose proof (cand_ok_step seg cand b Hb Hc) as Hc'. cbn [walk1].
  set (cand' := if bool_decide (plausible head canon b) then _ else _) in *.
  replace (Z.to_nat (MaxReorgDepth - k)) with (S (Z.to_nat (MaxReorgDepth - (k + 1)))) by lia.
  cbn [take list_find]. case_decide as Hcan.
  { rewrite bool_decide_eq_true_2 by done. exists cand'. by rewrite drop_0, app_nil_l. }
  rewrite bool_decide_eq_false_2 by done.
  destruct l as [|b2 l'].
  { destruct (Z.to_nat _); cbn; destruct (Z.leb_spec (zlen [b]) (MaxReorgDepth - k)) as [|Hlt];
      try done; unfold zlen in Hlt; simpl in Hlt; lia. }
  set (l := b2 :: l') in *. rewrite zlen_cons.
  destruct (Z.leb_spec MaxReorgDepth (k + 1)) as [Hdeep|Hdeep].
  { replace (Z.to_nat (MaxReorgDepth - (k + 1))) with 0%nat by lia. cbn.
    destruct (Z.leb_spec (1 + zlen l) (MaxReorgDepth - k)) as [Hle|]; [|done].
    unfold l in Hle. rewrite zlen_cons in Hle. pose proof (zlen_nonneg l'). lia. }
  specialize (IH (seg ++ [b]) (k + 1) cand').
  assert (Hz' : forall b', b' ∈ l -> b' <> zeroL2BlockRef) by (intros; apply Hz; by right).
  specialize (IH Hz' Hc' ltac:(done) Hdeep).
  destruct (list_find _ (take _ l)) as [[i c]|]; cbn [fmap option_fmap option_map prod_map fst snd].
  - destruct IH as (cand2 & -> & Hc2). exists cand2. split; [done|].
    rewrite <-app_assoc in Hc2. exact Hc2.
  - rewrite IH. by replace (1 + zlen l <=? MaxReorgDepth - k) with (zlen l <=? MaxReorgDepth - (k + 1)) by lia.
Qed.

(** Loop 2 on a static chain. *)
Fixpoint walk2 (window : Z) (prevHash : Hash) (depth : Z) (l : list L2BlockRef) : L2BlockRef :=
  match l with
  | [] => genesis_ref genesis
  | b :: l' =>
      let depth := if decide (prevHash = id_Hash (l2_L1Origin b)) then depth else depth + 1 in
      if depth =? window then b else walk2 window (id_Hash (l2_L1Origin b)) depth l'
  end.

Lemma FindL2Heads_loop2_static fuel window l b prevHash depth w :
  chain_ok (b :: l) -> (length (b :: l) <= fuel)%nat ->
  0 <= depth -> depth + zlen (b :: l) < 2 ^ 64 ->
  exists w', FindL2Heads_loop2 fuel genesis window b prevHash depth w =
    (Ok (walk2 window prevHash depth (b :: l)), w').
Proof.
  revert b prevHash depth l w.
  induction fuel as [|fuel IH]; intros b prevHash depth l w Hc Hf Hd Hfit; [simpl in Hf; lia|].
  cbn [FindL2Heads_loop2 walk2]. rewrite zlen_cons in Hfit. pose proof (zlen_nonneg l).
  rewrite wrap_small by (unfold in_range; lia).
  set (depth' := if decide (prevHash = _) then depth else depth + 1).
  assert (E : (if negb (id_Hash (l2_L1Origin b) =? prevHash) then (depth + 1, id_Hash (l2_L1Origin b))
               else (depth, prevHash)) = (depth', id_Hash (l2_L1Origin b))).
  { unfold depth'. destruct (Z.eqb_spec (id_Hash (l2_L1Origin b)) prevHash) as [->|];
      cbn [negb]; case_decide; congruence. }
  rewrite E. cbv beta iota. destruct (depth' =? window); [by eexists|].
  destruct l as [|b2 l]; cbn [chain_ok] in Hc.
  { rewrite Hc. by eexists. }
  destruct Hc as (-> & Hparent & Hc). specialize (Hparent w).
  destruct (chain_L2BlockRefByHash (l2_ParentHash b) w) as [r w2] eqn:E2. cbn in Hparent. subst r.
  rewrite (M_bind_eq _ _ _ b2 w2) by (unfold M_err; by rewrite E2).
  apply IH; [exact Hc|simpl in *; lia|unfold depth'; case_decide; lia|].
  unfold depth'. case_decide; lia.
Qed.

Lemma epochs_snoc s p b :
  epochs (s ++ [p; b]) =
    (epochs (s ++ [p]) + if decide (id_Hash (l2_L1Origin p) = id_Hash (l2_L1Origin b)) then 0 else 1)%nat.
Proof.
  induction s as [|a s IH]; [cbn; repeat case_decide; lia|].
  cbn [app epochs]. destruct s as [|a2 s]; cbn [app] in *; [|lia].
  cbn [epochs]. repeat case_decide; lia.
Qed.

(** [seg] are the blocks already passed, the last of them [prev]. *)
Lemma walk2_spec window seg prevHash depth l :
  (seg = [] /\ depth = 1 /\ (forall b, hd_error l = Some b -> prevHash = id_Hash (l2_L1Origin b)) \/
   exists s p, seg = s ++ [p] /\ prevHash = id_Hash (l2_L1Origin p) /\ depth = Z.of_nat (epochs seg)) ->
  walk2 window prevHash depth l =
    match list_find (fun i => Z.of_nat (epochs (seg ++ take (S i) l)) = window) (seq 0 (length l)) with
    | Some (_, i) => default (genesis_ref genesis) (l !! i)
    | None => genesis_ref genesis
    end.
Proof.
  revert seg prevHash depth. induction l as [|b l IH]; intros seg prevHash depth Hp; [done|].
  cbn [walk2]. set (depth' := if decide (prevHash = _) then depth else depth + 1).
  assert (Hd : depth' = Z.of_nat (epochs (seg ++ [b]))).
  { unfold depth'. destruct Hp as [(-> & -> & Hh)|(s & p & -> & -> & ->)].
    - by rewrite (Hh b eq_refl), decide_True by done.
    - rewrite <-app_assoc. cbn [app]. rewrite epochs_snoc. case_decide; lia. }
  specialize (IH (seg ++ [b]) (id_Hash (l2_L1Origin b)) depth' ltac:(right; eauto)).
  cbn [length seq list_find take]. rewrite take_0.
  destruct (Z.eqb_spec depth' window) as [Hw|Hw].
  { rewrite decide_True by congruence. done. }
  rewrite decide_False by congruence. rewrite IH, <-fmap_S_seq, list_find_fmap.
  rewrite (list_find_ext ((λ i : nat, Z.of_nat (epochs (seg ++ b :: take i l)) = window) ∘ S)
             (fun i => Z.of_nat (epochs ((seg ++ [b]) ++ take (S i) l)) = window))
    by (intros i; cbn; by rewrite <-app_assoc).
  by destruct (list_find _ (seq 0 (length l))) as [[i j]|].
Qed.

Lemma walk2_safe_head window b l :
  walk2 window (id_Hash (l2_L1Origin b)) 1 (b :: l) = safe_head genesis window (b :: l).
Proof. apply (walk2_spec window []). left. split_and!; [done..|]. by intros ? [= ->]. Qed.

Lemma chain_ok_drop pre l : chain_ok (pre ++ l) -> l <> [] -> chain_ok l.
Proof.
  induction pre as [|a pre IH]; [done|]. intros Hc Hl. apply IH; [|done].
  cbn [app chain_ok] in Hc. destruct (pre ++ l) eqn:E; [|apply Hc].
  by apply app_eq_nil in E as [_ ->].
Qed.

(** [C10] [FindL2Heads] on a chain of L2 blocks that the two nodes serve without
    changing it: it always returns, with enough fuel for the chain's length.  If one of
    the first 500 blocks has a canonical L1 origin, the unsafe head is the highest
    block below which every origin is plausible down to the first canonical one, and the
    safe head is the first block, from there on, at which a full sequencing window of
    epochs is reached, or genesis; otherwise the error tells a wrong chain (genesis was
    reached) from a reorg that is too deep. *)
Theorem FindL2Heads_spec fuel window start l w :
  chain_ok (start :: l) -> origins_ok (start :: l) ->
  (length (start :: l) <= fuel)%nat -> zlen (start :: l) < 2 ^ 64 - 1 ->
  exists r w', FindL2Heads fuel start window genesis w = (r, w') /\
    match list_find (canonical head canon) (take 500 (start :: l)) with
    | Some (i, c) => exists unsafe,
        r = Ok (unsafe, safe_head genesis window (drop i (start :: l))) /\
        is_unsafe_head head canon (take i (start :: l)) c unsafe
    | None => r = Err (if zlen (start :: l) <=? 500 then EWrongChain else ETooDeepReorg)
    end.
Proof.
  intros Hc Ho Hf Hfit. unfold FindL2Heads.
  destruct (FindL2Heads_loop1_static fuel l start None 0 0 zeroL2BlockRef w) as [w1 E1]; try done.
  assert (Hz : forall b, b ∈ start :: l -> b <> zeroL2BlockRef).
  { intros b Hb ->. by destruct (Ho _ Hb). }
  pose proof (walk1_spec [] 0 zeroL2BlockRef (start :: l) Hz) as Hw1.
  specialize (Hw1 ltac:(left; auto) ltac:(done) ltac:(done)).
  change (Z.to_nat (MaxReorgDepth - 0)) with 500%nat in Hw1.
  change (MaxReorgDepth - 0) with 500 in Hw1.
  destruct (list_find _ _) as [[i c]|] eqn:Efind.
  - destruct Hw1 as (cand & Hw1 & Hcand). rewrite Hw1 in E1.
    apply list_find_Some in Efind as (Hi & Hcan & _). apply lookup_take_Some in Hi as [Hi _].
    pose proof (drop_S _ _ _ Hi) as Hd. rewrite Hd in E1. cbn [hd] in E1.
    rewrite (M_bind_eq _ _ _ _ _ E1). cbn [app] in Hcand.
    destruct (FindL2Heads_loop2_static fuel window (drop (S i) (start :: l)) c
                (id_Hash (l2_L1Origin c)) 1 w1) as [w2 E2].
    + rewrite <-Hd. apply (chain_ok_drop (take i (start :: l))); [by rewrite take_drop|by rewrite Hd].
    + rewrite <-Hd, length_drop. lia.
    + lia.
    + rewrite <-Hd. unfold zlen in *. rewrite length_drop. lia.
    + cbn beta iota. rewrite (M_bind_eq _ _ _ _ _ E2). do 2 eexists. split; [done|].
      exists cand. rewrite walk2_safe_head, Hd. split; [done|].
      destruct Hcand as [(_ & [?|(s & x & Heq & Hx)])|(_ & above & below & Heq & Hall & Hab)].
      * by destruct (take i (start :: l)).
      * apply app_inj_tail in Heq as [_ ->]. destruct Hx. by right.
      * by exists above, below.
  - rewrite Hw1 in E1. do 2 eexists. split; [|done].
    unfold mbind at 1, M_bind. rewrite E1. done.
Qed.
End Proofs.

(** ** Termination, whatever the nodes answer *)
Section Termination.
Context {W : Type} `{!L1Chain W} `{!L2Chain W} (genesis : Genesis).

Hypothesis Hl1 : forall w : W, returns (L1HeadBlockRef w).1 = true.
Hypothesis Hl1n : forall (w : W) n, returns (L1BlockRefByNumber n w).1 = true.
Hypothesis Hl2 : forall (w : W) h, returns (chain_L2BlockRefByHash h w).1 = true.

Lemma M_bind_returns {A B} (f : A -> M W B) (c : M W A) w (Q : A -> Prop) :
  returns (c w).1 = true -> (forall a w', c w = (Ok a, w') -> Q a) ->
  (forall a w', Q a -> returns (f a w').1 = true) -> returns ((c ≫= f) w).1 = true.
Proof.
  unfold mbind, M_bind. intros Hr Hq Hf. destruct (c w) as [[a|e| |] w'] eqn:E; try done.
  apply Hf. by eapply Hq.
Qed.

Lemma isAheadOrCanonical_returns b w : returns (isAheadOrCanonical b w).1 = true.
Proof.
  unfold isAheadOrCanonical. apply (M_bind_returns _ _ _ (fun _ => True)); [apply Hl1|done|].
  intros a w' _. case_match; [done|].
  apply (M_bind_returns _ _ _ (fun _ => True)); [apply Hl1n|done|]. by intros.
Qed.

Lemma parent_returns n w :
  returns (M_err (wrapw "failed to fetch L2 block by hash: ")
             (chain_L2BlockRefByHash (l2_ParentHash n)) w).1 = true.
Proof.
  unfold M_err. specialize (Hl2 w (l2_ParentHash n)). by destruct (chain_L2BlockRefByHash _ w) as [[]].
Qed.
(** The origin check of loop 1 returns. *)
Lemma origin_check_returns n prev cand w :
  returns ((if negb (prev =? id_Hash (l2_L1Origin n)) then
     '(plausible, canonical) ← isAheadOrCanonical (l2_L1Origin n);
     if negb plausible then mret (false, id_Hash (l2_L1Origin n), zeroL2BlockRef)
     else mret (canonical, id_Hash (l2_L1Origin n), if bool_decide (cand = zeroL2BlockRef) then n else cand)
   else mret (false, prev, cand)) w).1 = true.
Proof.
  destruct (negb _); [|done]. apply (M_bind_returns _ _ _ (fun _ => True));
    [apply isAheadOrCanonical_returns|done|]. intros [pl c] w' _. by destruct pl.
Qed.

(** Loop 1 gives up after [MaxReorgDepth] blocks, against any node. *)
Lemma FindL2Heads_loop1_bounded fuel n k prev cand w :
  0 <= k < MaxReorgDepth -> MaxReorgDepth - k <= Z.of_nat fuel ->
  returns (FindL2Heads_loop1 fuel genesis n k prev cand w).1 = true.
Proof.
  revert n k prev cand w. induction fuel as [|fuel IH]; intros n k prev cand w Hk Hf; [lia|].
  cbn [FindL2Heads_loop1]. apply (M_bind_returns _ _ _ (fun _ => True)); [apply origin_check_returns|done|].
  intros [[stop p] c] w' _. destruct stop; [done|]. case_match; [done|].
  apply (M_bind_returns _ _ _ (fun _ => True)); [apply parent_returns|done|]. intros q w2 _. cbv zeta.
  destruct (Z.leb_spec MaxReorgDepth (k + 1)); [done|]. apply IH; lia.
Qed.

(** The links to parents do not run in a circle: some rank falls along them, down to the
    genesis block, whatever the node answers when. *)
Context (rank : Hash -> nat).
Hypothesis Hrank : forall (w : W) h r w', chain_L2BlockRefByHash h w = (Ok r, w') ->
  is_genesis genesis r = false -> (rank (l2_ParentHash r) < rank h)%nat.

Definition within (fuel : nat) (n : L2BlockRef) : Prop :=
  (1 <= fuel)%nat /\ (is_genesis genesis n = false -> (rank (l2_ParentHash n) + 1 < fuel)%nat).
Lemma within_parent fuel n p w w' :
  within (S fuel) n -> is_genesis genesis n = false ->
  M_err (wrapw "failed to fetch L2 block by hash: ") (chain_L2BlockRefByHash (l2_ParentHash n)) w = (Ok p, w') ->
  within fuel p.
Proof.
  intros [_ Hn] Hg E. apply M_err_ok in E. specialize (Hn Hg). split; [lia|]. intros Hp.
  pose proof (Hrank _ _ _ _ E Hp). lia.
Qed.

Lemma FindL2Heads_loop2_returns fuel window n prev depth w :
  within fuel n -> returns (FindL2Heads_loop2 fuel genesis window n prev depth w).1 = true.
Proof.
  revert n prev depth w. induction fuel as [|fuel IH]; intros n prev depth w Hn; [destruct Hn; lia|].
  cbn [FindL2Heads_loop2]. destruct (if negb _ then _ else _) as [d p].
  case_match; [done|]. case_match eqn:Hg; [done|].
  apply (M_bind_returns _ _ _ (within fuel)); [apply parent_returns| |intros; by apply IH].
  intros q w' E. by eapply within_parent.
Qed.

Lemma FindL2Heads_loop1_returns fuel n k prev cand w :
  within fuel n ->
  returns (FindL2Heads_loop1 fuel genesis n k prev cand w).1 = true /\
  forall n' p c w', FindL2Heads_loop1 fuel genesis n k prev cand w = (Ok (n', p, c), w') ->
    within fuel n'.
Proof.
  revert n k prev cand w. induction fuel as [|fuel IH]; intros n k prev cand w Hn; [destruct Hn; lia|].
  cbn [FindL2Heads_loop1]. split.
  - apply (M_bind_returns _ _ _ (fun _ => True)); [apply origin_check_returns|done|].
    intros [[stop p] c] w' _. destruct stop; [done|]. case_match eqn:Hg; [done|].
    apply (M_bind_returns _ _ _ (within fuel)); [apply parent_returns|intros q w2 E; by eapply within_parent|].
    intros q w2 Hq. cbv zeta. case_match; [done|]. by apply IH.
  - intros n' p c w' E. apply M_bind_ok in E as ([[stop p1] c1] & w1 & _ & E).
    destruct stop; [by injection E as <- <- <- <-|]. case_match eqn:Hg; [done|].
    apply M_bind_ok in E as (q & w2 & Eq & E). cbv zeta in E. case_match; [done|].
    apply (within_parent fuel) in Eq; [|done..]. destruct (IH q (k + 1) p1 c1 w2 Eq) as [_ IH'].
    apply IH' in E as [? Hr]. split; [lia|]. intros Hg'. specialize (Hr Hg'). lia.
Qed.

(** [C20] [FindL2Heads] terminates, whatever the L1 node answers, however the chains change
    during the search and whatever the L2 node answers, as long as its links from block to
    parent do not run in a circle above genesis (some rank of the hashes falls along them:
    the block number, if the node tells numbers that fall): with a fuel of two more than
    the rank of the first parent it returns heads or an error. *)
Theorem FindL2Heads_terminates fuel start window w :
  (rank (l2_ParentHash start) + 1 < fuel)%nat ->
  returns (FindL2Heads fuel start window genesis w).1 = true.
Proof.
  intros Hf. assert (Hn : within fuel start) by (split; [lia|done]).
  destruct (FindL2Heads_loop1_returns fuel start 0 0 zeroL2BlockRef w Hn) as [H1 H2].
  unfold FindL2Heads.
  apply (M_bind_returns _ _ _ (fun '(n, _, _) => within fuel n)); [done| |].
  - intros [[n p] c] w' E. by eapply H2.
  - intros [[n p] c] w' Hn'. apply (M_bind_returns _ _ _ (fun _ => True)); [|done..].
    by apply FindL2Heads_loop2_returns.
Qed.
End Termination.

(** Without that, loop 2 has no bound of its own: against a node that answers a block as its
    own parent, with a canonical origin, [FindL2Heads] runs for ever. *)
Lemma FindL2Heads_diverges {W} `{!L1Chain W} `{!L2Chain W} genesis start window fuel (w : W) :
  is_genesis genesis start = false -> id_Hash (l2_L1Origin start) <> 0 -> window <> 1 ->
  (forall w, exists w', isAheadOrCanonical (l2_L1Origin start) w = (Ok (true, true), w')) ->
  (forall w, exists w', chain_L2BlockRefByHash (l2_ParentHash start) w = (Ok start, w')) ->
  (FindL2Heads fuel start window genesis w).1 = OutOfFuel.
Proof.
  intros Hg Hz Hw Hcan Hself.
  assert (H2 : forall fuel w, (FindL2Heads_loop2 fuel genesis window start (id_Hash (l2_L1Origin start)) 1 w).1
    = OutOfFuel).
  { intros fuel'. induction fuel' as [|fuel' IH]; intros w1; [done|]. cbn [FindL2Heads_loop2].
    rewrite Z.eqb_refl. cbn [negb]. rewrite (proj2 (Z.eqb_neq 1 window)), Hg by congruence.
    destruct (Hself w1) as [w2 E]. by rewrite (M_bind_eq _ _ w1 start w2) by (unfold M_err; by rewrite E). }
  unfold FindL2Heads. destruct fuel as [|fuel]; [done|]. destruct (Hcan w) as [w1 E].
  rewrite (M_bind_eq _ _ w (start, id_Hash (l2_L1Origin start), start) w1).
  - specialize (H2 (S fuel) w1). unfold mbind, M_bind.
    destruct (FindL2Heads_loop2 _ _ _ _ _ _ w1) as [r w2]. cbn in H2. by subst r.
  - cbn [FindL2Heads_loop1]. rewrite (proj2 (Z.eqb_neq 0 _)) by congruence. cbn [negb]. cbv zeta.
    rewrite (M_bind_eq _ _ w (true, id_Hash (l2_L1Origin start), start) w1); [done|].
    rewrite (M_bind_eq _ _ w (true, true) w1) by done. cbn [negb]. by rewrite bool_decide_eq_true_2.
Qed.

(** ** Witnesses: a small chain served from lists *)
Definition ex_genesis : Genesis := mkGenesis (mkBlockID 100 10) (mkBlockID 200 0) 1000.
Definition ex_head : L1BlockRef := mkL1BlockRef 113 13 112 1200.
Definition ex_canon (n : Z) : Hash := 90 + n.
Definition ex_b0 := mkL2BlockRef 200 0 199 1000 (mkBlockID 100 10) 0.
Definition ex_b1 := mkL2BlockRef 201 1 200 1002 (mkBlockID 101 11) 0.
Definition ex_b2 := mkL2BlockRef 202 2 201 1004 (mkBlockID 102 12) 0.
Definition ex_b3 := mkL2BlockRef 203 3 202 1006 (mkBlockID 102 12) 1.
Definition ex_b4 := mkL2BlockRef 204 4 203 1008 (mkBlockID 999 13) 0. (* reorged origin *)
Definition ex_chain : list L2BlockRef := [ex_b4; ex_b3; ex_b2; ex_b1; ex_b0].

Definition ExL1 : L1Chain unit := {|
  L1HeadBlockRef := mret ex_head;
  L1BlockRefByNumber := fun n => mret (mkL1BlockRef (ex_canon n) n (ex_canon (n - 1)) 0);
|}.
Definition ExL2 : L2Chain unit := {|
  chain_L2BlockRefByHash := fun h =>
    match list_find (fun b => l2_Hash b = h) ex_chain with
    | Some (_, b) => mret b
    | None => throw ENotFound
    end;
|}.

Lemma ex_chain_origins : origins_ok ex_chain.
Proof.
  assert (H : Forall (fun a => id_Hash (l2_L1Origin a) <> 0 /\
    Forall (fun b => id_Hash (l2_L1Origin a) = id_Hash (l2_L1Origin b) ->
                     l2_L1Origin a = l2_L1Origin b) ex_chain) ex_chain)
    by (repeat constructor; done).
  rewrite Forall_forall in H. intros a Ha. destruct (H a Ha) as [H1 H2].
  rewrite Forall_forall in H2. by split.
Qed.

(** The block with the reorged origin is dropped; two epochs from the canonical one. *)
Lemma FindL2Heads_spec_witness :
  exists r w', @FindL2Heads unit ExL1 ExL2 5 ex_b4 2 ex_genesis tt = (r, w') /\
    r = Ok (ex_b3, ex_b1).
Proof.
  destruct (@FindL2Heads_spec unit ExL1 ExL2 ex_head ex_canon ex_genesis) with
    (fuel := 5%nat) (window := 2) (start := ex_b4) (l := [ex_b3; ex_b2; ex_b1; ex_b0]) (w := tt)
    as (r & w' & E & _).
  - done.
  - intros w n _. by eexists.
  - cbn. split_and!; try done; by intros [].
  - apply ex_chain_origins.
  - simpl. lia.
  - reflexivity.
  - exists r, w'. split; [done|]. vm_compute in E. injection E as <- <-. done.
Defined.

Lemma FindL2Heads_terminates_witness :
  returns (@FindL2Heads unit ExL1 ExL2 5 ex_b4 2 ex_genesis tt).1 = true.
Proof.
  apply (@FindL2Heads_terminates unit ExL1 ExL2 ex_genesis) with (rank := fun h => Z.to_nat (h - 200));
    try done; [| |vm_compute; lia].
  - intros w h. unfold chain_L2BlockRefByHash, ExL2. by destruct (list_find _ _) as [[]|].
  - intros w h r w' E Hg. unfold chain_L2BlockRefByHash, ExL2 in E.
    destruct (list_find _ _) as [[i b]|] eqn:Ef; [|done]. injection E as <- <-.
    apply list_find_Some in Ef as (Hi & <- & _). apply list_elem_of_lookup_2 in Hi.
    assert (H : Forall (fun b => is_genesis ex_genesis b = false ->
      (Z.to_nat (l2_ParentHash b - 200) < Z.to_nat (l2_Hash b - 200))%nat) ex_chain)
      by (repeat constructor; intros Hb; vm_compute in Hb |- *; first [discriminate|lia]).
    rewrite Forall_forall in H. by apply H.
Defined.
