(* ===== verification/Step.v ===== *)
(** * The output step of the driver

    op-node/rollup/driver/step.go: creating, verifying and inserting L2 blocks
    through the execution engine, and deriving the blocks of an epoch from L1. *)

From S2P Require Import Prelude Types Geth L1Info Deposits Batches L2Source.

(** ** The interfaces of driver.go *)

Class Engine (W : Type) := {
  eng_GetPayload : PayloadID -> M W ExecutionPayload;
  eng_ForkchoiceUpdate : ForkchoiceState -> option PayloadAttributes -> M W ForkchoiceUpdatedResult;
  eng_NewPayload : ExecutionPayload -> M W unit;
  eng_PayloadByHash : Hash -> M W ExecutionPayload;
  eng_PayloadByNumber : bigInt -> M W ExecutionPayload;
}.
Class Downloader `{GethTypes} (W : Type) := {
  dl_InfoByHash : Hash -> M W L1Info;
  dl_Fetch : Hash -> M W (L1Info * list Transaction * list Receipt);
  dl_FetchAllTransactions : list BlockID -> M W (list (list Transaction));
}.

(** [l2.Source] is the engine of the driver. *)
#[export] Instance SourceEngine `{GethTypes} {W} `{!L2RPC W} : Engine W := {
  eng_GetPayload := GetPayload;
  eng_ForkchoiceUpdate := ForkchoiceUpdate;
  eng_NewPayload := NewPayload;
  eng_PayloadByHash := PayloadByHash;
  eng_PayloadByNumber := fun n => PayloadByNumber (Some n);
}.

Section Step.
Context `{Keccak} `{GethTypes} `{RLP} {W : Type} `{!Engine W} `{!Downloader W}.

(** [isDepositTx] *)
Definition isDepositTx (opaqueTx : Data) : res bool :=
  match opaqueTx with
  | [] => Err (EMsg "empty transaction")
  | t :: _ => Ok (bool_decide (t = DepositTxType))
  end.

(** [lastDeposit]: the loop at index [i] with the variable [lastDeposit]. *)
Fixpoint lastDeposit_loop (txns : list Data) (i last : Z) : res Z :=
  match txns with
  | [] => Ok last
  | tx :: txns =>
      deposit ← map_err (fun _ => EMsg "invalid transaction") (isDepositTx tx);
      if (deposit : bool) then lastDeposit_loop txns (i + 1) i else Ok last
  end.
Definition lastDeposit (txns : list Data) : res Z := lastDeposit_loop txns 0 0.

(** [processBlock] *)
Definition processBlock (l2SafeHead l2Finalized : BlockID) (payload : ExecutionPayload) : M W unit :=
  _ ← M_err (wrapv "failed to insert new payload: ") (eng_NewPayload payload);
  let fc := mkForkchoiceState (pl_BlockHash payload) (id_Hash l2SafeHead) (id_Hash l2Finalized) in
  r ← M_err (wrapv "failed to update forkchoice to point to new payload: ")
        (eng_ForkchoiceUpdate fc None);
  if negb (bool_decide (ps_Status (fr_PayloadStatus r) = ExecutionValid)) then
    throw (EMsg "failed to persist forkchoice update: <nil>")
  else mret tt.

(** The loop of [insertHeadBlock] over the transactions after the last deposit. *)
Fixpoint no_deposits (txns : list Data) : res unit :=
  match txns with
  | [] => Ok tt
  | tx :: txns =>
      deposit ← map_err (wrapw "failed to decode transaction: ") (isDepositTx tx);
      if (deposit : bool) then Err (EMsg "deposit tx after other tx in l2 block")
      else no_deposits txns
  end.

(** [insertHeadBlock] *)
Definition insertHeadBlock (fc : ForkchoiceState) (attrs : PayloadAttributes) (updateSafe : bool)
    : M W ExecutionPayload :=
  fcRes ← M_err (wrapw "failed to create new block via forkchoice: ")
            (eng_ForkchoiceUpdate fc (Some attrs));
  if negb (bool_decide (ps_Status (fr_PayloadStatus fcRes) = ExecutionValid)) then
    throw (EMsg "engine not ready, forkchoice pre-state is not valid")
  else
    match fr_PayloadID fcRes with
    | None => throw (EMsg "nil id in forkchoice result when expecting a valid ID")
    | Some id =>
        payload ← M_err (wrapw "failed to get execution payload: ") (eng_GetPayload id);
        _ ← lift (fail_if (bool_decide (pl_Transactions payload = []))
                    (EMsg "no transactions in returned payload"));
        tx0 ← lift (index (pl_Transactions payload) 0);
        t0 ← lift (index tx0 0);
        _ ← lift (fail_if (negb (bool_decide (t0 = DepositTxType)))
                    (EMsg "first transaction was not deposit tx"));
        last ← M_err (wrapw "failed to find last deposit: ")
                 (lift (lastDeposit (pl_Transactions payload)));
        _ ← lift (no_deposits (drop (Z.to_nat (last + 1)) (pl_Transactions payload)));
        _ ← M_err (wrapw "failed to insert execution payload: ") (eng_NewPayload payload);
        let fc := mkForkchoiceState (pl_BlockHash payload)
                    (if updateSafe then pl_BlockHash payload else fc_SafeBlockHash fc)
                    (fc_FinalizedBlockHash fc) in
        fcRes ← M_err (wrapw "failed to make the new L2 block canonical via forkchoice: ")
                  (eng_ForkchoiceUpdate fc None);
        if negb (bool_decide (ps_Status (fr_PayloadStatus fcRes) = ExecutionValid)) then
          throw (EMsg "failed to persist forkchoice change")
        else mret payload
    end.

(** [createNewBlock]; on an error the caller reads the error only. *)
Definition createNewBlock (config : Config) (l2Head : L2BlockRef) (l2SafeHead l2Finalized : BlockID)
    (l1Origin : L1BlockRef) : M W (L2BlockRef * ExecutionPayload) :=
  '(l1Info, receipts, seqNumber) ←
    M_err (wrapv "failed to fetch L1 block info: ")
      (if negb (id_Number (l2_L1Origin l2Head) =? l1_Number l1Origin) then
         '(l1Info, _, receipts) ← dl_Fetch (l1_Hash l1Origin);
         mret (l1Info, receipts, 0)
       else
         l1Info ← dl_InfoByHash (l1_Hash l1Origin);
         mret (l1Info, [], l2_SequenceNumber l2Head +64 1));
  l1InfoTx ← lift (L1InfoDepositBytes seqNumber l1Info);
  '(deposits, _) ← lift (DeriveDeposits receipts (cfg_DepositContractAddress config));
  let txns := [l1InfoTx] ++ deposits in
  let nextL2Time := l2_Time l2Head +64 cfg_BlockTime config in
  let shouldProduceEmptyBlock :=
    (l1_Time l1Origin +64 cfg_MaxSequencerDrift config) <=? nextL2Time in
  let attrs := mkPayloadAttributes nextL2Time (li_MixDigest l1Info)
                 (cfg_FeeRecipientAddress config) txns shouldProduceEmptyBlock in
  let fc := mkForkchoiceState (l2_Hash l2Head) (id_Hash l2SafeHead) (id_Hash l2Finalized) in
  payload ← M_err (wrapv "failed to extend L2 chain: ") (insertHeadBlock fc attrs false);
  ref ← lift (PayloadToBlockRef payload (cfg_Genesis config));
  mret (ref, payload).

(** The transaction loop of [attributesMatchBlock]. *)
Fixpoint txs_match (attrs block : list Data) : res unit :=
  match attrs with
  | [] => Ok tt
  | otx :: attrs =>
      match block with
      | [] => Panic
      | expect :: block =>
          if negb (bool_decide (otx = expect)) then Err (EMsg "transaction does not match")
          else txs_match attrs block
      end
  end.

(** [attributesMatchBlock] *)
Definition attributesMatchBlock (attrs : PayloadAttributes) (parentHash : Hash)
    (block : ExecutionPayload) : res unit :=
  if negb (parentHash =? pl_ParentHash block) then Err (EMsg "parent hash field does not match")
  else if negb (at_Timestamp attrs =? pl_Timestamp block) then
    Err (EMsg "timestamp field does not match")
  else if negb (at_PrevRandao attrs =? pl_PrevRandao block) then
    Err (EMsg "random field does not match")
  else if negb (zlen (at_Transactions attrs) =? zlen (pl_Transactions block)) then
    Err (EMsg "transaction count does not match")
  else txs_match (at_Transactions attrs) (pl_Transactions block).

(** [verifySafeBlock]: the payload, and whether there was a reorg. *)
Definition verifySafeBlock (config : Config) (fc : ForkchoiceState) (attrs : PayloadAttributes)
    (parent : BlockID) : M W (ExecutionPayload * bool) :=
  payload ← M_err (wrapw "failed to get L2 block: ")
              (eng_PayloadByNumber (id_Number parent +64 1));
  _ ← M_err (wrapw "failed to parse block ref: ")
        (lift (PayloadToBlockRef payload (cfg_Genesis config)));
  m ← attempt (lift (attributesMatchBlock attrs (id_Hash parent) payload));
  match m with
  | inl _ =>
      let fc := mkForkchoiceState (id_Hash parent) (id_Hash parent) (fc_FinalizedBlockHash fc) in
      payload ← insertHeadBlock fc attrs true;
      mret (payload, true)
  | inr _ =>
      let fc := mkForkchoiceState (fc_HeadBlockHash fc) (pl_BlockHash payload)
                  (fc_FinalizedBlockHash fc) in
      _ ← M_err (wrapw "failed to execute ForkchoiceUpdated: ") (eng_ForkchoiceUpdate fc None);
      mret (payload, false)
  end.

(** The payload attributes of the [i]-th batch of an epoch. *)
Definition epoch_attributes (config : Config) (l1Info : L1Info) (deposits : list Data)
    (i : Z) (batch : BatchData) : res PayloadAttributes :=
  l1InfoTx ← map_err (wrapw "failed to create l1InfoTx: ") (L1InfoDepositBytes i l1Info);
  let txns := [l1InfoTx] ++ (if i =? 0 then deposits else []) ++ b_Transactions batch in
  Ok (mkPayloadAttributes (b_Timestamp batch) (li_MixDigest l1Info)
        (cfg_FeeRecipientAddress config) txns true).

(** The loop of [insertEpoch] over the batches.  As in the code, [reorg] keeps the
    value of the last [verifySafeBlock]. *)
Fixpoint insertEpoch_loop (config : Config) (l1Info : L1Info) (deposits : list Data)
    (batches : list BatchData) (i : Z) (fc : ForkchoiceState)
    (lastHead lastSafeHead : L2BlockRef) (didReorg reorg : bool)
    : M W (L2BlockRef * L2BlockRef * bool) :=
  match batches with
  | [] => mret (lastHead, lastSafeHead, didReorg)
  | batch :: batches =>
      attrs ← lift (epoch_attributes config l1Info deposits i batch);
      '(payload, reorg) ←
        M_err (wrapw "failed to extend L2 chain: ")
          (if negb (l2_Hash lastHead =? l2_Hash lastSafeHead) then
             verifySafeBlock config fc attrs (L2BlockRef_ID lastSafeHead)
           else
             payload ← insertHeadBlock fc attrs true;
             mret (payload, reorg));
      newLast ← M_err (wrapw "failed to derive block references: ")
                  (lift (PayloadToBlockRef payload (cfg_Genesis config)));
      let didReorg := if (reorg : bool) then true else didReorg in
      let lastHead :=
        if reorg || (l2_Hash lastHead =? l2_Hash lastSafeHead) then newLast else lastHead in
      let lastSafeHead := newLast in
      let fc := mkForkchoiceState (l2_Hash lastHead) (l2_Hash lastSafeHead)
                  (fc_FinalizedBlockHash fc) in
      insertEpoch_loop config l1Info deposits batches (i + 1) fc lastHead lastSafeHead didReorg reorg
  end.

(** [insertEpoch]; on an error the caller reads the error only. [fuel] bounds the
    completion of the batches. *)
Definition insertEpoch (fuel : nat) (config : Config) (l2Head l2SafeHead : L2BlockRef)
    (l2Finalized : BlockID) (l1Input : list BlockID) : M W (L2BlockRef * L2BlockRef * bool) :=
  if zlen l1Input <=? 1 then throw (EMsg "too small L1 sequencing window for L2 derivation")
  else if negb (zlen l1Input =? to_int64 (cfg_SeqWindowSize config)) then
    throw (EMsg "invalid sequencing window size")
  else
    in0 ← lift (index l1Input 0);
    in1 ← lift (index l1Input 1);
    let epoch := id_Number in0 in
    l2Info ← M_err (wrapw "failed to fetch L2 block info: ") (eng_PayloadByHash (l2_Hash l2SafeHead));
    '(l1Info, _, receipts) ← M_err (wrapw "failed to fetch L1 block info: ") (dl_Fetch (id_Hash in0));
    _ ← lift (fail_if (negb (id_Hash (l2_L1Origin l2SafeHead) =? li_ParentHash l1Info))
                (EMsg "l1Info does not extend L1 Origin of L2 Safe Head"));
    nextL1Block ← M_err (wrapv "failed to get L1 timestamp of next L1 block: ")
                    (dl_InfoByHash (id_Hash in1));
    '(deposits, _) ← lift (DeriveDeposits receipts (cfg_DepositContractAddress config));
    transactions ← M_err (wrapv "failed to fetch transactions: ") (dl_FetchAllTransactions l1Input);
    batches ← M_err (wrapw "failed to fetch create batches from transactions: ")
                (lift (BatchesFromEVMTransactions config transactions));
    let minL2Time := pl_Timestamp l2Info +64 cfg_BlockTime config in
    let maxL2Time := li_Time l1Info +64 cfg_MaxSequencerDrift config in
    let maxL2Time := if maxL2Time <? minL2Time +64 cfg_BlockTime config
                     then minL2Time +64 cfg_BlockTime config else maxL2Time in
    batches ← lift (FilterBatches config epoch minL2Time maxL2Time batches);
    batches ← lift (FillMissingBatches fuel batches epoch (cfg_BlockTime config) minL2Time
                      (li_Time nextL1Block));
    let fc := mkForkchoiceState (l2_Hash l2Head) (l2_Hash l2SafeHead) (id_Hash l2Finalized) in
    insertEpoch_loop config l1Info deposits batches 0 fc l2Head l2SafeHead false false.
End Step.

(** ** What the checks mean *)
Section Checks.
Context `{GethTypes}.

Definition is_deposit_bytes (b : Data) : Prop := exists r, b = DepositTxType :: r.
Definition is_other_bytes (b : Data) : Prop := exists t r, b = t :: r /\ t <> DepositTxType.

(** A non-empty prefix of deposits, then other transactions only. *)
Definition deposits_first (txs : list Data) : Prop :=
  exists deps rest, txs = deps ++ rest /\ deps <> [] /\
    Forall is_deposit_bytes deps /\ Forall is_other_bytes rest.

Lemma isDepositTx_cases b :
  match isDepositTx b with
  | Ok true => is_deposit_bytes b
  | Ok false => is_other_bytes b
  | Err _ => b = []
  | _ => False
  end.
Proof.
  unfold isDepositTx. destruct b as [|t r]; [done|]. case_bool_decide as Ht.
  - exists r. by rewrite Ht.
  - exists t, r. by split.
Qed.

Lemma lastDeposit_loop_spec txns i last k :
  lastDeposit_loop txns i last = Ok k ->
  exists deps rest, txns = deps ++ rest /\ Forall is_deposit_bytes deps /\
    k = (if bool_decide (deps = []) then last else i + zlen deps - 1).
Proof.
  revert i last. induction txns as [|tx txns IH]; intros i last E; cbn [lastDeposit_loop] in E.
  { go_inv. by exists [], []. }
  pose proof (isDepositTx_cases tx) as Hc. apply res_bind_ok in E as (d & Hd & E).
  apply map_err_ok in Hd. rewrite Hd in Hc. destruct d.
  - apply IH in E as (deps & rest & -> & Hall & ->). exists (tx :: deps), rest.
    split_and!; [done|by constructor|]. rewrite zlen_cons. cbn.
    destruct deps; cbn; [unfold zlen; simpl; lia|lia].
  - go_inv. by exists [], (tx :: txns).
Qed.

Lemma no_deposits_spec txns u : no_deposits txns = Ok u -> Forall is_other_bytes txns.
Proof.
  induction txns as [|tx txns IH]; intros E; cbn [no_deposits] in E; [constructor|].
  pose proof (isDepositTx_cases tx) as Hc. apply res_bind_ok in E as (d & Hd & E).
  apply map_err_ok in Hd. rewrite Hd in Hc. destruct d; [done|]. constructor; auto.
Qed.

Lemma checked_deposits_first (txs : list Data) tx0 t0 last u :
  index txs 0 = Ok tx0 -> index tx0 0 = Ok t0 -> t0 = DepositTxType ->
  lastDeposit txs = Ok last -> no_deposits (drop (Z.to_nat (last + 1)) txs) = Ok u ->
  deposits_first txs.
Proof.
  unfold index. intros E1 E2 Ht El En. destruct txs as [|tx txs]; [done|].
  cbn in E1. injection E1 as <-. destruct tx as [|t r]; [done|]. cbn in E2. injection E2 as <-.
  unfold lastDeposit in El. cbn [lastDeposit_loop] in El.
  unfold isDepositTx in El. rewrite bool_decide_eq_true_2 in El by done. cbn in El.
  apply lastDeposit_loop_spec in El as (deps & rest & -> & Hall & ->).
  exists ((t :: r) :: deps), rest. split_and!; [done|done|constructor; [exists r; by subst|done]|].
  apply no_deposits_spec in En. revert En. case_bool_decide as Hd.
  - by subst deps.
  - replace (Z.to_nat _) with (length ((t :: r) :: deps)) by (unfold zlen; simpl; lia).
    rewrite app_comm_cons, drop_app_length. done.
Qed.

Lemma txs_match_spec attrs block :
  length attrs = length block ->
  (txs_match attrs block = Ok tt /\ attrs = block) \/
  (exists e, txs_match attrs block = Err e) /\ attrs <> block.
Proof.
  revert block. induction attrs as [|a attrs IH]; intros [|b block] Hl; try done; [by left|].
  injection Hl as Hl. cbn [txs_match]. case_bool_decide as Hab; cbn [negb].
  - subst b. destruct (IH block Hl) as [[-> ->]|[[e ->] Hne]]; [by left|right].
    split; [eauto|congruence].
  - right. split; [eauto|congruence].
Qed.

(** The attributes match the block. *)
Definition attributes_match (attrs : PayloadAttributes) (parentHash : Hash)
    (block : ExecutionPayload) : Prop :=
  parentHash = pl_ParentHash block /\ at_Timestamp attrs = pl_Timestamp block /\
  at_PrevRandao attrs = pl_PrevRandao block /\ at_Transactions attrs = pl_Transactions block.

(** Only parent, time, randomness and transactions are compared: a block with another fee
    recipient, gas limit or extra data than the node itself would build passes. *)
Lemma attributesMatchBlock_reads attrs parentHash p q :
  pl_ParentHash p = pl_ParentHash q -> pl_Timestamp p = pl_Timestamp q ->
  pl_PrevRandao p = pl_PrevRandao q -> pl_Transactions p = pl_Transactions q ->
  attributesMatchBlock attrs parentHash p = attributesMatchBlock attrs parentHash q.
Proof. unfold attributesMatchBlock. by intros -> -> -> ->. Qed.

Lemma attributesMatchBlock_cases attrs parentHash block :
  (attributesMatchBlock attrs parentHash block = Ok tt /\ attributes_match attrs parentHash block) \/
  (exists e, attributesMatchBlock attrs parentHash block = Err e) /\
    ~ attributes_match attrs parentHash block.
Proof.
  unfold attributesMatchBlock, attributes_match.
  destruct (Z.eqb_spec parentHash (pl_ParentHash block)); [|right; split; [eauto|tauto]].
  destruct (Z.eqb_spec (at_Timestamp attrs) (pl_Timestamp block)); [|right; split; [eauto|tauto]].
  destruct (Z.eqb_spec (at_PrevRandao attrs) (pl_PrevRandao block)); [|right; split; [eauto|tauto]].
  cbn [negb]. destruct (Z.eqb_spec (zlen (at_Transactions attrs)) (zlen (pl_Transactions block)));
    cbn [negb].
  - destruct (txs_match_spec (at_Transactions attrs) (pl_Transactions block)) as [[-> ?]|[? ?]];
      [unfold zlen in *; lia|by left|right]. tauto.
  - right. split; [eauto|]. intros (_ & _ & _ & E). rewrite E in n. done.
Qed.
End Checks.

Section Proofs.
Context `{Keccak} `{GethTypes} `{RLP} {W : Type} `{!Engine W} `{!Downloader W}.

(** A block inserted by [insertHeadBlock], whatever the engine answers: the
    engine started building on the given forkchoice with the attributes, built this
    payload, whose transactions are at least one deposit, then non-deposits only,
    accepted it, and accepted the forkchoice with the payload as head, as safe block
    only if [updateSafe], and with the finalized block untouched; in this order. *)
Lemma insertHeadBlock_inv fc attrs updateSafe w payload w' :
  insertHeadBlock fc attrs updateSafe w = (Ok payload, w') ->
  exists r1 id w1 w2 w3 r2,
    eng_ForkchoiceUpdate fc (Some attrs) w = (Ok r1, w1) /\
    fr_PayloadID r1 = Some id /\
    eng_GetPayload id w1 = (Ok payload, w2) /\
    deposits_first (pl_Transactions payload) /\
    eng_NewPayload payload w2 = (Ok tt, w3) /\
    eng_ForkchoiceUpdate
      (mkForkchoiceState (pl_BlockHash payload)
         (if updateSafe then pl_BlockHash payload else fc_SafeBlockHash fc)
         (fc_FinalizedBlockHash fc)) None w3 = (Ok r2, w') /\
    ps_Status (fr_PayloadStatus r1) = ExecutionValid /\
    ps_Status (fr_PayloadStatus r2) = ExecutionValid.
Proof.
  unfold insertHeadBlock. intros E.
  apply M_bind_ok in E as (r1 & w1 & E1 & E). apply M_err_ok in E1.
  case_bool_decide as Hv1; [|done]. cbn [negb] in E.
  destruct (fr_PayloadID r1) as [id|] eqn:Eid; [|done].
  apply M_bind_ok in E as (p & w2 & E2 & E). apply M_err_ok in E2.
  apply M_bind_ok in E as (? & ? & Hne & E). apply lift_ok in Hne as [_ <-].
  apply M_bind_ok in E as (tx0 & ? & Htx0 & E). apply lift_ok in Htx0 as [Htx0 <-].
  apply M_bind_ok in E as (t0 & ? & Ht0 & E). apply lift_ok in Ht0 as [Ht0 <-].
  apply M_bind_ok in E as (? & ? & Hdep & E). apply lift_ok in Hdep as [Hdep <-].
  apply fail_if_ok, negb_false_iff, bool_decide_eq_true in Hdep.
  apply M_bind_ok in E as (last & ? & Hlast & E). apply M_err_ok, lift_ok in Hlast as [Hlast <-].
  apply M_bind_ok in E as (u & ? & Hno & E). apply lift_ok in Hno as [Hno <-].
  apply M_bind_ok in E as ([] & w3 & E3 & E). apply M_err_ok in E3.
  apply M_bind_ok in E as (r2 & w4 & E4 & E). apply M_err_ok in E4.
  case_bool_decide as Hv2; [|done]. cbn [negb] in E. injection E as -> ->.
  exists r1, id, w1, w2, w3, r2. split_and!; try done. by eapply checked_deposits_first.
Qed.

Lemma verifySafeBlock_cases config fc attrs parent w payload reorg w' :
  verifySafeBlock config fc attrs parent w = (Ok (payload, reorg), w') ->
  (reorg = false /\ attributes_match attrs (id_Hash parent) payload /\
     exists w1, eng_PayloadByNumber (id_Number parent +64 1) w = (Ok payload, w1)) \/
  exists fc' held w1, fc' = mkForkchoiceState (id_Hash parent) (id_Hash parent) (fc_FinalizedBlockHash fc) /\
    eng_PayloadByNumber (id_Number parent +64 1) w = (Ok held, w1) /\
    insertHeadBlock fc' attrs true w1 = (Ok payload, w').
Proof.
  unfold verifySafeBlock. intros E. apply M_bind_ok in E as (held & w1 & Eh & E). apply M_err_ok in Eh.
  apply M_bind_ok in E as (ref & ? & Hr & E). apply M_err_ok, lift_ok in Hr as [_ <-].
  apply M_bind_ok in E as (m & w2 & Em & E). unfold attempt, lift in Em.
  destruct (attributesMatchBlock_cases attrs (id_Hash parent) held) as [[Eq Hm]|[[e Eq] Hm]];
    rewrite Eq in Em; injection Em as <- <-.
  - apply M_bind_ok in E as (r & w3 & _ & E). injection E as <- <- <-. left; eauto.
  - apply M_bind_ok in E as (p & w3 & Ei & E). injection E as <- <- <-. right. do 3 eexists. by split_and!.
Qed.

(** [verifySafeBlock] against any engine: without a reorg the returned payload is
    the block the engine holds after the parent, it matches the derived attributes, and
    only the safe block of the forkchoice moved, to it; with a reorg that block did not
    match, and the returned one was inserted on top of the parent as head and safe block. *)
Lemma verifySafeBlock_spec config fc attrs parent w payload reorg w' :
  verifySafeBlock config fc attrs parent w = (Ok (payload, reorg), w') ->
  exists held w1, eng_PayloadByNumber (id_Number parent +64 1) w = (Ok held, w1) /\
    if (reorg : bool)
    then ~ attributes_match attrs (id_Hash parent) held /\
      insertHeadBlock
        (mkForkchoiceState (id_Hash parent) (id_Hash parent) (fc_FinalizedBlockHash fc))
        attrs true w1 = (Ok payload, w')
    else payload = held /\ attributes_match attrs (id_Hash parent) held /\
      exists r, eng_ForkchoiceUpdate
        (mkForkchoiceState (fc_HeadBlockHash fc) (pl_BlockHash held) (fc_FinalizedBlockHash fc))
        None w1 = (Ok r, w').
Proof.
  unfold verifySafeBlock. intros E.
  apply M_bind_ok in E as (held & w1 & E1 & E). apply M_err_ok in E1.
  apply M_bind_ok in E as (ref & ? & Hr & E). apply M_err_ok, lift_ok in Hr as [_ <-].
  exists held, w1. split; [done|].
  apply M_bind_ok in E as (m & w2 & Em & E). unfold attempt, lift in Em.
  destruct (attributesMatchBlock_cases attrs (id_Hash parent) held) as [[Eq Hm]|[[e Eq] Hm]];
    rewrite Eq in Em; injection Em as <- <-.
  - apply M_bind_ok in E as (r & w3 & Ef & E). apply M_err_ok in Ef.
    injection E as <- <- <-. eauto.
  - apply M_bind_ok in E as (p & w3 & Ei & E). injection E as <- <- <-. done.
Qed.

(** *** The finalized block *)

(** [I] is kept by every call that leaves the finalized block at [F]. *)
Definition step_invariant (F : Hash) (I : W -> Prop) : Prop :=
  (forall id, preserves I (eng_GetPayload id)) /\
  (forall p, preserves I (eng_NewPayload p)) /\
  (forall h, preserves I (eng_PayloadByHash h)) /\
  (forall n, preserves I (eng_PayloadByNumber n)) /\
  (forall h, preserves I (dl_InfoByHash h)) /\
  (forall h, preserves I (dl_Fetch h)) /\
  (forall ids, preserves I (dl_FetchAllTransactions ids)) /\
  (forall fc attrs, fc_FinalizedBlockHash fc = F -> preserves I (eng_ForkchoiceUpdate fc attrs)).

Section Finalized.
Context (F : Hash) (I : W -> Prop) (HI : step_invariant F I).

Lemma insertHeadBlock_preserves fc attrs updateSafe :
  fc_FinalizedBlockHash fc = F -> preserves I (insertHeadBlock fc attrs updateSafe).
Proof.
  intros Hfc. destruct HI as (? & ? & ? & ? & ? & ? & ? & Hfcu). unfold insertHeadBlock.
  preserves_tac.
Qed.
Lemma processBlock_preserves l2SafeHead l2Finalized payload :
  id_Hash l2Finalized = F -> preserves I (processBlock l2SafeHead l2Finalized payload).
Proof.
  intros Hf. destruct HI as (? & ? & ? & ? & ? & ? & ? & Hfcu). unfold processBlock. preserves_tac.
Qed.
Lemma createNewBlock_preserves config l2Head l2SafeHead l2Finalized l1Origin :
  id_Hash l2Finalized = F ->
  preserves I (createNewBlock config l2Head l2SafeHead l2Finalized l1Origin).
Proof.
  intros Hf. pose proof insertHeadBlock_preserves as Hins.
  destruct HI as (? & ? & ? & ? & ? & ? & ? & Hfcu). unfold createNewBlock. preserves_tac.
Qed.
Lemma verifySafeBlock_preserves config fc attrs parent :
  fc_FinalizedBlockHash fc = F -> preserves I (verifySafeBlock config fc attrs parent).
Proof.
  intros Hf. pose proof insertHeadBlock_preserves as Hins.
  destruct HI as (? & ? & ? & ? & ? & ? & ? & Hfcu). unfold verifySafeBlock. preserves_tac.
Qed.
Lemma insertEpoch_loop_preserves config l1Info deposits batches i fc head safe d r :
  fc_FinalizedBlockHash fc = F ->
  preserves I (insertEpoch_loop config l1Info deposits batches i fc head safe d r).
Proof.
  revert i fc head safe d r. induction batches as [|b bs IH]; intros i fc head safe d r Hfc;
    cbn [insertEpoch_loop]; [preserves_tac|].
  pose proof insertHeadBlock_preserves as Hins. pose proof verifySafeBlock_preserves as Hver.
  preserves_tac.
Qed.
Lemma insertEpoch_preserves fuel config l2Head l2SafeHead l2Finalized l1Input :
  id_Hash l2Finalized = F ->
  preserves I (insertEpoch fuel config l2Head l2SafeHead l2Finalized l1Input).
Proof.
  intros Hf. pose proof insertEpoch_loop_preserves as Hloop.
  destruct HI as (? & ? & ? & ? & ? & ? & ? & Hfcu). unfold insertEpoch. preserves_tac.
Qed.
End Finalized.

Lemma step_invariant_any F : step_invariant F (fun _ => True).
Proof. repeat split. Qed.
(** *** The blocks of an epoch as a function of L1 *)

Fixpoint epoch_attributes_list (config : Config) (l1Info : L1Info) (deposits : list Data)
    (i : Z) (batches : list BatchData) : res (list PayloadAttributes) :=
  match batches with
  | [] => Ok []
  | batch :: batches =>
      attrs ← epoch_attributes config l1Info deposits i batch;
      rest ← epoch_attributes_list config l1Info deposits (i + 1) batches;
      Ok (attrs :: rest)
  end.

(** The specification of the derivation: the attributes of all blocks of the epoch that
    starts at the L1 block [l1Info], from the L1 data of the sequencing window and the
    time of the L2 parent alone. *)
Definition derive_epoch (fuel : nat) (config : Config) (epoch l2Time : uint64) (l1Info : L1Info)
    (nextL1Time : uint64) (receipts : list Receipt) (txLists : list (list Transaction))
    : res (list PayloadAttributes) :=
  '(deposits, _) ← DeriveDeposits receipts (cfg_DepositContractAddress config);
  batches ← BatchesFromEVMTransactions config txLists;
  let minL2Time := l2Time +64 cfg_BlockTime config in
  let maxL2Time := Z.max (li_Time l1Info +64 cfg_MaxSequencerDrift config)
                         (minL2Time +64 cfg_BlockTime config) in
  batches ← FilterBatches config epoch minL2Time maxL2Time batches;
  batches ← FillMissingBatches fuel batches epoch (cfg_BlockTime config) minL2Time nextL1Time;
  epoch_attributes_list config l1Info deposits 0 batches.

(** The payloads realise the attributes on top of [parent], each on the one before. *)
Fixpoint chained (parent : Hash) (attrss : list PayloadAttributes)
    (payloads : list ExecutionPayload) : Prop :=
  match attrss, payloads with
  | [], [] => True
  | attrs :: attrss, p :: payloads =>
      attributes_match attrs parent p /\ chained (pl_BlockHash p) attrss payloads
  | _, _ => False
  end.

(** What the engine API promises of block building without the transaction pool, in the
    worlds of [I]: the payload is built on the head it was given and holds exactly the
    attributes. *)
Definition engine_builds_in (I : W -> Prop) : Prop :=
  forall fc attrs (w : W) r w1 id p w2, I w ->
    eng_ForkchoiceUpdate fc (Some attrs) w = (Ok r, w1) -> fr_PayloadID r = Some id ->
    eng_GetPayload id w1 = (Ok p, w2) -> at_NoTxPool attrs = true ->
    attributes_match attrs (fc_HeadBlockHash fc) p.
Definition engine_builds : Prop := engine_builds_in (fun _ => True).

(** A call answered with [a], in a world of [I]. *)
Definition reads {A} (I : W -> Prop) (c : M W A) (a : A) : Prop :=
  exists w w', I w /\ c w = (Ok a, w').
Lemma reads_intro {A} (I : W -> Prop) (c : M W A) a w w' : I w -> c w = (Ok a, w') -> reads I c a.
Proof. by exists w, w'. Qed.
Lemma keeps_reads {A} (I : W -> Prop) (c : M W A) Q a : keeps I c Q -> reads I c a -> Q a.
Proof. intros Hc (w & w' & Hw & E). apply (Hc w Hw). by rewrite E. Qed.

(** The payloads the engine answers with: those it built, and its block at a number. *)
Definition engine_answer (I : W -> Prop) (p : ExecutionPayload) : Prop :=
  (exists id, reads I (eng_GetPayload id) p) \/ (exists n, reads I (eng_PayloadByNumber n) p).

Lemma PayloadToBlockRef_hash p genesis ref :
  PayloadToBlockRef p genesis = Ok ref -> l2_Hash ref = pl_BlockHash p.
Proof. unfold PayloadToBlockRef. intros E. apply res_bind_ok in E as ([o n] & _ & E). by injection E as <-. Qed.

Section Derived.
Context (F : Hash) (I : W -> Prop) (HI : step_invariant F I).

Lemma insertHeadBlock_built fc attrs updateSafe w payload w' :
  engine_builds_in I -> I w -> fc_FinalizedBlockHash fc = F -> at_NoTxPool attrs = true ->
  insertHeadBlock fc attrs updateSafe w = (Ok payload, w') ->
  attributes_match attrs (fc_HeadBlockHash fc) payload /\ engine_answer I payload.
Proof.
  intros Hb Hw Hf Hn E. apply insertHeadBlock_inv in E as (r1 & id & w1 & w2 & _ & _ & E1 & Eid & E2 & _).
  destruct HI as (_ & _ & _ & _ & _ & _ & _ & Hfcu).
  split; [by eapply Hb|]. left. exists id, w1, w2. split; [|done]. by eapply preserves_run; [apply Hfcu|..].
Qed.

Lemma insertEpoch_loop_derives config l1Info deposits batches i fc head safe d r w head' safe' d' w' :
  engine_builds_in I -> fc_HeadBlockHash fc = l2_Hash head -> fc_FinalizedBlockHash fc = F -> I w ->
  insertEpoch_loop config l1Info deposits batches i fc head safe d r w = (Ok (head', safe', d'), w') ->
  exists attrss payloads,
    epoch_attributes_list config l1Info deposits i batches = Ok attrss /\
    chained (l2_Hash safe) attrss payloads /\ Forall (engine_answer I) payloads /\
    match last payloads with
    | None => safe' = safe
    | Some p => PayloadToBlockRef p (cfg_Genesis config) = Ok safe'
    end.
Proof.
  intros Hb. revert i fc head safe d r w.
  induction batches as [|batch batches IH]; intros i fc head safe d r w Hfc Hfin Hw E;
    cbn [insertEpoch_loop] in E.
  { injection E as <- <- <- <-. exists [], []. done. }
  apply M_bind_ok in E as (attrs & w1 & Ea & E). apply lift_ok in Ea as [Ea <-].
  assert (Hpool : at_NoTxPool attrs = true).
  { unfold epoch_attributes in Ea. apply res_bind_ok in Ea as (? & _ & Ea). by injection Ea as <-. }
  apply M_bind_ok in E as ([p r2] & w2 & Ep & E). apply M_err_ok in Ep.
  apply M_bind_ok in E as (ref & w3 & Er & E). apply M_err_ok, lift_ok in Er as [Er <-].
  assert (Hm : (attributes_match attrs (l2_Hash safe) p /\ engine_answer I p) /\ I w2).
  { destruct (Z.eqb_spec (l2_Hash head) (l2_Hash safe)) as [Heq|Hne]; cbn [negb] in Ep.
    - apply M_bind_ok in Ep as (p' & w4 & Ei & Ep). injection Ep as -> -> ->. split.
      + rewrite <-Heq, <-Hfc. by eapply insertHeadBlock_built.
      + by eapply preserves_run; [by apply (insertHeadBlock_preserves F)|..].
    - split; [|by eapply preserves_run; [by apply (verifySafeBlock_preserves F)|..]].
      apply verifySafeBlock_cases in Ep as [(_ & Hm & w4 & En)|(fc' & held & w4 & Efc & En & Ei)].
      + split; [done|]. right. by exists (l2_Number safe +64 1), w, w4.
      + assert (Hw4 : I w4) by (eapply preserves_run; [|exact Hw|exact En]; apply HI).
        assert (Hfin' : fc_FinalizedBlockHash fc' = F) by (by rewrite Efc).
        pose proof (insertHeadBlock_built _ _ _ _ _ _ Hb Hw4 Hfin' Hpool Ei) as Hbuilt.
        by rewrite Efc in Hbuilt. }
  destruct Hm as [[Hm Ha] Hw2]. pose proof (PayloadToBlockRef_hash _ _ _ Er) as Hh.
  apply IH in E as (attrss & payloads & El & Hch & Hans & Hlast); [|done..].
  exists (attrs :: attrss), (p :: payloads). cbn [epoch_attributes_list chained].
  rewrite Ea, El, <-Hh. cbn [mbind res_bind]. split_and!; [done..|by constructor|].
  rewrite last_cons. destruct (last payloads); [done|by subst].
Qed.

Lemma epoch_attributes_list_length config l1Info deposits i batches attrss :
  epoch_attributes_list config l1Info deposits i batches = Ok attrss ->
  length attrss = length batches.
Proof.
  revert i attrss. induction batches as [|b bs IH]; intros i attrss E; cbn in E; go_inv; [done|].
  cbn. f_equal. eauto.
Qed.

Lemma chained_length parent attrss payloads :
  chained parent attrss payloads -> length attrss = length payloads.
Proof.
  revert parent payloads. induction attrss as [|a attrss IH]; intros parent [|p ps] Hc; try done.
  destruct Hc as [_ Hc]. cbn. f_equal. eauto.
Qed.

Lemma index_lookup {A} (l : list A) (i : nat) x : index l (Z.of_nat i) = Ok x -> l !! i = Some x.
Proof.
  unfold index. rewrite (proj2 (Z.leb_le _ _)) by lia. rewrite Nat2Z.id.
  destruct (l !! i); [by intros [= ->]|done].
Qed.

Lemma insertEpoch_inv fuel config l2Head l2SafeHead l2Finalized l1Input w out w' :
  id_Hash l2Finalized = F -> I w ->
  insertEpoch fuel config l2Head l2SafeHead l2Finalized l1Input w = (Ok out, w') ->
  exists in0 in1 l2Info l1Info txs receipts next transactions deposits errs bs1 bs2 bs3 wl,
    l1Input !! 0%nat = Some in0 /\ l1Input !! 1%nat = Some in1 /\
    zlen l1Input = to_int64 (cfg_SeqWindowSize config) /\
    reads I (eng_PayloadByHash (l2_Hash l2SafeHead)) l2Info /\
    reads I (dl_Fetch (id_Hash in0)) (l1Info, txs, receipts) /\
    reads I (dl_InfoByHash (id_Hash in1)) next /\
    reads I (dl_FetchAllTransactions l1Input) transactions /\
    li_ParentHash l1Info = id_Hash (l2_L1Origin l2SafeHead) /\
    DeriveDeposits receipts (cfg_DepositContractAddress config) = Ok (deposits, errs) /\
    BatchesFromEVMTransactions config transactions = Ok bs1 /\
    (let minL2Time := pl_Timestamp l2Info +64 cfg_BlockTime config in
     let maxL2Time := Z.max (li_Time l1Info +64 cfg_MaxSequencerDrift config)
                            (minL2Time +64 cfg_BlockTime config) in
     FilterBatches config (id_Number in0) minL2Time maxL2Time bs1 = Ok bs2) /\
    FillMissingBatches fuel bs2 (id_Number in0) (cfg_BlockTime config)
      (pl_Timestamp l2Info +64 cfg_BlockTime config) (li_Time next) = Ok bs3 /\
    insertEpoch_loop config l1Info deposits bs3 0
      (mkForkchoiceState (l2_Hash l2Head) (l2_Hash l2SafeHead) (id_Hash l2Finalized))
      l2Head l2SafeHead false false wl = (Ok out, w') /\ I wl.
Proof.
  unfold insertEpoch. intros Hf Hw0 E. destruct HI as (_ & _ & HbyHash & _ & Hinfo & Hfetch & Hall & _).
  destruct (zlen l1Input <=? 1); [done|].
  destruct (Z.eqb_spec (zlen l1Input) (to_int64 (cfg_SeqWindowSize config))) as [HW|]; [|done].
  cbn [negb] in E.
  apply M_bind_ok in E as (in0 & ? & G0' & E). apply lift_ok in G0' as [G0' <-].
  apply M_bind_ok in E as (in1 & ? & G1' & E). apply lift_ok in G1' as [G1' <-].
  apply M_bind_ok in E as (l2Info & w2 & G2 & E). apply M_err_ok in G2.
  pose proof (preserves_run _ _ _ _ _ (HbyHash _) Hw0 G2) as Hw2.
  apply M_bind_ok in E as ([[l1Info txs] receipts] & w3 & G3 & E). apply M_err_ok in G3.
  pose proof (preserves_run _ _ _ _ _ (Hfetch _) Hw2 G3) as Hw3.
  apply M_bind_ok in E as (? & ? & G4 & E). apply lift_ok in G4 as [G4 <-].
  apply fail_if_ok, negb_false_iff, Z.eqb_eq in G4.
  apply M_bind_ok in E as (next & w4 & G5 & E). apply M_err_ok in G5.
  pose proof (preserves_run _ _ _ _ _ (Hinfo _) Hw3 G5) as Hw4.
  apply M_bind_ok in E as ([deposits errs] & ? & G6 & E). apply lift_ok in G6 as [G6 <-].
  apply M_bind_ok in E as (transactions & w5 & G7 & E). apply M_err_ok in G7.
  pose proof (preserves_run _ _ _ _ _ (Hall _) Hw4 G7) as Hw5.
  apply M_bind_ok in E as (bs1 & ? & G8 & E). apply M_err_ok, lift_ok in G8 as [G8 <-].
  apply M_bind_ok in E as (bs2 & ? & G9 & E). apply lift_ok in G9 as [G9 <-].
  apply M_bind_ok in E as (bs3 & ? & G10 & E). apply lift_ok in G10 as [G10 <-].
  exists in0, in1, l2Info, l1Info, txs, receipts, next, transactions, deposits, errs, bs1, bs2, bs3, w5.
  split_and!; eauto using reads_intro; [by apply (index_lookup _ 0)|by apply (index_lookup _ 1)|].
  cbv zeta. rewrite <-G9. f_equal. case_match; lia.
Qed.

(** [insertEpoch] implements the derivation.  With an engine that builds what it
    is told, a successful call has read the epoch's first L1 block, a child of the L1
    origin of the safe head, the next L1 block and the transactions of the window; the
    attributes that [derive_epoch] computes from them and from the parent's time are
    realised, in order and without a gap, by payloads chained from the old safe head;
    the new safe head refers to the last of them.  What the unsafe chain held before
    plays no part. *)
Lemma insertEpoch_derives fuel config l2Head l2SafeHead l2Finalized l1Input w head' safe' d' w' :
  engine_builds_in I -> id_Hash l2Finalized = F -> I w ->
  insertEpoch fuel config l2Head l2SafeHead l2Finalized l1Input w = (Ok (head', safe', d'), w') ->
  exists in0 in1 l2Info l1Info txs receipts next transactions attrss payloads,
    l1Input !! 0%nat = Some in0 /\ l1Input !! 1%nat = Some in1 /\
    zlen l1Input = to_int64 (cfg_SeqWindowSize config) /\
    reads I (eng_PayloadByHash (l2_Hash l2SafeHead)) l2Info /\
    reads I (dl_Fetch (id_Hash in0)) (l1Info, txs, receipts) /\
    reads I (dl_InfoByHash (id_Hash in1)) next /\
    reads I (dl_FetchAllTransactions l1Input) transactions /\
    li_ParentHash l1Info = id_Hash (l2_L1Origin l2SafeHead) /\
    derive_epoch fuel config (id_Number in0) (pl_Timestamp l2Info) l1Info (li_Time next)
      receipts transactions = Ok attrss /\
    chained (l2_Hash l2SafeHead) attrss payloads /\ Forall (engine_answer I) payloads /\
    match last payloads with
    | None => safe' = l2SafeHead
    | Some p => PayloadToBlockRef p (cfg_Genesis config) = Ok safe'
    end.
Proof.
  intros Hb Hf Hw E. apply insertEpoch_inv in E as (in0 & in1 & l2Info & l1Info & txs & receipts & next &
    transactions & deposits & errs & bs1 & bs2 & bs3 & w1 & G1 & G2 & G3 & G4 & G5 & G6 & G7 & G8 &
    Hd & Hb1 & Hb2 & Hb3 & E & Hw1); [|done..].
  apply insertEpoch_loop_derives in E as (attrss & payloads & El & Hch & Hans & Hlast); [|done..].
  exists in0, in1, l2Info, l1Info, txs, receipts, next, transactions, attrss, payloads.
  split_and!; try done. unfold derive_epoch. rewrite Hd. cbn [mbind res_bind]. rewrite Hb1.
  cbn [mbind res_bind]. rewrite Hb2. cbn [mbind res_bind]. rewrite Hb3. exact El.
Qed.
End Derived.
End Proofs.

(** ** The L1 origin of derived blocks *)
Section Origin.
Context `{Keccak} `{GethLaws} `{RLP} {W : Type} `{!Engine W} `{!Downloader W}.

Definition L1Info_ok (i : L1Info) : Prop :=
  in_range 64 (li_NumberU64 i) /\ in_range 64 (li_Time i) /\ in_range 256 (li_BaseFee i) /\
  in_range 256 (li_Hash i).

(** The L1 info transaction names the L1 block and the sequence number. *)
Lemma L1InfoDepositBytes_decodes seq info b :
  L1Info_ok info -> in_range 64 seq -> L1InfoDepositBytes seq info = Ok b ->
  exists tx, tx_UnmarshalBinary b = Ok tx /\ tx_Type tx = DepositTxType /\
    L1InfoDepositTxData (tx_Data tx) =
      Ok (mkL1BlockInfo (li_NumberU64 info) (li_Time info) (li_BaseFee info) (li_Hash info) seq).
Proof.
  intros (Hn & Ht & Hf & Hh) Hs E. unfold L1InfoDepositBytes in E.
  apply res_bind_ok in E as (dep & Ed & E). apply map_err_ok in Ed, E.
  exists (NewDepositTx dep). split; [by apply tx_roundtrip|]. split; [apply deposit_type|].
  rewrite deposit_data. unfold L1InfoDeposit in Ed. cbv zeta in Ed.
  apply res_bind_ok in Ed as (data & Em & Ed). apply res_bind_ok in Ed as (sh & _ & Ed).
  injection Ed as <-. cbn [dep_Data].
  rewrite L1BlockInfo_MarshalBinary_layout in Em by done. injection Em as <-.
  unfold L1InfoDepositTxData. by rewrite L1BlockInfo_UnmarshalBinary_layout by done.
Qed.

Lemma PayloadToBlockRef_origin seq info b p rest genesis ref :
  L1Info_ok info -> in_range 64 seq -> L1InfoDepositBytes seq info = Ok b ->
  pl_Transactions p = b :: rest -> PayloadToBlockRef p genesis = Ok ref ->
  l2_Number ref <> id_Number (gen_L2 genesis) ->
  l2_L1Origin ref = mkBlockID (li_Hash info) (li_NumberU64 info) /\ l2_SequenceNumber ref = seq.
Proof.
  intros Hi Hs Eb Etx E Hnum.
  destruct (L1InfoDepositBytes_decodes _ _ _ Hi Hs Eb) as (tx & Eu & Ety & Einfo).
  unfold PayloadToBlockRef in E. rewrite Etx in E. apply res_bind_ok in E as ([o n] & Eo & E).
  injection E as <-. cbn in Hnum |- *. rewrite (proj2 (Z.eqb_neq _ _) Hnum) in Eo.
  rewrite Eu in Eo. cbn in Eo. rewrite bool_decide_eq_true_2 in Eo by done. cbn [negb] in Eo.
  rewrite Einfo in Eo. cbn in Eo. by injection Eo as <- <-.
Qed.

(** Every block of an epoch starts with the L1 info transaction, with its sequence number. *)
Lemma chained_lookup config l1Info deposits i batches attrss parent payloads j p :
  epoch_attributes_list config l1Info deposits i batches = Ok attrss ->
  chained parent attrss payloads -> payloads !! j = Some p ->
  exists b rest, L1InfoDepositBytes (i + Z.of_nat j) l1Info = Ok b /\ pl_Transactions p = b :: rest.
Proof.
  revert i j attrss parent payloads. induction batches as [|batch bs IH];
    intros i j attrss parent payloads E Hc Hl; cbn [epoch_attributes_list] in E.
  { injection E as <-. by destruct payloads. }
  apply res_bind_ok in E as (attrs & Ea & E). apply res_bind_ok in E as (attrss' & El & E).
  injection E as <-. destruct payloads as [|p' payloads]; [done|].
  cbn [chained] in Hc. destruct Hc as [(_ & _ & _ & Htx) Hc]. destruct j as [|j].
  - injection Hl as ->. unfold epoch_attributes in Ea. apply res_bind_ok in Ea as (b & Eb & Ea).
    apply map_err_ok in Eb. injection Ea as <-. cbn in Htx.
    exists b. eexists. split; [|by rewrite <-Htx]. rewrite <-Eb. f_equal. lia.
  - destruct (IH _ _ _ _ _ El Hc Hl) as (b & rest & Eb & Er).
    exists b, rest. split; [|done]. rewrite <-Eb. f_equal. lia.
Qed.

(** An epoch has a block, and each of its blocks starts with the L1 info transaction of the
    epoch's L1 block, with the number of the block in the epoch as sequence number. *)
Lemma derive_epoch_blocks fuel config epoch l2Time l1Info next receipts txLists attrss parent payloads :
  in_range 62 l2Time -> in_range 64 next ->
  0 < cfg_BlockTime config < 2 ^ 62 -> Z.of_nat fuel < 2 ^ 63 ->
  derive_epoch fuel config epoch l2Time l1Info next receipts txLists = Ok attrss ->
  chained parent attrss payloads ->
  payloads <> [] /\ forall j p, payloads !! j = Some p ->
    exists b rest, in_range 64 (Z.of_nat j) /\ L1InfoDepositBytes (Z.of_nat j) l1Info = Ok b /\
      pl_Transactions p = b :: rest.
Proof.
  unfold in_range. intros Ht Hnext Hbt Hfuel E Hch. unfold derive_epoch in E.
  apply res_bind_ok in E as ([deposits errs] & _ & E). apply res_bind_ok in E as (bs1 & _ & E).
  apply res_bind_ok in E as (bs2 & _ & E). apply res_bind_ok in E as (bs3 & Gb3 & E).
  pose proof (epoch_attributes_list_length _ _ _ _ _ _ E) as Hlen1.
  pose proof (chained_length _ _ _ Hch) as Hlen2.
  assert (Hne : bs3 <> []).
  { eapply FillMissingBatches_nonempty; [..|exact Gb3]; rewrite ?wrap_small; unfold in_range; lia. }
  assert (Hshort : (length bs3 <= fuel)%nat) by (by eapply FillMissingBatches_length).
  split; [intros ->; destruct bs3; [done|simpl in *; lia]|]. intros j p Hj.
  destruct (chained_lookup _ _ _ _ _ _ _ _ _ _ E Hch Hj) as (b & rest & Eb & Etx).
  apply lookup_lt_Some in Hj. exists b, rest. split_and!; [lia|lia|exact Eb|done].
Qed.

Lemma derive_epoch_last fuel config epoch l2Time l1Info next receipts txLists attrss parent payloads :
  in_range 62 l2Time -> in_range 64 next ->
  0 < cfg_BlockTime config < 2 ^ 62 -> Z.of_nat fuel < 2 ^ 63 ->
  derive_epoch fuel config epoch l2Time l1Info next receipts txLists = Ok attrss ->
  chained parent attrss payloads ->
  exists p b rest, last payloads = Some p /\ in_range 64 (zlen payloads - 1) /\
    L1InfoDepositBytes (zlen payloads - 1) l1Info = Ok b /\ pl_Transactions p = b :: rest.
Proof.
  intros Ht Hnext Hbt Hfuel E Hch.
  destruct (derive_epoch_blocks _ _ _ _ _ _ _ _ _ _ _ Ht Hnext Hbt Hfuel E Hch) as [Hne Hall].
  destruct (last payloads) as [p|] eqn:Ep; [|by apply last_None in Ep].
  rewrite last_lookup in Ep. destruct (Hall _ _ Ep) as (b & rest & Hr & Eb & Etx).
  apply lookup_lt_Some in Ep. replace (zlen payloads - 1) with (Z.of_nat (pred (length payloads)))
    by (unfold zlen; lia). by exists p, b, rest.
Qed.

(** Whatever was on the unsafe chain, a derived epoch moves the L1 origin of the
    safe head to the first L1 block of the window, and its last block carries the number
    of blocks of the epoch less one as sequence number: the safe chain advances by
    exactly one L1 block per epoch. *)
Lemma insertEpoch_last_origin fuel config l2Head l2SafeHead l2Finalized l1Input w head' safe' d' w' :
  engine_builds ->
  (forall h (w1 : W) i txs rs w2, dl_Fetch h w1 = (Ok (i, txs, rs), w2) -> li_Hash i = h /\ L1Info_ok i) ->
  (forall h (w1 : W) i w2, dl_InfoByHash h w1 = (Ok i, w2) -> L1Info_ok i) ->
  (forall h (w1 : W) p w2, eng_PayloadByHash h w1 = (Ok p, w2) -> in_range 62 (pl_Timestamp p)) ->
  0 < cfg_BlockTime config < 2 ^ 62 -> Z.of_nat fuel < 2 ^ 63 ->
  insertEpoch fuel config l2Head l2SafeHead l2Finalized l1Input w = (Ok (head', safe', d'), w') ->
  l2_Number safe' <> id_Number (gen_L2 (cfg_Genesis config)) ->
  exists in0 n, l1Input !! 0%nat = Some in0 /\ id_Hash (l2_L1Origin safe') = id_Hash in0 /\
    l2_SequenceNumber safe' = Z.of_nat n /\
    exists attrss, length attrss = S n /\
      exists l2Time l1Info next receipts txLists,
        derive_epoch fuel config (id_Number in0) l2Time l1Info next receipts txLists = Ok attrss.
Proof.
  intros Hb Hfetch Hinfo Htime Hbt Hfuel E Hnum.
  apply (insertEpoch_derives _ _ (step_invariant_any (id_Hash l2Finalized))) in E
    as (in0 & in1 & l2Info & l1Info & txs & receipts & next & transactions & attrss & payloads &
    G1 & G2 & G3 & (? & ? & _ & G4) & (? & ? & _ & G5) & (? & ? & _ & G6) & _ &
    _ & Ed & Hch & _ & Hlast); [|done..].
  apply Hfetch in G5 as [Hhash Hok]. apply Htime in G4. apply Hinfo in G6 as (_ & Hnext & _).
  destruct (derive_epoch_last _ _ _ _ _ _ _ _ _ _ _ G4 Hnext Hbt Hfuel Ed Hch)
    as (p & b & rest & Ep & Hseq & Eb & Etx). rewrite Ep in Hlast.
  destruct (PayloadToBlockRef_origin _ _ _ _ _ _ _ Hok Hseq Eb Etx Hlast Hnum) as [Ho Hs].
  pose proof (chained_length _ _ _ Hch) as Hlen. unfold in_range, zlen in *.
  exists in0, (length attrss - 1)%nat. split_and!; [done|by rewrite Ho|rewrite Hs; lia|].
  exists attrss. split; [lia|]. by exists (pl_Timestamp l2Info), l1Info, (li_Time next), receipts, transactions.
Qed.

(** *** Sequencing *)

(** With the transaction pool, the engine still starts the block with the attributes. *)
Definition engine_includes : Prop :=
  forall fc attrs (w : W) r w1 id p w2,
    eng_ForkchoiceUpdate fc (Some attrs) w = (Ok r, w1) -> fr_PayloadID r = Some id ->
    eng_GetPayload id w1 = (Ok p, w2) ->
    pl_ParentHash p = fc_HeadBlockHash fc /\ pl_Timestamp p = at_Timestamp attrs /\
    (exists rest, pl_Transactions p = at_Transactions attrs ++ rest) /\
    (at_NoTxPool attrs = true -> pl_Transactions p = at_Transactions attrs).

Lemma deposit_is_deposit_bytes dep b :
  tx_MarshalBinary (NewDepositTx dep) = Ok b -> is_deposit_bytes b.
Proof.
  intros E. apply tx_encoding_type in E as (t & r & -> & Ht).
  exists r. by rewrite (proj2 Ht (deposit_type dep)).
Qed.
Lemma L1InfoDepositBytes_deposit seq info b : L1InfoDepositBytes seq info = Ok b -> is_deposit_bytes b.
Proof.
  unfold L1InfoDepositBytes. intros E. apply res_bind_ok in E as (dep & _ & E).
  apply map_err_ok in E. by eapply deposit_is_deposit_bytes.
Qed.
Lemma DeriveDeposits_deposits receipts addr deps errs :
  DeriveDeposits receipts addr = Ok (deps, errs) -> Forall is_deposit_bytes deps.
Proof.
  unfold DeriveDeposits. intros E. apply res_bind_ok in E as ([ds es] & _ & E).
  assert (Hgen : forall acc out, DeriveDeposits_encode ds acc = Ok out ->
    Forall is_deposit_bytes acc.1 -> Forall is_deposit_bytes out.1).
  { clear E. induction ds as [|d ds IH]; intros [enc es'] out E Hacc; cbn in E; [by injection E as <-|].
    destruct (tx_MarshalBinary _) eqn:Em; try done; apply IH in E; try done.
    apply Forall_app. split; [done|]. constructor; [|done]. by eapply deposit_is_deposit_bytes. }
  apply (Hgen _ _ E). constructor.
Qed.

(** [C17] A block made by the sequencer extends the head it was asked to extend, one
    block time later; it has the asked L1 origin, with sequence number 0 when the origin
    changes and the next number otherwise.  Its transactions start with the L1 info
    transaction of that origin and number; then come the deposits of the origin's receipts
    when the origin changes, and none otherwise; then what the engine adds from its pool,
    which is nothing once the time exceeds the origin's by the allowed drift. *)
Theorem createNewBlock_spec config l2Head l2SafeHead l2Finalized l1Origin w ref payload w' :
  engine_includes ->
  (forall h (w1 : W) i txs rs w2, dl_Fetch h w1 = (Ok (i, txs, rs), w2) -> li_Hash i = h /\ L1Info_ok i) ->
  (forall h (w1 : W) i w2, dl_InfoByHash h w1 = (Ok i, w2) -> li_Hash i = h /\ L1Info_ok i) ->
  createNewBlock config l2Head l2SafeHead l2Finalized l1Origin w = (Ok (ref, payload), w') ->
  let seq := if id_Number (l2_L1Origin l2Head) =? l1_Number l1Origin
             then l2_SequenceNumber l2Head +64 1 else 0 in
  l2_ParentHash ref = l2_Hash l2Head /\ l2_Time ref = l2_Time l2Head +64 cfg_BlockTime config /\
  (l2_Number ref <> id_Number (gen_L2 (cfg_Genesis config)) ->
     id_Hash (l2_L1Origin ref) = l1_Hash l1Origin /\ l2_SequenceNumber ref = seq) /\
  (exists info receipts w1 l1InfoTx deposits errs rest,
     (if id_Number (l2_L1Origin l2Head) =? l1_Number l1Origin
      then dl_InfoByHash (l1_Hash l1Origin) w = (Ok info, w1) /\ receipts = [] /\ deposits = []
      else exists txs, dl_Fetch (l1_Hash l1Origin) w = (Ok (info, txs, receipts), w1)) /\
     L1InfoDepositBytes seq info = Ok l1InfoTx /\
     DeriveDeposits receipts (cfg_DepositContractAddress config) = Ok (deposits, errs) /\
     pl_Transactions payload = l1InfoTx :: deposits ++ rest /\
     Forall is_deposit_bytes (l1InfoTx :: deposits) /\ deposits_first (pl_Transactions payload) /\
     (l1_Time l1Origin +64 cfg_MaxSequencerDrift config <= l2_Time l2Head +64 cfg_BlockTime config ->
        rest = [])).
Proof.
  intros Hb Hfetch Hinfo E seq. unfold createNewBlock in E.
  apply M_bind_ok in E as ([[info rs] sq] & w1 & Ef & E). apply M_err_ok in Ef.
  assert (Hi : (li_Hash info = l1_Hash l1Origin /\ L1Info_ok info /\ sq = seq) /\
    if id_Number (l2_L1Origin l2Head) =? l1_Number l1Origin
    then dl_InfoByHash (l1_Hash l1Origin) w = (Ok info, w1) /\ rs = []
    else exists txs, dl_Fetch (l1_Hash l1Origin) w = (Ok (info, txs, rs), w1)).
  { unfold seq. destruct (Z.eqb_spec (id_Number (l2_L1Origin l2Head)) (l1_Number l1Origin));
      cbn [negb] in Ef.
    - apply M_bind_ok in Ef as (i & w2 & Ei & Ef). injection Ef as -> <- <- <-.
      split; [by apply Hinfo in Ei as [? ?]|done].
    - apply M_bind_ok in Ef as ([[i t] r] & w2 & Ei & Ef). injection Ef as -> -> <- <-.
      split; [by apply Hfetch in Ei as [? ?]|by exists t]. }
  destruct Hi as ((Hh & Hok & ->) & Hsrc).
  apply M_bind_ok in E as (b & ? & Eb & E). apply lift_ok in Eb as [Eb <-].
  apply M_bind_ok in E as ([deps errs] & ? & Ed & E). apply lift_ok in Ed as [Ed <-].
  apply M_bind_ok in E as (p & w2 & Ei & E). apply M_err_ok in Ei.
  apply M_bind_ok in E as (ref' & ? & Er & E). apply lift_ok in Er as [Er <-].
  injection E as -> -> ->.
  apply insertHeadBlock_inv in Ei as (r1 & id & w3 & w4 & _ & _ & E1 & Eid & E2 & Hdf & _).
  destruct (Hb _ _ _ _ _ _ _ _ E1 Eid E2) as (Hp & Ht & (rest & Htx) & Hnp). cbn in Hp, Ht, Htx, Hnp.
  pose proof Er as Er'. unfold PayloadToBlockRef in Er'.
  apply res_bind_ok in Er' as ([o n] & _ & Er'). injection Er' as Er'.
  split; [by subst ref|]. split; [by subst ref|]. split.
  - intros Hnum. assert (Hsq : in_range 64 seq).
    { unfold seq. destruct (_ =? _); [by apply wrap_range|unfold in_range; lia]. }
    destruct (PayloadToBlockRef_origin _ _ _ _ _ _ _ Hok Hsq Eb Htx Er Hnum) as [Ho Hs].
    by rewrite Ho, Hs.
  - exists info, rs, w1, b, deps, errs, rest. split_and!; try done.
    + destruct (_ =? _); [|done]. destruct Hsrc as [? ->]. by injection Ed as <- <-.
    + constructor; [by eapply L1InfoDepositBytes_deposit|]. by eapply DeriveDeposits_deposits.
    + intros Hdrift. rewrite Hnp in Htx by lia. change (b :: deps ++ rest) with ((b :: deps) ++ rest) in Htx.
      rewrite <-(app_nil_r (b :: deps)) in Htx at 1. by apply app_inv_head in Htx.
Qed.
End Origin.

(** ** Witnesses: a toy engine and a toy L1 *)

(** The engine holds the blocks it accepted, the attributes it is building on a parent,
    and the forkchoice calls it received; a block's hash is its parent's plus one. *)
Record ToyWorld := mkToyWorld {
  tw_blocks : list ExecutionPayload;
  tw_building : option (Hash * PayloadAttributes);
  tw_forkchoices : list ForkchoiceState;
}.

Definition toy_payload (parent : Hash) (attrs : PayloadAttributes) : ExecutionPayload :=
  mkExecutionPayload parent 0 0 0 0 (at_PrevRandao attrs) (parent + 1 - 200) 0 0
    (at_Timestamp attrs) [] 0 (parent + 1) (at_Transactions attrs).
Definition toy_valid : PayloadStatusV1 := mkPayloadStatusV1 ExecutionValid 0 "".

Definition ToyEngine : Engine ToyWorld := {|
  eng_GetPayload := fun id w =>
    (match tw_building w with
     | Some (parent, attrs) => Ok (toy_payload parent attrs)
     | None => Err ENotFound
     end, w);
  eng_ForkchoiceUpdate := fun fc attrs w =>
    (Ok (mkForkchoiceUpdatedResult toy_valid (match attrs with Some _ => Some 1 | None => None end)),
     mkToyWorld (tw_blocks w) (match attrs with Some a => Some (fc_HeadBlockHash fc, a) | None => None end)
       (tw_forkchoices w ++ [fc]));
  eng_NewPayload := fun p w =>
    (Ok tt, mkToyWorld (p :: tw_blocks w) (tw_building w) (tw_forkchoices w));
  eng_PayloadByHash := fun h w =>
    (match list_find (fun p => pl_BlockHash p = h) (tw_blocks w) with
     | Some (_, p) => Ok p | None => Err ENotFound end, w);
  eng_PayloadByNumber := fun n w =>
    (match list_find (fun p => pl_BlockNumber p = n) (tw_blocks w) with
     | Some (_, p) => Ok p | None => Err ENotFound end, w);
|}.

Definition toy_l1 (h : Hash) : L1Info := mkL1Info h (h - 1) 0 (h - 90) (1004 + 6 * (h - 101)) 55 7 0.
(** One batch transaction, for time 1004 of epoch 11, sent to the inbox. *)
Definition toy_batch_data : list byte :=
  match @EncodeBatches ToyRLP [mkBatchV1 11 1004 [[x02; x01]]] with Ok b => b | _ => [] end.
Definition ToyDownloader : @Downloader ToyGeth ToyWorld := @Build_Downloader ToyGeth ToyWorld
  (fun h w => (if (h =? 101) || (h =? 102) then Ok (toy_l1 h) else Err ENotFound, w))
  (fun h w => (if (h =? 101) || (h =? 102) then Ok (toy_l1 h, [], []) else Err ENotFound, w))
  (fun ids w => (Ok [[(x02, toy_batch_data)]], w)).

Definition toy_genesis : Genesis := mkGenesis (mkBlockID 100 10) (mkBlockID 200 0) 1000.
Definition toy_config : Config :=
  mkConfig toy_genesis 2 10 2 900 901 77 78 (zlen toy_batch_data) 907 79.
Definition toy_l2_genesis : L2BlockRef := mkL2BlockRef 200 0 199 1000 (mkBlockID 100 10) 0.
Definition toy_world : ToyWorld :=
  mkToyWorld [mkExecutionPayload 199 0 0 0 0 0 0 0 0 1000 [] 0 200 []] None [].
Definition toy_insertEpoch :=
  @insertEpoch ToyKeccak ToyGeth ToyRLP ToyWorld ToyEngine ToyDownloader 10 toy_config
    toy_l2_genesis toy_l2_genesis zeroBlockID [mkBlockID 101 11; mkBlockID 102 12] toy_world.

Lemma toy_engine_builds : @engine_builds ToyWorld ToyEngine.
Proof.
  intros fc attrs w r w1 id p w2 _ E1 _ E2 _. cbn in E1. injection E1 as <- <-.
  cbn in E2. injection E2 as <- <-. done.
Qed.
Lemma toy_engine_includes : @engine_includes ToyWorld ToyEngine.
Proof.
  intros fc attrs w r w1 id p w2 E1 _ E2. cbn in E1. injection E1 as <- <-.
  cbn in E2. injection E2 as <- <-. cbn. split_and!; [done..| |done]. exists []. by rewrite app_nil_r.
Qed.
Lemma toy_info_ok h : (h =? 101) || (h =? 102) = true -> L1Info_ok (toy_l1 h).
Proof.
  intros E. apply orb_prop in E as [->%Z.eqb_eq| ->%Z.eqb_eq];
    unfold L1Info_ok, in_range; cbn; lia.
Qed.

Definition toy_fc : ForkchoiceState := mkForkchoiceState 200 200 0.
Definition toy_attrs : PayloadAttributes := mkPayloadAttributes 1002 55 78 [[x7e; x01]; [x02]] true.

(** The held block does not match, so it is replaced. *)
Lemma verifySafeBlock_spec_witness :
  exists payload reorg w',
    @verifySafeBlock ToyGeth ToyWorld ToyEngine toy_config toy_fc toy_attrs (mkBlockID 199 (2 ^ 64 - 1))
      toy_world = (Ok (payload, reorg), w') /\ reorg = true /\
    exists held w1, @eng_PayloadByNumber ToyWorld ToyEngine (2 ^ 64 - 1 +64 1) toy_world = (Ok held, w1) /\
      ~ attributes_match toy_attrs 199 held.
Proof.
  destruct (@verifySafeBlock ToyGeth ToyWorld ToyEngine toy_config toy_fc toy_attrs
    (mkBlockID 199 (2 ^ 64 - 1)) toy_world) as [[[payload reorg]| | |] w'] eqn:E;
    try (vm_compute in E; discriminate).
  destruct (@verifySafeBlock_spec ToyGeth ToyWorld ToyEngine _ _ _ _ _ _ _ _ E)
    as (held & w1 & E1 & H).
  assert (reorg = true) as -> by (vm_compute in E; by injection E).
  exists payload, true, w'. split_and!; [done|done|]. exists held, w1. tauto.
Defined.

Lemma insertEpoch_derives_witness :
  exists head safe d w', toy_insertEpoch = (Ok (head, safe, d), w') /\
    l2_Number safe = 4 /\ exists attrss payloads, chained 200 attrss payloads /\
      match last payloads with
      | None => safe = toy_l2_genesis
      | Some p => @PayloadToBlockRef ToyGeth p toy_genesis = Ok safe
      end.
Proof.
  destruct toy_insertEpoch as [[[[head safe] d]| | |] w'] eqn:E; try (vm_compute in E; discriminate).
  destruct (@insertEpoch_derives ToyKeccak ToyGeth ToyRLP ToyWorld ToyEngine ToyDownloader
    _ _ (step_invariant_any _) _ _ _ _ _ _ _ _ _ _ _ toy_engine_builds eq_refl I E)
    as (in0 & in1 & l2Info & l1Info & txs & rs & next & trs & attrss & payloads & H).
  exists head, safe, d, w'. split; [done|]. split.
  - vm_compute in E. by injection E as <- <- <- <-.
  - exists attrss, payloads. split; apply H.
Defined.

Lemma toy_Fetch_ok h (w : ToyWorld) i txs rs w' :
  @dl_Fetch ToyGeth ToyWorld ToyDownloader h w = (Ok (i, txs, rs), w') -> li_Hash i = h /\ L1Info_ok i.
Proof.
  intros E. cbn in E. destruct (_ || _) eqn:Eh; [|done].
  injection E as <- <- <- <-. split; [done|by apply toy_info_ok].
Qed.
Lemma toy_InfoByHash_ok h (w : ToyWorld) i w' :
  @dl_InfoByHash ToyGeth ToyWorld ToyDownloader h w = (Ok i, w') -> li_Hash i = h /\ L1Info_ok i.
Proof.
  intros E. cbn in E. destruct (_ || _) eqn:Eh; [|done].
  injection E as <- <-. split; [done|by apply toy_info_ok].
Qed.

(** The timestamps of the toy engine are those it is asked for; bounded here. *)
Definition ToyEngine62 : Engine ToyWorld := {|
  eng_GetPayload := @eng_GetPayload _ ToyEngine;
  eng_ForkchoiceUpdate := @eng_ForkchoiceUpdate _ ToyEngine;
  eng_NewPayload := @eng_NewPayload _ ToyEngine;
  eng_PayloadByHash := fun h w =>
    match @eng_PayloadByHash _ ToyEngine h w with
    | (Ok p, w') => (if in_rangeb 62 (pl_Timestamp p) then Ok p else Err ENotFound, w')
    | r => r
    end;
  eng_PayloadByNumber := @eng_PayloadByNumber _ ToyEngine;
|}.

(** The first block of the epoch of block 101, whose receipts have a deposit. *)
Definition deposit_info : L1Info := toy_l1 101.
Definition DepositDownloader : @Downloader ToyGeth ToyWorld := @Build_Downloader ToyGeth ToyWorld
  (@dl_InfoByHash ToyGeth ToyWorld ToyDownloader)
  (fun h w => (if h =? 101 then Ok (deposit_info, [], receipts_example) else Err ENotFound, w))
  (@dl_FetchAllTransactions ToyGeth ToyWorld ToyDownloader).
Definition deposit_config : Config := mkConfig toy_genesis 2 10 2 900 901 77 78 907 908 0x1234.
Lemma deposit_Fetch_ok h (w : ToyWorld) i txs rs w' :
  @dl_Fetch ToyGeth ToyWorld DepositDownloader h w = (Ok (i, txs, rs), w') -> li_Hash i = h /\ L1Info_ok i.
Proof.
  intros E. cbn in E. destruct (Z.eqb_spec h 101) as [->|]; [|done].
  injection E as <- <- <- <-. split; [done|]. apply toy_info_ok. done.
Qed.

Lemma createNewBlock_spec_witness :
  exists ref payload w',
    @createNewBlock ToyKeccak ToyGeth ToyWorld ToyEngine DepositDownloader deposit_config toy_l2_genesis
      zeroBlockID zeroBlockID (mkL1BlockRef 101 11 100 1004) toy_world = (Ok (ref, payload), w') /\
    l2_ParentHash ref = 200 /\ l2_Time ref = 1002 /\ length (pl_Transactions payload) = 2%nat /\
    exists tx0 deposits errs rest,
      @DeriveDeposits ToyKeccak ToyGeth receipts_example 0x1234 = Ok (deposits, errs) /\
      pl_Transactions payload = tx0 :: deposits ++ rest.
Proof.
  destruct (@createNewBlock ToyKeccak ToyGeth ToyWorld ToyEngine DepositDownloader deposit_config
      toy_l2_genesis zeroBlockID zeroBlockID (mkL1BlockRef 101 11 100 1004) toy_world)
    as [[[ref payload]| | |] w'] eqn:E; try (vm_compute in E; discriminate).
  destruct (@createNewBlock_spec ToyKeccak ToyGeth ToyGethLaws ToyWorld ToyEngine DepositDownloader
    _ _ _ _ _ _ _ _ _ toy_engine_includes deposit_Fetch_ok toy_InfoByHash_ok E)
    as (Hp & Ht & _ & info & rs & w1 & tx0 & deposits & errs & rest & Hs & _ & Hd & Htx & _).
  exists ref, payload, w'. split; [done|]. split; [done|]. split; [rewrite Ht; reflexivity|].
  split; [vm_compute in E; by injection E as <- <- <-|].
  exists tx0, deposits, errs, rest. destruct Hs as [txs Hs]. cbn in Hs. injection Hs as _ _ <- _. split; [exact Hd|exact Htx].
Defined.
