(* ===== verification/DriverState.v ===== *)
(** * The driver's state machine

    op-node/rollup/driver/state.go: the chain heads and the buffered window of L1
    blocks, the handlers that move them, and the event loop around them. *)

From S2P Require Import Prelude Types Geth L1Info Deposits Batches L2Source Sync Step.

(** ** The interfaces of driver.go *)
Class DriverL1 (W : Type) := {
  dl1_sync :: L1Chain W;
  L1BlockRefByHash : Hash -> M W L1BlockRef;
  L1Range : BlockID -> uint64 -> M W (list BlockID);
}.
Class DriverL2 (W : Type) := {
  dl2_sync :: L2Chain W;
  l2_ForkchoiceUpdate : ForkchoiceState -> option PayloadAttributes -> M W ForkchoiceUpdatedResult;
  l2_L2BlockRefByNumber : option bigInt -> M W L2BlockRef;
}.
Class Output (W : Type) := {
  out_insertEpoch : L2BlockRef -> L2BlockRef -> BlockID -> list BlockID ->
    M W (L2BlockRef * L2BlockRef * bool);
  out_createNewBlock : L2BlockRef -> BlockID -> BlockID -> L1BlockRef ->
    M W (L2BlockRef * ExecutionPayload);
  out_processBlock : BlockID -> BlockID -> ExecutionPayload -> M W unit;
}.
(** The network may be nil. *)
Class Network (W : Type) := {
  PublishL2Payload : option (ExecutionPayload -> M W unit);
}.

(** The chain state of [state]. *)
Record state := mkState {
  s_l1Head : L1BlockRef;
  s_l2Head : L2BlockRef;
  s_l2SafeHead : L2BlockRef;
  s_l2Finalized : BlockID;
  s_l1WindowBuf : list BlockID;
}.
Definition NewState : state := mkState zeroL1BlockRef zeroL2BlockRef zeroL2BlockRef zeroBlockID [].

Definition set_l1Head h (s : state) :=
  mkState h (s_l2Head s) (s_l2SafeHead s) (s_l2Finalized s) (s_l1WindowBuf s).
Definition set_l2Head h (s : state) :=
  mkState (s_l1Head s) h (s_l2SafeHead s) (s_l2Finalized s) (s_l1WindowBuf s).
Definition set_l2SafeHead h (s : state) :=
  mkState (s_l1Head s) (s_l2Head s) h (s_l2Finalized s) (s_l1WindowBuf s).
Definition set_l1WindowBuf b (s : state) :=
  mkState (s_l1Head s) (s_l2Head s) (s_l2SafeHead s) (s_l2Finalized s) b.

(** Handlers run on the state and the outside world ([get], [modify] and [call] of the
    prelude); a change of the state stays when the handler returns an error later. *)
Section Handlers.
Context {W : Type} `{!GethTypes} `{!DriverL1 W} `{!DriverL2 W} `{!Output W} `{!Network W}.
(** [fuel] bounds the walks of [FindL2Heads]. *)
Context (fuel : nat) (config : Config) (sequencer : bool).

(** [Start], up to the launch of the loop *)
Definition Start : M (state * W) unit :=
  l1Head ← call L1HeadBlockRef;
  _ ← (if id_Number (gen_L1 (cfg_Genesis config)) <? l1_Number l1Head then
         l2Head ← call (l2_L2BlockRefByNumber None);
         '(unsafeHead, safeHead) ←
           call (FindL2Heads fuel l2Head (cfg_SeqWindowSize config) (cfg_Genesis config));
         _ ← modify (set_l2Head unsafeHead);
         modify (set_l2SafeHead safeHead)
       else
         let l2genesis := genesis_ref (cfg_Genesis config) in
         _ ← modify (set_l2Head l2genesis);
         modify (set_l2SafeHead l2genesis));
  modify (set_l1Head l1Head).

(** [l1WindowBufEnd] *)
Definition l1WindowBufEnd (s : state) : BlockID :=
  match last (s_l1WindowBuf s) with
  | None => l2_L1Origin (s_l2SafeHead s)
  | Some b => b
  end.

(** [handleNewL1Block] *)
Definition handleNewL1Block (newL1Head : L1BlockRef) : M (state * W) unit :=
  s ← get;
  if l1_Hash (s_l1Head s) =? l1_Hash newL1Head then mret tt
  else if l1_Hash (s_l1Head s) =? l1_ParentHash newL1Head then
    _ ← modify (set_l1Head newL1Head);
    if id_Hash (l1WindowBufEnd s) =? l1_ParentHash newL1Head then
      modify (set_l1WindowBuf (s_l1WindowBuf s ++ [L1BlockRef_ID newL1Head]))
    else mret tt
  else
    '(unsafeL2Head, safeL2Head) ←
      call (FindL2Heads fuel (s_l2Head s) (cfg_SeqWindowSize config) (cfg_Genesis config));
    let fc := mkForkchoiceState (l2_Hash unsafeL2Head) (l2_Hash safeL2Head)
                (id_Hash (s_l2Finalized s)) in
    _ ← call (l2_ForkchoiceUpdate fc None);
    _ ← modify (set_l1Head newL1Head);
    _ ← modify (set_l1WindowBuf []);
    _ ← modify (set_l2Head unsafeL2Head);
    (* Don't advance l2SafeHead past it's current value *)
    if l2_Number safeL2Head <=? l2_Number (s_l2SafeHead s)
    then modify (set_l2SafeHead safeL2Head) else mret tt.

(** [findL1Origin] *)
Definition findL1Origin : M (state * W) L1BlockRef :=
  s ← get;
  if id_Hash (l2_L1Origin (s_l2Head s)) =? l1_Hash (s_l1Head s) then mret (s_l1Head s)
  else
    currentOrigin ← call (L1BlockRefByHash (id_Hash (l2_L1Origin (s_l2Head s))));
    next ← attempt (call (L1BlockRefByNumber (l1_Number currentOrigin +64 1)));
    match next with
    | inl _ => mret currentOrigin
    | inr nextOrigin =>
        if l1_Time nextOrigin <=? (l2_Time (s_l2Head s) +64 cfg_BlockTime config)
        then mret nextOrigin else mret currentOrigin
    end.

(** [createNewL2Block] *)
Definition createNewL2Block : M (state * W) unit :=
  l1Origin ← findL1Origin;
  s ← get;
  if l1_Number l1Origin <? id_Number (gen_L1 (cfg_Genesis config)) then mret tt
  else
    let nextL2Time := l2_Time (s_l2Head s) +64 cfg_BlockTime config in
    if nextL2Time <? l1_Time l1Origin then
      throw (EMsg "cannot build L2 block on top for time before L1 origin")
    else
      '(newUnsafeL2Head, payload) ←
        call (out_createNewBlock (s_l2Head s) (L2BlockRef_ID (s_l2SafeHead s)) (s_l2Finalized s) l1Origin);
      _ ← modify (set_l2Head newUnsafeL2Head);
      match PublishL2Payload with
      | None => mret tt
      | Some publish => call (publish payload)
      end.

(** [handleEpoch], once the cached window is extended *)
Definition handleEpoch_insert : M (state * W) bool :=
  s ← get;
  if zlen (s_l1WindowBuf s) <? to_int64 (cfg_SeqWindowSize config) then mret false
  else
    window ← lift (slice (s_l1WindowBuf s) 0 (cfg_SeqWindowSize config));
    r ← attempt (call (out_insertEpoch (s_l2Head s) (s_l2SafeHead s) (s_l2Finalized s) window));
    match r with
    | inl e =>
        _ ← modify (set_l1WindowBuf []);
        throw e
    | inr (newL2Head, newL2SafeHead, reorg) =>
        _ ← modify (set_l2Head newL2Head);
        _ ← modify (set_l2SafeHead newL2SafeHead);
        rest ← lift (slice (s_l1WindowBuf s) 1 (zlen (s_l1WindowBuf s)));
        _ ← modify (set_l1WindowBuf rest);
        mret reorg
    end.

(** [handleEpoch] *)
Definition handleEpoch : M (state * W) bool :=
  s ← get;
  _ ← (if zlen (s_l1WindowBuf s) <? to_int64 (cfg_SeqWindowSize config) then
         nexts ← call (L1Range (l1WindowBufEnd s) (2 *64 cfg_SeqWindowSize config));
         modify (set_l1WindowBuf (s_l1WindowBuf s ++ nexts))
       else mret tt);
  handleEpoch_insert.

(** [handleUnsafeL2Payload] *)
Definition handleUnsafeL2Payload (payload : ExecutionPayload) : M (state * W) unit :=
  s ← get;
  if pl_BlockNumber payload <? l2_Number (s_l2SafeHead s) then mret tt
  else
    l2Ref ← M_err (wrapv "failed to derive L2 block ref from payload: ")
              (lift (PayloadToBlockRef payload (cfg_Genesis config)));
    _ ← M_err (wrapv "failed to process unsafe L2 payload: ")
          (call (out_processBlock (L2BlockRef_ID (s_l2SafeHead s)) (s_l2Finalized s) payload));
    modify (set_l2Head l2Ref).

(** ** The event loop *)

Inductive status := Running | Returned | Crashed.

(** The loop's channels: two request channels of capacity 1, which are flags, the
    [AfterFunc] timers that have not fired, and the two input channels. *)
Record loop_state := mkLoop {
  lp_state : state;
  lp_world : W;
  lp_stepReqCh : bool;
  lp_l2BlockCreationReqCh : bool;
  lp_timers : nat;
  lp_l1Heads : list L1BlockRef;
  lp_unsafeL2Payloads : list ExecutionPayload;
  lp_done : bool;
  lp_status : status;
}.

Inductive event :=
  | EvOnL1Head (head : L1BlockRef)             (* OnL1Head sends to the channel *)
  | EvOnUnsafeL2Payload (payload : ExecutionPayload)
  | EvClose
  | EvTimer                                    (* an AfterFunc fires *)
  | EvTick                                     (* the cases of the loop's select *)
  | EvCreationReq
  | EvPayload
  | EvL1Head
  | EvStepReq
  | EvDone.

Definition set_chans (l : loop_state) (stepReq creationReq : bool) (timers : nat) : loop_state :=
  mkLoop (lp_state l) (lp_world l) stepReq creationReq timers (lp_l1Heads l)
    (lp_unsafeL2Payloads l) (lp_done l) (lp_status l).

(** Runs a handler: its error is logged only, a panic ends the process. *)
Definition run {A} (h : M (state * W) A) (l : loop_state) : option A * loop_state :=
  let '(r, (s', w')) := h (lp_state l, lp_world l) in
  let l' := mkLoop s' w' (lp_stepReqCh l) (lp_l2BlockCreationReqCh l) (lp_timers l)
              (lp_l1Heads l) (lp_unsafeL2Payloads l) (lp_done l) in
  match r with
  | Ok a => (Some a, l' (lp_status l))
  | Err _ => (None, l' (lp_status l))
  | _ => (None, l' Crashed)
  end.

(** The test after an L1 head and after a step. *)
Definition window_complete (s : state) : bool :=
  cfg_SeqWindowSize config <=?
    (l1_Number (s_l1Head s) -64 id_Number (l2_L1Origin (s_l2SafeHead s))).
Definition reqStep_if_complete (l : loop_state) : loop_state :=
  if window_complete (lp_state l)
  then set_chans l true (lp_l2BlockCreationReqCh l) (lp_timers l) else l.

(** One event, when it is enabled. *)
Definition loop_step (e : event) (l : loop_state) : option loop_state :=
  match e with
  | EvOnL1Head head =>
      if (length (lp_l1Heads l) <? 10)%nat then
        Some (mkLoop (lp_state l) (lp_world l) (lp_stepReqCh l) (lp_l2BlockCreationReqCh l)
                (lp_timers l) (lp_l1Heads l ++ [head]) (lp_unsafeL2Payloads l) (lp_done l) (lp_status l))
      else None
  | EvOnUnsafeL2Payload payload =>
      if (length (lp_unsafeL2Payloads l) <? 10)%nat then
        Some (mkLoop (lp_state l) (lp_world l) (lp_stepReqCh l) (lp_l2BlockCreationReqCh l)
                (lp_timers l) (lp_l1Heads l) (lp_unsafeL2Payloads l ++ [payload]) (lp_done l) (lp_status l))
      else None
  | EvClose =>
      Some (mkLoop (lp_state l) (lp_world l) (lp_stepReqCh l) (lp_l2BlockCreationReqCh l)
              (lp_timers l) (lp_l1Heads l) (lp_unsafeL2Payloads l) true (lp_status l))
  | EvTimer =>
      match lp_timers l with
      | O => None
      | S n => Some (set_chans l (lp_stepReqCh l) true n)
      end
  | e =>
      match lp_status l with
      | Running =>
          match e with
          | EvTick =>
              if sequencer then Some (set_chans l (lp_stepReqCh l) true (lp_timers l)) else None
          | EvCreationReq =>
              if lp_l2BlockCreationReqCh l then
                let l := set_chans l (lp_stepReqCh l) false (lp_timers l) in
                let '(_, l) := run createNewL2Block l in
                Some (if id_Number (l2_L1Origin (s_l2Head (lp_state l))) <? l1_Number (s_l1Head (lp_state l))
                      then set_chans l (lp_stepReqCh l) (lp_l2BlockCreationReqCh l) (S (lp_timers l))
                      else l)
              else None
          | EvPayload =>
              match lp_unsafeL2Payloads l with
              | [] => None
              | payload :: rest =>
                  let l := mkLoop (lp_state l) (lp_world l) (lp_stepReqCh l)
                             (lp_l2BlockCreationReqCh l) (lp_timers l) (lp_l1Heads l) rest
                             (lp_done l) (lp_status l) in
                  Some (snd (run (handleUnsafeL2Payload payload) l))
              end
          | EvL1Head =>
              match lp_l1Heads l with
              | [] => None
              | newL1Head :: rest =>
                  let l := mkLoop (lp_state l) (lp_world l) (lp_stepReqCh l)
                             (lp_l2BlockCreationReqCh l) (lp_timers l) rest (lp_unsafeL2Payloads l)
                             (lp_done l) (lp_status l) in
                  Some (reqStep_if_complete (snd (run (handleNewL1Block newL1Head) l)))
              end
          | EvStepReq =>
              if lp_stepReqCh l then
                let l := set_chans l false (lp_l2BlockCreationReqCh l) (lp_timers l) in
                let '(reorg, l) := run handleEpoch l in
                let l := if bool_decide (reorg = Some true) && sequencer
                         then set_chans l (lp_stepReqCh l) true (lp_timers l) else l in
                Some (reqStep_if_complete l)
              else None
          | EvDone =>
              if lp_done l then
                Some (mkLoop (lp_state l) (lp_world l) (lp_stepReqCh l) (lp_l2BlockCreationReqCh l)
                        (lp_timers l) (lp_l1Heads l) (lp_unsafeL2Payloads l) (lp_done l) Returned)
              else None
          | _ => None
          end
      | _ => None
      end
  end.

(** The loop right after a successful [Start]: the first [reqStep()] is done. *)
Definition loop_start (s : state) (w : W) : loop_state :=
  mkLoop s w true false 0 [] [] false Running.

(** Runs of the loop: events in any order. *)
Inductive reachable (s0 : state) (w0 : W) : list event -> loop_state -> Prop :=
  | reach_start : reachable s0 w0 [] (loop_start s0 w0)
  | reach_step tr l e l' : reachable s0 w0 tr l -> loop_step e l = Some l' ->
      reachable s0 w0 (tr ++ [e]) l'.
End Handlers.

(** ** What each handler does to the state *)
Section Outcomes.
Context {W : Type} `{!GethTypes} `{!DriverL1 W} `{!DriverL2 W} `{!Output W} `{!Network W}.
Context (fuel : nat) (config : Config) (sequencer : bool).

(** A new L1 head leaves the state as it is, or extends the L1 head and, when it is the
    next block of the window, the window; or, when it is not a child of the current head,
    resets the heads to what [FindL2Heads] finds and drops the window. *)
Lemma handleNewL1Block_outcome new s (w : W) r s' w' :
  handleNewL1Block fuel config new (s, w) = (r, (s', w')) ->
  s' = s \/
  (l1_ParentHash new = l1_Hash (s_l1Head s) /\
   s' = set_l1Head new (if id_Hash (l1WindowBufEnd s) =? l1_ParentHash new
          then set_l1WindowBuf (s_l1WindowBuf s ++ [L1BlockRef_ID new]) s else s)) \/
  exists unsafe safe w1, (FindL2Heads fuel (s_l2Head s) (cfg_SeqWindowSize config) (cfg_Genesis config) w).1
      = Ok (unsafe, safe) /\
    is_ok (l2_ForkchoiceUpdate (mkForkchoiceState (l2_Hash unsafe) (l2_Hash safe)
             (id_Hash (s_l2Finalized s))) None w1).1 = true /\
    s' = mkState new unsafe
           (if l2_Number safe <=? l2_Number (s_l2SafeHead s) then safe else s_l2SafeHead s)
           (s_l2Finalized s) [].
Proof.
  unfold handleNewL1Block, mbind, M_bind, get, modify, call, mret, M_ret. cbn [fst snd].
  destruct (l1_Hash (s_l1Head s) =? l1_Hash new); [intros [= <- <- <-]; by left|].
  destruct (Z.eqb_spec (l1_Hash (s_l1Head s)) (l1_ParentHash new)) as [Hp|].
  { intros E. right; left. split; [done|].
    destruct (id_Hash (l1WindowBufEnd s) =? l1_ParentHash new); by injection E as <- <- <-. }
  cbn [fst snd].
  destruct (FindL2Heads _ _ _ _ w) as [[[unsafe safe]| | |] w1] eqn:E1;
    try (intros [= <- <- <-]; by left). cbn [fst snd].
  destruct (l2_ForkchoiceUpdate (mkForkchoiceState (l2_Hash unsafe) (l2_Hash safe)
    (id_Hash (s_l2Finalized s))) None w1) as [[fr| | |] w2] eqn:E2;
    try (intros [= <- <- <-]; by left). cbn [fst snd].
  intros E. right; right. exists unsafe, safe, w1. split; [done|]. split; [by rewrite E2|].
  destruct (l2_Number safe <=? l2_Number (s_l2SafeHead s)); by injection E as <- <- <-.
Qed.

(** A head that is the current one again or its child: no walk, the heads stay. *)
Lemma handleNewL1Block_child new s (w : W) r s' w' :
  l1_Hash new = l1_Hash (s_l1Head s) \/ l1_ParentHash new = l1_Hash (s_l1Head s) ->
  handleNewL1Block fuel config new (s, w) = (r, (s', w')) ->
  (s' = s /\ l1_Hash new = l1_Hash (s_l1Head s)) \/
  (l1_ParentHash new = l1_Hash (s_l1Head s) /\
   s' = set_l1Head new (if id_Hash (l1WindowBufEnd s) =? l1_ParentHash new
          then set_l1WindowBuf (s_l1WindowBuf s ++ [L1BlockRef_ID new]) s else s)).
Proof.
  intros Hp E. unfold handleNewL1Block, mbind, M_bind, get, modify, mret, M_ret in E. cbn [fst snd] in E.
  destruct (Z.eqb_spec (l1_Hash (s_l1Head s)) (l1_Hash new)) as [Hh|Hh]; [injection E as <- <- <-; auto|].
  destruct Hp as [Hp|Hp]; [congruence|]. rewrite Hp, Z.eqb_refl in E. cbn [fst snd] in E.
  right. rewrite Hp. split; [done|]. by destruct (_ =? _); injection E as <- <- <-.
Qed.

(** The origin for the next block is the L1 head, the current origin, or the next L1
    block if the next L2 block is not before it. *)
Lemma findL1Origin_outcome s (w : W) o s' w' :
  findL1Origin config (s, w) = (Ok o, (s', w')) ->
  s' = s /\
  ((o = s_l1Head s /\ id_Hash (l2_L1Origin (s_l2Head s)) = l1_Hash o) \/
   exists current w1, L1BlockRefByHash (id_Hash (l2_L1Origin (s_l2Head s))) w = (Ok current, w1) /\
     (o = current \/
      L1BlockRefByNumber (l1_Number current +64 1) w1 = (Ok o, w') /\
      l1_Time o <= l2_Time (s_l2Head s) +64 cfg_BlockTime config)).
Proof.
  unfold findL1Origin, mbind, M_bind, get, call, attempt, mret, M_ret. cbn [fst snd].
  destruct (Z.eqb_spec (id_Hash (l2_L1Origin (s_l2Head s))) (l1_Hash (s_l1Head s))).
  { intros [= <- <- <-]. auto. }
  cbn [fst snd]. destruct (L1BlockRefByHash _ w) as [[current| | |] w1] eqn:E1; try done. cbn [fst snd].
  destruct (L1BlockRefByNumber _ w1) as [[next|e| |] w2] eqn:E2; cbn [fst snd]; try done.
  - destruct (Z.leb_spec (l1_Time next) (l2_Time (s_l2Head s) +64 cfg_BlockTime config));
      intros [= <- <- <-]; (split; [done|right; exists current, w1; auto]).
  - intros [= <- <- <-]. split; [done|right; exists current, w1; auto].
Qed.

(** The sequencer only moves the unsafe head, to a block the engine made on a L1 origin
    that is neither before the L1 genesis nor after the block. *)
Lemma createNewL2Block_outcome s (w : W) r s' w' :
  createNewL2Block config (s, w) = (r, (s', w')) ->
  s' = s \/ exists origin ref payload w1 w2 w3,
    findL1Origin config (s, w) = (Ok origin, (s, w1)) /\
    id_Number (gen_L1 (cfg_Genesis config)) <= l1_Number origin /\
    l1_Time origin <= l2_Time (s_l2Head s) +64 cfg_BlockTime config /\
    out_createNewBlock (s_l2Head s) (L2BlockRef_ID (s_l2SafeHead s)) (s_l2Finalized s) origin w2
      = (Ok (ref, payload), w3) /\
    s' = set_l2Head ref s.
Proof.
  unfold createNewL2Block, mbind, M_bind. intros E.
  assert (Hs1 : (findL1Origin config (s, w)).2.1 = s).
  { clear E. unfold findL1Origin, mbind, M_bind, get, call, attempt, mret, M_ret. cbn [fst snd].
    destruct (_ =? _); [done|]. cbn [fst snd].
    destruct (L1BlockRefByHash _ w) as [[]]; try done. cbn [fst snd].
    destruct (L1BlockRefByNumber _ _) as [[]]; try done. cbn [fst snd]. by destruct (_ <=? _). }
  destruct (findL1Origin config (s, w)) as [[origin| | |] [s1 w1]] eqn:Eo; cbn in Hs1; subst s1;
    try (injection E as <- <- <-; by left).
  unfold get, call, modify, throw, mret, M_ret in E. cbn [fst snd] in E.
  destruct (Z.ltb_spec (l1_Number origin) (id_Number (gen_L1 (cfg_Genesis config))));
    [injection E as <- <- <-; by left|].
  destruct (Z.ltb_spec (l2_Time (s_l2Head s) +64 cfg_BlockTime config) (l1_Time origin));
    [injection E as <- <- <-; by left|].
  cbn [fst snd] in E.
  destruct (out_createNewBlock (s_l2Head s) (L2BlockRef_ID (s_l2SafeHead s)) (s_l2Finalized s)
    origin w1) as [[[ref payload]| | |] w2] eqn:Ec; cbn [fst snd] in E;
    try (injection E as <- <- <-; by left).
  right. exists origin, ref, payload, w1, w1, w2. split_and!; try done.
  destruct PublishL2Payload as [publish|]; [|by injection E as <- <- <-].
  cbn [fst snd] in E. destruct (publish payload w2). by injection E as <- <- <-.
Qed.

Lemma to_int64_small z : 0 <= z < 2 ^ 63 -> to_int64 z = z.
Proof.
  intros ?. unfold to_int64. rewrite wrap_small by (unfold in_range; lia).
  by rewrite (proj2 (Z.ltb_lt _ _)) by lia.
Qed.

Definition epoch_inserted (s : state) (w1 : W) (s' : state) (r : res bool) : Prop :=
  exists head safe reorg in0 rest w2,
    s_l1WindowBuf s = in0 :: rest /\ cfg_SeqWindowSize config <= zlen (s_l1WindowBuf s) /\
    out_insertEpoch (s_l2Head s) (s_l2SafeHead s) (s_l2Finalized s)
      (take (Z.to_nat (cfg_SeqWindowSize config)) (s_l1WindowBuf s)) w1 = (Ok (head, safe, reorg), w2) /\
    r = Ok reorg /\
    s' = mkState (s_l1Head s) head safe (s_l2Finalized s) rest.

Lemma handleEpoch_insert_outcome s (w : W) r s' w' :
  1 <= cfg_SeqWindowSize config < 2 ^ 63 ->
  handleEpoch_insert config (s, w) = (r, (s', w')) ->
  s' = s \/ s' = set_l1WindowBuf [] s \/ epoch_inserted s w s' r.
Proof.
  intros HW E. unfold handleEpoch_insert, mbind, M_bind, get, lift, attempt, call, modify, throw,
    mret, M_ret in E. cbn [fst snd] in E. rewrite to_int64_small in E by lia.
  destruct (Z.ltb_spec (zlen (s_l1WindowBuf s)) (cfg_SeqWindowSize config));
    [injection E as <- <- <-; by left|]. cbn [fst snd] in E.
  rewrite slice_ok in E by lia. cbn [fst snd] in E. change (Z.to_nat 0) with 0%nat in E.
  rewrite drop_0, Z.sub_0_r in E.
  destruct (out_insertEpoch (s_l2Head s) (s_l2SafeHead s) (s_l2Finalized s)
    (take (Z.to_nat (cfg_SeqWindowSize config)) (s_l1WindowBuf s)) w)
    as [[[[head safe] reorg]|e| |] w1] eqn:Ei; cbn [fst snd] in E;
    try (injection E as <- <- <-; by left).
  - rewrite slice_ok in E by lia. cbn [fst snd] in E. right; right.
    destruct (s_l1WindowBuf s) as [|in0 rest] eqn:Ew; [unfold zlen in *; simpl in *; lia|].
    exists head, safe, reorg, in0, rest, w1. rewrite Ew. injection E as <- <- <-.
    split_and!; try done. unfold set_l1WindowBuf. cbn. f_equal. rewrite zlen_cons.
    rewrite drop_0, take_ge; [done|]. unfold zlen. lia.
  - injection E as <- <- <-. right; by left.
Qed.

(** [handleEpoch] extends the window when it is too short, hands a window of
    [SeqWindowSize] blocks to [insertEpoch], and then either takes over its heads and drops
    one block of the window, or drops the window and leaves the heads. *)
Lemma handleEpoch_outcome s (w : W) r s' w' :
  1 <= cfg_SeqWindowSize config < 2 ^ 63 ->
  handleEpoch config (s, w) = (r, (s', w')) ->
  s' = s \/
  exists window w1, (window = s_l1WindowBuf s /\ w1 = w \/ exists nexts,
      L1Range (l1WindowBufEnd s) (2 *64 cfg_SeqWindowSize config) w = (Ok nexts, w1) /\
      window = s_l1WindowBuf s ++ nexts) /\
    (s' = set_l1WindowBuf window s \/ s' = set_l1WindowBuf [] s \/
     epoch_inserted (set_l1WindowBuf window s) w1 s' r).
Proof.
  intros HW E. unfold handleEpoch, mbind, M_bind, get, call, modify, mret, M_ret in E.
  cbn [fst snd] in E. rewrite to_int64_small in E by lia.
  destruct (_ <? _).
  - cbn [fst snd] in E.
    destruct (L1Range (l1WindowBufEnd s) (2 *64 cfg_SeqWindowSize config) w)
      as [[nexts| | |] w1] eqn:El; cbn [fst snd] in E; try (injection E as <- <- <-; by left).
    right. exists (s_l1WindowBuf s ++ nexts), w1. split; [right; by exists nexts|].
    apply handleEpoch_insert_outcome in E as [->|[->|E]]; auto.
  - apply handleEpoch_insert_outcome in E; [|done].
    assert (Hs : set_l1WindowBuf (s_l1WindowBuf s) s = s) by (by destruct s).
    right. exists (s_l1WindowBuf s), w. rewrite Hs. tauto.
Qed.

(** A payload from the network can only move the unsafe head, to a block that is not
    below the safe head and that the engine accepted. *)
Lemma handleUnsafeL2Payload_outcome payload s (w : W) r s' w' :
  handleUnsafeL2Payload config payload (s, w) = (r, (s', w')) ->
  s' = s \/ exists ref, PayloadToBlockRef payload (cfg_Genesis config) = Ok ref /\
    l2_Number (s_l2SafeHead s) <= pl_BlockNumber payload /\
    out_processBlock (L2BlockRef_ID (s_l2SafeHead s)) (s_l2Finalized s) payload w = (Ok tt, w') /\
    s' = set_l2Head ref s.
Proof.
  unfold handleUnsafeL2Payload, mbind, M_bind, get, lift, M_err, call, modify, mret, M_ret.
  cbn [fst snd]. destruct (Z.ltb_spec (pl_BlockNumber payload) (l2_Number (s_l2SafeHead s)));
    [intros [= <- <- <-]; by left|]. cbn [fst snd].
  destruct (PayloadToBlockRef payload (cfg_Genesis config)) as [ref| | |] eqn:Er; cbn;
    try (intros [= <- <- <-]; by left).
  destruct (out_processBlock (L2BlockRef_ID (s_l2SafeHead s)) (s_l2Finalized s) payload w)
    as [[[]| | |] w1] eqn:Ep; cbn; try (intros [= <- <- <-]; by left).
  intros [= <- <- <-]. right. by exists ref.
Qed.
End Outcomes.

(** ** Runs of the loop *)
Section Runs.
Context {W : Type} `{!GethTypes} `{!DriverL1 W} `{!DriverL2 W} `{!Output W} `{!Network W}.
Context (fuel : nat) (config : Config) (sequencer : bool).

Lemma run_state {A} (h : M (state * W) A) l :
  (lp_state (run h l).2, lp_world (run h l).2) = (h (lp_state l, lp_world l)).2.
Proof. unfold run. by destruct (h _) as [[] [s' w']]. Qed.
Lemma run_chans {A} (h : M (state * W) A) l :
  let l' := (run h l).2 in
  lp_stepReqCh l' = lp_stepReqCh l /\ lp_l2BlockCreationReqCh l' = lp_l2BlockCreationReqCh l /\
  lp_timers l' = lp_timers l /\ lp_l1Heads l' = lp_l1Heads l.
Proof. unfold run. by destruct (h _) as [[] [s' w']]. Qed.
Lemma reqStep_state l :
  lp_state (reqStep_if_complete config l) = lp_state l /\
  lp_world (reqStep_if_complete config l) = lp_world l /\
  lp_l1Heads (reqStep_if_complete (W:=W) config l) = lp_l1Heads l.
Proof. unfold reqStep_if_complete. by destruct (window_complete _ _). Qed.

(** The part of an event that moves the state: at most one handler. *)
Lemma loop_step_state e (l l' : loop_state) :
  loop_step fuel config sequencer e l = Some l' ->
  ((lp_state l', lp_world l') = (lp_state l, lp_world l) /\
     (lp_l1Heads l' = lp_l1Heads l /\ (forall h, e <> EvOnL1Head h) \/
      exists h, e = EvOnL1Head h /\ lp_l1Heads l' = lp_l1Heads l ++ [h])) \/
  (e = EvCreationReq /\ lp_l1Heads l' = lp_l1Heads l /\
     (lp_state l', lp_world l') = (createNewL2Block config (lp_state l, lp_world l)).2) \/
  (exists p rest, e = EvPayload /\ lp_unsafeL2Payloads l = p :: rest /\ lp_l1Heads l' = lp_l1Heads l /\
     (lp_state l', lp_world l') = (handleUnsafeL2Payload config p (lp_state l, lp_world l)).2) \/
  (exists h rest, e = EvL1Head /\ lp_l1Heads l = h :: rest /\ lp_l1Heads l' = rest /\
     (lp_state l', lp_world l') = (handleNewL1Block fuel config h (lp_state l, lp_world l)).2) \/
  (e = EvStepReq /\ lp_l1Heads l' = lp_l1Heads l /\
     (lp_state l', lp_world l') = (handleEpoch config (lp_state l, lp_world l)).2).
Proof.
  intros E. destruct e; cbn [loop_step] in E.
  - case_match; [|done]. injection E as <-. left. split; [done|right; eauto].
  - case_match; [|done]. injection E as <-. left. auto.
  - injection E as <-. left. auto.
  - case_match; [done|]. injection E as <-. left. auto.
  - destruct (lp_status l); [|done..]. destruct sequencer; [|done]. injection E as <-. left. auto.
  - destruct (lp_status l); [|done..]. destruct (lp_l2BlockCreationReqCh l); [|done]. right; left.
    pose proof (run_state (createNewL2Block config) (set_chans l (lp_stepReqCh l) false (lp_timers l))) as Hs.
    pose proof (run_chans (createNewL2Block config) (set_chans l (lp_stepReqCh l) false (lp_timers l)))
      as (_ & _ & _ & Hh).
    destruct (run _ _) as [o l1]. cbn in Hs, Hh. split; [done|].
    destruct (_ <? _); injection E as <-; by split.
  - destruct (lp_status l); [|done..]. destruct (lp_unsafeL2Payloads l) as [|p rest] eqn:Eq; [done|].
    right; right; left. exists p, rest. injection E as <-. split_and!; try done.
    + by rewrite (proj2 (proj2 (proj2 (run_chans _ _)))).
    + by rewrite run_state.
  - destruct (lp_status l); [|done..]. destruct (lp_l1Heads l) as [|h rest] eqn:Eq; [done|].
    right; right; right; left. exists h, rest. injection E as <-.
    match goal with |- context [reqStep_if_complete _ ?x] =>
      destruct (reqStep_state x) as (-> & -> & ->) end.
    rewrite run_state. split_and!; try done. by rewrite (proj2 (proj2 (proj2 (run_chans _ _)))).
  - destruct (lp_status l); [|done..]. destruct (lp_stepReqCh l); [|done]. right; right; right; right.
    pose proof (run_state (handleEpoch config) (set_chans l false (lp_l2BlockCreationReqCh l) (lp_timers l))) as Hs.
    pose proof (run_chans (handleEpoch config) (set_chans l false (lp_l2BlockCreationReqCh l) (lp_timers l)))
      as (_ & _ & _ & Hh).
    destruct (run _ _) as [o l1]. cbn in Hs, Hh. injection E as <-.
    destruct (bool_decide (o = Some true) && sequencer);
      match goal with |- context [reqStep_if_complete _ ?x] =>
        destruct (reqStep_state x) as (-> & -> & ->) end; by split.
  - destruct (lp_status l); [|done..]. destruct (lp_done l); [|done]. injection E as <-. left. auto.
Qed.

(** *** The window is a chain on top of the safe head's origin *)
Section Window.
Context (parentOf : Hash -> Hash).

Fixpoint linked (base : Hash) (l : list BlockID) : Prop :=
  match l with
  | [] => True
  | b :: l => parentOf (id_Hash b) = base /\ linked (id_Hash b) l
  end.
Definition window_linked (s : state) : Prop :=
  linked (id_Hash (l2_L1Origin (s_l2SafeHead s))) (s_l1WindowBuf s).
Definition head_ok (h : L1BlockRef) : Prop := l1_ParentHash h = parentOf (l1_Hash h).

Lemma linked_app base l1 l2 :
  linked base (l1 ++ l2) <->
  linked base l1 /\ linked (from_option id_Hash base (last l1)) l2.
Proof.
  revert base. induction l1 as [|b l1 IH]; intros base; [cbn; tauto|].
  cbn [app linked]. rewrite IH, last_cons. destruct (last l1); cbn; tauto.
Qed.
Lemma window_end_hash s :
  id_Hash (l1WindowBufEnd s) =
    from_option id_Hash (id_Hash (l2_L1Origin (s_l2SafeHead s))) (last (s_l1WindowBuf s)).
Proof. unfold l1WindowBufEnd. by destruct (last _). Qed.

(** What the L1 source and the derivation promise. *)
Definition L1Range_linked : Prop := forall base max (w : W) ids w',
  L1Range base max w = (Ok ids, w') -> linked (id_Hash base) ids.
Definition insertEpoch_moves_origin : Prop := forall head safe fin window (w : W) head' safe' r w',
  out_insertEpoch head safe fin window w = (Ok (head', safe', r), w') ->
  exists in0, window !! 0%nat = Some in0 /\ id_Hash (l2_L1Origin safe') = id_Hash in0.

Lemma handleEpoch_linked s (w : W) r s' w' :
  L1Range_linked -> insertEpoch_moves_origin -> 1 <= cfg_SeqWindowSize config < 2 ^ 63 ->
  handleEpoch config (s, w) = (r, (s', w')) -> window_linked s -> window_linked s'.
Proof.
  intros Hrange Hout HW E Hs.
  apply handleEpoch_outcome in E as [->|(window & w0 & Hwin & E)]; [done| |done].
  assert (Hl : window_linked (set_l1WindowBuf window s)).
  { destruct Hwin as [[-> _]|(nexts & Hr & ->)]; [by destruct s|].
    unfold window_linked. cbn. apply linked_app. split; [done|].
    rewrite <-window_end_hash. by eapply Hrange. }
  destruct E as [->|[->|E]]; [done|done|].
  destruct E as (head & safe & reorg & in0 & rest & w2 & Ew & Hlen & Eo & _ & ->).
  unfold window_linked in *. rewrite Ew in *. cbn in Hl |- *.
  apply Hout in Eo as (in0' & Hin & ->).
  destruct (Z.to_nat (cfg_SeqWindowSize config)) eqn:En; [lia|]. cbn in Hin. injection Hin as <-.
  apply Hl.
Qed.

Lemma handleNewL1Block_linked h s (w : W) r s' w' :
  head_ok h -> handleNewL1Block fuel config h (s, w) = (r, (s', w')) ->
  window_linked s -> window_linked s'.
Proof.
  intros Hh E Hs. apply handleNewL1Block_outcome in E as [->|[(Hp & ->)|(u & sf & w1 & _ & _ & ->)]];
    [done| |done].
  destruct (Z.eqb_spec (id_Hash (l1WindowBufEnd s)) (l1_ParentHash h)) as [He|]; [|done].
  unfold window_linked. cbn. apply linked_app. split; [done|].
  rewrite <-window_end_hash. cbn. split; [|done]. by rewrite He.
Qed.

(** [C18] In every run of the driver, whatever the order of L1 heads, payloads, ticks and
    steps and whatever fails, the buffered window is a chain of L1 blocks, each the child
    of the one before, the first a child of the safe head's L1 origin: the derivation is
    never handed blocks from two L1 branches. *)
Theorem window_linked_reachable s0 w0 tr l :
  L1Range_linked -> insertEpoch_moves_origin -> 1 <= cfg_SeqWindowSize config < 2 ^ 63 ->
  s_l1WindowBuf s0 = [] ->
  (forall h, EvOnL1Head h ∈ tr -> head_ok h) ->
  reachable fuel config sequencer s0 w0 tr l ->
  window_linked (lp_state l).
Proof.
  intros Hrange Hout HW H0 Hev Hr.
  cut (window_linked (lp_state l) /\ Forall head_ok (lp_l1Heads l)); [tauto|].
  induction Hr as [|tr l e l' Hr IH Hstep].
  { split; [|constructor]. unfold window_linked. cbn. by rewrite H0. }
  destruct IH as [IHw IHh]; [intros h Hin; apply Hev, elem_of_app; by left|].
  apply loop_step_state in Hstep as [(Hs & Hq)|[(_ & Hq & Hs)|[(p & rest & _ & _ & Hq & Hs)|
    [(h & rest & _ & Hl & Hq & Hs)|(_ & Hq & Hs)]]]].
  - injection Hs as -> _. split; [done|]. destruct Hq as [[-> _]|(h & -> & ->)]; [done|].
    apply Forall_app. split; [done|]. constructor; [|constructor].
    apply Hev, elem_of_app. right. by left.
  - rewrite Hq. split; [|done].
    destruct (createNewL2Block _ _) as [r [s' w']] eqn:Ec. injection Hs as -> _.
    apply createNewL2Block_outcome in Ec as [->|(o & ref & p & w1 & w2 & w3 & _ & _ & _ & _ & ->)]; done.
  - rewrite Hq. split; [|done].
    destruct (handleUnsafeL2Payload _ _ _) as [r [s' w']] eqn:Ec. injection Hs as -> _.
    apply handleUnsafeL2Payload_outcome in Ec as [->|(ref & _ & _ & _ & ->)]; done.
  - rewrite Hq. rewrite Hl in IHh. apply Forall_cons in IHh as [Hh IHh]. split; [|done].
    destruct (handleNewL1Block _ _ _ _) as [r [s' w']] eqn:Ec. injection Hs as -> _.
    by eapply handleNewL1Block_linked.
  - rewrite Hq. split; [|done].
    destruct (handleEpoch _ _) as [r [s' w']] eqn:Ec. injection Hs as -> _.
    by eapply handleEpoch_linked.
Qed.
End Window.

(** *** What the request channels do *)

Ltac solve_flags :=
  split; [auto|]; split;
    [intros; subst; split_and!; congruence
    |intros [?|?]; try discriminate; auto].

(** The flags after an event. *)
Lemma loop_step_flags e (l l' : loop_state) :
  loop_step fuel config sequencer e l = Some l' ->
  (lp_stepReqCh l' = lp_stepReqCh l \/ e = EvStepReq \/ lp_stepReqCh l' = true) /\
  (sequencer = false -> lp_l2BlockCreationReqCh l = false -> lp_timers l = 0%nat ->
     e <> EvCreationReq /\ lp_l2BlockCreationReqCh l' = false /\ lp_timers l' = 0%nat) /\
  (e = EvL1Head \/ e = EvStepReq -> window_complete config (lp_state l') = true ->
     lp_stepReqCh l' = true).
Proof.
  assert (Hreq : forall x : loop_state, let y := reqStep_if_complete (W:=W) config x in
    (lp_stepReqCh y = lp_stepReqCh x \/ lp_stepReqCh y = true) /\
    lp_l2BlockCreationReqCh y = lp_l2BlockCreationReqCh x /\ lp_timers y = lp_timers x /\
    (window_complete config (lp_state y) = true -> lp_stepReqCh y = true)).
  { intros x. unfold reqStep_if_complete.
    destruct (window_complete config (lp_state x)) eqn:Ew; cbn; rewrite ?Ew; split_and!; auto; done. }
  intros E. destruct e; cbn [loop_step] in E.
  - case_match; [|done]. injection E as <-. cbn. solve_flags.
  - case_match; [|done]. injection E as <-. cbn. solve_flags.
  - injection E as <-. cbn. solve_flags.
  - destruct (lp_timers l) eqn:Et; [done|]. injection E as <-. cbn. solve_flags.
  - destruct (lp_status l); [|done..]. destruct sequencer; [|done]. injection E as <-. cbn. solve_flags.
  - destruct (lp_status l); [|done..]. destruct (lp_l2BlockCreationReqCh l) eqn:Ec; [|done].
    pose proof (run_chans (createNewL2Block config) (set_chans l (lp_stepReqCh l) false (lp_timers l))) as Hc.
    destruct (run _ _) as [o l1]. cbn in Hc. destruct Hc as (H1 & H2 & H3 & _).
    destruct (_ <? _); injection E as <-; cbn; rewrite ?H1; solve_flags.
  - destruct (lp_status l); [|done..]. destruct (lp_unsafeL2Payloads l) as [|p rest]; [done|].
    injection E as <-.
    match goal with |- context [run ?h ?x] => pose proof (run_chans h x) as Hc end.
    cbn zeta in Hc. cbn [lp_stepReqCh lp_l2BlockCreationReqCh lp_timers] in Hc.
    destruct Hc as (H1 & H2 & H3 & _). rewrite H1, H2, H3. solve_flags.
  - destruct (lp_status l); [|done..]. destruct (lp_l1Heads l) as [|h rest]; [done|].
    injection E as <-.
    match goal with |- context [reqStep_if_complete _ ?x] =>
      destruct (Hreq x) as (G1 & G2 & G3 & G4); generalize dependent (reqStep_if_complete (W:=W) config x) end.
    match goal with |- context [run ?h ?x] => pose proof (run_chans h x) as Hc end.
    cbn zeta in Hc. cbn [lp_stepReqCh lp_l2BlockCreationReqCh lp_timers] in Hc.
    destruct Hc as (H1 & H2 & H3 & _). intros y G1 G2 G3 G4.
    rewrite H1 in G1. rewrite H2 in G2. rewrite H3 in G3. destruct G1; solve_flags.
  - destruct (lp_status l); [|done..]. destruct (lp_stepReqCh l); [|done].
    pose proof (run_chans (handleEpoch config) (set_chans l false (lp_l2BlockCreationReqCh l) (lp_timers l))) as Hc.
    destruct (run _ _) as [o l1]. cbn in Hc. destruct Hc as (H1 & H2 & H3 & _). injection E as <-.
    match goal with |- context [reqStep_if_complete _ ?x] =>
      destruct (Hreq x) as (G1 & G2 & G3 & G4); generalize dependent (reqStep_if_complete (W:=W) config x) end.
    intros y G1 G2 G3 G4. split; [auto|]. split; [|auto].
    intros -> Hcr Ht. rewrite andb_false_r in *. split; [done|]. split; congruence.
  - destruct (lp_status l); [|done..]. destruct (lp_done l); [|done]. injection E as <-. cbn. solve_flags.
Qed.

(** A driver that is not a sequencer never creates a block: in no run is a block
    creation request or timer ever pending, so the event that handles one never fires. *)
Lemma verifier_never_creates s0 w0 tr l :
  sequencer = false -> reachable fuel config sequencer s0 w0 tr l ->
  (EvCreationReq ∉ tr) /\ lp_l2BlockCreationReqCh l = false /\ lp_timers l = 0%nat.
Proof.
  intros Hseq Hr. induction Hr as [|tr l e l' Hr IH Hstep].
  { split; [|done]. by apply not_elem_of_nil. }
  destruct IH as (IH1 & IH2 & IH3).
  apply loop_step_flags in Hstep as (_ & Hf & _). destruct (Hf Hseq IH2 IH3) as (He & H1 & H2).
  split; [|done]. intros [?|Hin]%elem_of_app; [done|]. apply list_elem_of_singleton in Hin. by subst.
Qed.

(** [C19] No wake-up is lost: whenever the L1 head is a full sequencing window past the L1
    origin of the safe head, a step is requested, so the driver keeps deriving until the
    safe head has caught up, also when heads arrive in bursts and when a step fails. *)
Theorem step_requested s0 w0 tr l :
  reachable fuel config sequencer s0 w0 tr l ->
  window_complete config (lp_state l) = true -> lp_stepReqCh l = true.
Proof.
  intros Hr. induction Hr as [|tr l e l' Hr IH Hstep]; [done|].
  pose proof (loop_step_flags _ _ _ Hstep) as (Hf & _ & He).
  apply loop_step_state in Hstep as [(Hs & _)|[(-> & _ & Hs)|[(p & rest & -> & _ & _ & Hs)|
    [(h & rest & -> & _)|(-> & _)]]]]; [..|by apply He; auto|by apply He; auto].
  - injection Hs as Hs _. intros Hw. destruct Hf as [->|[->|?]]; [|by apply He; auto|done].
    rewrite Hs in Hw. auto.
  - destruct (createNewL2Block _ _) as [r [s' w']] eqn:Ec. injection Hs as Hs _.
    assert (window_complete config (lp_state l') = window_complete config (lp_state l)) as ->.
    { rewrite Hs. cbn.
      apply createNewL2Block_outcome in Ec as [->|(o & ref & p & w1 & w2 & w3 & _ & _ & _ & _ & ->)]; done. }
    destruct Hf as [->|[?|?]]; auto; done.
  - destruct (handleUnsafeL2Payload _ _ _) as [r [s' w']] eqn:Ec. injection Hs as Hs _.
    assert (window_complete config (lp_state l') = window_complete config (lp_state l)) as ->.
    { rewrite Hs. cbn.
      apply handleUnsafeL2Payload_outcome in Ec as [->|(ref & _ & _ & _ & ->)]; done. }
    destruct Hf as [->|[?|?]]; auto; done.
Qed.

(** [C9] What can move the safe head: a new L1 head that is not the child of the current
    one, to a block [FindL2Heads] returned and not above the current safe head; or a step,
    to the safe head [insertEpoch] derived from exactly [SeqWindowSize] buffered L1 blocks,
    which then loses its first.  Neither the sequencer nor a payload from the network
    moves it.  The finalized block is not updated by any of this: the code leaves that open
    ([TODO: l2Finalized] in [handleEpoch]), where specs/rollup-node.md has it follow the head
    at a distance of [FINALIZATION_DELAY_BLOCKS]. *)
Theorem safe_head_moves e (l l' : loop_state) :
  1 <= cfg_SeqWindowSize config < 2 ^ 63 ->
  loop_step fuel config sequencer e l = Some l' ->
  let s := lp_state l in let s' := lp_state l' in
  s_l2Finalized s' = s_l2Finalized s /\
  (s_l2SafeHead s' = s_l2SafeHead s \/
   (exists h rest unsafe, e = EvL1Head /\ lp_l1Heads l = h :: rest /\
      l1_Hash (s_l1Head s) <> l1_ParentHash h /\
      (FindL2Heads fuel (s_l2Head s) (cfg_SeqWindowSize config) (cfg_Genesis config) (lp_world l)).1
        = Ok (unsafe, s_l2SafeHead s') /\
      l2_Number (s_l2SafeHead s') <= l2_Number (s_l2SafeHead s)) \/
   (exists window in0 rest reorg w1 w2, e = EvStepReq /\
      (window = s_l1WindowBuf s \/ exists nexts w3 w4,
         L1Range (l1WindowBufEnd s) (2 *64 cfg_SeqWindowSize config) w3 = (Ok nexts, w4) /\
         window = s_l1WindowBuf s ++ nexts) /\
      window = in0 :: rest /\ cfg_SeqWindowSize config <= zlen window /\
      out_insertEpoch (s_l2Head s) (s_l2SafeHead s) (s_l2Finalized s)
        (take (Z.to_nat (cfg_SeqWindowSize config)) window) w1
        = (Ok (s_l2Head s', s_l2SafeHead s', reorg), w2) /\
      s_l1WindowBuf s' = rest)).
Proof.
  intros HW Hstep. cbv zeta.
  apply loop_step_state in Hstep as [(Hs & _)|[(_ & _ & Hs)|[(p & rest & _ & _ & _ & Hs)|
    [(h & rest & -> & Hl & _ & Hs)|(-> & _ & Hs)]]]].
  - injection Hs as -> _. auto.
  - destruct (createNewL2Block _ _) as [r [s' w']] eqn:Ec. injection Hs as -> _.
    apply createNewL2Block_outcome in Ec as [->|(o & ref & p & w1 & w2 & w3 & _ & _ & _ & _ & ->)]; cbn; auto.
  - destruct (handleUnsafeL2Payload _ _ _) as [r [s' w']] eqn:Ec. injection Hs as -> _.
    apply handleUnsafeL2Payload_outcome in Ec as [->|(ref & _ & _ & _ & ->)]; cbn; auto.
  - destruct (handleNewL1Block _ _ _ _) as [r [s' w']] eqn:Ec. injection Hs as -> _.
    destruct (Z.eq_dec (l1_Hash (s_l1Head (lp_state l))) (l1_ParentHash h)) as [Hp|Hp].
    + apply handleNewL1Block_child in Ec as [[-> _]|[_ ->]]; [auto|..|by right].
      by destruct (_ =? _); cbn; auto.
    + apply handleNewL1Block_outcome in Ec as [->|[(Hp' & _)|(u & sf & w1 & Ef & _ & ->)]];
        [auto|congruence|]. cbn. split; [done|].
      destruct (Z.leb_spec (l2_Number sf) (l2_Number (s_l2SafeHead (lp_state l)))); [|auto].
      right; left. by exists h, rest, u.
  - destruct (handleEpoch _ _) as [r [s' w']] eqn:Ec. injection Hs as -> _.
    apply handleEpoch_outcome in Ec as [->|(window & w1 & Hwin & Ec)]; [auto| |done].
    destruct Ec as [->|[->|Ec]]; cbn; [auto..|].
    destruct Ec as (head & safe & reorg & in0 & rest & w2 & Ew & Hlen & Eo & _ & ->).
    cbn in *. split; [done|]. right; right. exists window, in0, rest, reorg, w1, w2.
    split_and!; try done. destruct Hwin as [[-> _]|(nexts & Hr & ->)]; [by left|right; by exists nexts, (lp_world l), w1].
Qed.
End Runs.

(** ** The driver with the output step of Step.v *)
Section Assembled.
Context `{Keccak} `{GethTypes} `{RLP} {W : Type} `{!Engine W} `{!Downloader W}.
Context `{!DriverL1 W} `{!DriverL2 W} `{!Network W}.
Context (fuel : nat) (config : Config) (sequencer : bool).

(** [NewDriver] gives the state machine this output. *)
Definition NewDriver_output : Output W := {|
  out_insertEpoch := insertEpoch fuel config;
  out_createNewBlock := createNewBlock config;
  out_processBlock := processBlock;
|}.
#[local] Existing Instance NewDriver_output.

(** The output step meets what the event loop asks of it, as long as the derived safe
    head is not at the genesis number. *)
Lemma NewDriver_output_moves_origin `{!GethLaws} :
  engine_builds ->
  (forall h (w1 : W) i txs rs w2, dl_Fetch h w1 = (Ok (i, txs, rs), w2) -> li_Hash i = h /\ L1Info_ok i) ->
  (forall h (w1 : W) i w2, dl_InfoByHash h w1 = (Ok i, w2) -> L1Info_ok i) ->
  (forall h (w1 : W) p w2, eng_PayloadByHash h w1 = (Ok p, w2) -> in_range 62 (pl_Timestamp p)) ->
  0 < cfg_BlockTime config < 2 ^ 62 -> Z.of_nat fuel < 2 ^ 63 ->
  (forall head safe fin window (w : W) head' safe' r w',
    insertEpoch fuel config head safe fin window w = (Ok (head', safe', r), w') ->
    l2_Number safe' <> id_Number (gen_L2 (cfg_Genesis config))) ->
  insertEpoch_moves_origin (W:=W).
Proof.
  intros Hb Hf Hi Ht Hbt Hfuel Hg head safe fin window w head' safe' r w' E.
  pose proof (Hg _ _ _ _ _ _ _ _ _ E).
  apply insertEpoch_last_origin in E as (in0 & n & ? & ? & _); [|done..]. by exists in0.
Qed.

(** The calls of the node to its services, a forkchoice update only with finalized hash
    [F], keep the property [I] of the world. *)
Definition driver_invariant (F : Hash) (I : W -> Prop) : Prop :=
  step_invariant F I /\
  preserves I L1HeadBlockRef /\
  (forall n, preserves I (L1BlockRefByNumber n)) /\
  (forall h, preserves I (L1BlockRefByHash h)) /\
  (forall b m, preserves I (L1Range b m)) /\
  (forall h, preserves I (chain_L2BlockRefByHash h)) /\
  (forall fc attrs, fc_FinalizedBlockHash fc = F -> preserves I (l2_ForkchoiceUpdate fc attrs)) /\
  (forall publish p, PublishL2Payload = Some publish -> preserves I (publish p)).

Section Kept.
Context (fin : BlockID) (I : W -> Prop) (HI : driver_invariant (id_Hash fin) I).
Definition kept (sw : state * W) : Prop := s_l2Finalized sw.1 = fin /\ I sw.2.

Lemma kept_call {A} (c : M W A) : preserves I c -> preserves kept (call c).
Proof. intros Hc [s w] [Hs Hw]. unfold call. specialize (Hc w Hw). cbn. by destruct (c w). Qed.
Lemma kept_modify (f : state -> state) :
  (forall s, s_l2Finalized (f s) = s_l2Finalized s) -> preserves kept (modify f).
Proof. intros Hf [s w] [Hs Hw]. split; [cbn; by rewrite Hf|done]. Qed.
Lemma kept_get {A} (f : state -> M (state * W) A) :
  (forall s, s_l2Finalized s = fin -> preserves kept (f s)) -> preserves kept (s ← get; f s).
Proof. intros Hf [s w] Hk. apply (Hf s); [apply Hk|done]. Qed.

Lemma FindL2Heads_loop1_preserves fuel' genesis n depth prev highest :
  preserves I (FindL2Heads_loop1 fuel' genesis n depth prev highest).
Proof.
  destruct HI as (_ & ? & ? & ? & ? & ? & _).
  revert n depth prev highest. induction fuel' as [|f IH]; intros; cbn [FindL2Heads_loop1];
    unfold isAheadOrCanonical; preserves_tac.
Qed.
Lemma FindL2Heads_loop2_preserves fuel' genesis window n prev depth :
  preserves I (FindL2Heads_loop2 fuel' genesis window n prev depth).
Proof.
  destruct HI as (_ & ? & ? & ? & ? & ? & _).
  revert n prev depth. induction fuel' as [|f IH]; intros; cbn [FindL2Heads_loop2]; preserves_tac.
Qed.
Lemma FindL2Heads_preserves fuel' start window genesis :
  preserves I (FindL2Heads fuel' start window genesis).
Proof.
  pose proof FindL2Heads_loop1_preserves. pose proof FindL2Heads_loop2_preserves.
  unfold FindL2Heads. preserves_tac.
Qed.

Ltac kept_tac :=
  repeat first
    [ apply kept_get; intros ? ?
    | apply kept_call
    | apply kept_modify; by intros []
    | preserves_step; cbv beta zeta ]; auto.

Lemma handleNewL1Block_kept h : preserves kept (handleNewL1Block fuel config h).
Proof.
  pose proof FindL2Heads_preserves. destruct HI as (_ & ? & ? & ? & ? & ? & Hfc & _).
  unfold handleNewL1Block. kept_tac. apply Hfc. cbn. by f_equal.
Qed.
Lemma createNewL2Block_kept : preserves kept (createNewL2Block config).
Proof.
  destruct HI as (Hs & ? & ? & ? & ? & ? & _ & Hp).
  pose proof (createNewBlock_preserves _ _ Hs) as Hc.
  unfold createNewL2Block, findL1Origin. kept_tac. apply Hc. by f_equal.
Qed.
Lemma handleEpoch_kept : preserves kept (handleEpoch config).
Proof.
  destruct HI as (Hs & ? & ? & ? & ? & ? & _).
  pose proof (insertEpoch_preserves _ _ Hs) as Hc.
  unfold handleEpoch, handleEpoch_insert. kept_tac. apply Hc. by f_equal.
Qed.
Lemma handleUnsafeL2Payload_kept p : preserves kept (handleUnsafeL2Payload config p).
Proof.
  destruct HI as (Hs & _). pose proof (processBlock_preserves _ _ Hs) as Hc.
  unfold handleUnsafeL2Payload. kept_tac. apply Hc. by f_equal.
Qed.

Lemma loop_step_kept e (l l' : loop_state) :
  loop_step fuel config sequencer e l = Some l' ->
  kept (lp_state l, lp_world l) -> kept (lp_state l', lp_world l').
Proof.
  intros Hstep Hk. apply loop_step_state in Hstep as [(-> & _)|[(_ & _ & ->)|[(p & rest & _ & _ & _ & ->)|
    [(h & rest & _ & _ & _ & ->)|(_ & _ & ->)]]]]; [done|..].
  - by apply createNewL2Block_kept.
  - by apply handleUnsafeL2Payload_kept.
  - by apply handleNewL1Block_kept.
  - by apply handleEpoch_kept.
Qed.
End Kept.

(** [C33] The node never finalizes anything further: in any run of the driver with the output
    step of Step.v, every forkchoice update the node sends names the finalized block it
    started with, so any property of the outside world that calls with that finalized
    hash keep still holds.  No engine is ever told to finalize a block that L1 could still
    reorg; but neither does the finalized block follow the head at the distance of
    [FINALIZATION_DELAY_BLOCKS] that specs/rollup-node.md asks for, which the code has as
    a TODO in [handleEpoch]. *)
Theorem finalized_never_moves (I : W -> Prop) s0 w0 tr l :
  driver_invariant (id_Hash (s_l2Finalized s0)) I -> I w0 ->
  reachable fuel config sequencer s0 w0 tr l ->
  s_l2Finalized (lp_state l) = s_l2Finalized s0 /\ I (lp_world l).
Proof.
  intros HI Hw Hr.
  change (kept (s_l2Finalized s0) I (lp_state l, lp_world l)).
  induction Hr as [|tr l e l' Hr IH Hstep]; [done|]. by eapply loop_step_kept.
Qed.
End Assembled.

(** ** Witnesses: a short run of a sequencer against the toy world *)
Definition ToyDriverL1 : DriverL1 ToyWorld := {|
  dl1_sync := {|
    L1HeadBlockRef := mret (mkL1BlockRef 102 12 101 1010);
    L1BlockRefByNumber := fun n => mret (mkL1BlockRef (90 + n) n (89 + n) (1004 + 6 * (n - 11)));
  |};
  L1BlockRefByHash := fun h => mret (mkL1BlockRef h (h - 90) (h - 1) (1004 + 6 * (h - 101)));
  L1Range := fun base _ => mret (if id_Hash base =? 100 then [mkBlockID 101 11; mkBlockID 102 12] else []);
|}.
Definition ToyDriverL2 : DriverL2 ToyWorld := {|
  dl2_sync := {| chain_L2BlockRefByHash := fun _ => throw ENotFound |};
  l2_ForkchoiceUpdate := @eng_ForkchoiceUpdate _ ToyEngine;
  l2_L2BlockRefByNumber := fun _ => throw ENotFound;
|}.
Definition ToyNetwork : Network ToyWorld := {| PublishL2Payload := None |}.
Definition toy_output : Output ToyWorld :=
  @NewDriver_output ToyKeccak ToyGeth ToyRLP ToyWorld ToyEngine62 ToyDownloader 10 toy_config.
Definition toy_state : state :=
  mkState (mkL1BlockRef 102 12 101 1010) toy_l2_genesis toy_l2_genesis zeroBlockID [].

Section ToyRun.
#[local] Existing Instance ToyGeth.
#[local] Existing Instance ToyDriverL1.
#[local] Existing Instance ToyDriverL2.
#[local] Existing Instance toy_output.
#[local] Existing Instance ToyNetwork.

Definition toy_start : loop_state := loop_start toy_state toy_world.
Definition toy_step (seqr : bool) (e : event) (l : loop_state) : loop_state :=
  from_option id l (loop_step 10 toy_config seqr e l).
Definition toy_head : L1BlockRef := mkL1BlockRef 103 13 102 1016.

(** The step at the start derives the epoch of block 101; then block 103 arrives. *)
Definition toy_run1 := toy_step true EvStepReq toy_start.
Definition toy_run2 := toy_step true (EvOnL1Head toy_head) toy_run1.
Definition toy_run3 := toy_step true EvL1Head toy_run2.

Lemma toy_reachable3 : reachable 10 toy_config true toy_state toy_world
  [EvStepReq; EvOnL1Head toy_head; EvL1Head] toy_run3.
Proof.
  apply (reach_step _ _ _ _ _ [EvStepReq; EvOnL1Head toy_head] toy_run2 EvL1Head);
    [|vm_compute; reflexivity].
  apply (reach_step _ _ _ _ _ [EvStepReq] toy_run1 (EvOnL1Head toy_head));
    [|vm_compute; reflexivity].
  apply (reach_step _ _ _ _ _ [] toy_start EvStepReq); [constructor|vm_compute; reflexivity].
Qed.

Lemma verifier_never_creates_witness :
  exists l, reachable 10 toy_config false toy_state toy_world [EvStepReq] l /\
    lp_l2BlockCreationReqCh l = false.
Proof.
  assert (Hr : reachable 10 toy_config false toy_state toy_world [EvStepReq]
    (toy_step false EvStepReq toy_start)).
  { apply (reach_step _ _ _ _ _ [] toy_start EvStepReq); [constructor|vm_compute; reflexivity]. }
  eexists. split; [exact Hr|]. by apply (verifier_never_creates _ _ _ _ _ _ _ eq_refl Hr).
Defined.

Lemma step_requested_witness : lp_stepReqCh toy_run3 = true.
Proof.
  apply (step_requested 10 toy_config true toy_state toy_world _ _ toy_reachable3).
  vm_compute. reflexivity.
Defined.

(** The step of the start takes over the derived safe head. *)
Lemma safe_head_moves_witness :
  s_l2Finalized (lp_state toy_run1) = s_l2Finalized (lp_state toy_start) /\
  s_l2SafeHead (lp_state toy_run1) <> s_l2SafeHead (lp_state toy_start).
Proof.
  assert (E : loop_step 10 toy_config true EvStepReq toy_start = Some toy_run1)
    by (vm_compute; reflexivity).
  split; [|vm_compute; discriminate].
  refine (proj1 (safe_head_moves 10 toy_config true EvStepReq toy_start toy_run1 _ E)). cbn. lia.
Defined.

Lemma finalized_never_moves_witness :
  Forall (fun fc => fc_FinalizedBlockHash fc = 0) (tw_forkchoices (lp_world toy_run3)) /\
  length (tw_forkchoices (lp_world toy_run3)) = 8%nat.
Proof.
  split; [|vm_compute; reflexivity].
  refine (proj2 (@finalized_never_moves ToyKeccak ToyGeth ToyRLP ToyWorld ToyEngine62 ToyDownloader
    ToyDriverL1 ToyDriverL2 ToyNetwork 10 toy_config true
    (fun w => Forall (fun fc => fc_FinalizedBlockHash fc = 0) (tw_forkchoices w))
    toy_state toy_world _ _ _ _ toy_reachable3)); [|constructor].
  assert (Hfc : forall fc attrs, fc_FinalizedBlockHash fc = 0 ->
    preserves (fun w => Forall (fun fc => fc_FinalizedBlockHash fc = 0) (tw_forkchoices w))
      (@eng_ForkchoiceUpdate _ ToyEngine fc attrs)).
  { intros fc attrs Hf w Hw. cbn. apply Forall_app. by split; [|constructor]. }
  unfold driver_invariant, step_invariant. split_and!; try exact Hfc; try done.
  all: repeat intro; cbn -[list_find] in *; try done.
  all: repeat match goal with
  | |- context [match list_find ?P ?l with _ => _ end] => destruct (list_find P l) as [[? ?]|]; cbn
  | |- context [if ?b then _ else _] => destruct b; cbn
  end; done.
Defined.
End ToyRun.

(** An output that only moves the origin, to run the window on its own. *)
Definition PlainOutput : Output ToyWorld := {|
  out_insertEpoch := fun head safe _ window =>
    match window with
    | in0 :: _ => mret (head, mkL2BlockRef 1 1 1 1 in0 0, false)
    | [] => throw ENotFound
    end;
  out_createNewBlock := fun _ _ _ _ => throw ENotFound;
  out_processBlock := fun _ _ _ => mret tt;
|}.

Section PlainRun.
#[local] Existing Instance ToyGeth.
#[local] Existing Instance ToyDriverL1.
#[local] Existing Instance ToyDriverL2.
#[local] Existing Instance PlainOutput.
#[local] Existing Instance ToyNetwork.

Lemma window_linked_reachable_witness :
  exists l, reachable 10 toy_config true toy_state toy_world
      [EvStepReq; EvOnL1Head toy_head; EvL1Head] l /\
    s_l1WindowBuf (lp_state l) = [mkBlockID 102 12; mkBlockID 103 13] /\
    window_linked (fun h => h - 1) (lp_state l).
Proof.
  pose (l1 := from_option id toy_start (loop_step 10 toy_config true EvStepReq toy_start)).
  pose (l2 := from_option id l1 (loop_step 10 toy_config true (EvOnL1Head toy_head) l1)).
  pose (l3 := from_option id l2 (loop_step 10 toy_config true EvL1Head l2)).
  assert (Hr : reachable 10 toy_config true toy_state toy_world
    [EvStepReq; EvOnL1Head toy_head; EvL1Head] l3).
  { apply (reach_step _ _ _ _ _ [EvStepReq; EvOnL1Head toy_head] l2 EvL1Head); [|vm_compute; reflexivity].
    apply (reach_step _ _ _ _ _ [EvStepReq] l1 (EvOnL1Head toy_head)); [|vm_compute; reflexivity].
    apply (reach_step _ _ _ _ _ [] toy_start EvStepReq); [constructor|vm_compute; reflexivity]. }
  exists l3. split; [exact Hr|]. split; [vm_compute; reflexivity|].
  refine (window_linked_reachable 10 toy_config true (fun h => h - 1) _ _ _ _ _ _ _ _ _ Hr).
  - intros base mx w ids w' E. cbn in E. destruct (Z.eqb_spec (id_Hash base) 100) as [Hb|];
      injection E as <- <-; [|done]. rewrite Hb. cbn. lia.
  - intros head safe fin window w head' safe' r w' E.
    destruct window as [|in0 rest]; cbn in E; [done|]. injection E as <- <- <- <-. by exists in0.
  - cbn. lia.
  - done.
  - intros h Hin. repeat (apply elem_of_cons in Hin as [Hin|Hin]; [try discriminate|]);
      [injection Hin as ->; unfold head_ok; cbn; lia|by apply elem_of_nil in Hin].
Defined.
End PlainRun.
