(* ===== verification/Rollup.v ===== *)
(** * The rollup as a function of L1

    The whole derivation over many epochs as one pure function of the L1 chain, and the
    refinement: the safe chain of a running node, sequencer or verifier, is always the
    value of that function for some number of epochs; so two nodes never disagree.
    op-node/rollup/driver/state.go and step.go on top of op-node/rollup/derive. *)

From S2P Require Import Prelude Types Geth L1Info Deposits Batches L2Source Sync Step DriverState.

(** ** The L1 chain *)
Record L1Block `{GethTypes} := mkL1Block {
  lb_info : L1Info;
  lb_receipts : list Receipt;
  lb_txs : list Transaction;
}.

(** The L1 blocks up to a height, by number. *)
Record CanonicalL1 `{GethTypes} := mkCanonicalL1 {
  c_height : Z;
  c_block : Z -> L1Block;
}.

Section Rollup.
Context `{Keccak} `{GethLaws} `{RLP}.
Context (fuel : nat) (config : Config) (c : CanonicalL1).

Definition c_info (n : Z) : L1Info := lb_info (c_block c n).
Definition c_hash (n : Z) : Hash := li_Hash (c_info n).
Definition c_id (n : Z) : BlockID := mkBlockID (c_hash n) n.
(** The [len] blocks from [n] on. *)
Definition c_ids (n len : Z) : list BlockID := c_id <$> seqZ n len.

(** A block of it. *)
Definition c_has (n : Z) : Prop := 0 <= n <= c_height c.

Record canonical : Prop := {
  can_height : c_height c < 2 ^ 64 - 1;
  can_info n : c_has n -> L1Info_ok (c_info n) /\ li_NumberU64 (c_info n) = n;
  can_inj n m : c_has n -> c_has m -> c_hash n = c_hash m -> n = m;
}.

(** ** The derivation of the rollup *)

(** The blocks of the epoch of L1 block [n] on top of an L2 block of time [l2Time]. *)
Definition chain_epoch (n : Z) (l2Time : uint64) : res (list PayloadAttributes) :=
  derive_epoch fuel config n l2Time (c_info n) (li_Time (c_info (n + 1)))
    (lb_receipts (c_block c n)) ((fun m => lb_txs (c_block c m)) <$> seqZ n (cfg_SeqWindowSize config)).

(** The time of the last block. *)
Definition last_time (l2Time : uint64) (attrss : list PayloadAttributes) : uint64 :=
  from_option at_Timestamp l2Time (last attrss).

(** The blocks of the [k] epochs from L1 block [n] on. *)
Fixpoint derive_chain (k : nat) (n : Z) (l2Time : uint64) : res (list PayloadAttributes) :=
  match k with
  | O => Ok []
  | S k =>
      attrss ← chain_epoch n l2Time;
      rest ← derive_chain k (n + 1) (last_time l2Time attrss);
      Ok (attrss ++ rest)
  end.

(** ** Lemmas on windows and chains *)
Lemma c_ids_app n a b : 0 <= a -> 0 <= b -> c_ids n (a + b) = c_ids n a ++ c_ids (n + a) b.
Proof. intros ??. unfold c_ids. by rewrite seqZ_app, fmap_app. Qed.
Lemma c_ids_cons n len : 0 < len -> c_ids n len = c_id n :: c_ids (n + 1) (len - 1).
Proof.
  intros ?. unfold c_ids. by rewrite seqZ_cons.
Qed.
Lemma c_ids_zlen n len : 0 <= len -> zlen (c_ids n len) = len.
Proof. intros ?. unfold zlen, c_ids. rewrite length_fmap, length_seqZ. lia. Qed.
Lemma c_ids_take n len W : 0 <= W <= len -> take (Z.to_nat W) (c_ids n len) = c_ids n W.
Proof.
  intros ?. replace len with (W + (len - W)) at 1 by lia. rewrite c_ids_app by lia.
  apply take_app_length'. pose proof (c_ids_zlen n W). unfold zlen in *. lia.
Qed.
Lemma c_ids_last n len : 0 <= len ->
  from_option id (c_id (n - 1)) (last (c_ids n len)) = c_id (n + len - 1).
Proof.
  intros ?. destruct (Z.eq_dec len 0) as [->|]; [change (c_id (n - 1) = c_id (n + 0 - 1)); f_equal; lia|].
  replace len with ((len - 1) + 1) at 1 by lia. rewrite c_ids_app by lia.
  rewrite (c_ids_cons (n + (len - 1))) by lia. rewrite last_app.
  change (c_id (n + (len - 1)) = c_id (n + len - 1)). f_equal; lia.
Qed.

Lemma last_time_app t a b : last_time t (a ++ b) = last_time (last_time t a) b.
Proof. unfold last_time. rewrite last_app. by destruct (last b). Qed.

(** Some epochs, and then some more. *)
Lemma derive_chain_app j k n t :
  derive_chain (j + k) n t =
    (a ← derive_chain j n t; b ← derive_chain k (n + Z.of_nat j) (last_time t a); Ok (a ++ b)).
Proof.
  revert n t. induction j as [|j IH]; intros n t.
  - cbn [derive_chain Nat.add mbind res_bind]. change (last_time t []) with t. rewrite Z.add_0_r.
    by destruct (derive_chain k n t).
  - cbn [derive_chain Nat.add]. destruct (chain_epoch n t) as [x| | |]; cbn [mbind res_bind]; [|done..].
    rewrite IH. destruct (derive_chain j (n + 1) (last_time t x)) as [a| | |]; cbn [mbind res_bind]; [|done..].
    rewrite last_time_app. replace (n + Z.of_nat (S j)) with (n + 1 + Z.of_nat j) by lia.
    destruct (derive_chain k _ _) as [y| | |]; cbn [mbind res_bind]; [|done..]. by rewrite app_assoc.
Qed.
Lemma derive_chain_one n t : derive_chain 1 n t = chain_epoch n t.
Proof.
  cbn [derive_chain]. destruct (chain_epoch n t) as [a| | |]; cbn [mbind res_bind]; [|done..].
  by rewrite app_nil_r.
Qed.

(** Fewer epochs are a prefix. *)
Lemma derive_chain_prefix j k n t a b : (j <= k)%nat ->
  derive_chain j n t = Ok a -> derive_chain k n t = Ok b -> a `prefix_of` b.
Proof.
  intros Hle Ea Eb. replace k with (j + (k - j))%nat in Eb by lia.
  rewrite derive_chain_app, Ea in Eb. cbn [mbind res_bind] in Eb. apply res_bind_ok in Eb as (b' & _ & Eb).
  injection Eb as <-. by apply prefix_app_r.
Qed.

Lemma derive_epoch_read epoch l2Time info next rs rs' txLists :
  receipt_read <$> rs = receipt_read <$> rs' ->
  derive_epoch fuel config epoch l2Time info next rs txLists =
    derive_epoch fuel config epoch l2Time info next rs' txLists.
Proof. intros E. unfold derive_epoch. by rewrite (DeriveDeposits_read rs rs'). Qed.

Lemma chained_app parent a b p q :
  chained parent a p -> chained (from_option pl_BlockHash parent (last p)) b q ->
  chained parent (a ++ b) (p ++ q).
Proof.
  revert parent p. induction a as [|x a IH]; intros parent [|y p] Hc Hd; try done.
  destruct Hc as [Hm Hc]. cbn. split; [done|]. apply IH; [done|].
  rewrite last_cons in Hd. by destruct (last p).
Qed.
Lemma chained_app_inv parent a b r :
  chained parent (a ++ b) r ->
  exists p q, r = p ++ q /\ chained parent a p /\ chained (from_option pl_BlockHash parent (last p)) b q.
Proof.
  revert parent r. induction a as [|x a IH]; intros parent r Hc; [by exists [], r|].
  destruct r as [|y r]; [done|]. destruct Hc as [Hm Hc]. apply IH in Hc as (p & q & -> & Hp & Hq).
  exists (y :: p), q. split_and!; [done|done|]. rewrite last_cons. by destruct (last p).
Qed.
Lemma chained_last_time parent a p y :
  chained parent a p -> last p = Some y -> forall t, pl_Timestamp y = last_time t a.
Proof.
  revert parent p. induction a as [|x a IH]; intros parent [|z p] Hc Hl t; try done.
  destruct Hc as [(_ & Ht & _) Hc]. unfold last_time. rewrite last_cons. rewrite last_cons in Hl.
  destruct (last p) as [y'|] eqn:Ep.
  - injection Hl as ->. rewrite (IH _ _ Hc Ep (at_Timestamp x)). unfold last_time. by destruct (last a).
  - injection Hl as ->. apply last_None in Ep as ->. by destruct a.
Qed.
End Rollup.

(** ** One node *)
Section Node.
Context `{Keccak} `{GethLaws} `{RLP} {W : Type} `{!Engine W} `{!Downloader W}.
Context `{!DriverL1 W} `{!DriverL2 W} `{!Network W}.
Context (fuel : nat) (config : Config) (sequencer : bool) (c : CanonicalL1).
Definition node_output : Output W := NewDriver_output fuel config.
#[local] Existing Instance node_output.

(** What the node's services answer, in the worlds of [I], which all calls keep, a
    forkchoice update with the finalized hash [fin].  [timeOf] is the time in the header
    that a L2 block hash commits to.  The L1 answers are about [c] only: of receipts, what
    deposits are read from.  Every call may also fail, at any time. *)
Record node_ok (fin : Hash) (I : W -> Prop) (timeOf : Hash -> uint64) : Prop := {
  ok_keeps : driver_invariant fin I;
  ok_builds : engine_builds_in I;
  ok_time h : in_range 62 (timeOf h);
  ok_answer p : engine_answer I p ->
    pl_Timestamp p = timeOf (pl_BlockHash p) /\
    (pl_BlockNumber p = id_Number (gen_L2 (cfg_Genesis config)) -> pl_Transactions p = []);
  ok_byhash h p : reads I (eng_PayloadByHash h) p -> pl_Timestamp p = timeOf h;
  ok_fetch n i t r : c_has c n -> reads I (dl_Fetch (c_hash c n)) (i, t, r) ->
    i = c_info c n /\ receipt_read <$> r = receipt_read <$> lb_receipts (c_block c n);
  ok_info n i : c_has c n -> reads I (dl_InfoByHash (c_hash c n)) i -> i = c_info c n;
  ok_txs n len l : 0 <= n -> n + len - 1 <= c_height c ->
    reads I (dl_FetchAllTransactions (c_ids c n len)) l ->
    l = (fun m => lb_txs (c_block c m)) <$> seqZ n len;
  ok_range n max ids : c_has c n -> reads I (L1Range (c_id c n) max) ids ->
    exists len, ids = c_ids c (n + 1) len /\ 0 <= len /\ n + len <= c_height c;
}.

(** The safe head [safe] is [k] epochs past [safe0]: [payloads] realise what the
    derivation gives for them, one on the other from [safe0] up to [safe]. *)
Record derived_to (I : W -> Prop) (safe0 safe : L2BlockRef) (k : nat) (attrss : list PayloadAttributes)
    (payloads : list ExecutionPayload) : Prop := {
  dt_chain : derive_chain fuel config c k (id_Number (l2_L1Origin safe0) + 1) (l2_Time safe0) = Ok attrss;
  dt_chained : chained (l2_Hash safe0) attrss payloads;
  dt_answers : Forall (engine_answer I) payloads;
  dt_hash : l2_Hash safe = from_option pl_BlockHash (l2_Hash safe0) (last payloads);
  dt_time : l2_Time safe = last_time (l2_Time safe0) attrss;
  dt_origin : l2_L1Origin safe = c_id c (id_Number (l2_L1Origin safe0) + Z.of_nat k);
  dt_window : k = 0%nat \/ id_Number (l2_L1Origin safe) + cfg_SeqWindowSize config - 1 <= c_height c;
}.

(** Where a run may start. *)
Record starts (timeOf : Hash -> uint64) (safe0 : L2BlockRef) : Prop := {
  st_origin : l2_L1Origin safe0 = c_id c (id_Number (l2_L1Origin safe0));
  st_has : c_has c (id_Number (l2_L1Origin safe0));
  st_time : timeOf (l2_Hash safe0) = l2_Time safe0;
}.

Context (fin : BlockID) (I : W -> Prop) (timeOf : Hash -> uint64).
Context (Hcan : canonical c) (Hok : node_ok (id_Hash fin) I timeOf).
Context (HW : 1 <= cfg_SeqWindowSize config < 2 ^ 63) (Hbt : 0 < cfg_BlockTime config < 2 ^ 62).
Context (Hfuel : Z.of_nat fuel < 2 ^ 63).

Lemma derived_to_start safe0 : starts timeOf safe0 -> derived_to I safe0 safe0 0 [] [].
Proof. intros Hs. split; try done; [|by left]. rewrite Z.add_0_r. apply Hs. Qed.

(** [insertEpoch] on a window of the chain adds the next epoch. *)
Lemma insertEpoch_epoch n head safe (w : W) head' safe' d' w' :
  I w -> 0 <= n -> n + cfg_SeqWindowSize config <= c_height c ->
  timeOf (l2_Hash safe) = l2_Time safe ->
  insertEpoch fuel config head safe fin (c_ids c (n + 1) (cfg_SeqWindowSize config)) w
    = (Ok (head', safe', d'), w') ->
  exists attrss payloads p, chain_epoch fuel config c (n + 1) (l2_Time safe) = Ok attrss /\
    chained (l2_Hash safe) attrss payloads /\ Forall (engine_answer I) payloads /\
    last payloads = Some p /\ l2_Hash safe' = pl_BlockHash p /\ l2_Time safe' = pl_Timestamp p /\
    l2_L1Origin safe' = c_id c (n + 1).
Proof.
  intros Hw Hn Hh Ht E.
  apply (insertEpoch_derives _ _ (proj1 (ok_keeps _ _ _ Hok))) in E as (in0 & in1 & l2Info & l1Info &
    txs & receipts & next & transactions & attrss & payloads & G1 & G2 & _ & G4 & G5 & G6 & G7 &
    _ & Ed & Hch & Hans & Hlast); [|apply Hok|done..].
  assert (1 < cfg_SeqWindowSize config).
  { apply lookup_lt_Some in G2. rewrite <-(c_ids_zlen c (n + 1) (cfg_SeqWindowSize config)) by lia.
    unfold zlen. lia. }
  rewrite !c_ids_cons in G1, G2 by lia. injection G1 as <-. injection G2 as <-.
  assert (Hn1 : c_has c (n + 1)) by (unfold c_has; lia).
  assert (Hn2 : c_has c (n + 1 + 1)) by (unfold c_has; lia).
  apply (ok_fetch _ _ _ Hok) in G5 as [-> Hrc]; [|done]. rewrite (derive_epoch_read _ _ _ _ _ _ _ _ _ Hrc) in Ed. apply (ok_info _ _ _ Hok) in G6 as ->; [|done].
  apply (ok_txs _ _ _ Hok) in G7 as ->; [|lia..]. apply (ok_byhash _ _ _ Hok) in G4. rewrite Ht in G4.
  rewrite G4 in Ed. cbn [c_id id_Number] in Ed.
  destruct (can_info _ Hcan _ Hn1) as [Hi1 Hnum]. destruct (can_info _ Hcan _ Hn2) as [(_ & Hnext & _) _].
  assert (Ht62 : in_range 62 (l2_Time safe)) by (rewrite <-Ht; apply Hok).
  destruct (derive_epoch_last _ _ _ _ _ _ _ _ _ _ _ Ht62 Hnext Hbt Hfuel Ed Hch)
    as (p & b & rest & Ep & Hseq & Eb & Etx). rewrite Ep in Hlast.
  exists attrss, payloads, p. split_and!; try done; [by eapply PayloadToBlockRef_hash| |].
  { unfold PayloadToBlockRef in Hlast. apply res_bind_ok in Hlast as ([o k] & _ & Hl). by injection Hl as <-. }
  unfold c_id. rewrite <-Hnum at 2.
  eapply PayloadToBlockRef_origin; [exact Hi1|exact Hseq|exact Eb|exact Etx|exact Hlast|].
  intros Hg. assert (Hp : engine_answer I p).
  { rewrite Forall_forall in Hans. apply Hans. by apply last_Some_elem_of. }
  destruct (ok_answer _ _ _ Hok _ Hp) as [_ Hempty]. rewrite Hempty in Etx; [done|].
  unfold PayloadToBlockRef in Hlast. apply res_bind_ok in Hlast as ([o k] & _ & Hl). by injection Hl as <-.
Qed.

(** *** The invariant of a run *)

(** The heads that the L1 source announces: blocks of the chain, each the one before again
    or its child.  A head that skips a block makes the driver look for its heads anew. *)
Definition head_of_chain (h : L1BlockRef) : Prop :=
  l1_Hash h = c_hash c (l1_Number h) /\ l1_ParentHash h = c_hash c (l1_Number h - 1) /\
  c_has c (l1_Number h) /\ c_has c (l1_Number h - 1).
Fixpoint heads_extend (prev : Hash) (heads : list L1BlockRef) : Prop :=
  match heads with
  | [] => True
  | h :: heads => head_of_chain h /\ (l1_Hash h = prev \/ l1_ParentHash h = prev) /\
      heads_extend (l1_Hash h) heads
  end.
Definition announced (tr : list event) : list L1BlockRef :=
  omap (fun e => match e with EvOnL1Head h => Some h | _ => None end) tr.

Context (safe0 : L2BlockRef) (Hs0 : starts timeOf safe0).
#[local] Notation "'n0'" := (id_Number (l2_L1Origin safe0)).

(** The window buffer is a segment of the chain behind the derived epochs. *)
Definition safe_inv (s : state) : Prop :=
  exists k attrss payloads len, derived_to I safe0 (s_l2SafeHead s) k attrss payloads /\
    timeOf (l2_Hash (s_l2SafeHead s)) = l2_Time (s_l2SafeHead s) /\
    s_l1WindowBuf s = c_ids c (n0 + Z.of_nat k + 1) len /\ 0 <= len /\
    n0 + Z.of_nat k + len <= c_height c.

Lemma safe_inv_eq s s' :
  s_l2SafeHead s' = s_l2SafeHead s -> s_l1WindowBuf s' = s_l1WindowBuf s -> safe_inv s -> safe_inv s'.
Proof. unfold safe_inv. by intros -> ->. Qed.
Lemma safe_inv_drop s : safe_inv s -> safe_inv (set_l1WindowBuf [] s).
Proof.
  intros (k & attrss & payloads & len & Hd & Ht & _ & Hl & Hh). exists k, attrss, payloads, 0.
  split_and!; try done. lia.
Qed.

Lemma safe_inv_end s : safe_inv s -> exists k attrss payloads len,
  derived_to I safe0 (s_l2SafeHead s) k attrss payloads /\
  timeOf (l2_Hash (s_l2SafeHead s)) = l2_Time (s_l2SafeHead s) /\
  s_l1WindowBuf s = c_ids c (n0 + Z.of_nat k + 1) len /\ 0 <= len /\
  n0 + Z.of_nat k + len <= c_height c /\ l1WindowBufEnd s = c_id c (n0 + Z.of_nat k + len).
Proof.
  intros (k & attrss & payloads & len & Hd & Ht & Hw & Hl & Hh). exists k, attrss, payloads, len.
  split_and!; try done. unfold l1WindowBufEnd. rewrite Hw, (dt_origin _ _ _ _ _ _ Hd).
  pose proof (c_ids_last c (n0 + Z.of_nat k + 1) len Hl) as E. revert E.
  replace (n0 + Z.of_nat k + 1 - 1) with (n0 + Z.of_nat k) by lia.
  replace (n0 + Z.of_nat k + 1 + len - 1) with (n0 + Z.of_nat k + len) by lia.
  by destruct (last _).
Qed.

(** More blocks behind the end of the window. *)
Lemma safe_inv_extend s len' nexts : safe_inv s -> 0 <= len' ->
  (forall m, l1WindowBufEnd s = c_id c m -> nexts = c_ids c (m + 1) len' /\ m + len' <= c_height c) ->
  safe_inv (set_l1WindowBuf (s_l1WindowBuf s ++ nexts) s).
Proof.
  intros Hs Hl' Hn. apply safe_inv_end in Hs as (k & attrss & payloads & len & Hd & Ht & Hw & Hl & Hh & He).
  apply Hn in He as [-> He]. exists k, attrss, payloads, (len + len'). split_and!; try done; [|lia..].
  cbn. rewrite Hw, c_ids_app by lia. do 2 f_equal; lia.
Qed.

Lemma handleNewL1Block_safe h s (w : W) r s' w' :
  head_of_chain h -> l1_Hash h = l1_Hash (s_l1Head s) \/ l1_ParentHash h = l1_Hash (s_l1Head s) ->
  handleNewL1Block fuel config h (s, w) = (r, (s', w')) -> safe_inv s ->
  safe_inv s' /\ l1_Hash (s_l1Head s') = l1_Hash h.
Proof.
  intros (Hh & Hp & Hhas & Hhas') Hext E Hs.
  apply handleNewL1Block_child in E as [[-> He]|[_ ->]]; [by rewrite He|..|done].
  split; [|done]. destruct (Z.eqb_spec (id_Hash (l1WindowBufEnd s)) (l1_ParentHash h)) as [He|];
    [|by eapply safe_inv_eq].
  eapply safe_inv_eq; [..|apply (safe_inv_extend _ 1 [L1BlockRef_ID h] Hs)]; [done..|lia|].
  destruct (safe_inv_end _ Hs) as (k & _ & _ & len & _ & _ & _ & Hl & Hle & Hend).
  intros m Hm. rewrite Hend in Hm. injection Hm as _ <-. rewrite Hend, Hp in He.
  pose proof (st_has _ _ Hs0) as [? ?].
  apply (can_inj _ Hcan) in He; [|unfold c_has; lia|done].
  rewrite He, c_ids_cons by lia. unfold c_has in *. split; [|lia].
  unfold L1BlockRef_ID. rewrite Hh. unfold c_id, c_ids. cbn. do 3 f_equal; lia.
Qed.

Lemma handleEpoch_safe s (w : W) r s' w' :
  handleEpoch config (s, w) = (r, (s', w')) -> kept fin I (s, w) -> safe_inv s -> safe_inv s'.
Proof.
  intros E [Hf Hw] Hs. cbn in Hf, Hw.
  apply handleEpoch_outcome in E as [->|(window & w1 & Hwin & E)]; [done| |done].
  assert (Hl : safe_inv (set_l1WindowBuf window s) /\ I w1).
  { destruct Hwin as [[-> ->]|(nexts & Hr & ->)]; [by destruct s|].
    pose proof (ok_keeps _ _ _ Hok) as (_ & _ & _ & _ & HL1 & _).
    split; [|by eapply preserves_run]. apply (reads_intro I) in Hr; [|done].
    destruct (safe_inv_end _ Hs) as (k & _ & _ & len & _ & _ & _ & Hl & Hle & Hend).
    pose proof (st_has _ _ Hs0) as [? ?]. rewrite Hend in Hr.
    apply (ok_range _ _ _ Hok) in Hr as (len' & -> & Hl' & Hh); [|unfold c_has; lia].
    apply (safe_inv_extend _ len'); [done..|]. intros m Hm. rewrite Hend in Hm. by injection Hm as _ <-. }
  destruct Hl as [Hl Hw1]. destruct E as [->|[->|E]]; [done|by apply safe_inv_drop|].
  destruct E as (head & safe & reorg & in0 & rest & w2 & Ew & Hlen & Eo & _ & ->).
  destruct Hl as (k & attrss & payloads & len & Hd & Ht & Hbuf & Hl & Hh).
  pose proof (st_has _ _ Hs0) as [? ?]. rewrite Hbuf in Hlen, Eo, Ew. rewrite c_ids_zlen in Hlen by done.
  rewrite c_ids_take in Eo by lia. cbn in Ht, Eo. rewrite Hf in Eo.
  apply insertEpoch_epoch in Eo as (attrss' & payloads' & p & Ee & Hch & Hans & Hp & Hph & Hpt & Ho); [|done|lia..|done].
  rewrite c_ids_cons in Ew by lia. injection Ew as <- <-.
  pose proof Hd as [Dc Dch Da Dh Dt Do _]. cbn in Dh, Dt, Do.
  exists (k + 1)%nat, (attrss ++ attrss'), (payloads ++ payloads'), (len - 1). split_and!; [split|..]; cbn.
  - rewrite derive_chain_app, Dc. cbn [mbind res_bind].
    rewrite derive_chain_one, <-Dt. replace (n0 + 1 + Z.of_nat k) with (n0 + Z.of_nat k + 1) by lia.
    by rewrite Ee.
  - apply chained_app; [done|]. by rewrite <-Dh.
  - by apply Forall_app.
  - rewrite last_app, Hp. done.
  - rewrite last_time_app, Hpt. by eapply chained_last_time.
  - rewrite Ho. f_equal. lia.
  - right. rewrite Ho. cbn. lia.
  - rewrite Hph, Hpt. symmetry. apply (ok_answer _ _ _ Hok). rewrite Forall_forall in Hans.
    apply Hans. by apply last_Some_elem_of.
  - f_equal. lia.
  - lia.
  - lia.
Qed.

Lemma heads_extend_app prev l1 l2 :
  heads_extend prev (l1 ++ l2) <->
  heads_extend prev l1 /\ heads_extend (from_option l1_Hash prev (last l1)) l2.
Proof.
  revert prev. induction l1 as [|h l1 IH]; intros prev; [cbn; tauto|].
  cbn [app heads_extend]. rewrite IH, last_cons. destruct (last l1); cbn; tauto.
Qed.
Lemma announced_snoc tr e :
  announced (tr ++ [e]) = announced tr ++ match e with EvOnL1Head h => [h] | _ => [] end.
Proof. unfold announced. rewrite omap_app. by destruct e. Qed.

(** The heads taken from the channel so far, and those still in it. *)
Definition heads_inv (s0 : state) (tr : list event) (l : loop_state (W:=W)) : Prop :=
  exists past, announced tr = past ++ lp_l1Heads l /\
    l1_Hash (s_l1Head (lp_state l)) = from_option l1_Hash (l1_Hash (s_l1Head s0)) (last past).

Lemma heads_inv_keep s0 tr e l (l' : loop_state (W:=W)) :
  s_l1Head (lp_state l') = s_l1Head (lp_state l) ->
  (lp_l1Heads l' = lp_l1Heads l /\ (forall h, e <> EvOnL1Head h) \/
   exists h, e = EvOnL1Head h /\ lp_l1Heads l' = lp_l1Heads l ++ [h]) ->
  heads_inv s0 tr l -> heads_inv s0 (tr ++ [e]) l'.
Proof.
  intros Hs Hq (past & Ha & Hh). exists past. rewrite announced_snoc, Ha, Hs. split; [|done].
  destruct Hq as [[-> Hne]|(h & -> & ->)]; [|by rewrite (assoc_L (++))].
  destruct e; rewrite ?app_nil_r; try done. by destruct (Hne head).
Qed.

(** What the sequencer and the network do: at most the unsafe head moves. *)
Lemma run_safe_unsafe s0 tr e l (l' : loop_state (W:=W)) :
  lp_state l' = lp_state l \/ (exists ref, lp_state l' = set_l2Head ref (lp_state l)) ->
  lp_l1Heads l' = lp_l1Heads l -> (forall h, e <> EvOnL1Head h) ->
  safe_inv (lp_state l) /\ heads_inv s0 tr l -> safe_inv (lp_state l') /\ heads_inv s0 (tr ++ [e]) l'.
Proof.
  intros Hs Hq He [IHs IHh]. split; [destruct Hs as [->|[ref ->]]; [done|by eapply safe_inv_eq]|].
  apply (heads_inv_keep _ _ _ l); [by destruct Hs as [->|[ref ->]]|by left|done].
Qed.

Lemma handleEpoch_l1Head s (w : W) r s' w' :
  handleEpoch config (s, w) = (r, (s', w')) -> s_l1Head s' = s_l1Head s.
Proof.
  intros E. apply handleEpoch_outcome in E as [->|(window & w1 & _ & E)]; [done| |done].
  destruct E as [->|[->|(?&?&?&?&?&?&_&_&_&_&->)]]; done.
Qed.

Lemma run_safe s0 w0 tr l :
  s_l1WindowBuf s0 = [] -> s_l2SafeHead s0 = safe0 -> s_l2Finalized s0 = fin -> I w0 ->
  reachable fuel config sequencer s0 w0 tr l ->
  heads_extend (l1_Hash (s_l1Head s0)) (announced tr) ->
  (safe_inv (lp_state l) /\ heads_inv s0 tr l) /\ kept fin I (lp_state l, lp_world l).
Proof.
  intros Hw Hsafe Hfin Hw0 Hr Hext.
  revert Hext. induction Hr as [|tr l e l' Hr IH Hstep]; intros Hext.
  { split; [|done]. split; [|by exists []]. exists 0%nat, [], [], 0. cbn. rewrite Hw, Hsafe.
    split_and!; [by apply derived_to_start|apply Hs0|done|done|].
    pose proof (st_has _ _ Hs0) as [? ?]. lia. }
  rewrite announced_snoc in Hext. apply heads_extend_app in Hext as [Hext _].
  destruct (IH Hext) as [[IHs IHh] IHk].
  split; [|by eapply loop_step_kept; [apply Hok|..]].
  apply loop_step_state in Hstep as [(Hs & Hq)|[(-> & Hq & Hs)|[(p & rest & -> & _ & Hq & Hs)|
    [(h & rest & -> & Hl & Hq & Hs)|(-> & Hq & Hs)]]]].
  - injection Hs as Hs _. split; [by rewrite Hs|]. apply (heads_inv_keep _ _ _ l); [by rewrite Hs|done..].
  - destruct (createNewL2Block _ _) as [r [s' w']] eqn:Ec. injection Hs as Hs _.
    apply (run_safe_unsafe _ _ _ l); [rewrite Hs|done..].
    apply createNewL2Block_outcome in Ec as [->|(? & ref & ? & ? & ? & ? & _ & _ & _ & _ & ->)]; [by left|].
    right. by exists ref.
  - destruct (handleUnsafeL2Payload _ _ _) as [r [s' w']] eqn:Ec. injection Hs as Hs _.
    apply (run_safe_unsafe _ _ _ l); [rewrite Hs|done..].
    apply handleUnsafeL2Payload_outcome in Ec as [->|(ref & _ & _ & _ & ->)]; [by left|].
    right. by exists ref.
  - destruct (handleNewL1Block _ _ _ _) as [r [s' w']] eqn:Ec. injection Hs as Hs _. rewrite Hs.
    destruct IHh as (past & Ha & Hh). rewrite Ha, Hl in Hext. apply heads_extend_app in Hext as [_ (Hc & He & _)].
    rewrite <-Hh in He. apply handleNewL1Block_safe in Ec as [Hs' Hh']; [|done..]. split; [done|].
    exists (past ++ [h]). rewrite announced_snoc, Ha, Hl, Hq, Hs, last_snoc, app_nil_r, <-(assoc_L (++)). done.
  - destruct (handleEpoch _ _) as [r [s' w']] eqn:Ec. injection Hs as Hs _. rewrite Hs.
    split; [by eapply handleEpoch_safe; [exact Ec|..]|].
    apply (heads_inv_keep _ _ _ l); [rewrite Hs|by left|done].
    by eapply handleEpoch_l1Head.
Qed.
End Node.

(** ** The theorems *)
Section Theorems.
Context `{Keccak} `{GethLaws} `{RLP}.
Context (fuel : nat) (config : Config) (c : CanonicalL1) (Hcan : canonical c).
Context (HW : 1 <= cfg_SeqWindowSize config < 2 ^ 63) (Hbt : 0 < cfg_BlockTime config < 2 ^ 62).
Context (Hfuel : Z.of_nat fuel < 2 ^ 63).

(** Payloads of one engine that realise the same attributes as the other's have the same hash. *)
Definition same_blocks {W1 W2} `{!Engine W1} `{!Engine W2} (I1 : W1 -> Prop) (I2 : W2 -> Prop) : Prop :=
  forall attrs parent p q,
    engine_answer I1 p -> engine_answer I2 q ->
    attributes_match attrs parent p -> attributes_match attrs parent q ->
    pl_BlockHash p = pl_BlockHash q.

Lemma chained_same_hashes {W1 W2} `{!Engine W1} `{!Engine W2} (I1 : W1 -> Prop) (I2 : W2 -> Prop)
    parent a b p q :
  same_blocks I1 I2 -> a `prefix_of` b -> chained parent a p -> chained parent b q ->
  Forall (engine_answer I1) p -> Forall (engine_answer I2) q ->
  (pl_BlockHash <$> p) `prefix_of` (pl_BlockHash <$> q).
Proof.
  intros Hsame Hab. revert parent b p q Hab. induction a as [|x a IH]; intros parent b p q Hab Hp Hq Ap Aq.
  { destruct p; [apply prefix_nil|done]. }
  destruct b as [|y b]; [by apply prefix_nil_inv in Hab|].
  destruct (prefix_cons_inv_1 _ _ _ _ Hab). apply prefix_cons_inv_2 in Hab.
  destruct p as [|p ps]; [done|]. destruct q as [|q qs]; [done|].
  destruct Hp as [Mp Hp], Hq as [Mq Hq]. apply Forall_cons in Ap as [Ap0 Ap]. apply Forall_cons in Aq as [Aq0 Aq].
  pose proof (Hsame _ _ _ _ Ap0 Aq0 Mp Mq) as Hh. cbn. rewrite <-Hh in Hq |- *.
  apply prefix_cons. by eapply IH.
Qed.

Lemma last_hash h p :
  from_option pl_BlockHash h (last p) = from_option id h (last (pl_BlockHash <$> p)).
Proof. rewrite fmap_last. by destruct (last p). Qed.

(** A run of a node on this L1: the driver of state.go with the output step of step.go. *)
Record node_run {W} `{!Engine W} `{!Downloader W} `{!DriverL1 W} `{!DriverL2 W} `{!Network W}
    (sequencer : bool) (I : W -> Prop) (timeOf : Hash -> uint64) (s0 : state) (w0 : W) (tr : list event)
    (l : loop_state (W:=W)) : Prop := {
  nr_services : node_ok config c (id_Hash (s_l2Finalized s0)) I timeOf;
  nr_world : I w0;
  nr_starts : starts c timeOf (s_l2SafeHead s0);
  nr_window : s_l1WindowBuf s0 = [];
  nr_heads : heads_extend c (l1_Hash (s_l1Head s0)) (announced tr);
  nr_reached : @reachable W _ _ _ (node_output fuel config) _ fuel config sequencer s0 w0 tr l;
}.

Lemma node_run_derived {W} `{!Engine W} `{!Downloader W} `{!DriverL1 W} `{!DriverL2 W} `{!Network W}
    sequencer I timeOf s0 (w0 : W) tr l :
  node_run sequencer I timeOf s0 w0 tr l ->
  I (lp_world l) /\ exists k attrss payloads,
    derived_to fuel config c I (s_l2SafeHead s0) (s_l2SafeHead (lp_state l)) k attrss payloads.
Proof.
  intros [Hok Hi Hs Hw Hh Hr].
  destruct (run_safe fuel config sequencer c _ I timeOf Hcan Hok HW Hbt Hfuel _ Hs _ _ _ _ Hw eq_refl eq_refl Hi Hr Hh)
    as [[(k & attrss & payloads & len & Hd & _) _] [_ Hwl]].
  split; [exact Hwl|]. by exists k, attrss, payloads.
Qed.

(** [C1] The safe chain is derived from L1.  Take any run of a node, sequencer or verifier,
    on an L1 chain whose heads it follows, with L1 and engine calls that may fail at any
    time, any payloads from the network and any sequencing: the safe head is at the end of
    the blocks that [derive_chain] gives for some number of epochs, realised one on the
    other from the first safe head; its L1 origin is that many L1 blocks further, with a
    complete sequencing window on L1; and the window buffer holds the L1 blocks behind it. *)
Theorem safe_chain_derived {W} `{!Engine W} `{!Downloader W} `{!DriverL1 W} `{!DriverL2 W} `{!Network W}
    sequencer I timeOf s0 (w0 : W) tr l :
  node_run sequencer I timeOf s0 w0 tr l ->
  let safe := s_l2SafeHead (lp_state l) in
  exists k attrss payloads len,
    derived_to fuel config c I (s_l2SafeHead s0) safe k attrss payloads /\
    s_l1WindowBuf (lp_state l) = c_ids c (id_Number (l2_L1Origin safe) + 1) len.
Proof.
  intros [Hok Hi Hs Hw Hh Hr].
  destruct (run_safe fuel config sequencer c _ I timeOf Hcan Hok HW Hbt Hfuel _ Hs _ _ _ _ Hw eq_refl eq_refl Hi Hr Hh)
    as [[(k & attrss & payloads & len & Hd & _ & Hwin & _) _] _].
  exists k, attrss, payloads, len. split; [done|]. by rewrite (dt_origin _ _ _ _ _ _ _ _ _ Hd).
Qed.

(** Two blocks with the same contents. *)
Definition same_contents (p q : ExecutionPayload) : Prop :=
  pl_Timestamp p = pl_Timestamp q /\ pl_PrevRandao p = pl_PrevRandao q /\
  pl_Transactions p = pl_Transactions q.
Lemma chained_contents h1 h2 a b p q i x y :
  a `prefix_of` b -> chained h1 a p -> chained h2 b q -> p !! i = Some x -> q !! i = Some y ->
  same_contents x y.
Proof.
  intros [b' ->]. revert h1 h2 p q i. induction a as [|at0 a IH]; intros h1 h2 [|p ps] [|q qs] i Hp Hq Ex Ey;
    try done.
  destruct Hp as [Mp Hp], Hq as [Mq Hq]. destruct i as [|i]; [|by eapply IH].
  injection Ex as ->. injection Ey as ->. unfold same_contents. destruct Mp as (_ & <- & <- & <-), Mq as (_ & <- & <- & <-).
  by split_and!.
Qed.

(** [C2] Two nodes agree.  Any two nodes on the same L1 chain that start from the same safe
    head, whatever their engines, their roles, the unsafe blocks they hear of, the order
    of their events and their failures: each safe chain is what [derive_chain] gives for
    its number of epochs, in blocks that node's engine answered, up to its safe head; block
    by block they have the same time, randomness and transactions, as far as the shorter
    one goes; and when the engines give the same attributes on the same parent the same
    block, the hashes of the one are a prefix of the other's, up to the safe heads. *)
Theorem nodes_agree {W1 W2}
    `{!Engine W1} `{!Downloader W1} `{!DriverL1 W1} `{!DriverL2 W1} `{!Network W1}
    `{!Engine W2} `{!Downloader W2} `{!DriverL1 W2} `{!DriverL2 W2} `{!Network W2}
    seq1 I1 time1 s1 (w1 : W1) tr1 l1 seq2 I2 time2 s2 (w2 : W2) tr2 l2 :
  node_run seq1 I1 time1 s1 w1 tr1 l1 -> node_run seq2 I2 time2 s2 w2 tr2 l2 ->
  s_l2SafeHead s1 = s_l2SafeHead s2 ->
  let safe0 := s_l2SafeHead s1 in
  let safe1 := s_l2SafeHead (lp_state l1) in let safe2 := s_l2SafeHead (lp_state l2) in
  id_Number (l2_L1Origin safe1) <= id_Number (l2_L1Origin safe2) ->
  exists k1 attrss1 payloads1 k2 attrss2 payloads2,
    derived_to fuel config c I1 safe0 safe1 k1 attrss1 payloads1 /\
    derived_to fuel config c I2 safe0 safe2 k2 attrss2 payloads2 /\
    (k1 <= k2)%nat /\ attrss1 `prefix_of` attrss2 /\ (length payloads1 <= length payloads2)%nat /\
    (forall i p q, payloads1 !! i = Some p -> payloads2 !! i = Some q -> same_contents p q) /\
    (same_blocks I1 I2 ->
      (pl_BlockHash <$> payloads1) `prefix_of` (pl_BlockHash <$> payloads2) /\
      (l2_L1Origin safe1 = l2_L1Origin safe2 -> l2_Hash safe1 = l2_Hash safe2)).
Proof.
  intros R1 R2 Hs safe0 safe1 safe2 Hle.
  destruct (node_run_derived _ _ _ _ _ _ _ R1) as (_ & k1 & a1 & p1 & D1).
  destruct (node_run_derived _ _ _ _ _ _ _ R2) as (_ & k2 & a2 & p2 & D2).
  rewrite <-Hs in D2. exists k1, a1, p1, k2, a2, p2. split; [exact D1|]. split; [exact D2|].
  destruct D1 as [C1 H1c A1 H1h _ O1 _], D2 as [C2 H2c A2 H2h _ O2 _]. subst safe1 safe2.
  rewrite O1, O2 in Hle |- *. cbn in Hle. assert (Hk : (k1 <= k2)%nat) by lia.
  assert (Hp : a1 `prefix_of` a2) by (by eapply derive_chain_prefix).
  split; [done|]. split; [done|].
  split; [rewrite <-(chained_length _ _ _ H1c), <-(chained_length _ _ _ H2c); by apply prefix_length|].
  split; [intros; by eapply chained_contents|]. intros Hsame.
  pose proof (chained_same_hashes _ _ _ _ _ _ _ Hsame Hp H1c H2c A1 A2) as Hh.
  split; [done|]. intros [= _ Hke]. assert (k2 = k1) as -> by lia.
  rewrite C1 in C2. injection C2 as ->.
  rewrite H1h, H2h, !last_hash. do 2 f_equal. apply prefix_length_eq; [done|].
  rewrite !length_fmap, <-(chained_length _ _ _ H1c), <-(chained_length _ _ _ H2c). done.
Qed.
End Theorems.

(** ** Witnesses: a verifier and a sequencer on a toy L1 of height 15 *)
Definition chain_block (n : Z) : @L1Block ToyGeth :=
  @mkL1Block ToyGeth (toy_l1 (n + 90)) [] (if n =? 11 then [(x02, toy_batch_data)] else []).
Definition chain_L1 : @CanonicalL1 ToyGeth := @mkCanonicalL1 ToyGeth 15 chain_block.
Definition chain_time (h : Hash) : uint64 := (1000 + 2 * (h - 200)) mod 2 ^ 62.

Definition chain_has (n : Z) : bool := (0 <=? n) && (n <=? 15).
Definition ChainDownloader : @Downloader ToyGeth ToyWorld := @Build_Downloader ToyGeth ToyWorld
  (fun h w => (if chain_has (h - 90) then Ok (toy_l1 h) else Err ENotFound, w))
  (fun h w => (if chain_has (h - 90) then Ok (toy_l1 h, lb_txs (chain_block (h - 90)), []) else Err ENotFound, w))
  (fun ids w => (Ok ((fun id => lb_txs (chain_block (id_Number id))) <$> ids), w)).
Definition ChainDriverL1 : DriverL1 ToyWorld := {|
  dl1_sync := @dl1_sync _ ToyDriverL1;
  L1BlockRefByHash := @L1BlockRefByHash _ ToyDriverL1;
  L1Range := fun base max =>
    mret (@c_ids ToyGeth chain_L1 (id_Number base + 1) (Z.max 0 (Z.min max (12 - id_Number base))));
|}.

(** No assumption on the worlds. *)
Definition any (w : ToyWorld) : Prop := True.

(** The toy engine, which only answers with blocks whose hash is one more than their
    parent's and whose time is the one that hash commits to. *)
Definition held (p : ExecutionPayload) : bool :=
  (pl_Timestamp p =? chain_time (pl_BlockHash p)) && negb (pl_BlockNumber p =? 0) &&
  (pl_BlockHash p =? pl_ParentHash p + 1).
Definition checked (ok : ExecutionPayload -> bool) (m : M ToyWorld ExecutionPayload) : M ToyWorld ExecutionPayload :=
  p ← m; if ok p then mret p else throw ENotFound.
Definition ChainEngine : Engine ToyWorld := {|
  eng_GetPayload := fun id => checked held (@eng_GetPayload _ ToyEngine id);
  eng_ForkchoiceUpdate := @eng_ForkchoiceUpdate _ ToyEngine;
  eng_NewPayload := @eng_NewPayload _ ToyEngine;
  eng_PayloadByHash := fun h => checked (fun p => pl_Timestamp p =? chain_time h) (@eng_PayloadByHash _ ToyEngine h);
  eng_PayloadByNumber := fun n => checked held (@eng_PayloadByNumber _ ToyEngine n);
|}.

Lemma checked_ok ok m (w : ToyWorld) p w' : checked ok m w = (Ok p, w') -> ok p = true /\ m w = (Ok p, w').
Proof.
  unfold checked. intros E. apply M_bind_ok in E as (q & w1 & E1 & E).
  destruct (ok q) eqn:Eq; [|done]. by injection E as <- <-.
Qed.

Lemma chain_canonical : @canonical ToyGeth chain_L1.
Proof.
  split; [cbn; lia| |intros n m _ _ E; cbn in E; lia].
  intros n [Hn1 Hn2]. cbn in Hn2. split; [|cbn; lia]. unfold L1Info_ok, in_range. cbn. lia.
Qed.

Lemma chain_has_true n : @c_has ToyGeth chain_L1 n -> chain_has (n + 90 - 90) = true.
Proof. unfold c_has, chain_has. cbn. intros ?. lia. Qed.

Lemma chain_answer p : @engine_answer ToyWorld ChainEngine any p ->
  pl_Timestamp p = chain_time (pl_BlockHash p) /\ pl_BlockNumber p <> 0 /\
  pl_BlockHash p = pl_ParentHash p + 1.
Proof.
  intros Hp. assert (Hh : held p = true).
  { destruct Hp as [(i & w & w' & _ & E)|(n & w & w' & _ & E)]; by apply checked_ok in E as [? _]. }
  unfold held in Hh. rewrite !andb_true_iff, negb_true_iff, !Z.eqb_eq, Z.eqb_neq in Hh. tauto.
Qed.
Lemma chain_same_blocks : @same_blocks ToyWorld ToyWorld ChainEngine ChainEngine any any.
Proof.
  intros attrs parent p q (_ & _ & Hp)%chain_answer (_ & _ & Hq)%chain_answer (Ep & _) (Eq & _). congruence.
Qed.

Lemma chain_ok D : @node_ok ToyGeth ToyWorld ChainEngine ChainDownloader ChainDriverL1
  D ToyNetwork toy_config chain_L1 0 any chain_time.
Proof.
  split.
  - repeat split.
  - intros fc attrs w r w1 i p w2 _ E1 Ei E2 Hn. apply checked_ok in E2 as [_ E2].
    by eapply (toy_engine_builds fc attrs w); [exact I|..].
  - intros h. unfold in_range, chain_time. pose proof (Z.mod_pos_bound (1000 + 2 * (h - 200)) (2 ^ 62)). lia.
  - intros p Hp. apply chain_answer in Hp as (Ht & Hn & _). done.
  - intros h p (w & w' & _ & E). apply checked_ok in E as [E%Z.eqb_eq _]. done.
  - intros n i t r Hn (w & w' & _ & E). cbn in E. rewrite chain_has_true in E by done. by injection E as <- <- <- <-.
  - intros n i Hn (w & w' & _ & E). cbn in E. rewrite chain_has_true in E by done. by injection E as <- <-.
  - intros n len l _ _ (w & w' & _ & E). cbn in E. injection E as <- _. unfold c_ids. by rewrite <-list_fmap_compose.
  - intros n max ids [_ Hn] (w & w' & _ & E). cbn in E. injection E as <- _. cbn in Hn. eexists. split; [done|]. cbn. lia.
Qed.

Lemma chain_starts : @starts ToyGeth chain_L1 chain_time toy_l2_genesis.
Proof. split; [reflexivity|unfold c_has; cbn; lia|vm_compute; reflexivity]. Qed.

Section ChainRun.
#[local] Existing Instance ToyGeth.
#[local] Existing Instance ToyNetwork.
#[local] Existing Instance ToyDriverL2.
#[local] Existing Instance ChainDriverL1.
Definition chain_output : Output ToyWorld :=
  @node_output ToyKeccak ToyGeth ToyRLP ToyWorld ChainEngine ChainDownloader 10 toy_config.
#[local] Existing Instance chain_output.

Definition chain_step (seqr : bool) (e : event) (l : loop_state) : loop_state :=
  from_option id l (loop_step 10 toy_config seqr e l).
Definition chain_start : loop_state := loop_start toy_state toy_world.

(** The verifier derives the epoch of block 11; the sequencer has made a block of its own
    before, and derives the next epoch too when block 13 is announced. *)
Definition verifier_end := chain_step false EvStepReq chain_start.
Definition sequencer_1 := chain_step true EvTick chain_start.
Definition sequencer_2 := chain_step true EvCreationReq sequencer_1.
Definition sequencer_3 := chain_step true EvStepReq sequencer_2.
Definition sequencer_4 := chain_step true (EvOnL1Head toy_head) sequencer_3.
Definition sequencer_5 := chain_step true EvL1Head sequencer_4.
Definition sequencer_end := chain_step true EvStepReq sequencer_5.

Lemma verifier_run :
  @node_run ToyKeccak ToyGeth ToyRLP 10 toy_config chain_L1 ToyWorld ChainEngine ChainDownloader
    ChainDriverL1 ToyDriverL2 ToyNetwork false any chain_time toy_state toy_world [EvStepReq] verifier_end.
Proof.
  split; [exact (chain_ok _)|exact I|exact chain_starts|reflexivity|done|].
  apply (reach_step _ _ _ _ _ [] chain_start EvStepReq); [constructor|vm_compute; reflexivity].
Qed.

Definition sequencer_trace : list event :=
  [EvTick; EvCreationReq; EvStepReq; EvOnL1Head toy_head; EvL1Head; EvStepReq].
Lemma sequencer_run :
  @node_run ToyKeccak ToyGeth ToyRLP 10 toy_config chain_L1 ToyWorld ChainEngine ChainDownloader
    ChainDriverL1 ToyDriverL2 ToyNetwork true any chain_time toy_state toy_world sequencer_trace sequencer_end.
Proof.
  split; [exact (chain_ok _)|exact I|exact chain_starts|reflexivity| |].
  { cbn. split; [|split; [by right|done]]. unfold head_of_chain, c_has. cbn. split_and!; lia. }
  apply (reach_step _ _ _ _ _ [EvTick; EvCreationReq; EvStepReq; EvOnL1Head toy_head; EvL1Head]
    sequencer_5 EvStepReq); [|vm_compute; reflexivity].
  apply (reach_step _ _ _ _ _ [EvTick; EvCreationReq; EvStepReq; EvOnL1Head toy_head] sequencer_4 EvL1Head);
    [|vm_compute; reflexivity].
  apply (reach_step _ _ _ _ _ [EvTick; EvCreationReq; EvStepReq] sequencer_3 (EvOnL1Head toy_head));
    [|vm_compute; reflexivity].
  apply (reach_step _ _ _ _ _ [EvTick; EvCreationReq] sequencer_2 EvStepReq); [|vm_compute; reflexivity].
  apply (reach_step _ _ _ _ _ [EvTick] sequencer_1 EvCreationReq); [|vm_compute; reflexivity].
  apply (reach_step _ _ _ _ _ [] chain_start EvTick); [constructor|vm_compute; reflexivity].
Qed.

(** The sequencer's safe head is the end of two derived epochs, its own unsafe block is
    gone, and block 13 is left in the window. *)
Lemma safe_chain_derived_witness :
  l2_Number (s_l2SafeHead (lp_state sequencer_end)) = 7 /\
  exists k attrss payloads len,
    @derived_to ToyKeccak ToyGeth ToyRLP ToyWorld ChainEngine 10 toy_config chain_L1 any
      toy_l2_genesis (s_l2SafeHead (lp_state sequencer_end)) k attrss payloads /\
    [mkBlockID 103 13] = @c_ids ToyGeth chain_L1 13 len.
Proof.
  split; [vm_compute; reflexivity|].
  refine (@safe_chain_derived ToyKeccak ToyGeth ToyGethLaws ToyRLP 10 toy_config chain_L1 chain_canonical
    _ _ _ ToyWorld ChainEngine ChainDownloader ChainDriverL1 ToyDriverL2 ToyNetwork
    _ _ _ _ _ _ _ sequencer_run); cbn; lia.
Defined.

Lemma nodes_agree_witness :
  l2_Hash (s_l2SafeHead (lp_state verifier_end)) = 204 /\
  l2_Hash (s_l2SafeHead (lp_state sequencer_end)) = 207 /\
  exists k1 attrss1 payloads1 payloads2,
    @derived_to ToyKeccak ToyGeth ToyRLP ToyWorld ChainEngine 10 toy_config chain_L1 any
      toy_l2_genesis (s_l2SafeHead (lp_state verifier_end)) k1 attrss1 payloads1 /\
    (forall i p q, payloads1 !! i = Some p -> payloads2 !! i = Some q -> same_contents p q) /\
    (pl_BlockHash <$> payloads1) `prefix_of` (pl_BlockHash <$> payloads2) /\
    204 = from_option pl_BlockHash 200 (last payloads1) /\
    207 = from_option pl_BlockHash 200 (last payloads2).
Proof.
  split; [vm_compute; reflexivity|]. split; [vm_compute; reflexivity|].
  destruct (@nodes_agree ToyKeccak ToyGeth ToyGethLaws ToyRLP 10 toy_config chain_L1 chain_canonical
    ltac:(cbn; lia) ltac:(cbn; lia) ltac:(cbn; lia)
    ToyWorld ToyWorld ChainEngine ChainDownloader ChainDriverL1 ToyDriverL2 ToyNetwork
    ChainEngine ChainDownloader ChainDriverL1 ToyDriverL2 ToyNetwork
    _ _ _ _ _ _ _ _ _ _ _ _ _ _ verifier_run sequencer_run eq_refl)
    as (k1 & a1 & p1 & k2 & a2 & p2 & D1 & D2 & _ & _ & _ & Hc & Hh); [vm_compute; discriminate|].
  exists k1, a1, p1, p2. split; [exact D1|]. split; [exact Hc|]. split; [apply Hh, chain_same_blocks|]. split.
  - exact (dt_hash _ _ _ _ _ _ _ _ _ D1).
  - exact (dt_hash _ _ _ _ _ _ _ _ _ D2).
Defined.
End ChainRun.
