(* ===== verification/Startup.v ===== *)
(** * Starting and restarting a node

    What [Start] of op-node/rollup/driver/state.go makes of the chains it finds, together
    with the run that follows: a node with a new engine and a verifier with the chain of an
    earlier run have safe heads that the L1 chain derives from the genesis block; a node
    that restarts with unsafe blocks may not. *)

From S2P Require Import Prelude Types Geth L1Info Deposits Batches L2Source Sync Step DriverState Rollup.

Section Startup.
Context `{Keccak} `{GethLaws} `{RLP} {W : Type} `{!Engine W} `{!Downloader W}.
Context `{!DriverL1 W} `{!DriverL2 W} `{!Network W}.
Context (fuel : nat) (config : Config) (c : CanonicalL1).
#[local] Instance started_output : Output W := node_output fuel config.
#[local] Notation "'gen'" := (cfg_Genesis config).

(** ** What [Start] does *)
Lemma Start_inv s0 (w : W) s w' :
  Start fuel config (s0, w) = (Ok tt, (s, w')) ->
  exists head w1, L1HeadBlockRef w = (Ok head, w1) /\
    ((id_Number (gen_L1 gen) < l1_Number head /\
      exists l2Head w2 unsafe safe, l2_L2BlockRefByNumber None w1 = (Ok l2Head, w2) /\
        FindL2Heads fuel l2Head (cfg_SeqWindowSize config) gen w2 = (Ok (unsafe, safe), w') /\
        s = mkState head unsafe safe (s_l2Finalized s0) (s_l1WindowBuf s0)) \/
     (l1_Number head <= id_Number (gen_L1 gen) /\ w' = w1 /\
        s = mkState head (genesis_ref gen) (genesis_ref gen) (s_l2Finalized s0) (s_l1WindowBuf s0))).
Proof.
  unfold Start, mbind, M_bind, modify, call, mret, M_ret. cbn [fst snd]. intros E.
  destruct (L1HeadBlockRef w) as [[head| | |] w1]; try discriminate E. exists head, w1. split; [done|].
  destruct (Z.ltb_spec (id_Number (gen_L1 gen)) (l1_Number head)); cbn in E.
  - destruct (l2_L2BlockRefByNumber None w1) as [[l2Head| | |] w2]; try discriminate E.
    left. split; [done|]. exists l2Head, w2. cbn in E.
    destruct (FindL2Heads fuel l2Head _ gen w2) as [[[u sf]| | |] w3]; try discriminate E.
    injection E as <- <-. by exists u, sf.
  - right. by injection E as <- <-.
Qed.

(** From the genesis block, FindL2Heads finds only genesis. *)
Lemma FindL2Heads_genesis g unsafe safe (w : W) w' :
  2 <= cfg_SeqWindowSize config -> is_genesis gen g = true ->
  FindL2Heads fuel g (cfg_SeqWindowSize config) gen w = (Ok (unsafe, safe), w') ->
  unsafe = g /\ safe = genesis_ref gen.
Proof.
  intros HW Hg E. unfold FindL2Heads in E. apply M_bind_ok in E as ([[n prev] high] & w1 & E1 & E2).
  destruct fuel as [|f]; [done|]. cbn [FindL2Heads_loop1] in E1.
  apply M_bind_ok in E1 as ([[stop p] h] & w2 & E1 & E3). rewrite Hg in E3.
  destruct stop; [|done]. injection E3 as <- <- <- <-.
  destruct (negb _); [|done]. apply M_bind_ok in E1 as ([pl can] & w3 & _ & E1).
  destruct pl; [|done]. injection E1 as -> <- <- <-.
  cbn [FindL2Heads_loop2] in E2. rewrite Z.eqb_refl in E2. cbn [negb] in E2.
  rewrite (proj2 (Z.eqb_neq 1 _)) in E2 by lia. rewrite Hg in E2. cbn in E2.
  by injection E2 as <- <- <-.
Qed.

Context (I : W -> Prop) (timeOf : Hash -> uint64).
Context (Hcan : canonical c) (Hok : node_ok config c 0 I timeOf).
Context (HW : 2 <= cfg_SeqWindowSize config < 2 ^ 63) (Hbt : 0 < cfg_BlockTime config < 2 ^ 62).
Context (Hfuel : Z.of_nat fuel < 2 ^ 63) (Hgen : starts c timeOf (genesis_ref gen)).
Context (Hlatest : preserves I (l2_L2BlockRefByNumber None)).

Lemma Start_keeps (w : W) s w' : I w -> Start fuel config (NewState, w) = (Ok tt, (s, w')) -> I w'.
Proof.
  intros Hw E. pose proof (ok_keeps _ _ _ _ _ Hok) as HI. pose proof HI as (_ & Hhead & _).
  apply Start_inv in E as (head & w1 & E1 & [(_ & l2 & w2 & u & sf & E2 & E3 & _)|(_ & -> & _)]).
  - eapply preserves_run; [by apply (FindL2Heads_preserves zeroBlockID)| |exact E3].
    eapply preserves_run; [exact Hlatest| |exact E2]. by eapply preserves_run; [exact Hhead|..].
  - by eapply preserves_run; [exact Hhead|..].
Qed.

(** The run that follows a start. *)
Lemma started_run_derived sequencer s (w : W) tr l :
  I w -> s_l1WindowBuf s = [] -> s_l2Finalized s = zeroBlockID -> starts c timeOf (s_l2SafeHead s) ->
  reachable fuel config sequencer s w tr l ->
  heads_extend c (l1_Hash (s_l1Head s)) (announced tr) ->
  exists k attrss payloads len,
    derived_to fuel config c I (s_l2SafeHead s) (s_l2SafeHead (lp_state l)) k attrss payloads /\
    s_l1WindowBuf (lp_state l) =
      c_ids c (id_Number (l2_L1Origin (s_l2SafeHead (lp_state l))) + 1) len.
Proof.
  intros Hw Hbuf Hfin Hs Hr Hext.
  destruct (run_safe fuel config sequencer c zeroBlockID I timeOf Hcan Hok ltac:(lia) Hbt Hfuel _ Hs _ _ _ _
    Hbuf eq_refl Hfin Hw Hr Hext) as [[(k & attrss & payloads & len & Hd & _ & Hwin & _) _] _].
  exists k, attrss, payloads, len. split; [done|]. by rewrite (dt_origin _ _ _ _ _ _ _ _ _ Hd).
Qed.

(** [C6] A new node.  A node that starts with an engine whose latest block is the genesis
    block: if [Start] succeeds, then in any run from there the safe head is at the end of
    the blocks that the L1 chain derives from genesis for some number of epochs. *)
Theorem fresh_node_derived sequencer (w : W) s w1 tr l :
  (forall b, reads I (l2_L2BlockRefByNumber None) b -> is_genesis gen b = true) ->
  I w -> Start fuel config (NewState, w) = (Ok tt, (s, w1)) ->
  reachable fuel config sequencer s w1 tr l ->
  heads_extend c (l1_Hash (s_l1Head s)) (announced tr) ->
  exists k attrss payloads len,
    derived_to fuel config c I (genesis_ref gen) (s_l2SafeHead (lp_state l)) k attrss payloads /\
    s_l1WindowBuf (lp_state l) =
      c_ids c (id_Number (l2_L1Origin (s_l2SafeHead (lp_state l))) + 1) len.
Proof.
  intros Hnew Hw E Hr Hext. assert (Hw1 : I w1) by (by eapply Start_keeps).
  assert (Hs : s_l2SafeHead s = genesis_ref gen /\ s_l1WindowBuf s = [] /\ s_l2Finalized s = zeroBlockID).
  { apply Start_inv in E as (head & w2 & E1 & [(_ & l2 & w3 & u & sf & E2 & E3 & ->)|(_ & _ & ->)]); [|done].
    pose proof (ok_keeps _ _ _ _ _ Hok) as (_ & Hhead & _).
    assert (Hl2 : is_genesis gen l2 = true).
    { apply Hnew. exists w2, w3. split; [|done]. by apply (preserves_run _ _ _ _ _ Hhead Hw E1). }
    by apply FindL2Heads_genesis in E3 as [_ ->]; [|lia|]. }
  destruct Hs as (Hs & Hbuf & Hfin). rewrite <-Hs. rewrite <-Hs in Hgen.
  by eapply started_run_derived.
Qed.

(** ** A verifier that restarts *)

(** The L2 blocks of the first [k] epochs that L1 derives from genesis. *)
Record derived_blocks (k : nat) (attrss : list PayloadAttributes) (payloads : list ExecutionPayload)
    (blocks : list L2BlockRef) : Prop := {
  db_chain : derive_chain fuel config c k (id_Number (gen_L1 gen) + 1) (gen_L2Time gen) = Ok attrss;
  db_chained : chained (id_Hash (gen_L2 gen)) attrss payloads;
  db_answers : Forall (engine_answer I) payloads;
  db_blocks : Forall2 (fun p b => PayloadToBlockRef p gen = Ok b) payloads blocks;
}.

(** The genesis block as the L2 node answers with it. *)
Definition genesis_block (g : L2BlockRef) : Prop :=
  l2_Hash g = id_Hash (gen_L2 gen) /\ l2_Time g = gen_L2Time gen /\ l2_L1Origin g = gen_L1 gen.

(** Their L1 blocks, and the windows from them on. *)
Definition window_after (k : nat) : Prop :=
  k = 0%nat \/ id_Number (gen_L1 gen) + Z.of_nat k + cfg_SeqWindowSize config - 1 <= c_height c.

Lemma gen_nonneg : 0 <= id_Number (gen_L1 gen) <= c_height c.
Proof. apply (st_has _ _ _ Hgen). Qed.

Lemma answer_time p : engine_answer I p -> in_range 62 (pl_Timestamp p).
Proof. intros Hp. destruct (ok_answer _ _ _ _ _ Hok _ Hp) as [-> _]. apply Hok. Qed.

Lemma PayloadToBlockRef_parts p b : PayloadToBlockRef p gen = Ok b ->
  l2_Hash b = pl_BlockHash p /\ l2_Time b = pl_Timestamp p /\ l2_Number b = pl_BlockNumber p.
Proof. unfold PayloadToBlockRef. intros E. apply res_bind_ok in E as ([o k] & _ & E). by injection E as <-. Qed.

(** The time of the last block is in range. *)
Lemma derived_last_time parent t a p :
  in_range 62 t -> chained parent a p -> Forall (engine_answer I) p -> in_range 62 (last_time t a).
Proof.
  intros Ht Hc Ha. destruct (last p) as [y|] eqn:Ep.
  - rewrite <-(chained_last_time _ _ _ _ Hc Ep). apply answer_time.
    rewrite Forall_forall in Ha. apply Ha. by apply last_Some_elem_of.
  - apply last_None in Ep as ->. by destruct a.
Qed.

Lemma gen_time : in_range 62 (gen_L2Time gen).
Proof. pose proof (st_time _ _ _ Hgen) as E. cbn in E. rewrite <-E. apply Hok. Qed.

(** The blocks of the last epoch. *)
Lemma derived_blocks_snoc k a p b :
  derived_blocks (S k) a p b -> window_after (S k) ->
  exists a1 p1 b1 b2, derived_blocks k a1 p1 b1 /\ a1 `prefix_of` a /\ p1 `prefix_of` p /\
    b = b1 ++ b2 /\ b2 <> [] /\
    Forall (fun x => l2_L1Origin x = c_id c (id_Number (gen_L1 gen) + Z.of_nat (S k))) b2.
Proof.
  intros [Hc Hch Ha Hb] [|Hw]; [done|]. pose proof gen_nonneg as Hn0.
  rewrite <-Nat.add_1_r, derive_chain_app in Hc.
  apply res_bind_ok in Hc as (a1 & Hc1 & Hc). rewrite derive_chain_one in Hc.
  apply res_bind_ok in Hc as (a2 & Hc2 & Hc). injection Hc as <-.
  apply chained_app_inv in Hch as (p1 & p2 & -> & Hp1 & Hp2).
  apply Forall_app in Ha as [Ha1 Ha2]. apply Forall2_app_inv_l in Hb as (b1 & b2 & Hb1 & Hb2 & ->).
  exists a1, p1, b1, b2. split_and!; [done|by apply prefix_app_r|by apply prefix_app_r|done|..].
  all: replace (id_Number (gen_L1 gen) + 1 + Z.of_nat k) with (id_Number (gen_L1 gen) + Z.of_nat (S k)) in Hc2 by lia.
  all: set (n := id_Number (gen_L1 gen) + Z.of_nat (S k)) in *.
  all: assert (Hn : c_has c n) by (unfold c_has; lia).
  all: assert (Hn' : c_has c (n + 1)) by (unfold c_has; lia).
  all: destruct (can_info _ Hcan _ Hn) as [Hi Hnum]; destruct (can_info _ Hcan _ Hn') as [(_ & Hnext & _) _].
  all: assert (Ht : in_range 62 (last_time (gen_L2Time gen) a1))
    by (eapply derived_last_time; [apply gen_time|done..]).
  all: destruct (derive_epoch_blocks _ _ _ _ _ _ _ _ _ _ _ Ht Hnext Hbt Hfuel Hc2 Hp2) as [Hne Hall].
  - intros ->. by apply Forall2_nil_inv_r in Hb2.
  - apply Forall_lookup. intros j x Hx. destruct (Forall2_lookup_r _ _ _ _ _ Hb2 Hx) as (q & Hq & Er).
    destruct (Hall _ _ Hq) as (bs & rest & Hj & Eb & Etx). unfold c_id. rewrite <-Hnum at 2.
    eapply PayloadToBlockRef_origin; [exact Hi|exact Hj|exact Eb|exact Etx|exact Er|].
    apply PayloadToBlockRef_parts in Er as (_ & _ & ->). intros Hg.
    assert (Hans : engine_answer I q) by (rewrite Forall_lookup in Ha2; by eapply Ha2).
    destruct (ok_answer _ _ _ _ _ Hok _ Hans) as [_ Hempty]. by rewrite Hempty in Etx.
Qed.

Lemma derived_blocks_nil a p b : derived_blocks 0 a p b -> a = [] /\ p = [] /\ b = [].
Proof.
  intros [Hc Hch _ Hb]. injection Hc as <-. destruct p; [|done]. by apply Forall2_nil_inv_l in Hb.
Qed.

(** The safe head at their end. *)
Lemma derived_blocks_top k a p b g :
  derived_blocks k a p b -> window_after k -> genesis_block g ->
  derived_to fuel config c I (genesis_ref gen) (default g (last b)) k a p.
Proof.
  intros Hd Hw (Hgh & Hgt & Hgo). pose proof Hd as [Hc Hch Ha Hb].
  assert (Ho : l2_L1Origin (default g (last b)) = c_id c (id_Number (gen_L1 gen) + Z.of_nat k)).
  { destruct k as [|k].
    - apply derived_blocks_nil in Hd as (_ & _ & ->). cbn. rewrite Hgo, Z.add_0_r. apply (st_origin _ _ _ Hgen).
    - destruct (derived_blocks_snoc _ _ _ _ Hd Hw) as (_ & _ & b1 & b2 & _ & _ & _ & -> & Hne & Hall).
      rewrite last_app. destruct (last b2) as [x|] eqn:Ex; [|by apply last_None in Ex].
      rewrite Forall_forall in Hall. apply Hall. by apply last_Some_elem_of. }
  assert (Hl : match last p with
    | Some q => PayloadToBlockRef q gen = Ok (default g (last b)) | None => b = [] end).
  { pose proof (Forall2_length _ _ _ Hb) as Hlen. rewrite !last_lookup.
    destruct (p !! pred (length p)) as [q|] eqn:Eq.
    - destruct (Forall2_lookup_l _ _ _ _ _ Hb Eq) as (x & Hx & Er). rewrite <-Hlen, Hx. done.
    - apply lookup_ge_None in Eq. destruct b; [done|]. simpl in Hlen. lia. }
  split; try done.
  - destruct (last p) as [q|]; [by apply PayloadToBlockRef_parts in Hl as [-> _]|by rewrite Hl].
  - destruct (last p) as [q|] eqn:Ep.
    + apply PayloadToBlockRef_parts in Hl as (_ & -> & _). by eapply chained_last_time.
    + apply last_None in Ep as ->. rewrite Hl. by destruct a.
  - destruct Hw as [->|Hw]; [by left|right]. rewrite Ho. exact Hw.
Qed.

(** The chain from its head down to genesis. *)
Definition chain_down (g : L2BlockRef) (blocks : list L2BlockRef) : list L2BlockRef :=
  reverse blocks ++ [g].

Lemma chain_down_head g blocks : exists l, chain_down g blocks = default g (last blocks) :: l.
Proof.
  unfold chain_down. destruct blocks as [|x b] using rev_ind; [by exists []|].
  rewrite reverse_snoc, last_snoc. by eexists.
Qed.

(** The blocks of one epoch are passed at once. *)
Lemma walk2_epoch window h d e rest :
  d <> window -> Forall (fun x => id_Hash (l2_L1Origin x) = h) e ->
  walk2 gen window h d (e ++ rest) = walk2 gen window h d rest.
Proof.
  intros Hd He. induction He as [|x e Hx He IH]; [done|]. cbn [app walk2].
  rewrite decide_True by done. rewrite (proj2 (Z.eqb_neq _ _) Hd), Hx. exact IH.
Qed.

(** Back through [m] epochs of the derived blocks, or to genesis. *)
Lemma walk2_derived k a p b g prev d m :
  derived_blocks k a p b -> window_after k -> genesis_block g ->
  prev <> c_hash c (id_Number (gen_L1 gen) + Z.of_nat k) ->
  cfg_SeqWindowSize config = d + 1 + Z.of_nat m ->
  exists a' p', derived_to fuel config c I (genesis_ref gen)
      (walk2 gen (cfg_SeqWindowSize config) prev d (chain_down g b)) (k - m) a' p' /\
    a' `prefix_of` a /\ p' `prefix_of` p.
Proof.
  revert a p b prev d m. induction k as [|k IH]; intros a p b prev d m Hd Hw Hg Hprev Hm;
    pose proof (derived_blocks_top _ _ _ _ _ Hd Hw Hg) as Htop.
  - pose proof (derived_blocks_nil _ _ _ Hd) as (-> & -> & ->). exists [], []. split; [|done].
    pose proof (dt_origin _ _ _ _ _ _ _ _ _ Htop) as Ho. cbn in Ho.
    cbn [chain_down reverse app rev_append walk2]. rewrite decide_False by (by rewrite Ho).
    case_match; [done|]. cbn. by apply (derived_to_start fuel config c I timeOf).
  - destruct (derived_blocks_snoc _ _ _ _ Hd Hw) as (a1 & p1 & b1 & b2 & Hd1 & Ha & Hp & -> & Hne & Hall).
    assert (Hw1 : window_after k) by (destruct Hw as [|]; [done|right; lia]).
    destruct b2 as [|x b2] using rev_ind; [done|]. clear IHb2.
    apply Forall_app in Hall as [Hall Hx]. apply Forall_cons in Hx as [Hx _].
    rewrite app_assoc, last_snoc in Htop. unfold chain_down. rewrite app_assoc, reverse_snoc. cbn [app walk2].
    rewrite Hx. cbn [c_id id_Hash]. rewrite decide_False by done.
    destruct m as [|m].
    + rewrite (proj2 (Z.eqb_eq _ _)) by lia. by exists a, p.
    + rewrite (proj2 (Z.eqb_neq _ _)) by lia. rewrite reverse_app, <-app_assoc, walk2_epoch; [|lia|].
      2:{ apply Forall_reverse. eapply Forall_impl; [exact Hall|]. by intros y ->. }
      destruct (IH a1 p1 b1 (c_hash c (id_Number (gen_L1 gen) + Z.of_nat (S k))) (d + 1) m)
        as (a' & p' & Hto & Ha' & Hp'); [done..| |lia|].
      * pose proof gen_nonneg. intros E. destruct Hw as [|Hw]; [done|].
        apply (can_inj _ Hcan) in E; [lia|unfold c_has; lia..].
      * exists a', p'. split_and!; [exact Hto|by etrans..].
Qed.

(** Their L1 origins are blocks of the chain. *)
Lemma derived_blocks_origins k a p b g x :
  derived_blocks k a p b -> window_after k -> genesis_block g -> x ∈ chain_down g b ->
  exists n, l2_L1Origin x = c_id c n /\ id_Number (gen_L1 gen) <= n <= id_Number (gen_L1 gen) + Z.of_nat k /\
    c_has c n.
Proof.
  pose proof gen_nonneg. revert a p b. induction k as [|k IH]; intros a p b Hd Hw Hg Hx.
  - apply derived_blocks_nil in Hd as (_ & _ & ->). apply list_elem_of_singleton in Hx as ->.
    exists (id_Number (gen_L1 gen)). destruct Hg as (_ & _ & ->). split; [apply (st_origin _ _ _ Hgen)|].
    unfold c_has. lia.
  - destruct (derived_blocks_snoc _ _ _ _ Hd Hw) as (a1 & p1 & b1 & b2 & Hd1 & _ & _ & -> & _ & Hall).
    assert (Hw1 : window_after k) by (destruct Hw as [|]; [done|right; lia]).
    unfold chain_down in Hx. rewrite reverse_app, <-app_assoc in Hx. apply elem_of_app in Hx as [Hx|Hx].
    + rewrite Forall_forall in Hall. rewrite elem_of_reverse in Hx. apply Hall in Hx as ->.
      destruct Hw as [|Hw]; [done|]. eexists. split; [done|]. unfold c_has. lia.
    + destruct (IH _ _ _ Hd1 Hw1 Hg Hx) as (n & Ho & Hn & Hhas). exists n. split_and!; [done|lia..|done].
Qed.

(** The services at the restart: a static L1 that has reached the origin of the L2 head,
    and the L2 chain from the derived blocks' end down to genesis. *)
Record serves (head : L1BlockRef) (g : L2BlockRef) (blocks : list L2BlockRef) : Prop := {
  sv_head (w : W) : (L1HeadBlockRef w).1 = Ok head;
  sv_canon (w : W) n : n <= l1_Number head ->
    exists r, (L1BlockRefByNumber n w).1 = Ok r /\ l1_Hash r = c_hash c n;
  sv_past_genesis : id_Number (gen_L1 gen) < l1_Number head;
  sv_latest (w : W) : (l2_L2BlockRefByNumber None w).1 = Ok (default g (last blocks));
  sv_parents : Sync.chain_ok (W:=W) gen (chain_down g blocks);
  sv_genesis : genesis_block g;
}.

Lemma FindL2Heads_derived k a p b g head (w : W) :
  derived_blocks k a p b -> window_after k -> serves head g b ->
  id_Number (gen_L1 gen) + Z.of_nat k <= l1_Number head ->
  (forall n, c_has c n -> c_hash c n <> 0) -> (length (chain_down g b) <= fuel)%nat ->
  exists safe w' a' p',
    FindL2Heads fuel (default g (last b)) (cfg_SeqWindowSize config) gen w =
      (Ok (default g (last b), safe), w') /\
    derived_to fuel config c I (genesis_ref gen) safe
      (k - Z.to_nat (cfg_SeqWindowSize config - 1)) a' p' /\
    a' `prefix_of` a /\ p' `prefix_of` p.
Proof.
  intros Hd Hw Hsv Hk Hnz Hlen. pose proof (sv_genesis _ _ _ Hsv) as Hg.
  pose proof (dt_origin _ _ _ _ _ _ _ _ _ (derived_blocks_top _ _ _ _ _ Hd Hw Hg)) as Ho. cbn in Ho.
  pose proof gen_nonneg as Hn0. pose proof (sv_parents _ _ _ Hsv) as Hc.
  assert (Hhas : c_has c (id_Number (gen_L1 gen) + Z.of_nat k))
    by (unfold c_has; destruct Hw as [->|]; lia).
  assert (Horig : origins_ok (chain_down g b)).
  { intros x Hx. destruct (derived_blocks_origins _ _ _ _ _ _ Hd Hw Hg Hx) as (n & -> & _ & Hn).
    split; [by apply Hnz|]. intros y Hy E.
    destruct (derived_blocks_origins _ _ _ _ _ _ Hd Hw Hg Hy) as (n' & Ey & _ & Hn'). rewrite Ey in E |- *.
    cbn in E. apply (can_inj _ Hcan) in E; congruence. }
  destruct (chain_down_head g b) as [l El].
  pose proof (walk2_derived k a p b g 0 0 (Z.to_nat (cfg_SeqWindowSize config - 1)) Hd Hw Hg) as Hwalk.
  destruct Hwalk as (a' & p' & Hto & Ha & Hp); [by intros E; eapply Hnz|lia|].
  rewrite El in *. set (top := default g (last b)) in *.
  assert (Hcanon : Sync.canonical head (c_hash c) top) by (split; rewrite Ho; [exact Hk|done]).
  destruct (FindL2Heads_loop1_static head (c_hash c) gen (sv_head _ _ _ Hsv) (sv_canon _ _ _ Hsv)
    fuel l top None 0 0 zeroL2BlockRef w) as [w1 E1]; [done|done|done|done|].
  cbn [walk1] in E1. rewrite (bool_decide_eq_true_2 (Sync.canonical _ _ _)) in E1 by done.
  rewrite bool_decide_eq_true_2 in E1 by (by right). rewrite bool_decide_eq_true_2 in E1 by done.
  cbn [hd] in E1.
  assert (Hfit : 1 + zlen (top :: l) < 2 ^ 64) by (unfold zlen; lia).
  destruct (FindL2Heads_loop2_static gen fuel (cfg_SeqWindowSize config) l top
    (id_Hash (l2_L1Origin top)) 1 w1) as [w2 E2]; [done|done|lia|done|].
  exists (walk2 gen (cfg_SeqWindowSize config) 0 0 (top :: l)), w2, a', p'. split_and!; [|done..].
  unfold FindL2Heads. rewrite (M_bind_eq _ _ _ _ _ E1). cbv beta iota. rewrite (M_bind_eq _ _ _ _ _ E2).
  cbn [walk2]. rewrite decide_True by done.
  rewrite decide_False; [done|]. rewrite Ho. cbn. intros E. by apply (Hnz _ Hhas).
Qed.

(** A run may start where the derivation has come to, and then adds to it. *)
Lemma derived_to_starts safe k a p :
  derived_to fuel config c I (genesis_ref gen) safe k a p -> starts c timeOf safe.
Proof.
  intros [_ Hch Ha Hh Ht Ho Hw]. cbn in Hch, Hh, Ht, Ho. pose proof gen_nonneg.
  split; rewrite ?Ho; [done| |].
  - destruct Hw as [->|Hw]; [|rewrite Ho in Hw]; cbn in *; unfold c_has; lia.
  - rewrite Hh, Ht. destruct (last p) as [y|] eqn:Ep.
    + rewrite <-(chained_last_time _ _ _ _ Hch Ep). symmetry. apply (ok_answer _ _ _ _ _ Hok).
      rewrite Forall_forall in Ha. apply Ha. by apply last_Some_elem_of.
    + apply last_None in Ep as ->. destruct a; [|done]. apply (st_time _ _ _ Hgen).
Qed.

Lemma derived_to_trans s0 s1 s2 j k a b p q :
  derived_to fuel config c I s0 s1 j a p -> derived_to fuel config c I s1 s2 k b q ->
  derived_to fuel config c I s0 s2 (j + k) (a ++ b) (p ++ q).
Proof.
  intros [C1 H1c A1 H1h T1 O1 W1] [C2 H2c A2 H2h T2 O2 W2].
  rewrite O1 in C2, O2. cbn [c_id id_Number] in C2, O2. split.
  - rewrite derive_chain_app, C1. cbn [mbind res_bind].
    replace (id_Number (l2_L1Origin s0) + 1 + Z.of_nat j)
      with (id_Number (l2_L1Origin s0) + Z.of_nat j + 1) by lia. by rewrite <-T1, C2.
  - apply chained_app; [done|]. by rewrite <-H1h.
  - by apply Forall_app.
  - rewrite last_app, H2h, H1h. by destruct (last q).
  - by rewrite last_time_app, <-T1.
  - rewrite O2. f_equal. lia.
  - destruct W2 as [->|W2]; [|by right]. destruct W1 as [->|W1]; [by left|right].
    rewrite O2. rewrite O1 in W1. cbn in *. lia.
Qed.

(** [C5] A verifier that restarts.  Take a verifier whose engine holds the blocks that L1
    derives for [k] epochs from genesis, on L1 and L2 nodes that answer while it starts.
    [Start] succeeds, finds the head of that chain, and a safe head that is the end of the
    derivation for [k] epochs less one sequencing window short of one: it never loses more.
    In any run from there, with calls that fail at any time, the safe chain stays what L1
    derives from genesis, and does not fall behind the restart. *)
Theorem restart_derived sequencer k attrss payloads blocks g head (w : W) :
  derived_blocks k attrss payloads blocks -> window_after k -> serves head g blocks ->
  id_Number (gen_L1 gen) + Z.of_nat k <= l1_Number head ->
  (forall n, c_has c n -> c_hash c n <> 0) -> (length (chain_down g blocks) <= fuel)%nat -> I w ->
  exists s w1, Start fuel config (NewState, w) = (Ok tt, (s, w1)) /\
    s_l1Head s = head /\ s_l2Head s = default g (last blocks) /\
    let back := (k - Z.to_nat (cfg_SeqWindowSize config - 1))%nat in
    (exists attrss' payloads',
      derived_to fuel config c I (genesis_ref gen) (s_l2SafeHead s) back attrss' payloads' /\
      attrss' `prefix_of` attrss /\ payloads' `prefix_of` payloads) /\
    forall tr l, reachable fuel config sequencer s w1 tr l ->
      heads_extend c (l1_Hash head) (announced tr) ->
      exists k' attrss' payloads', (back <= k')%nat /\
        derived_to fuel config c I (genesis_ref gen) (s_l2SafeHead (lp_state l)) k' attrss' payloads'.
Proof.
  intros Hd Hw Hsv Hk Hnz Hlen Hi.
  destruct (L1HeadBlockRef w) as [r1 w1] eqn:E1. pose proof (sv_head _ _ _ Hsv w) as R1.
  rewrite E1 in R1. cbn in R1. subst r1.
  destruct (l2_L2BlockRefByNumber None w1) as [r2 w2] eqn:E2. pose proof (sv_latest _ _ _ Hsv w1) as R2.
  rewrite E2 in R2. cbn in R2. subst r2.
  destruct (FindL2Heads_derived _ _ _ _ _ _ w2 Hd Hw Hsv Hk Hnz Hlen) as (safe & w3 & a & p & E3 & Hto & Ha & Hp).
  assert (E : Start fuel config (NewState, w) = (Ok tt, (mkState head (default g (last blocks)) safe zeroBlockID [], w3))).
  { unfold Start, mbind, M_bind, modify, call, mret, M_ret. cbn [fst snd]. rewrite E1.
    rewrite (proj2 (Z.ltb_lt _ _)) by apply Hsv. cbn [fst snd]. rewrite E2. cbn [fst snd]. by rewrite E3. }
  do 2 eexists. split; [exact E|]. cbn. split_and!; [done..|by exists a, p|].
  intros tr l Hr Hext.
  edestruct started_run_derived as (k' & a' & p' & len & Hd' & _); [..|exact Hr|exact Hext|];
    [by eapply Start_keeps|done|done|by eapply derived_to_starts|].
  eexists _, _, _. split; [|by eapply derived_to_trans]. lia.
Qed.
End Startup.

(** ** Witnesses: the toy L1 of Rollup.v *)

(** An L2 node that answers with the blocks of a list, the last of them the latest. *)
Definition ListDriverL2 (blocks : list L2BlockRef) : DriverL2 ToyWorld := {|
  dl2_sync := {| chain_L2BlockRefByHash := fun h =>
    match list_find (fun b => l2_Hash b = h) blocks with
    | Some (_, b) => mret b
    | None => throw ENotFound
    end |};
  l2_ForkchoiceUpdate := @eng_ForkchoiceUpdate _ ToyEngine;
  l2_L2BlockRefByNumber := fun _ =>
    match last blocks with Some b => mret b | None => throw ENotFound end;
|}.

Definition chain_Start (blocks : list L2BlockRef) (w : ToyWorld) : res unit * (state * ToyWorld) :=
  @Start ToyWorld ChainDriverL1 (ListDriverL2 blocks) 10 toy_config (NewState, w).

Section StartRuns.
#[local] Existing Instance ToyGeth.
#[local] Existing Instance ToyNetwork.
#[local] Existing Instance ChainDriverL1.
#[local] Existing Instance chain_output.
Definition restarted (blocks : list L2BlockRef) (w : ToyWorld) : loop_state :=
  let '(_, (s, w')) := chain_Start blocks w in loop_start s w'.
Definition restarted_step (blocks : list L2BlockRef) (e : event) (l : loop_state) : loop_state :=
  from_option id l (@loop_step _ _ _ (ListDriverL2 blocks) _ _ 10 toy_config false e l).

(** A new node derives the epoch of block 11. *)
Definition fresh_blocks : list L2BlockRef := [toy_l2_genesis].
Definition fresh_end := restarted_step fresh_blocks EvStepReq (restarted fresh_blocks toy_world).
End StartRuns.

Lemma chain_genesis_starts : @starts ToyGeth chain_L1 chain_time (genesis_ref toy_genesis).
Proof. split; [reflexivity|unfold c_has; cbn; lia|vm_compute; reflexivity]. Qed.

Lemma fresh_node_derived_witness :
  l2_Hash (s_l2SafeHead (lp_state fresh_end)) = 204 /\
  exists k attrss payloads,
    @derived_to ToyKeccak ToyGeth ToyRLP ToyWorld ChainEngine 10 toy_config chain_L1 any
      (genesis_ref toy_genesis) (s_l2SafeHead (lp_state fresh_end)) k attrss payloads.
Proof.
  split; [vm_compute; reflexivity|].
  destruct (chain_Start fresh_blocks toy_world) as [r [s w1]] eqn:E.
  assert (Hr : r = Ok tt) by (vm_compute in E; by injection E as <- _ _).
  assert (Es : restarted fresh_blocks toy_world = loop_start s w1) by (unfold restarted; by rewrite E).
  subst r.
  destruct (@fresh_node_derived ToyKeccak ToyGeth ToyGethLaws ToyRLP ToyWorld ChainEngine ChainDownloader
    ChainDriverL1 (ListDriverL2 fresh_blocks) ToyNetwork 10 toy_config chain_L1 any chain_time
    chain_canonical (chain_ok _) ltac:(cbn; lia) ltac:(cbn; lia) ltac:(cbn; lia) chain_genesis_starts
    ltac:(done) false toy_world s w1 [EvStepReq] fresh_end)
    as (k & attrss & payloads & len & Hd & _); [|exact I|exact E| |done|].
  - intros b (w & w' & _ & Eb). cbn in Eb. by injection Eb as <- _.
  - apply (reach_step _ _ _ _ _ [] (loop_start s w1) EvStepReq); [constructor|].
    rewrite <-Es. vm_compute. reflexivity.
  - by exists k, attrss, payloads.
Defined.

(** *** The verifier of two epochs restarts *)
Definition chain_attrs (k : nat) : list PayloadAttributes :=
  match @derive_chain ToyKeccak ToyGeth ToyRLP 10 toy_config chain_L1 k 11 1000 with
  | Ok attrss => attrss | _ => [] end.
Fixpoint toy_chain (parent : Hash) (attrss : list PayloadAttributes) : list ExecutionPayload :=
  match attrss with
  | [] => []
  | attrs :: attrss => toy_payload parent attrs :: toy_chain (parent + 1) attrss
  end.
Definition two_epochs : list ExecutionPayload := toy_chain 200 (chain_attrs 2).
Definition toy_ref (p : ExecutionPayload) : option L2BlockRef :=
  match @PayloadToBlockRef ToyGeth p toy_genesis with Ok b => Some b | _ => None end.
Definition two_epochs_blocks : list L2BlockRef := Eval vm_compute in default [] (mapM toy_ref two_epochs).
Definition restart_world : ToyWorld := mkToyWorld (two_epochs ++ tw_blocks toy_world) None [].
Definition restart_blocks : list L2BlockRef := toy_l2_genesis :: two_epochs_blocks.

Lemma toy_chain_chained parent attrss : chained parent attrss (toy_chain parent attrss).
Proof.
  revert parent. induction attrss as [|attrs attrss IH]; intros parent; [done|].
  cbn [toy_chain chained]. split; [done|]. apply IH.
Qed.
Lemma toy_chain_answers parent attrss :
  forallb held (toy_chain parent attrss) = true ->
  Forall (@engine_answer ToyWorld ChainEngine any) (toy_chain parent attrss).
Proof.
  revert parent. induction attrss as [|attrs attrss IH]; intros parent E; [constructor|].
  cbn [toy_chain forallb] in E |- *. apply andb_true_iff in E as [E1 E2]. constructor; [|by apply IH].
  left. exists 1, (mkToyWorld [] (Some (parent, attrs)) []), (mkToyWorld [] (Some (parent, attrs)) []).
  split; [exact I|]. cbn [eng_GetPayload ChainEngine]. unfold checked, mbind, M_bind. cbn [eng_GetPayload ToyEngine tw_building].
  by rewrite E1.
Qed.

Lemma two_epochs_derived : @derived_blocks ToyKeccak ToyGeth ToyRLP ToyWorld ChainEngine 10 toy_config
  chain_L1 any 2 (chain_attrs 2) two_epochs two_epochs_blocks.
Proof.
  split.
  - unfold chain_attrs. vm_compute. reflexivity.
  - apply toy_chain_chained.
  - apply toy_chain_answers. vm_compute. reflexivity.
  - assert (E : mapM toy_ref two_epochs = Some two_epochs_blocks) by (vm_compute; reflexivity).
    apply mapM_Some_1 in E. eapply Forall2_impl; [exact E|]. unfold toy_ref. intros p b Eb.
    change (cfg_Genesis toy_config) with toy_genesis. case_match; [congruence|done..].
Qed.

Lemma restart_serves : @serves ToyGeth ToyWorld ChainDriverL1 (ListDriverL2 restart_blocks) toy_config
  chain_L1 (mkL1BlockRef 102 12 101 1010) toy_l2_genesis two_epochs_blocks.
Proof.
  split.
  - done.
  - intros w n _. eexists. split; [done|]. cbn. lia.
  - done.
  - intros w. vm_compute. reflexivity.
  - vm_compute. repeat split; intros [] ; reflexivity.
  - done.
Qed.

(** It starts at 207, the safe head one epoch back at 204, and derives the second epoch
    again when block 13 is announced. *)
Definition restart_1 := restarted_step restart_blocks EvStepReq (restarted restart_blocks restart_world).
Definition restart_2 := restarted_step restart_blocks (EvOnL1Head toy_head) restart_1.
Definition restart_3 := restarted_step restart_blocks EvL1Head restart_2.
Definition restart_end := restarted_step restart_blocks EvStepReq restart_3.

Lemma restart_derived_witness :
  l2_Hash (s_l2SafeHead (lp_state restart_1)) = 204 /\ l2_Hash (s_l2Head (lp_state restart_1)) = 207 /\
  l2_Hash (s_l2SafeHead (lp_state restart_end)) = 207 /\
  exists k attrss payloads, (1 <= k)%nat /\
    @derived_to ToyKeccak ToyGeth ToyRLP ToyWorld ChainEngine 10 toy_config chain_L1 any
      (genesis_ref toy_genesis) (s_l2SafeHead (lp_state restart_end)) k attrss payloads.
Proof.
  split; [vm_compute; reflexivity|]. split; [vm_compute; reflexivity|]. split; [vm_compute; reflexivity|].
  destruct (@restart_derived ToyKeccak ToyGeth ToyGethLaws ToyRLP ToyWorld ChainEngine ChainDownloader
    ChainDriverL1 (ListDriverL2 restart_blocks) ToyNetwork 10 toy_config chain_L1 any chain_time
    chain_canonical (chain_ok _) ltac:(cbn; lia) ltac:(cbn; lia) ltac:(cbn; lia) chain_genesis_starts
    ltac:(done) false 2 (chain_attrs 2) two_epochs two_epochs_blocks toy_l2_genesis
    (mkL1BlockRef 102 12 101 1010) restart_world two_epochs_derived)
    as (s & w1 & E & _ & _ & _ & Hrun).
  - right. cbn. lia.
  - exact restart_serves.
  - cbn. lia.
  - intros n [Hn _]. change (c_hash chain_L1 n) with (n + 90). lia.
  - apply Nat.leb_le. vm_compute. reflexivity.
  - exact I.
  - assert (Es : restarted restart_blocks restart_world = loop_start s w1)
      by (unfold restarted, chain_Start; by rewrite E).
    apply (Hrun [EvStepReq; EvOnL1Head toy_head; EvL1Head; EvStepReq]).
    + apply (reach_step _ _ _ _ _ [EvStepReq; EvOnL1Head toy_head; EvL1Head] restart_3 EvStepReq);
        [|vm_compute; reflexivity].
      apply (reach_step _ _ _ _ _ [EvStepReq; EvOnL1Head toy_head] restart_2 EvL1Head);
        [|vm_compute; reflexivity].
      apply (reach_step _ _ _ _ _ [EvStepReq] restart_1 (EvOnL1Head toy_head)); [|vm_compute; reflexivity].
      apply (reach_step _ _ _ _ _ [] (loop_start s w1) EvStepReq); [constructor|].
      rewrite <-Es. vm_compute. reflexivity.
    + cbn. split; [|split; [by right|done]]. unfold head_of_chain, c_has. cbn. split_and!; lia.
Defined.

(** *** A node that restarts with unsafe blocks

    A sequencer has built four blocks on L1 block 11 and one on block 12, and stops before
    their batches are on L1.  Started again when 12 is the L1 head, it takes the blocks
    on block 11 for safe, though L1 derives others for them. *)
Definition unsafe_blocks : list L2BlockRef := [toy_l2_genesis;
  mkL2BlockRef 301 1 200 1002 (mkBlockID 101 11) 0; mkL2BlockRef 302 2 301 1004 (mkBlockID 101 11) 1;
  mkL2BlockRef 303 3 302 1006 (mkBlockID 101 11) 2; mkL2BlockRef 304 4 303 1008 (mkBlockID 101 11) 3;
  mkL2BlockRef 305 5 304 1010 (mkBlockID 102 12) 0].

Lemma chained_toy_hash parent attrss payloads :
  chained parent attrss payloads -> Forall (@engine_answer ToyWorld ChainEngine any) payloads ->
  from_option pl_BlockHash parent (last payloads) = parent + zlen attrss.
Proof.
  revert parent payloads. induction attrss as [|attrs attrss IH]; intros parent [|p ps] Hc Ha; try done.
  { unfold zlen. cbn. lia. }
  destruct Hc as [(Hp & _) Hc]. apply Forall_cons in Ha as [Ha0 Ha]. apply chain_answer in Ha0 as (_ & _ & Hh).
  specialize (IH _ _ Hc Ha). rewrite zlen_cons, last_cons. destruct (last ps); cbn in *; lia.
Qed.

Lemma Start_unverified :
  l2_Hash (s_l2SafeHead (lp_state (restarted unsafe_blocks toy_world))) = 304 /\
  ~ exists k attrss payloads,
    @derived_to ToyKeccak ToyGeth ToyRLP ToyWorld ChainEngine 10 toy_config chain_L1 any
      (genesis_ref toy_genesis) (s_l2SafeHead (lp_state (restarted unsafe_blocks toy_world)))
      k attrss payloads.
Proof.
  assert (Es : s_l2SafeHead (lp_state (restarted unsafe_blocks toy_world)) =
    mkL2BlockRef 304 4 303 1008 (mkBlockID 101 11) 3) by (vm_compute; reflexivity).
  rewrite Es. split; [done|]. intros (k & attrss & payloads & [Hc Hch Ha Hh _ Ho _]).
  cbn in Ho. injection Ho as _ Hk. assert (k = 1%nat) as -> by lia.
  change (@derive_chain ToyKeccak ToyGeth ToyRLP 10 toy_config chain_L1 1 11 1000 = Ok attrss) in Hc.
  assert (Hlen : match @derive_chain ToyKeccak ToyGeth ToyRLP 10 toy_config chain_L1 1 11 1000 with
    | Ok a => zlen a | _ => 0 end = 4) by (vm_compute; reflexivity).
  rewrite Hc in Hlen. pose proof (chained_toy_hash _ _ _ Hch Ha) as E. rewrite <-Hh, Hlen in E. cbn in E. lia.
Qed.
