(* ===== verification/Progress.v ===== *)
(** * Progress of a verifier

    Rollup.v and Startup.v show that the safe chain is what L1 derives; this file shows
    that it gets there: with services that work, every requested step of the driver
    derives an epoch, and steps are requested until the last complete sequencing window.
    op-node/rollup/driver/state.go and step.go. *)

From S2P Require Import Prelude Types Geth L1Info Deposits Batches L2Source Sync Step DriverState Rollup Startup.

(** ** Derived blocks pass the node's own checks *)
Section Attributes.
Context `{Keccak} `{GethLaws} `{RLP}.

Lemma ValidBatch_txs_other txs : ValidBatch_txs txs = true -> Forall is_other_bytes txs.
Proof.
  induction txs as [|tx txs IH]; intros E; [constructor|]. cbn [ValidBatch_txs] in E.
  destruct tx as [|t r]; [done|]. case_bool_decide; [done|]. constructor; [by exists t, r|by apply IH].
Qed.

Lemma FillMissingBatches_Forall (P : list Data -> Prop) fuel bs epoch bt lo next full :
  P [] -> Forall (fun b => P (b_Transactions b)) bs ->
  FillMissingBatches fuel bs epoch bt lo next = Ok full -> Forall (fun b => P (b_Transactions b)) full.
Proof.
  intros Hnil Hbs E. unfold FillMissingBatches in E. cbv zeta in E.
  set (h0 := if _ <? next then _ else lo) in E.
  assert (Hm : map_Forall (fun _ b => P (b_Transactions b)) (FillMissingBatches_collect bs h0).1).
  { revert Hbs. clear E. induction bs as [|b bs IH] using rev_ind; intros Hbs; [apply map_Forall_empty|].
    apply Forall_app in Hbs as [Hbs Hb]. apply Forall_cons in Hb as [Hb _].
    rewrite FillMissingBatches_collect_snoc. specialize (IH Hbs).
    destruct (FillMissingBatches_collect bs h0) as [m h]. by apply map_Forall_insert_2. }
  destruct (FillMissingBatches_collect bs h0) as [m h]. cbn [fst] in Hm.
  assert (Hgen : forall t out, Forall (fun b => P (b_Transactions b)) out ->
    FillMissingBatches_emit fuel m epoch bt h t out = Ok full -> Forall (fun b => P (b_Transactions b)) full).
  { clear E. induction fuel as [|f IH]; intros t out Ho E; [done|]. cbn [FillMissingBatches_emit] in E.
    destruct (t <=? h); [|by injection E as <-]. apply IH in E; [done|].
    apply Forall_app. split; [done|]. constructor; [|constructor].
    destruct (m !! t) as [b|] eqn:Em; [by apply (Hm t)|exact Hnil]. }
  by apply (Hgen lo []).
Qed.

Lemma FilterBatches_other config epoch lo hi bs out :
  cfg_BlockTime config <> 0 -> FilterBatches config epoch lo hi bs = Ok out ->
  Forall (fun b => Forall is_other_bytes (b_Transactions b)) out.
Proof.
  intros Hbt E. unfold FilterBatches in E. rewrite FilterBatches_loop_spec in E by done.
  injection E as <-. apply Forall_forall. intros b Hb.
  assert (Hin : b ∈ filter (valid config epoch lo hi) bs)
    by (eapply elem_of_sublist; [exact Hb|apply first_per_time_sublist]).
  apply list_elem_of_filter in Hin as [Hv _]. apply valid_inv in Hv as (_ & _ & _ & Hv).
  by apply ValidBatch_txs_other.
Qed.

Lemma epoch_attributes_list_deposits_first config l1Info deposits i batches attrss :
  Forall is_deposit_bytes deposits ->
  Forall (fun b => Forall is_other_bytes (b_Transactions b)) batches ->
  epoch_attributes_list config l1Info deposits i batches = Ok attrss ->
  Forall (fun attrs => deposits_first (at_Transactions attrs)) attrss.
Proof.
  intros Hd Hb. revert i attrss. induction Hb as [|b batches Hb _ IH]; intros i attrss E;
    cbn [epoch_attributes_list] in E; [by injection E as <-|].
  apply res_bind_ok in E as (attrs & Ea & E). apply res_bind_ok in E as (rest & Er & E).
  injection E as <-. constructor; [|by eapply IH].
  unfold epoch_attributes in Ea. apply res_bind_ok in Ea as (tx & Et & Ea). apply map_err_ok in Et.
  injection Ea as <-. cbn [at_Transactions].
  exists ([tx] ++ if i =? 0 then deposits else []), (b_Transactions b).
  rewrite <-app_assoc. split_and!; [done|done| |done].
  apply Forall_app. split; [|by destruct (i =? 0)].
  constructor; [by eapply L1InfoDepositBytes_deposit|constructor].
Qed.

(** The node's checks on the order of transactions hold of what it derives. *)
Lemma derive_epoch_deposits_first fuel config epoch l2Time l1Info next receipts txLists attrss :
  cfg_BlockTime config <> 0 ->
  derive_epoch fuel config epoch l2Time l1Info next receipts txLists = Ok attrss ->
  Forall (fun attrs => deposits_first (at_Transactions attrs)) attrss.
Proof.
  intros Hbt E. unfold derive_epoch in E.
  apply res_bind_ok in E as ([deposits errs] & Ed & E). apply res_bind_ok in E as (bs1 & _ & E).
  apply res_bind_ok in E as (bs2 & E2 & E). apply res_bind_ok in E as (bs3 & E3 & E).
  eapply epoch_attributes_list_deposits_first; [by eapply DeriveDeposits_deposits| |exact E].
  eapply (FillMissingBatches_Forall (Forall is_other_bytes)); [constructor| |exact E3].
  by eapply FilterBatches_other.
Qed.

Lemma lastDeposit_loop_first deps rest i k :
  Forall is_deposit_bytes deps -> Forall is_other_bytes rest ->
  lastDeposit_loop (deps ++ rest) i k = Ok (if bool_decide (deps = []) then k else i + zlen deps - 1).
Proof.
  intros Hd Hr. revert i k. induction Hd as [|tx deps [r ->] _ IH]; intros i k.
  - cbn. destruct Hr as [|tx rest (t & r & -> & Ht) _]; [done|]. cbn.
    by rewrite bool_decide_eq_false_2.
  - cbn [app lastDeposit_loop isDepositTx]. rewrite bool_decide_eq_true_2 by done.
    cbn [map_err mbind res_bind]. rewrite IH. f_equal. rewrite zlen_cons.
    rewrite (bool_decide_eq_false_2 ((_ :: _) = [])) by done.
    case_bool_decide as Hn; [subst deps; unfold zlen; simpl; lia|lia].
Qed.

Lemma no_deposits_other rest : Forall is_other_bytes rest -> no_deposits rest = Ok tt.
Proof.
  induction 1 as [|tx rest (t & r & -> & Ht) _ IH]; [done|]. cbn [no_deposits isDepositTx].
  by rewrite bool_decide_eq_false_2.
Qed.

Lemma deposits_first_checked txs : deposits_first txs ->
  exists r txs' k, txs = (DepositTxType :: r) :: txs' /\ lastDeposit txs = Ok k /\
    no_deposits (drop (Z.to_nat (k + 1)) txs) = Ok tt.
Proof.
  intros (deps & rest & -> & Hne & Hd & Hr). destruct deps as [|tx deps]; [done|].
  apply Forall_cons in Hd as Hd'. destruct Hd' as [[r ->] _].
  exists r, (deps ++ rest), (zlen ((DepositTxType :: r) :: deps) - 1). split; [done|]. split.
  - unfold lastDeposit. by rewrite lastDeposit_loop_first.
  - replace (Z.to_nat _) with (length ((DepositTxType :: r) :: deps)) by (unfold zlen; simpl; lia).
    rewrite drop_app_length. by apply no_deposits_other.
Qed.
End Attributes.

(** ** Services that work *)
Section Progress.
Context `{Keccak} `{GethLaws} `{RLP} {W : Type} `{!Engine W} `{!Downloader W}.
Context `{!DriverL1 W} `{!DriverL2 W} `{!Network W}.
Context (fuel : nat) (config : Config) (c : CanonicalL1).
#[local] Instance progress_output : Output W := node_output fuel config.
Context (fin : BlockID) (I : W -> Prop) (known : W -> Hash -> Prop) (timeOf : Hash -> uint64).

(** Attributes that an engine can build a block of. *)
Definition buildable (attrs : PayloadAttributes) : Prop :=
  deposits_first (at_Transactions attrs) /\ in_range 62 (at_Timestamp attrs).

(** In the worlds of [I] the L1 node has the whole of [c], and the engine extends the blocks
    it holds ([known]) with the attributes it is given, and keeps them. *)
Record working : Prop := {
  wk_keeps h : driver_invariant (id_Hash fin) (fun w => I w /\ known w h);
  wk_build fc attrs w : I w -> known w (fc_HeadBlockHash fc) -> known w (fc_SafeBlockHash fc) ->
    fc_FinalizedBlockHash fc = id_Hash fin -> buildable attrs ->
    exists r w1 id p w2, eng_ForkchoiceUpdate fc (Some attrs) w = (Ok r, w1) /\
      ps_Status (fr_PayloadStatus r) = ExecutionValid /\ fr_PayloadID r = Some id /\
      eng_GetPayload id w1 = (Ok p, w2);
  wk_insert p w : I w -> engine_answer I p -> known w (pl_ParentHash p) ->
    exists w', eng_NewPayload p w = (Ok tt, w') /\ known w' (pl_BlockHash p);
  wk_forkchoice fc w : I w -> known w (fc_HeadBlockHash fc) -> known w (fc_SafeBlockHash fc) ->
    fc_FinalizedBlockHash fc = id_Hash fin ->
    exists r w', eng_ForkchoiceUpdate fc None w = (Ok r, w') /\
      ps_Status (fr_PayloadStatus r) = ExecutionValid;
  wk_byhash h w : I w -> known w h -> exists p w', eng_PayloadByHash h w = (Ok p, w');
  wk_fetch n w : I w -> c_has c n -> exists x w', dl_Fetch (c_hash c n) w = (Ok x, w');
  wk_info n w : I w -> c_has c n -> exists i w', dl_InfoByHash (c_hash c n) w = (Ok i, w');
  wk_txs n len w : I w -> 0 <= n -> n + len - 1 <= c_height c ->
    exists l w', dl_FetchAllTransactions (c_ids c n len) w = (Ok l, w');
  wk_range n max w : I w -> c_has c n -> 0 <= max ->
    exists ids w', L1Range (c_id c n) max w = (Ok ids, w') /\ Z.min max (c_height c - n) <= zlen ids;
}.

Context (Hcan : canonical c) (Hok : node_ok config c (id_Hash fin) I timeOf) (Hwk : working).
Context (Hparents : forall n, c_has c n -> c_has c (n + 1) -> li_ParentHash (c_info c (n + 1)) = c_hash c n).
Context (HW : 2 <= cfg_SeqWindowSize config < 2 ^ 62) (Hbt : 0 < cfg_BlockTime config < 2 ^ 62).
Context (Hfuel : Z.of_nat fuel < 2 ^ 63).

Lemma wp_eq {A} (m : M W A) r w w' Q : m w = (r, w') -> Q r w' -> wp m Q w.
Proof. unfold wp. by intros ->. Qed.

(** [insertHeadBlock] from the answers to its calls. *)
Lemma insertHeadBlock_answered fc attrs w r w1 id p w2 w3 r' w4 :
  eng_ForkchoiceUpdate fc (Some attrs) w = (Ok r, w1) ->
  ps_Status (fr_PayloadStatus r) = ExecutionValid -> fr_PayloadID r = Some id ->
  eng_GetPayload id w1 = (Ok p, w2) -> deposits_first (pl_Transactions p) ->
  eng_NewPayload p w2 = (Ok tt, w3) ->
  eng_ForkchoiceUpdate (mkForkchoiceState (pl_BlockHash p) (pl_BlockHash p) (fc_FinalizedBlockHash fc))
    None w3 = (Ok r', w4) ->
  ps_Status (fr_PayloadStatus r') = ExecutionValid ->
  insertHeadBlock fc attrs true w = (Ok p, w4).
Proof.
  intros E1 Hv Eid E2 Hdep E3 E4 Hv'.
  destruct (deposits_first_checked _ Hdep) as (rest & txs & k & Etx & Elast & Eno).
  unfold insertHeadBlock, M_err. rewrite (M_bind_eq _ _ w r w1) by (by rewrite E1).
  rewrite Hv, Eid, bool_decide_eq_true_2 by done. cbn [negb].
  rewrite (M_bind_eq _ _ w1 p w2) by (by rewrite E2).
  rewrite (M_bind_eq _ _ w2 tt w2) by (rewrite bool_decide_eq_false_2 by (by rewrite Etx); done).
  rewrite (M_bind_eq _ _ w2 (DepositTxType :: rest) w2) by (by rewrite Etx).
  rewrite (M_bind_eq _ _ w2 DepositTxType w2) by done.
  rewrite (M_bind_eq _ _ w2 tt w2) by (by rewrite bool_decide_eq_true_2 by done).
  rewrite (M_bind_eq _ _ w2 k w2) by (unfold lift; by rewrite Elast).
  rewrite (M_bind_eq _ _ w2 tt w2) by (unfold lift; by rewrite Eno).
  rewrite (M_bind_eq _ _ w2 tt w3) by (by rewrite E3). cbv zeta.
  rewrite (M_bind_eq _ _ w3 r' w4) by (by rewrite E4).
  by rewrite Hv', bool_decide_eq_true_2 by done.
Qed.

(** The attributes become a block that the engine holds. *)
Lemma insertHeadBlock_works fc attrs w :
  I w -> known w (fc_HeadBlockHash fc) -> known w (fc_SafeBlockHash fc) ->
  fc_FinalizedBlockHash fc = id_Hash fin -> buildable attrs -> at_NoTxPool attrs = true ->
  exists p w', insertHeadBlock fc attrs true w = (Ok p, w') /\
    attributes_match attrs (fc_HeadBlockHash fc) p /\ engine_answer I p /\
    I w' /\ known w' (pl_BlockHash p).
Proof.
  intros Hi Hkh Hks Hfin Hdep Hpool.
  destruct (wk_build Hwk fc attrs w) as (r & w1 & id & p & w2 & E1 & Hv & Eid & E2); [done..|].
  assert (Hm : attributes_match attrs (fc_HeadBlockHash fc) p)
    by (eapply (ok_builds _ _ _ _ _ Hok); [exact Hi|exact E1|exact Eid|exact E2|exact Hpool]).
  pose proof (wk_keeps Hwk (fc_HeadBlockHash fc)) as [(Kget & _ & _ & _ & _ & _ & _ & Kfc) _].
  destruct (preserves_run _ _ _ _ _ (Kfc fc (Some attrs) Hfin) (conj Hi Hkh) E1) as [Hi1 Hkh1].
  destruct (preserves_run _ _ _ _ _ (Kget id) (conj Hi1 Hkh1) E2) as [Hi2 Hkh2].
  assert (Hans : engine_answer I p) by (left; exists id; by exists w1, w2).
  assert (Hpar : known w2 (pl_ParentHash p)) by (destruct Hm as [<- _]; done).
  destruct (wk_insert Hwk p w2 Hi2 Hans Hpar) as (w3 & E3 & Hk3).
  pose proof (wk_keeps Hwk (pl_BlockHash p)) as [(_ & _ & _ & _ & _ & _ & _ & Kfc3) _].
  pose proof (ok_keeps _ _ _ _ _ Hok) as [(_ & Knew & _) _].
  assert (Hi3 : I w3) by (by apply (preserves_run _ _ _ _ _ (Knew p) Hi2 E3)).
  set (fc' := mkForkchoiceState (pl_BlockHash p) (pl_BlockHash p) (fc_FinalizedBlockHash fc)).
  destruct (wk_forkchoice Hwk fc' w3) as (r' & w4 & E4 & Hv'); [done..|].
  destruct (preserves_run _ _ _ _ _ (Kfc3 fc' None Hfin) (conj Hi3 Hk3) E4) as [Hi4 Hk4].
  exists p, w4. split_and!; [|done..]. eapply insertHeadBlock_answered; try done.
  destruct Hm as (_ & _ & _ & <-). apply Hdep.
Qed.

Lemma derived_ref seq info b p rest :
  L1Info_ok info -> in_range 64 seq -> L1InfoDepositBytes seq info = Ok b ->
  pl_Transactions p = b :: rest -> engine_answer I p ->
  exists ref, PayloadToBlockRef p (cfg_Genesis config) = Ok ref.
Proof.
  intros Hi Hs Eb Etx Hans. destruct (L1InfoDepositBytes_decodes _ _ _ Hi Hs Eb) as (tx & Eu & Ety & Einfo).
  destruct (ok_answer _ _ _ _ _ Hok _ Hans) as [_ Hempty].
  unfold PayloadToBlockRef. destruct (Z.eqb_spec (pl_BlockNumber p) (id_Number (gen_L2 (cfg_Genesis config)))) as [E|_].
  { by rewrite Hempty in Etx. }
  rewrite Etx, Eu. cbn [map_err mbind res_bind]. rewrite bool_decide_eq_true_2 by done. cbn [negb].
  rewrite Einfo. cbn. by eexists.
Qed.

(** The loop of an epoch, on top of a head that is the safe head. *)
Lemma insertEpoch_loop_works l1Info deposits batches i fc head safe d attrss w :
  epoch_attributes_list config l1Info deposits i batches = Ok attrss ->
  Forall buildable attrss -> L1Info_ok l1Info -> 0 <= i -> i + zlen batches < 2 ^ 64 ->
  fc = mkForkchoiceState (l2_Hash head) (l2_Hash safe) (id_Hash fin) ->
  l2_Hash head = l2_Hash safe -> I w -> known w (l2_Hash safe) ->
  exists head' safe' w',
    insertEpoch_loop config l1Info deposits batches i fc head safe d false w = (Ok (head', safe', d), w') /\
    l2_Hash head' = l2_Hash safe' /\ I w' /\ known w' (l2_Hash safe').
Proof.
  intros E Hdep Hinfo. revert i fc head safe attrss w E Hdep.
  induction batches as [|batch batches IH]; intros i fc head safe attrss w E Hdep Hi Hlen Hfc Hhs Hw Hk.
  { by exists head, safe, w. }
  cbn [epoch_attributes_list] in E. apply res_bind_ok in E as (attrs & Ea & E).
  apply res_bind_ok in E as (attrss' & El & E). injection E as <-.
  apply Forall_cons in Hdep as [Hd Hdep]. rewrite zlen_cons in Hlen. pose proof (zlen_nonneg batches).
  assert (Htx : exists b rest, L1InfoDepositBytes i l1Info = Ok b /\ at_Transactions attrs = b :: rest /\
    at_NoTxPool attrs = true).
  { unfold epoch_attributes in Ea. apply res_bind_ok in Ea as (b & Eb & Ea). apply map_err_ok in Eb.
    injection Ea as <-. exists b. eexists. by split. }
  destruct Htx as (b & rest & Eb & Etx & Hpool).
  destruct (insertHeadBlock_works fc attrs w) as (p & w1 & Ep & Hm & Hans & Hw1 & Hk1);
    [subst fc; cbn; congruence..|].
  destruct Hm as (_ & _ & _ & Htxs). rewrite Etx in Htxs. symmetry in Htxs.
  destruct (derived_ref i l1Info b p rest) as [ref Er]; [done|unfold in_range; lia|done|done|done|].
  pose proof (PayloadToBlockRef_hash _ _ _ Er) as Hh.
  destruct (IH (i + 1) (mkForkchoiceState (l2_Hash ref) (l2_Hash ref) (id_Hash fin)) ref ref attrss' w1)
    as (head' & safe' & w' & Eloop & Hres); [done|done|lia|lia|done|done|done|by rewrite Hh|].
  exists head', safe', w'. split; [|done]. cbn [insertEpoch_loop].
  rewrite (M_bind_eq _ _ w attrs w) by (unfold lift; by rewrite Ea).
  rewrite (proj2 (Z.eqb_eq (l2_Hash head) (l2_Hash safe))) by done. cbn [negb orb].
  rewrite (M_bind_eq _ _ w (p, false) w1) by (unfold M_err; by rewrite (M_bind_eq _ _ w p w1)).
  rewrite (M_bind_eq _ _ w1 ref w1) by (unfold M_err, lift; by rewrite Er).
  subst fc. exact Eloop.
Qed.

(** [insertEpoch] from the answers to its calls, up to its loop. *)
Lemma insertEpoch_answered n head safe w l2Info w1 txs receipts w2 w3 w4 deposits errs bs1 bs2 bs3 :
  c_has c n -> c_has c (n + 1) ->
  l2_L1Origin safe = c_id c n -> pl_Timestamp l2Info = l2_Time safe ->
  eng_PayloadByHash (l2_Hash safe) w = (Ok l2Info, w1) ->
  dl_Fetch (c_hash c (n + 1)) w1 = (Ok (c_info c (n + 1), txs, receipts), w2) ->
  dl_InfoByHash (c_hash c (n + 1 + 1)) w2 = (Ok (c_info c (n + 1 + 1)), w3) ->
  dl_FetchAllTransactions (c_ids c (n + 1) (cfg_SeqWindowSize config)) w3 =
    (Ok ((fun m => lb_txs (c_block c m)) <$> seqZ (n + 1) (cfg_SeqWindowSize config)), w4) ->
  DeriveDeposits receipts (cfg_DepositContractAddress config) = Ok (deposits, errs) ->
  BatchesFromEVMTransactions config
    ((fun m => lb_txs (c_block c m)) <$> seqZ (n + 1) (cfg_SeqWindowSize config)) = Ok bs1 ->
  let minL2Time := l2_Time safe +64 cfg_BlockTime config in
  FilterBatches config (n + 1) minL2Time
    (Z.max (li_Time (c_info c (n + 1)) +64 cfg_MaxSequencerDrift config)
       (minL2Time +64 cfg_BlockTime config)) bs1 = Ok bs2 ->
  FillMissingBatches fuel bs2 (n + 1) (cfg_BlockTime config) minL2Time (li_Time (c_info c (n + 1 + 1)))
    = Ok bs3 ->
  insertEpoch fuel config head safe fin (c_ids c (n + 1) (cfg_SeqWindowSize config)) w =
    insertEpoch_loop config (c_info c (n + 1)) deposits bs3 0
      (mkForkchoiceState (l2_Hash head) (l2_Hash safe) (id_Hash fin)) head safe false false w4.
Proof.
  intros Hn0 Hn1 Ho Ht E1 E2 E3 E4 Ed Eb1 minL2Time Eb2 Eb3.
  assert (Hz : zlen (c_ids c (n + 1) (cfg_SeqWindowSize config)) = cfg_SeqWindowSize config)
    by (apply c_ids_zlen; lia).
  unfold insertEpoch. rewrite Hz, (proj2 (Z.leb_gt _ 1)) by lia.
  rewrite to_int64_small, Z.eqb_refl by lia. cbn [negb].
  rewrite (M_bind_eq _ _ w (c_id c (n + 1)) w) by (unfold lift; by rewrite c_ids_cons by lia).
  rewrite (M_bind_eq _ _ w (c_id c (n + 1 + 1)) w)
    by (unfold lift; by rewrite c_ids_cons, c_ids_cons by lia).
  rewrite (M_bind_eq _ _ w l2Info w1) by (unfold M_err; by rewrite E1).
  rewrite (M_bind_eq _ _ w1 _ w2) by (unfold M_err; cbn [c_id id_Hash]; by rewrite E2).
  cbn beta iota.
  rewrite (M_bind_eq _ _ w2 tt w2) by (by rewrite Ho, Hparents, Z.eqb_refl).
  rewrite (M_bind_eq _ _ w2 _ w3) by (unfold M_err; cbn [c_id id_Hash]; by rewrite E3).
  rewrite (M_bind_eq _ _ w3 (deposits, errs) w3) by (unfold lift; by rewrite Ed). cbn beta iota.
  rewrite (M_bind_eq _ _ w3 _ w4) by (unfold M_err; by rewrite E4).
  rewrite (M_bind_eq _ _ w4 bs1 w4) by (unfold M_err, lift; by rewrite Eb1). cbv zeta.
  rewrite Ht. fold minL2Time.
  rewrite (M_bind_eq _ _ w4 bs2 w4).
  2:{ unfold lift. f_equal. rewrite <-Eb2. cbn [c_id id_Number]. f_equal. case_match; lia. }
  by rewrite (M_bind_eq _ _ w4 bs3 w4) by (unfold lift; cbn [c_id id_Number]; by rewrite Eb3).
Qed.

(** A window of the chain behind the safe head is an epoch more. *)
Lemma insertEpoch_works n head safe attrss w :
  I w -> known w (l2_Hash safe) -> l2_Hash head = l2_Hash safe ->
  l2_L1Origin safe = c_id c n -> timeOf (l2_Hash safe) = l2_Time safe ->
  0 <= n -> n + cfg_SeqWindowSize config <= c_height c ->
  chain_epoch fuel config c (n + 1) (l2_Time safe) = Ok attrss ->
  Forall (fun attrs => in_range 62 (at_Timestamp attrs)) attrss ->
  exists head' safe' w',
    insertEpoch fuel config head safe fin (c_ids c (n + 1) (cfg_SeqWindowSize config)) w
      = (Ok (head', safe', false), w') /\
    l2_Hash head' = l2_Hash safe' /\ I w' /\ known w' (l2_Hash safe').
Proof.
  intros Hw Hk Hhs Ho Ht Hn Hh Hd Htimes.
  assert (Hn0 : c_has c n) by (unfold c_has; lia). assert (Hn1 : c_has c (n + 1)) by (unfold c_has; lia).
  assert (Hn2 : c_has c (n + 1 + 1)) by (unfold c_has; lia).
  pose proof (wk_keeps Hwk (l2_Hash safe)) as [(_ & _ & Kbh & _ & Kinfo & Kfetch & Ktxs & _) _].
  destruct (wk_byhash Hwk _ w Hw Hk) as (l2Info & w1 & E1).
  pose proof (ok_byhash _ _ _ _ _ Hok _ _ (reads_intro I _ _ _ _ Hw E1)) as Hl2. rewrite Ht in Hl2.
  destruct (preserves_run _ _ _ _ _ (Kbh _) (conj Hw Hk) E1) as [Hw1 Hk1].
  destruct (wk_fetch Hwk _ w1 Hw1 Hn1) as ([[l1Info txs] receipts] & w2 & E2).
  destruct (ok_fetch _ _ _ _ _ Hok _ _ _ _ Hn1 (reads_intro I _ _ _ _ Hw1 E2)) as [-> Hrc].
  destruct (preserves_run _ _ _ _ _ (Kfetch _) (conj Hw1 Hk1) E2) as [Hw2 Hk2].
  destruct (wk_info Hwk _ w2 Hw2 Hn2) as (next & w3 & E3).
  pose proof (ok_info _ _ _ _ _ Hok _ _ Hn2 (reads_intro I _ _ _ _ Hw2 E3)) as ->.
  destruct (preserves_run _ _ _ _ _ (Kinfo _) (conj Hw2 Hk2) E3) as [Hw3 Hk3].
  destruct (wk_txs Hwk (n + 1) (cfg_SeqWindowSize config) w3) as (txLists & w4 & E4); [done|lia|lia|].
  apply (reads_intro I) in E4 as Htxs; [|done]. apply (ok_txs _ _ _ _ _ Hok) in Htxs as ->; [|lia..].
  destruct (preserves_run _ _ _ _ _ (Ktxs _) (conj Hw3 Hk3) E4) as [Hw4 Hk4].
  assert (Hbt0 : cfg_BlockTime config <> 0) by lia.
  pose proof (derive_epoch_deposits_first _ _ _ _ _ _ _ _ _ Hbt0 Hd) as Hdep.
  assert (Hbuild : Forall buildable attrss) by (by apply Forall_and).
  unfold chain_epoch, derive_epoch in Hd.
  apply res_bind_ok in Hd as ([deposits errs] & Ed & Hd). apply res_bind_ok in Hd as (bs1 & Eb1 & Hd).
  apply res_bind_ok in Hd as (bs2 & Eb2 & Hd). apply res_bind_ok in Hd as (bs3 & Eb3 & Hd).
  apply FillMissingBatches_length in Eb3 as Hlen.
  rewrite <-(DeriveDeposits_read _ _ _ Hrc) in Ed.
  rewrite (insertEpoch_answered n head safe w l2Info w1 txs receipts w2 w3 w4 deposits errs bs1 bs2 bs3) by done.
  destruct (can_info _ Hcan _ Hn1) as [Hinfo _].
  eapply insertEpoch_loop_works; [done|done|done|lia|unfold zlen; lia|done..].
Qed.

(** ** The handler *)
Lemma slice_take {A} (l : list A) n : 0 <= n <= zlen l -> slice l 0 n = Ok (take (Z.to_nat n) l).
Proof.
  intros Hn. unfold slice. rewrite (proj2 (Z.leb_le 0 0)), (proj2 (Z.leb_le 0 n)), (proj2 (Z.leb_le n _)) by lia.
  cbn [andb]. by rewrite Z.sub_0_r.
Qed.

(** The state of a verifier: no unsafe blocks, and a segment of the chain in the window. *)
Record verifying (n len : Z) (s : state) (w : W) : Prop := {
  vf_head : l2_Hash (s_l2Head s) = l2_Hash (s_l2SafeHead s);
  vf_origin : l2_L1Origin (s_l2SafeHead s) = c_id c n;
  vf_time : timeOf (l2_Hash (s_l2SafeHead s)) = l2_Time (s_l2SafeHead s);
  vf_finalized : s_l2Finalized s = fin;
  vf_window : s_l1WindowBuf s = c_ids c (n + 1) len;
  vf_len : 0 <= n /\ 0 <= len /\ n + len <= c_height c;
  vf_world : I w /\ known w (l2_Hash (s_l2SafeHead s));
}.

Lemma handleEpoch_insert_works n len s w attrss :
  verifying n len s w -> cfg_SeqWindowSize config <= len ->
  chain_epoch fuel config c (n + 1) (l2_Time (s_l2SafeHead s)) = Ok attrss ->
  Forall (fun attrs => in_range 62 (at_Timestamp attrs)) attrss ->
  exists s' w', handleEpoch_insert config (s, w) = (Ok false, (s', w')) /\
    s_l1Head s' = s_l1Head s /\ verifying (n + 1) (len - 1) s' w'.
Proof.
  intros [Hhs Ho Ht Hf Hwin (Hn & Hl & Hh) [Hw Hk]] HWl Hd Htimes.
  destruct (insertEpoch_works n (s_l2Head s) (s_l2SafeHead s) attrss w)
    as (head' & safe' & w' & E & Hhs' & Hw' & Hk'); [done..|lia|done|done|].
  destruct (insertEpoch_epoch fuel config c fin I timeOf Hcan Hok ltac:(lia) Hbt Hfuel _ _ _ _ _ _ _ _
    Hw Hn ltac:(lia) Ht E) as (attrss' & payloads & p & _ & Hch & Hans & Hp & Hph & Hpt & Ho').
  exists (mkState (s_l1Head s) head' safe' fin (c_ids c (n + 1 + 1) (len - 1))), w'.
  assert (Hz : zlen (c_ids c (n + 1) len) = len) by (by apply c_ids_zlen).
  split_and!; [|done|].
  - unfold handleEpoch_insert, mbind, M_bind, get, call, modify, attempt, lift. cbn [fst snd].
    rewrite Hwin, Hz, to_int64_small, (proj2 (Z.ltb_ge len _)) by lia.
    rewrite slice_take by lia. rewrite c_ids_take by lia. cbn [fst snd].
    change (out_insertEpoch ?a ?b ?c ?d w) with (insertEpoch fuel config a b c d w).
    rewrite Hf, E. cbn [fst snd set_l2Head set_l2SafeHead set_l1WindowBuf s_l1Head s_l2Head s_l2SafeHead s_l2Finalized s_l1WindowBuf].
    unfold slice. rewrite Hz, (proj2 (Z.leb_le 0 1)), (proj2 (Z.leb_le 1 len)), (proj2 (Z.leb_le len len)) by lia.
    cbn [andb]. rewrite c_ids_cons by lia. change (drop (Z.to_nat 1) (?x :: ?l)) with l.
    rewrite take_ge by (pose proof (c_ids_zlen c (n + 1 + 1) (len - 1)); unfold zlen in *; lia).
    unfold set_l1WindowBuf, set_l2SafeHead, set_l2Head. cbn [s_l1Head s_l2Finalized]. by rewrite Hf.
  - split; try done; cbn; [|lia].
    rewrite Hph, Hpt. symmetry. apply (ok_answer _ _ _ _ _ Hok). rewrite Forall_forall in Hans.
    apply Hans. by apply last_Some_elem_of.
Qed.

Lemma handleEpoch_works n len s w attrss :
  verifying n len s w -> n + cfg_SeqWindowSize config <= c_height c ->
  chain_epoch fuel config c (n + 1) (l2_Time (s_l2SafeHead s)) = Ok attrss ->
  Forall (fun attrs => in_range 62 (at_Timestamp attrs)) attrss ->
  exists s' w' len', handleEpoch config (s, w) = (Ok false, (s', w')) /\
    s_l1Head s' = s_l1Head s /\ verifying (n + 1) len' s' w'.
Proof.
  intros Hv HWh Hd Htimes. pose proof Hv as [Hhs Ho Ht Hf Hwin (Hn & Hl & Hh) [Hw Hk]].
  assert (Hz : zlen (c_ids c (n + 1) len) = len) by (by apply c_ids_zlen).
  unfold handleEpoch. rewrite (M_bind_eq _ _ (s, w) s (s, w)) by done.
  rewrite to_int64_small, Hwin, Hz by lia. destruct (Z.ltb_spec len (cfg_SeqWindowSize config)) as [Hlt|Hge].
  - assert (Hend : l1WindowBufEnd s = c_id c (n + len)).
    { unfold l1WindowBufEnd. rewrite Hwin, Ho. pose proof (c_ids_last c (n + 1) len Hl) as El. revert El.
      replace (n + 1 - 1) with n by lia. replace (n + 1 + len - 1) with (n + len) by lia. by destruct (last _). }
    assert (Hhas : c_has c (n + len)) by (unfold c_has; lia).
    destruct (wk_range Hwk (n + len) (2 *64 cfg_SeqWindowSize config) w) as (ids & w1 & E & Hlong); [done|done| |].
    { rewrite wrap_small by (unfold in_range; lia). lia. }
    destruct (ok_range _ _ _ _ _ Hok _ _ _ Hhas (reads_intro I _ _ _ _ Hw E)) as (len' & -> & Hl' & Hh').
    rewrite c_ids_zlen, wrap_small in Hlong by (unfold in_range; lia).
    pose proof (wk_keeps Hwk (l2_Hash (s_l2SafeHead s))) as (_ & _ & _ & _ & Krange & _).
    destruct (preserves_run _ _ _ _ _ (Krange _ _) (conj Hw Hk) E) as [Hw1 Hk1].
    rewrite (M_bind_eq _ _ (s, w) tt (set_l1WindowBuf (c_ids c (n + 1) (len + len')) s, w1)).
    + destruct (handleEpoch_insert_works n (len + len') (set_l1WindowBuf (c_ids c (n + 1) (len + len')) s) w1 attrss)
        as (s' & w' & E' & Hs' & Hv'); [by split; try done; cbn; lia|lia|exact Hd|done|].
      by exists s', w', (len + len' - 1).
    + rewrite Hend, (M_bind_eq _ _ (s, w) (c_ids c (n + len + 1) len') (s, w1)) by (unfold call; cbn [snd]; by rewrite E).
      unfold modify. cbn [fst snd]. do 3 f_equal. rewrite c_ids_app by lia. do 2 f_equal. lia.
  - rewrite (M_bind_eq _ _ (s, w) tt (s, w)) by done.
    destruct (handleEpoch_insert_works n len s w attrss Hv) as (s' & w' & E' & Hs' & Hv'); [lia|exact Hd|done|].
    by exists s', w', (len - 1).
Qed.

(** ** The loop *)
Lemma derive_chain_next j m n t a b :
  (j < m)%nat -> derive_chain fuel config c m n t = Ok a -> derive_chain fuel config c j n t = Ok b ->
  exists x, chain_epoch fuel config c (n + Z.of_nat j) (last_time t b) = Ok x /\ x ⊆ a.
Proof.
  intros Hj Ea Eb. replace m with (j + (1 + (m - j - 1)))%nat in Ea by lia.
  rewrite derive_chain_app, Eb in Ea. cbn [mbind res_bind] in Ea.
  apply res_bind_ok in Ea as (y & Ey & Ea). rewrite derive_chain_app, derive_chain_one in Ey.
  apply res_bind_ok in Ey as (x & Ex & Ey). apply res_bind_ok in Ey as (z & _ & Ey).
  injection Ea as <-. injection Ey as <-. exists x. split; [done|]. intros v. set_solver.
Qed.

(** A requested step. *)
Lemma step_works sequencer n len l attrss :
  lp_status l = Running -> lp_stepReqCh l = true -> verifying n len (lp_state l) (lp_world l) ->
  l1_Number (s_l1Head (lp_state l)) = c_height c -> n + cfg_SeqWindowSize config <= c_height c ->
  chain_epoch fuel config c (n + 1) (l2_Time (s_l2SafeHead (lp_state l))) = Ok attrss ->
  Forall (fun attrs => in_range 62 (at_Timestamp attrs)) attrss ->
  exists l' len' r, loop_step fuel config sequencer EvStepReq l = Some l' /\
    handleEpoch config (lp_state l, lp_world l) = (r, (lp_state l', lp_world l')) /\
    lp_status l' = Running /\ s_l1Head (lp_state l') = s_l1Head (lp_state l) /\
    lp_stepReqCh l' = (cfg_SeqWindowSize config <=? c_height c - (n + 1)) /\
    verifying (n + 1) len' (lp_state l') (lp_world l').
Proof.
  intros Hrun Hreq Hv Hhead HWh Hd Htimes.
  destruct (handleEpoch_works n len _ _ attrss Hv HWh Hd Htimes) as (s' & w' & len' & E & Hs' & Hv').
  pose proof (can_height _ Hcan) as Hmax. destruct (vf_len _ _ _ _ Hv') as (Hn & _ & _).
  assert (Hcomplete : window_complete config s' = (cfg_SeqWindowSize config <=? c_height c - (n + 1))).
  { unfold window_complete. rewrite Hs', Hhead, (vf_origin _ _ _ _ Hv'). cbn [c_id id_Number].
    by rewrite wrap_small by (unfold in_range; lia). }
  set (l' := mkLoop s' w' false (lp_l2BlockCreationReqCh l) (lp_timers l) (lp_l1Heads l)
    (lp_unsafeL2Payloads l) (lp_done l) (lp_status l)).
  exists (reqStep_if_complete config l'), len', (Ok false).
  assert (Eloop : loop_step fuel config sequencer EvStepReq l = Some (reqStep_if_complete config l')).
  { unfold loop_step. rewrite Hrun, Hreq. unfold run.
    change (handleEpoch config (lp_state (set_chans l false (lp_l2BlockCreationReqCh l) (lp_timers l)),
      lp_world (set_chans l false (lp_l2BlockCreationReqCh l) (lp_timers l))))
      with (handleEpoch config (lp_state l, lp_world l)).
    rewrite E. done. }
  split; [exact Eloop|]. unfold reqStep_if_complete. cbn [lp_state l'].
  rewrite Hcomplete. destruct (_ <=? _); by split_and!.
Qed.

(** Steps of a verifier, one after the other, as long as windows are complete. *)
Lemma verifier_steps sequencer s (w : W) m attrss j :
  starts c timeOf (s_l2SafeHead s) -> l2_Hash (s_l2Head s) = l2_Hash (s_l2SafeHead s) ->
  s_l1WindowBuf s = [] -> s_l2Finalized s = fin -> l1_Number (s_l1Head s) = c_height c ->
  I w -> known w (l2_Hash (s_l2SafeHead s)) ->
  let n0 := id_Number (l2_L1Origin (s_l2SafeHead s)) in
  n0 + Z.of_nat m + cfg_SeqWindowSize config - 1 = c_height c ->
  derive_chain fuel config c m (n0 + 1) (l2_Time (s_l2SafeHead s)) = Ok attrss ->
  Forall (fun attrs => in_range 62 (at_Timestamp attrs)) attrss -> (j <= m)%nat ->
  exists l len a p,
    reachable fuel config sequencer s w (replicate j EvStepReq) l /\ lp_status l = Running /\
    s_l1Head (lp_state l) = s_l1Head s /\
    safe_inv fuel config c I timeOf (s_l2SafeHead s) (lp_state l) /\
    derived_to fuel config c I (s_l2SafeHead s) (s_l2SafeHead (lp_state l)) j a p /\
    verifying (n0 + Z.of_nat j) len (lp_state l) (lp_world l) /\
    lp_stepReqCh l = bool_decide (j = 0%nat \/ (j < m)%nat).
Proof.
  intros Hs Hhs Hbuf Hfin Hhead Hw Hk n0 Hm Hd Htimes. pose proof (st_has _ _ _ Hs) as [Hn0 Hn0'].
  assert (En0 : n0 = id_Number (l2_L1Origin (s_l2SafeHead s))) by done.
  pose proof (derived_to_start fuel config c I timeOf _ Hs) as Hstart.
  induction j as [|j IH]; intros Hj.
  - exists (loop_start s w), 0, [], []. split_and!;
      [constructor|done|done| |done| |by rewrite bool_decide_eq_true_2 by auto].
    + exists 0%nat, [], [], 0. cbn. rewrite Hbuf. split_and!; [done|apply Hs|done|done|lia].
    + split; cbn; rewrite ?Z.add_0_r; try done; apply Hs.
  - destruct (IH ltac:(lia)) as (l & len & a & p & Hr & Hrun & Hl1 & Hsafe & Hdt & Hv & Hreq).
    rewrite bool_decide_eq_true_2 in Hreq by lia.
    destruct (derive_chain_next j m _ _ _ _ ltac:(lia) Hd (dt_chain _ _ _ _ _ _ _ _ _ Hdt)) as (x & Hx & Hxa).
    rewrite <-(dt_time _ _ _ _ _ _ _ _ _ Hdt) in Hx.
    replace (n0 + 1 + Z.of_nat j) with (n0 + Z.of_nat j + 1) in Hx by lia.
    destruct (step_works sequencer _ _ _ _ Hrun Hreq Hv ltac:(by rewrite Hl1) ltac:(lia) Hx)
      as (l' & len' & r & El & Eh & Hrun' & Hl1' & Hreq' & Hv').
    { rewrite !Forall_forall in Htimes |- *. auto. }
    assert (Hsafe' : safe_inv fuel config c I timeOf (s_l2SafeHead s) (lp_state l')).
    { eapply (handleEpoch_safe fuel config c fin I timeOf Hcan Hok); [lia|done|done|done|exact Eh| |done].
      split; [apply Hv|apply (vf_world _ _ _ _ Hv)]. }
    replace (n0 + Z.of_nat j + 1) with (n0 + Z.of_nat (S j)) in Hv', Hreq' by lia.
    destruct Hsafe' as (k & a' & p' & lenw & Hdt' & Hrest).
    assert (k = S j) as ->.
    { pose proof (dt_origin _ _ _ _ _ _ _ _ _ Hdt') as Ho. rewrite (vf_origin _ _ _ _ Hv') in Ho.
      injection Ho as _ Ho. lia. }
    exists l', len', a', p'. rewrite replicate_S_end.
    split_and!; [by eapply reach_step|done|by rewrite Hl1'| |done|done|].
    + by exists (S j), a', p', lenw.
    + rewrite Hreq'. apply eq_bool_prop_intro. rewrite Is_true_true, Z.leb_le, bool_decide_spec. lia.
Qed.

(** [C4] A verifier catches up.  On an L1 chain whose last block is the L1 head of the
    driver, with services that work, a verifier without unsafe blocks makes every step that
    is requested, one after the other and without any other event: after [m] of them its
    safe head is what L1 derives for [m] epochs, up to the last complete sequencing window,
    it still has no unsafe blocks, and no further step is requested. *)
Theorem verifier_catches_up sequencer s (w : W) m attrss :
  starts c timeOf (s_l2SafeHead s) -> l2_Hash (s_l2Head s) = l2_Hash (s_l2SafeHead s) ->
  s_l1WindowBuf s = [] -> s_l2Finalized s = fin -> l1_Number (s_l1Head s) = c_height c ->
  I w -> known w (l2_Hash (s_l2SafeHead s)) ->
  let n0 := id_Number (l2_L1Origin (s_l2SafeHead s)) in
  n0 + Z.of_nat m + cfg_SeqWindowSize config - 1 = c_height c ->
  derive_chain fuel config c m (n0 + 1) (l2_Time (s_l2SafeHead s)) = Ok attrss ->
  Forall (fun attrs => in_range 62 (at_Timestamp attrs)) attrss ->
  exists l payloads, reachable fuel config sequencer s w (replicate m EvStepReq) l /\
    derived_to fuel config c I (s_l2SafeHead s) (s_l2SafeHead (lp_state l)) m attrss payloads /\
    l2_Hash (s_l2Head (lp_state l)) = l2_Hash (s_l2SafeHead (lp_state l)) /\
    lp_stepReqCh l = bool_decide (m = 0%nat).
Proof.
  intros Hs Hhs Hbuf Hfin Hhead Hw Hk n0 Hm Hd Htimes.
  destruct (verifier_steps sequencer s w m attrss m Hs Hhs Hbuf Hfin Hhead Hw Hk Hm Hd Htimes (le_n m))
    as (l & len & a & p & Hr & _ & _ & _ & Hdt & Hv & Hreq).
  pose proof (dt_chain _ _ _ _ _ _ _ _ _ Hdt) as Hd'. unfold n0 in Hd. rewrite Hd in Hd'. injection Hd' as <-.
  exists l, p. split_and!; [done|done|apply (vf_head _ _ _ _ Hv)|].
  rewrite Hreq. apply bool_decide_ext. lia.
Qed.
End Progress.

(** ** Witness: an engine whose block hashes commit to height and time

    It holds the blocks that it has accepted, and accepts blocks whose time is that of
    their hash only; the L1 node serves the toy L1 up to its height. *)
Definition hash_time (h : Hash) : uint64 := h mod 2 ^ 62.
Definition next_hash (parent : Hash) (time : uint64) : Hash := (parent / 2 ^ 62 + 1) * 2 ^ 62 + time.
Definition hash_payload (parent : Hash) (attrs : PayloadAttributes) : ExecutionPayload :=
  let h := next_hash parent (at_Timestamp attrs) in
  mkExecutionPayload parent 0 0 0 0 (at_PrevRandao attrs) (h / 2 ^ 62) 0 0
    (at_Timestamp attrs) [] 0 h (at_Transactions attrs).
Definition sound (p : ExecutionPayload) : bool :=
  (pl_Timestamp p =? hash_time (pl_BlockHash p)) && (0 <=? pl_BlockHash p).
Definition sound_built (p : ExecutionPayload) : bool := sound p && (0 <? pl_BlockNumber p).

Definition HashEngine : Engine ToyWorld := {|
  eng_GetPayload := fun id => checked sound_built (fun w =>
    (match tw_building w with
     | Some (parent, attrs) => Ok (hash_payload parent attrs)
     | None => Err ENotFound
     end, w));
  eng_ForkchoiceUpdate := @eng_ForkchoiceUpdate _ ToyEngine;
  eng_NewPayload := fun p w =>
    if sound p then @eng_NewPayload _ ToyEngine p w else (Err (EMsg "INVALID_BLOCK_HASH"), w);
  eng_PayloadByHash := @eng_PayloadByHash _ ToyEngine;
  eng_PayloadByNumber := fun n => throw ENotFound;
|}.
Definition FullDriverL1 : DriverL1 ToyWorld := {|
  dl1_sync := @dl1_sync _ ToyDriverL1;
  L1BlockRefByHash := @L1BlockRefByHash _ ToyDriverL1;
  L1Range := fun base max =>
    mret (@c_ids ToyGeth chain_L1 (id_Number base + 1) (Z.max 0 (Z.min max (15 - id_Number base))));
|}.

Definition hash_sound (w : ToyWorld) : Prop := Forall (fun p => sound p = true) (tw_blocks w).
Definition hash_known (w : ToyWorld) (h : Hash) : Prop := Exists (fun p => pl_BlockHash p = h) (tw_blocks w).

Lemma sound_spec p : sound p = true <-> pl_Timestamp p = hash_time (pl_BlockHash p) /\ 0 <= pl_BlockHash p.
Proof. unfold sound. rewrite andb_true_iff. lia. Qed.
Lemma next_hash_spec parent time : 0 <= parent -> in_range 62 time ->
  hash_time (next_hash parent time) = time /\ 0 <= next_hash parent time /\ 0 < next_hash parent time / 2 ^ 62.
Proof.
  unfold hash_time, next_hash, in_range. intros Hp Ht.
  pose proof (Z.div_pos parent (2 ^ 62) Hp ltac:(lia)).
  set (q := parent / 2 ^ 62) in *. split_and!.
  - rewrite Z.add_comm, Z.mod_add by lia. by apply Z.mod_small.
  - lia.
  - rewrite Z.div_add_l, Z.div_small by lia. lia.
Qed.
Lemma hash_payload_sound parent attrs : 0 <= parent -> in_range 62 (at_Timestamp attrs) ->
  sound_built (hash_payload parent attrs) = true.
Proof.
  intros Hp Ht. destruct (next_hash_spec _ _ Hp Ht) as (H1 & H2 & H3). unfold sound_built, sound.
  cbn [hash_payload pl_Timestamp pl_BlockHash pl_BlockNumber]. by rewrite H1, Z.eqb_refl, (proj2 (Z.leb_le _ _) H2), (proj2 (Z.ltb_lt _ _) H3).
Qed.

Lemma hash_byhash h (w : ToyWorld) r : hash_sound w -> @eng_PayloadByHash _ HashEngine h w = r ->
  r.2 = w /\ forall p, r.1 = Ok p -> sound p = true /\ pl_BlockHash p = h.
Proof.
  intros Hw <-. cbn. split; [done|]. intros p E.
  destruct (list_find _ _) as [[i q]|] eqn:Ef; [|done]. injection E as <-.
  apply list_find_Some in Ef as (Hi & <- & _). split; [|done]. unfold hash_sound in Hw.
  rewrite Forall_lookup in Hw. by eapply Hw.
Qed.

(** Every call keeps sound worlds, and what the engine holds. *)
Lemma hash_driver (J : ToyWorld -> Prop) :
  (forall blocks building fcs p building' fcs', J (mkToyWorld blocks building fcs) -> sound p = true ->
    J (mkToyWorld (p :: blocks) building' fcs') /\ J (mkToyWorld blocks building' fcs')) ->
  @driver_invariant ToyGeth ToyWorld HashEngine ChainDownloader FullDriverL1 ToyDriverL2 ToyNetwork 0 J.
Proof.
  intros HJ. set (g := hash_payload 0 (mkPayloadAttributes 0 0 0 [] true)).
  assert (Hg : sound g = true) by (vm_compute; reflexivity).
  assert (Hget : forall id, preserves J (@eng_GetPayload _ HashEngine id)).
  { intros id. cbn [eng_GetPayload HashEngine]. unfold checked. apply preserves_bind; [by intros w|].
    intros p w Hw. by destruct (sound_built p). }
  assert (Hfc : forall fc attrs, preserves J (@eng_ForkchoiceUpdate _ ToyEngine fc attrs)).
  { intros fc attrs [bl bu f] Hw. cbn. by eapply (HJ bl bu f g). }
  unfold driver_invariant, step_invariant. split_and!; intros;
    try first [apply Hget|apply Hfc|done|by intros w Hw].
  intros [bl bu f] Hw. cbn. destruct (sound p) eqn:Es; [|done]. cbn. by eapply (HJ bl bu f).
Qed.

Lemma hash_ok : @node_ok ToyGeth ToyWorld HashEngine ChainDownloader FullDriverL1 ToyDriverL2 ToyNetwork
  toy_config chain_L1 0 hash_sound hash_time.
Proof.
  split.
  - apply hash_driver. intros bl bu f p bu' f' Hw Hp. split; [by constructor|done].
  - intros fc attrs w r w1 i p w2 _ E1 Ei E2 Hn. cbn in E1. injection E1 as <- <-.
    cbn [eng_GetPayload HashEngine] in E2. apply checked_ok in E2 as [_ E2]. cbn in E2.
    injection E2 as <- <-. done.
  - intros h. apply Z.mod_pos_bound. lia.
  - intros p [(i & w & w' & Hw & E)|(n & w & w' & Hw & E)]; [|done].
    cbn [eng_GetPayload HashEngine] in E. apply checked_ok in E as [E _]. unfold sound_built in E. apply andb_true_iff in E as [E1 E2].
    apply sound_spec in E1 as [-> _]. split; [done|]. cbn. intros E. rewrite E in E2. done.
  - intros h p (w & w' & Hw & E). destruct (hash_byhash h w _ Hw E) as [_ Hp].
    destruct (Hp p eq_refl) as [Hs <-]. by apply sound_spec in Hs as [-> _].
  - intros n i t r Hn (w & w' & _ & E). cbn in E. rewrite chain_has_true in E by done. by injection E as <- <- <- <-.
  - intros n i Hn (w & w' & _ & E). cbn in E. rewrite chain_has_true in E by done. by injection E as <- <-.
  - intros n len l _ _ (w & w' & _ & E). cbn in E. injection E as <- _. unfold c_ids. by rewrite <-list_fmap_compose.
  - intros n max ids [_ Hn] (w & w' & _ & E). cbn in E. injection E as <- _. cbn in Hn. eexists. split; [done|]. cbn. lia.
Qed.

Lemma hash_known_sound w h : hash_sound w -> hash_known w h ->
  exists p, list_find (fun p => pl_BlockHash p = h) (tw_blocks w) = Some p /\ 0 <= h.
Proof.
  intros Hw Hk. apply Exists_exists in Hk as (p & Hp & Eh).
  destruct (list_find_elem_of (fun p => pl_BlockHash p = h) _ _ Hp Eh) as [q Hq].
  exists q. split; [done|]. unfold hash_sound in Hw. rewrite Forall_forall in Hw.
  apply Hw, sound_spec in Hp as [_ Hp]. by rewrite Eh in Hp.
Qed.

Lemma hash_working : @working ToyGeth ToyWorld HashEngine ChainDownloader FullDriverL1 ToyDriverL2 ToyNetwork
  chain_L1 zeroBlockID hash_sound hash_known.
Proof.
  split.
  - intros h. apply hash_driver. intros bl bu f p bu' f' [Hw Hk] Hp. split; [|done].
    split; [by constructor|by apply Exists_cons_tl].
  - intros fc attrs w Hw Hk _ _ [_ Ht]. destruct (hash_known_sound _ _ Hw Hk) as (_ & _ & Hpos).
    do 5 eexists. split; [done|]. split; [done|]. split; [done|].
    cbn [eng_GetPayload HashEngine]. unfold checked, mbind, M_bind. cbn [tw_building fst snd].
    by rewrite (hash_payload_sound _ _ Hpos Ht).
  - intros p w Hw Hans _. destruct Hans as [(i & w1 & w2 & _ & E)|(n & w1 & w2 & _ & E)]; [|done].
    cbn [eng_GetPayload HashEngine] in E. apply checked_ok in E as [E _].
    unfold sound_built in E. apply andb_true_iff in E as [E _].
    cbn [eng_NewPayload HashEngine]. rewrite E. eexists. split; [done|]. by constructor.
  - intros fc w Hw _ _ _. by do 2 eexists.
  - intros h w Hw Hk. destruct (hash_known_sound _ _ Hw Hk) as ([i p] & Ef & _).
    exists p, w. cbn. by rewrite Ef.
  - intros n w _ Hn. do 2 eexists. cbn. rewrite chain_has_true by done. done.
  - intros n w _ Hn. do 2 eexists. cbn. rewrite chain_has_true by done. done.
  - intros n len w _ _ _. by do 2 eexists.
  - intros n max w _ [_ Hn] Hmax. do 2 eexists. split; [done|].
    rewrite (@c_ids_zlen ToyGeth) by (cbn in Hn |- *; lia). cbn in Hn |- *. lia.
Qed.

Definition hash_genesis : L2BlockRef := mkL2BlockRef 1000 0 0 1000 (mkBlockID 100 10) 0.
Definition hash_state : state :=
  mkState (mkL1BlockRef 105 15 104 1028) hash_genesis hash_genesis zeroBlockID [].
Definition hash_world : ToyWorld :=
  mkToyWorld [mkExecutionPayload 0 0 0 0 0 0 0 0 0 1000 [] 0 1000 []] None [].

(** Four epochs, those of the blocks 11 to 14, in four steps. *)
Lemma verifier_catches_up_witness :
  exists l payloads,
    @reachable ToyWorld ToyGeth FullDriverL1 ToyDriverL2
      (@node_output ToyKeccak ToyGeth ToyRLP ToyWorld HashEngine ChainDownloader 10 toy_config) ToyNetwork
      10 toy_config false hash_state hash_world (replicate 4 EvStepReq) l /\
    @derived_to ToyKeccak ToyGeth ToyRLP ToyWorld HashEngine 10 toy_config chain_L1 hash_sound
      hash_genesis (s_l2SafeHead (lp_state l)) 4 (chain_attrs 4) payloads /\
    length (chain_attrs 4) = 13%nat /\ lp_stepReqCh l = false.
Proof.
  destruct (@verifier_catches_up ToyKeccak ToyGeth ToyGethLaws ToyRLP ToyWorld HashEngine ChainDownloader
    FullDriverL1 ToyDriverL2 ToyNetwork 10 toy_config chain_L1 zeroBlockID hash_sound hash_known hash_time
    chain_canonical hash_ok hash_working ltac:(intros n _ _; cbn; lia) ltac:(cbn; lia) ltac:(cbn; lia) ltac:(cbn; lia)
    false hash_state hash_world 4 (chain_attrs 4)) as (l & payloads & Hr & Hd & _ & Hreq).
  - split; [reflexivity|unfold c_has; cbn; lia|vm_compute; reflexivity].
  - done.
  - done.
  - done.
  - done.
  - by repeat constructor.
  - by constructor.
  - done.
  - vm_compute. reflexivity.
  - assert (E : forallb (fun attrs => in_rangeb 62 (at_Timestamp attrs)) (chain_attrs 4) = true)
      by (vm_compute; reflexivity).
    rewrite forallb_forall in E. apply Forall_forall. intros a Ha. apply in_rangeb_spec, E. by apply list_elem_of_In.
  - exists l, payloads. split; [exact Hr|]. split; [exact Hd|]. split; [vm_compute; reflexivity|exact Hreq].
Defined.
