(* ===== verification/FakeChain.v ===== *)
(** * The fake chains of the tests, and the tests of sync and driver

    op-node/testutils/fake_chain.go, the L1 and L2 nodes that the tests of the repository
    run [FindL2Heads] and the driver against, with their reorgs; and those tests
    (op-node/rollup/sync/start_test.go, op-node/rollup/driver/state_test.go) replayed on the
    models of Sync.v and DriverState.v. *)

From S2P Require Import Prelude Types Geth L1Info Deposits Batches L2Source Sync Step DriverState.

(** ** Runes: strings in UTF-8, as [range] and [string(id)] read and write them *)
Abbreviation rune := Z (only parsing).
Definition RuneError : rune := 65533.
Definition surrogate (r : rune) : bool := (55296 <=? r) && (r <=? 57343).

Definition string_of_rune (r : rune) : list byte :=
  let r := if (r <? 0) || (1114111 <? r) || surrogate r then RuneError else r in
  z2b <$>
    (if r <=? 127 then [r]
     else if r <=? 2047 then [192 + r / 64; 128 + r mod 64]
     else if r <=? 65535 then [224 + r / 4096; 128 + r / 64 mod 64; 128 + r mod 64]
     else [240 + r / 262144; 128 + r / 4096 mod 64; 128 + r / 64 mod 64; 128 + r mod 64]).

(** The first rune and its width; a wrong byte is [RuneError], of width 1. *)
Definition continuation (lo hi b : Z) : bool := (lo <=? b) && (b <=? hi).
Definition decode_rune (l : list byte) : rune * nat :=
  match b2z <$> l with
  | [] => (RuneError, 0%nat)
  | b0 :: rest =>
      if b0 <=? 127 then (b0, 1%nat)
      else
        match rest with
        | b1 :: _ =>
            if (194 <=? b0) && (b0 <=? 223) then
              if continuation 128 191 b1 then ((b0 - 192) * 64 + (b1 - 128), 2%nat) else (RuneError, 1%nat)
            else if (224 <=? b0) && (b0 <=? 239) then
              match rest with
              | _ :: b2 :: _ =>
                  if continuation (if b0 =? 224 then 160 else 128) (if b0 =? 237 then 159 else 191) b1 &&
                     continuation 128 191 b2
                  then ((b0 - 224) * 4096 + (b1 - 128) * 64 + (b2 - 128), 3%nat) else (RuneError, 1%nat)
              | _ => (RuneError, 1%nat)
              end
            else if (240 <=? b0) && (b0 <=? 244) then
              match rest with
              | _ :: b2 :: b3 :: _ =>
                  if continuation (if b0 =? 240 then 144 else 128) (if b0 =? 244 then 143 else 191) b1 &&
                     continuation 128 191 b2 && continuation 128 191 b3
                  then ((b0 - 240) * 262144 + (b1 - 128) * 4096 + (b2 - 128) * 64 + (b3 - 128), 4%nat)
                  else (RuneError, 1%nat)
              | _ => (RuneError, 1%nat)
              end
            else (RuneError, 1%nat)
        | [] => (RuneError, 1%nat)
        end
  end.

(** [for i, id := range s]: the byte offsets and the runes; [skip] bytes of the rune before
    are left. *)
Fixpoint range_runes (i : Z) (skip : nat) (l : list byte) : list (Z * rune) :=
  match l with
  | [] => []
  | _ :: l' =>
      match skip with
      | S skip => range_runes (i + 1) skip l'
      | O => let '(r, width) := decode_rune l in (i, r) :: range_runes (i + 1) (pred width) l'
      end
  end.
Definition range_string (s : string) : list (Z * rune) :=
  range_runes 0 0 (String.list_byte_of_string s).

(** ** The blocks *)

(** [copy(h[:], string(id))]: the rune on the left of the hash *)
Definition fakeID (id : rune) (num : uint64) : BlockID :=
  let s := string_of_rune id in
  mkBlockID (be_value (s ++ replicate (32 - length s) x00)) num.

Definition FakeGenesis (l1 l2 : rune) (l1GenesisNumber : Z) : Genesis :=
  mkGenesis (fakeID l1 (wrap 64 l1GenesisNumber)) (fakeID l2 0) 0.

Definition fakeL1Block (self parent : rune) (num : uint64) : L1BlockRef :=
  let parentID := if negb (num =? 0) then fakeID parent (num -64 1) else zeroBlockID in
  let id := fakeID self num in
  mkL1BlockRef (id_Hash id) (id_Number id) (id_Hash parentID) 0.

Definition fakeL2Block (self parent : rune) (l1parent : BlockID) (num : uint64) : L2BlockRef :=
  let parentID := if negb (num =? 0) then fakeID parent (num -64 1) else zeroBlockID in
  let id := fakeID self num in
  mkL2BlockRef (id_Hash id) (id_Number id) (id_Hash parentID) 0 l1parent 0.

Fixpoint chainL1_loop (offset : uint64) (prevID : rune) (ids : list (Z * rune)) : list L1BlockRef :=
  match ids with
  | [] => []
  | (i, id) :: ids => fakeL1Block id prevID (offset +64 i) :: chainL1_loop offset id ids
  end.
Definition chainL1 (offset : uint64) (ids : string) : list L1BlockRef :=
  chainL1_loop offset 0 (range_string ids).

Fixpoint chainL2_loop (offset : Z) (l1 : list L1BlockRef) (prevID : rune) (ids : list (Z * rune))
    : res (list L2BlockRef) :=
  match ids with
  | [] => Ok []
  | (i, id) :: ids =>
      origin ← index l1 (i + offset);
      rest ← chainL2_loop offset l1 id ids;
      Ok (fakeL2Block id prevID (L1BlockRef_ID origin) i :: rest)
  end.
Definition chainL2 (offset : Z) (l1 : list L1BlockRef) (ids : string) : res (list L2BlockRef) :=
  chainL2_loop offset l1 0 (range_string ids).

(** ** The chain source *)
Record FakeChainSource := mkFakeChainSource {
  f_l1reorg : Z;
  f_l2reorg : Z;
  f_l1head : Z;
  f_l2head : Z;
  f_l1s : list (list L1BlockRef);
  f_l2s : list (list L2BlockRef);
}.

Fixpoint fake_l2s (l1GenesisNumber : Z) (l1s : list (list L1BlockRef)) (i : Z) (l2 : list string)
    : res (list (list L2BlockRef)) :=
  match l2 with
  | [] => Ok []
  | l2string :: l2 =>
      l1 ← index l1s i;
      chain ← chainL2 l1GenesisNumber l1 l2string;
      rest ← fake_l2s l1GenesisNumber l1s (i + 1) l2;
      Ok (chain :: rest)
  end.
Definition NewFakeChainSource (l1 l2 : list string) (l1GenesisNumber : Z) : res FakeChainSource :=
  let l1s := chainL1 0 <$> l1 in
  l2s ← fake_l2s l1GenesisNumber l1s 0 l2;
  Ok (mkFakeChainSource 0 0 0 0 l1s l2s).

(** A method that reads the source only. *)
Definition observe {A} (f : FakeChainSource -> res A) : M FakeChainSource A := fun m => (f m, m).

Fixpoint L1Range_walk (i : Z) (blocks : list L1BlockRef) (base : BlockID) (max : uint64) (l1head : Z)
    (found : bool) (out : list BlockID) : res (list BlockID) :=
  match blocks with
  | [] => Err ENotFound
  | b :: blocks =>
      let out := if found && (zlen out <? max) then out ++ [L1BlockRef_ID b] else out in
      let found := bool_decide (L1BlockRef_ID b = base) || found in
      if i =? l1head then (if found then Ok out else Err ENotFound)
      else L1Range_walk (i + 1) blocks base max l1head found out
  end.
Definition Fake_L1Range (base : BlockID) (max : uint64) : M FakeChainSource (list BlockID) :=
  observe (fun m =>
    l1 ← index (f_l1s m) (f_l1reorg m);
    L1Range_walk 0 l1 base max (f_l1head m) false []).

Definition fake_l1_number (l1Num : uint64) (m : FakeChainSource) : res L1BlockRef :=
  if wrap 64 (f_l1head m) <? l1Num then Err ENotFound
  else l1 ← index (f_l1s m) (f_l1reorg m); index l1 l1Num.
Definition Fake_L1BlockRefByNumber (l1Num : uint64) : M FakeChainSource L1BlockRef :=
  observe (fake_l1_number l1Num).

Definition Fake_L1BlockRefByHash (l1Hash : Hash) : M FakeChainSource L1BlockRef := observe (fun m =>
  l1 ← index (f_l1s m) (f_l1reorg m);
  match list_find (fun bl => l1_Hash bl = l1Hash) l1 with
  | Some (i, _) => fake_l1_number (Z.of_nat i) m
  | None => Err ENotFound
  end).

Definition Fake_L1HeadBlockRef : M FakeChainSource L1BlockRef := observe (fun m =>
  l1 ← index (f_l1s m) (f_l1reorg m);
  if zlen l1 =? 0 then Err ENotFound else index l1 (f_l1head m)).

Definition fake_l2_number (l2Num : option bigInt) (m : FakeChainSource) : res L2BlockRef :=
  l2 ← index (f_l2s m) (f_l2reorg m);
  if zlen l2 =? 0 then Panic
  else
    match l2Num with
    | None => index l2 (f_l2head m)
    | Some n =>
        let i := to_int64 n in
        if f_l2head m <? i then Err ENotFound else index l2 i
    end.
Definition Fake_L2BlockRefByNumber (l2Num : option bigInt) : M FakeChainSource L2BlockRef :=
  observe (fake_l2_number l2Num).

Definition Fake_L2BlockRefByHash (l2Hash : Hash) : M FakeChainSource L2BlockRef := observe (fun m =>
  l2 ← index (f_l2s m) (f_l2reorg m);
  match list_find (fun bl => l2_Hash bl = l2Hash) l2 with
  | Some (i, _) => fake_l2_number (Some (Z.of_nat i)) m
  | None => Err ENotFound
  end).

(** A reorg to the next L2 chain and to the block asked for; the result is nil. *)
Definition Fake_ForkchoiceUpdate (state : ForkchoiceState) (attr : option PayloadAttributes)
    : M FakeChainSource (option ForkchoiceUpdatedResult) := fun m =>
  let reorg := f_l2reorg m + 1 in
  let m := mkFakeChainSource (f_l1reorg m) reorg (f_l1head m) (f_l2head m) (f_l1s m) (f_l2s m) in
  match index (f_l2s m) reorg with
  | Ok l2 =>
      match list_find (fun bl => l2_Hash bl = fc_HeadBlockHash state) l2 with
      | Some (i, _) =>
          (Ok None, mkFakeChainSource (f_l1reorg m) reorg (f_l1head m) (Z.of_nat i) (f_l1s m) (f_l2s m))
      | None => (Err (EMsg "unable to set new head"), m)
      end
  | _ => (Panic, m)
  end.

Definition ReorgL1 : M FakeChainSource unit := fun m =>
  let m := mkFakeChainSource (f_l1reorg m + 1) (f_l2reorg m) (f_l1head m) (f_l2head m) (f_l1s m) (f_l2s m) in
  (panic_if (zlen (f_l1s m) <=? f_l1reorg m), m).

Definition SetL2Head (head : Z) : M FakeChainSource L2BlockRef := fun m =>
  let m := mkFakeChainSource (f_l1reorg m) (f_l2reorg m) (f_l1head m) head (f_l1s m) (f_l2s m) in
  (l2 ← index (f_l2s m) (f_l2reorg m); if zlen l2 <=? head then Panic else index l2 head, m).

Definition AdvanceL1 : M FakeChainSource L1BlockRef := fun m =>
  let m := mkFakeChainSource (f_l1reorg m) (f_l2reorg m) (f_l1head m + 1) (f_l2head m) (f_l1s m) (f_l2s m) in
  (l1 ← index (f_l1s m) (f_l1reorg m); if zlen l1 <=? f_l1head m then Panic else index l1 (f_l1head m), m).

Definition Fake_L1Head : M FakeChainSource L1BlockRef := observe (fun m =>
  l1 ← index (f_l1s m) (f_l1reorg m); index l1 (f_l1head m)).

#[export] Instance FakeL1 : L1Chain FakeChainSource := {|
  L1HeadBlockRef := Fake_L1HeadBlockRef;
  L1BlockRefByNumber := Fake_L1BlockRefByNumber;
|}.
#[export] Instance FakeL2 : L2Chain FakeChainSource := {|
  chain_L2BlockRefByHash := Fake_L2BlockRefByHash;
|}.

(** ** The range that the fake gives *)
Lemma L1Range_walk_found i blocks base max l1head out ids :
  0 <= i <= l1head -> ~ base ∈ L1BlockRef_ID <$> blocks ->
  L1Range_walk i blocks base max l1head true out = Ok ids ->
  ids = out ++ take (Z.to_nat (max - zlen out)) (L1BlockRef_ID <$> take (S (Z.to_nat (l1head - i))) blocks).
Proof.
  revert i out. induction blocks as [|b blocks IH]; intros i out Hi Hb E; [done|].
  cbn [L1Range_walk] in E. rewrite orb_true_r in E. cbn [andb] in E.
  rewrite fmap_cons, not_elem_of_cons in Hb. destruct Hb as [_ Hb]. cbn [take]. rewrite fmap_cons.
  assert (Hout : (if zlen out <? max then out ++ [L1BlockRef_ID b] else out) =
    out ++ take (Z.to_nat (max - zlen out)) [L1BlockRef_ID b]).
  { destruct (Z.ltb_spec (zlen out) max).
    - rewrite take_ge; [done|]. cbn [length]. lia.
    - replace (Z.to_nat (max - zlen out)) with 0%nat by lia. by rewrite take_0, app_nil_r. }
  rewrite Hout in E. destruct (Z.eqb_spec i l1head) as [->|Hne].
  - injection E as <-. by rewrite Z.sub_diag.
  - apply IH in E as ->; [|lia|done]. rewrite <-app_assoc. f_equal.
    replace (Z.to_nat (l1head - i)) with (S (Z.to_nat (l1head - (i + 1)))) by lia.
    destruct (Z.to_nat (max - zlen out)) as [|n] eqn:En.
    + cbn [take app]. by rewrite app_nil_r, En.
    + cbn [take app]. rewrite take_nil, zlen_app. change (zlen [L1BlockRef_ID b]) with 1.
      cbn [app]. do 2 f_equal. lia.
Qed.

(** The blocks behind [base], at most [max] and up to the head. *)
Lemma Fake_L1Range_blocks base max m ids :
  Fake_L1Range base max m = (Ok ids, m) -> 0 <= f_l1head m ->
  forall l1, index (f_l1s m) (f_l1reorg m) = Ok l1 -> NoDup (L1BlockRef_ID <$> l1) ->
  exists i, (L1BlockRef_ID <$> l1) !! i = Some base /\ Z.of_nat i <= f_l1head m /\
    ids = take (Z.to_nat max) (L1BlockRef_ID <$> take (Z.to_nat (f_l1head m) - i) (drop (S i) l1)).
Proof.
  intros E Hh l1 El1 Hnd. unfold Fake_L1Range, observe in E. rewrite El1 in E. cbn [mbind res_bind] in E.
  injection E as E.
  assert (Hgen : forall k blocks, 0 <= k <= f_l1head m -> NoDup (L1BlockRef_ID <$> blocks) ->
    L1Range_walk k blocks base max (f_l1head m) false [] = Ok ids ->
    exists i, (L1BlockRef_ID <$> blocks) !! i = Some base /\ k + Z.of_nat i <= f_l1head m /\
      ids = take (Z.to_nat max) (L1BlockRef_ID <$> take (Z.to_nat (f_l1head m - k) - i) (drop (S i) blocks))).
  { clear E El1 Hnd l1. intros k blocks. revert k.
    induction blocks as [|b blocks IH]; intros k Hk Hnd E; [done|].
    cbn [L1Range_walk] in E. cbn [andb] in E. rewrite orb_false_r in E.
    rewrite fmap_cons in Hnd |- *. apply NoDup_cons in Hnd as [Hb Hnd].
    case_bool_decide as Hbase.
    - exists 0%nat. split_and!; [by rewrite <-Hbase|lia|]. cbn [drop]. rewrite Nat.sub_0_r.
      destruct (Z.eqb_spec k (f_l1head m)) as [->|Hne].
      + injection E as <-. by rewrite Z.sub_diag, take_0, fmap_nil, take_nil.
      + rewrite Hbase in Hb. apply L1Range_walk_found in E as ->; [|lia|done].
        cbn [app]. change (zlen []) with 0. rewrite Z.sub_0_r. do 3 f_equal. lia.
    - destruct (Z.eqb_spec k (f_l1head m)) as [->|Hne]; [done|].
      apply IH in E as (i & Hi & Hle & ->); [|lia|done]. exists (S i). split_and!; [done|lia|].
      cbn [drop]. do 3 f_equal. lia. }
  destruct (Hgen 0 l1 ltac:(lia) Hnd E) as (i & Hi & Hle & ->). exists i. split_and!; [done|lia|].
  by rewrite Z.sub_0_r.
Qed.

(** ** The tests of FindL2Heads *)
Record syncStartTestCase := mkSyncCase {
  Name : string;
  sc_GenesisL1Num : Z; (* uint64 *)
  sc_L1 : string; (* before the reorg *)
  sc_L2 : string;
  sc_NewL1 : string;
  sc_GenesisL1 : rune;
  sc_GenesisL2 : rune;
  sc_UnsafeL2Head : rune;
  sc_SeqWindowSize : uint64;
  sc_SafeL2Head : rune;
  sc_ExpectedErr : option error;
}.

Fixpoint repeat_AdvanceL1 (n : nat) : M FakeChainSource unit :=
  match n with O => mret tt | S n => _ ← AdvanceL1; repeat_AdvanceL1 n end.
Definition len_bytes (s : string) : Z := Z.of_nat (String.length s).

(** [generateFakeL2], on a new chain source: the head and the genesis *)
Definition generateFakeL2 (c : syncStartTestCase) : M FakeChainSource (L2BlockRef * Genesis) :=
  _ ← SetL2Head (len_bytes (sc_L2 c) - 1);
  let genesis := FakeGenesis (sc_GenesisL1 c) (sc_GenesisL2 c) (to_int64 (sc_GenesisL1Num c)) in
  head ← Fake_L2BlockRefByNumber None;
  _ ← ReorgL1;
  _ ← repeat_AdvanceL1 (Z.to_nat (len_bytes (sc_NewL1 c) - 1));
  mret (head, genesis).

Definition refToRune (r : BlockID) : rune := from_option b2z 0 (head (be_bytes 32 (id_Hash r))).

(** [Run]: whether the case passes *)
Definition syncStartTestCase_Run (c : syncStartTestCase) : res bool :=
  chain ← NewFakeChainSource [sc_L1 c; sc_NewL1 c] [sc_L2 c] (to_int64 (sc_GenesisL1Num c));
  fst ((
   '(l2Head, genesis) ← generateFakeL2 c;
   r ← attempt (FindL2Heads 501 l2Head (sc_SeqWindowSize c) genesis);
   mret match r, sc_ExpectedErr c with
        | inl err, Some expected => errors_is err expected
        | inr (unsafeL2Head, safeHead), None =>
            (refToRune (L2BlockRef_ID unsafeL2Head) =? sc_UnsafeL2Head c) &&
            (refToRune (L2BlockRef_ID safeHead) =? sc_SafeL2Head c)
        | _, _ => false
        end) chain).

(** A rune literal. *)
Definition chr (s : string) : rune := from_option snd 0 (head (range_string s)).

(** [TestFindSyncStart] *)
Definition sync_testCases : list syncStartTestCase := [
  mkSyncCase "already synced" 0 "ab" "AB" "ab" (chr "a") (chr "A") (chr "B") 2 (chr "A") None;
  mkSyncCase "small reorg long chain" 0 "abcdefgh" "ABCDEFGH" "abcdefgx"
    (chr "a") (chr "A") (chr "G") 2 (chr "F") None;
  mkSyncCase "L1 Chain ahead" 0 "abcde" "ABCD" "abcde" (chr "a") (chr "A") (chr "D") 3 (chr "B") None;
  mkSyncCase "L2 Chain ahead after reorg" 0 "abxyz" "ABXYZ" "abx"
    (chr "a") (chr "A") (chr "Z") 2 (chr "B") None;
  mkSyncCase "genesis" 0 "a" "A" "a" (chr "a") (chr "A") (chr "A") 2 (chr "A") None;
  mkSyncCase "reorg one step back" 0 "abcd" "ABCD" "abcx" (chr "a") (chr "A") (chr "C") 3 (chr "A") None;
  mkSyncCase "reorg two steps back" 0 "abc" "ABC" "axy" (chr "a") (chr "A") (chr "A") 2 (chr "A") None;
  mkSyncCase "reorg three steps back" 0 "abcdef" "ABCDEF" "abcxyz"
    (chr "a") (chr "A") (chr "C") 2 (chr "B") None;
  mkSyncCase "unexpected L1 chain" 0 "abcdef" "ABCDEF" "xyzwio"
    (chr "a") (chr "A") 0 0 0 (Some EWrongChain);
  mkSyncCase "unexpected L2 chain" 0 "abcdef" "ABCDEF" "xyzwio"
    (chr "a") (chr "X") 0 0 0 (Some EWrongChain);
  mkSyncCase "offset L2 genesis" 3 "abcdef" "DEF" "abcdef" (chr "d") (chr "D") (chr "F") 2 (chr "E") None;
  mkSyncCase "offset L2 genesis reorg" 3 "abcdefgh" "DEFGH" "abcdxyzw"
    (chr "d") (chr "D") (chr "D") 2 (chr "D") None;
  mkSyncCase "reorg past offset genesis" 3 "abcdefgh" "DEFGH" "abxyzwio"
    (chr "d") (chr "D") 0 0 0 (Some EWrongChain)
].

Lemma TestFindSyncStart : syncStartTestCase_Run <$> sync_testCases = replicate 13 (Ok true).
Proof. vm_compute. reflexivity. Qed.

(** ** The tests of the driver *)

(** The calls of the output step, and the chains. *)
Record outputArgs := mkOutputArgs {
  oa_l2Head : BlockID;
  oa_l2Finalized : BlockID;
  oa_l1Window : list BlockID;
}.
Abbreviation TestWorld := (list outputArgs * FakeChainSource)%type (only parsing).

#[export] Instance FakeDriverL1 : DriverL1 TestWorld := {|
  dl1_sync := {|
    L1HeadBlockRef := call Fake_L1HeadBlockRef;
    L1BlockRefByNumber := fun n => call (Fake_L1BlockRefByNumber n)
  |};
  L1BlockRefByHash := fun h => call (Fake_L1BlockRefByHash h);
  L1Range := fun base max => call (Fake_L1Range base max);
|}.

(** The driver reads the error of a forkchoice update only; a nil result is [zero_result]. *)
Definition zero_result : ForkchoiceUpdatedResult := mkForkchoiceUpdatedResult (mkPayloadStatusV1 ExecutionValid 0 "") None.
#[export] Instance FakeDriverL2 : DriverL2 TestWorld := {|
  dl2_sync := {| chain_L2BlockRefByHash := fun h => call (Fake_L2BlockRefByHash h) |};
  l2_ForkchoiceUpdate := fun state attr =>
    r ← call (Fake_ForkchoiceUpdate state attr); mret (default zero_result r);
  l2_L2BlockRefByNumber := fun n => call (Fake_L2BlockRefByNumber n);
|}.

(** [outputHandlerFn], with the answer of [advanceL2]: the next L2 block becomes the head. *)
#[export] Instance outputHandlerFn : Output TestWorld := {|
  out_insertEpoch := fun l2Head l2SafeHead l2Finalized l1Input =>
    _ ← modify (fun calls => calls ++ [mkOutputArgs (L2BlockRef_ID l2SafeHead) l2Finalized l1Input]);
    r ← call (SetL2Head (l2_Number l2SafeHead + 1));
    mret (r, r, false);
  out_createNewBlock := fun _ _ _ _ => lift Panic;
  out_processBlock := fun _ _ _ => mret tt;
|}.
#[export] Instance FakeNetwork : Network TestWorld := {| PublishL2Payload := None |}.

(** One step of a case: the L1 heads announced, after a reorg or not, and whether the
    output step is then to be called with the expected window. *)
Inductive l1act := AdvanceHead | StutterHead.
Record stateTestCaseStep := mkStep {
  st_l1act : list l1act;
  st_advanceL2 : bool;
  st_l1head : BlockID;
  st_l2head : BlockID;
  st_window : list BlockID;
  st_reorg : bool;
}.
Definition advanceL1 : list l1act := [AdvanceHead].
Definition stutterL1 : list l1act := [StutterHead].
Definition stutterAdvance : list l1act :=
  [StutterHead; StutterHead; StutterHead; AdvanceHead; StutterHead; StutterHead; StutterHead].

Section DriverTest.
Context `{!GethTypes} (config : Config).

Definition test_event (e : event) (l : loop_state (W:=TestWorld)) : option (loop_state (W:=TestWorld)) :=
  loop_step 501 config false e l.
(** An action of the test on the chains, between events of the loop. *)
Definition test_chain {A} (c : M FakeChainSource A) (l : loop_state (W:=TestWorld))
    : option (A * loop_state (W:=TestWorld)) :=
  match call c (lp_world l) with
  | (Ok a, w) => Some (a, mkLoop (lp_state l) w (lp_stepReqCh l) (lp_l2BlockCreationReqCh l) (lp_timers l)
                            (lp_l1Heads l) (lp_unsafeL2Payloads l) (lp_done l) (lp_status l))
  | _ => None
  end.
Fixpoint run_l1acts (acts : list l1act) (l : loop_state (W:=TestWorld)) : option (loop_state (W:=TestWorld)) :=
  match acts with
  | [] => Some l
  | a :: acts =>
      '(head, l) ← test_chain (match a with AdvanceHead => AdvanceL1 | StutterHead => Fake_L1Head end) l;
      l ← test_event (EvOnL1Head head) l;
      run_l1acts acts l
  end.
Fixpoint run_l1heads (n : nat) (l : loop_state (W:=TestWorld)) : option (loop_state (W:=TestWorld)) :=
  match n with
  | O => Some l
  | S n => l ← test_event EvL1Head l; run_l1heads n l
  end.

(** The step, and whether its expectations hold: the loop takes all heads, then makes the
    step that is requested, if one is. *)
Definition run_step (step : stateTestCaseStep) (l : loop_state (W:=TestWorld))
    : option (bool * loop_state (W:=TestWorld)) :=
  l ← (if st_reorg step then snd <$> test_chain ReorgL1 l else Some l);
  l ← run_l1acts (st_l1act step) l;
  l ← run_l1heads (length (lp_l1Heads l)) l;
  let before := length (lp_world l).1 in
  l ← (if lp_stepReqCh l then test_event EvStepReq l else Some l);
  let calls := drop before (lp_world l).1 in
  let called := if st_advanceL2 step
                then bool_decide (oa_l1Window <$> calls = [st_window step])
                else bool_decide (length calls = 0%nat) in
  Some (called && bool_decide (L1BlockRef_ID (s_l1Head (lp_state l)) = st_l1head step) &&
        bool_decide (L2BlockRef_ID (s_l2SafeHead (lp_state l)) = st_l2head step), l).
Fixpoint run_steps (steps : list stateTestCaseStep) (l : loop_state (W:=TestWorld)) : bool :=
  match steps with
  | [] => true
  | step :: steps =>
      match run_step step l with
      | Some (ok, l) => ok && run_steps steps l
      | None => false
      end
  end.
End DriverTest.

Record stateTestCase := mkStateCase {
  tc_name : string;
  tc_l1Chains : list string;
  tc_l2Chains : list string;
  tc_seqWindow : Z;
  tc_genesis : Genesis;
  tc_steps : list stateTestCaseStep;
}.

(** [Run] *)
Definition stateTestCase_Run `{!GethTypes} (tc : stateTestCase) : bool :=
  match NewFakeChainSource (tc_l1Chains tc) (tc_l2Chains tc) 0 with
  | Ok chainSource =>
      let config := mkConfig (tc_genesis tc) 2 0 (wrap 64 (tc_seqWindow tc)) 0 0 0 0 0 0 0 in
      match Start 501 config (NewState, ([], chainSource)) with
      | (Ok _, (s, w)) => run_steps config (tc_steps tc) (loop_start s w)
      | _ => false
      end
  | _ => false
  end.

(** [testID], without its text form. *)
Definition tid (s : string) (n : uint64) : BlockID := fakeID (chr s) n.

(** [TestDriver] *)
Definition extension_steps (third : list l1act) : list stateTestCaseStep := [
  mkStep stutterL1 false (tid "a" 0) (tid "A" 0) [] false;
  mkStep advanceL1 false (tid "b" 1) (tid "A" 0) [tid "a" 0; tid "b" 1] false;
  mkStep third true (tid "c" 2) (tid "B" 1) [tid "b" 1; tid "c" 2] false;
  mkStep advanceL1 true (tid "d" 3) (tid "C" 2) [tid "c" 2; tid "d" 3] false;
  mkStep advanceL1 true (tid "e" 4) (tid "D" 3) [tid "d" 3; tid "e" 4] false;
  mkStep advanceL1 true (tid "f" 5) (tid "E" 4) [tid "e" 4; tid "f" 5] false;
  mkStep advanceL1 true (tid "g" 6) (tid "F" 5) [tid "f" 5; tid "g" 6] false].
Definition reorg_steps : list stateTestCaseStep := [
  mkStep stutterL1 true (tid "z" 6) (tid "C" 2) [tid "c" 2; tid "w" 3] true;
  mkStep stutterL1 true (tid "z" 6) (tid "W" 3) [tid "w" 3; tid "x" 4] false;
  mkStep stutterL1 true (tid "z" 6) (tid "X" 4) [tid "x" 4; tid "y" 5] false;
  mkStep stutterL1 true (tid "z" 6) (tid "Y" 5) [tid "y" 5; tid "z" 6] false;
  mkStep stutterL1 false (tid "z" 6) (tid "Y" 5) [] false].
Definition driver_genesis : Genesis := FakeGenesis (chr "a") (chr "A") 0.
Definition driver_cases : list stateTestCase := [
  mkStateCase "Simple extensions" ["abcdefgh"] ["ABCDEF"] 2 driver_genesis (extension_steps advanceL1);
  mkStateCase "Reorg" ["abcdefg"; "abcwxyz"] ["ABCDEF"; "ABCWXY"] 2 driver_genesis
    (extension_steps advanceL1 ++ reorg_steps);
  mkStateCase "Simple extensions with multi-step stutter" ["abcdefgh"] ["ABCDEF"] 2 driver_genesis
    (extension_steps stutterAdvance)
].

Lemma TestDriver : stateTestCase_Run (H:=ToyGeth) <$> driver_cases = [true; true; true].
Proof. vm_compute. reflexivity. Qed.
