(* ===== verification/Agreement.v ===== *)
(** * The sequencer and the verifier agree

    How the two halves of the rollup fit together: the blocks that [createNewBlock]
    builds on one L1 origin (the sequencer), the batches that [BlockToBatch] makes of
    them (the batch submitter), and the blocks that [insertEpoch] derives from the
    window in which these batches are published (every verifier).  The components are
    those of Step, L2Source and Batches; this file holds no model of its own code. *)

From S2P Require Import Prelude Types Geth L1Info Deposits Batches L2Source Step.

Section Agreement.
Context `{Keccak} `{GethLaws} `{RLP}.

(** ** Transactions that the sequencer chose *)

#[export] Instance is_other_bytes_dec b : Decision (is_other_bytes b).
Proof.
  destruct b as [|t r]; [right|destruct (decide (t = DepositTxType)); [right|left]].
  - by intros (t & r & ? & _).
  - by intros (t' & r' & [= <- <-] & ?).
  - by exists t, r.
Defined.

Definition user_txs (txs : list Data) : list Data := filter is_other_bytes txs.

Lemma deposit_not_other b : is_deposit_bytes b -> ~ is_other_bytes b.
Proof. intros [r ->] (t & r' & [= <- <-] & ?). done. Qed.

Lemma user_txs_deposits deps user :
  Forall is_deposit_bytes deps -> Forall is_other_bytes user -> user_txs (deps ++ user) = user.
Proof.
  intros Hd Hu. unfold user_txs. rewrite filter_app.
  rewrite filter_none by (eapply Forall_impl; [done|apply deposit_not_other]).
  by rewrite filter_all.
Qed.

Lemma user_txs_Forall txs : Forall is_other_bytes (user_txs txs).
Proof. apply Forall_forall. intros b Hb. by apply list_elem_of_filter in Hb as [? _]. Qed.

Lemma ValidBatch_user_txs txs : ValidBatch_txs (user_txs txs) = true.
Proof.
  apply ValidBatch_txs_Forall. eapply Forall_impl; [apply user_txs_Forall|].
  intros b (t & r & -> & ?). eauto.
Qed.

(** The batch of a block. *)
Definition block_batch (epoch : uint64) (p : ExecutionPayload) : BatchData :=
  mkBatchV1 epoch (pl_Timestamp p) (user_txs (pl_Transactions p)).

Lemma BlockToBatch_txs_encodings txs encs acc :
  Forall2 (fun tx b => tx_MarshalBinary tx = Ok b) txs encs ->
  BlockToBatch_txs txs acc = Ok (acc ++ user_txs encs).
Proof.
  intros Hall. revert acc. induction Hall as [|tx b txs encs Hb _ IH]; intros acc.
  { cbn. by rewrite app_nil_r. }
  cbn [BlockToBatch_txs]. destruct (tx_encoding_type _ _ Hb) as (t & r & -> & Hiff).
  unfold user_txs. case_bool_decide as Ht.
  - rewrite filter_cons_False; [apply IH|]. apply deposit_not_other. exists r. f_equal. tauto.
  - rewrite filter_cons_True by (exists t, r; tauto). rewrite Hb. cbn [map_err mbind res_bind].
    by rewrite IH, <-app_assoc.
Qed.

(** The batch submitter reads the batch of a block, unless the block has the L1 info
    transaction only. *)
Lemma BlockToBatch_block_batch bl p seq l1Info b rest :
  BlockAsPayload bl = Ok p -> L1Info_ok l1Info -> in_range 64 seq ->
  L1InfoDepositBytes seq l1Info = Ok b -> pl_Transactions p = b :: rest ->
  BlockToBatch bl =
    Ok (if decide (rest = []) then None else Some (block_batch (li_NumberU64 l1Info) p)).
Proof.
  intros Ep Hok Hseq Eb Etx.
  pose proof (BlockAsPayload_inv _ _ Ep) as [_ Hall].
  destruct (BlockAsPayload_fields _ _ Ep) as (_ & _ & _ & Et).
  destruct (L1InfoDepositBytes_decodes _ _ _ Hok Hseq Eb) as (tx & Eu & Ety & Einfo).
  pose proof (BlockToBatch_txs_encodings _ _ [] Hall) as Hencs.
  unfold BlockToBatch, block_batch. rewrite Etx in Hall.
  inversion Hall as [|tx0 ? txs ? Hb0 Hrest Etxs]; subst.
  apply tx_roundtrip in Hb0. rewrite Eu in Hb0. injection Hb0 as ->.
  rewrite bool_decide_eq_true_2 by done. cbn [negb].
  destruct Hrest as [|tx1 b1 txs bs ? ?]; [done|].
  rewrite bool_decide_eq_false_2, decide_False by done.
  rewrite Etxs, Hencs. cbn [mbind res_bind]. rewrite Einfo. cbn. by rewrite Et.
Qed.

(** ** The sequencer's blocks *)
Section Sequencer.
Context {W : Type} `{!Engine W} `{!Downloader W}.

(** What the engine API promises of block building: the payload extends the head it was
    given, with the time and the randomness of the attributes, and holds their
    transactions, then transactions of the pool, which are no deposits. *)
Definition engine_extends : Prop :=
  forall fc attrs (w : W) r w1 id p w2,
    eng_ForkchoiceUpdate fc (Some attrs) w = (Ok r, w1) -> fr_PayloadID r = Some id ->
    eng_GetPayload id w1 = (Ok p, w2) ->
    pl_ParentHash p = fc_HeadBlockHash fc /\ pl_Timestamp p = at_Timestamp attrs /\
    pl_PrevRandao p = at_PrevRandao attrs /\
    exists pool, pl_Transactions p = at_Transactions attrs ++ pool /\
      Forall is_other_bytes pool /\ (at_NoTxPool attrs = true -> pool = []).

(** The downloader answers with the data of the L1 origin [o]. *)
Record origin_data (o : L1BlockRef) (l1Info : L1Info) (receipts : list Receipt) : Prop := {
  od_Fetch : forall (w : W) i txs rs w', dl_Fetch (l1_Hash o) w = (Ok (i, txs, rs), w') ->
    i = l1Info /\ rs = receipts;
  od_InfoByHash : forall (w : W) i w', dl_InfoByHash (l1_Hash o) w = (Ok i, w') -> i = l1Info;
  od_ok : L1Info_ok l1Info;
  od_Number : li_NumberU64 l1Info = l1_Number o;
  od_Time : li_Time l1Info = l1_Time o;
}.

(** Blocks built one on the other, with the L1 origin [o]; other things may happen
    in between, and the safe and the finalized block may move. *)
Inductive sequenced (config : Config) (o : L1BlockRef) :
    L2BlockRef -> list ExecutionPayload -> Prop :=
  | sequenced_nil head : sequenced config o head []
  | sequenced_cons head safe finalized w ref p w' ps :
      createNewBlock config head safe finalized o w = (Ok (ref, p), w') ->
      sequenced config o ref ps ->
      sequenced config o head (p :: ps).

(** The [k]-th block of an epoch: the L1 info transaction with sequence number [k], the
    deposits in the first block only, and user transactions only before [maxTime]. *)
Definition epoch_block (l1Info : L1Info) (deposits : list Data) (maxTime : Z)
    (parent : Hash) (k t : Z) (p : ExecutionPayload) : Prop :=
  pl_ParentHash p = parent /\ pl_Timestamp p = t /\ pl_PrevRandao p = li_MixDigest l1Info /\
  exists b user, L1InfoDepositBytes k l1Info = Ok b /\
    pl_Transactions p = b :: (if k =? 0 then deposits else []) ++ user /\
    Forall is_other_bytes user /\ (user <> [] -> t < maxTime).

Fixpoint epoch_blocks (l1Info : L1Info) (deposits : list Data) (maxTime bt : Z)
    (parent : Hash) (k t : Z) (ps : list ExecutionPayload) : Prop :=
  match ps with
  | [] => True
  | p :: ps => epoch_block l1Info deposits maxTime parent k t p /\
      epoch_blocks l1Info deposits maxTime bt (pl_BlockHash p) (k + 1) (t + bt) ps
  end.

Context (config : Config) (o : L1BlockRef) (l1Info : L1Info) (receipts : list Receipt)
  (deposits : list Data) (errs : list error).
Context (Hengine : engine_extends) (Hdata : origin_data o l1Info receipts)
  (Hdeps : DeriveDeposits receipts (cfg_DepositContractAddress config) = Ok (deposits, errs)).

(** The head is ready for the [k]-th block on the origin. *)
Definition at_origin (k : Z) (head : L2BlockRef) : Prop :=
  if k =? 0 then id_Number (l2_L1Origin head) <> l1_Number o
  else id_Number (l2_L1Origin head) = l1_Number o /\ l2_SequenceNumber head = k - 1.

Lemma createNewBlock_epoch_block head safe finalized w ref p w' k :
  at_origin k head -> 0 <= k < 2 ^ 64 ->
  createNewBlock config head safe finalized o w = (Ok (ref, p), w') ->
  epoch_block l1Info deposits (l1_Time o +64 cfg_MaxSequencerDrift config) (l2_Hash head) k
    (l2_Time head +64 cfg_BlockTime config) p /\
  l2_Hash ref = pl_BlockHash p /\ l2_Time ref = pl_Timestamp p /\
  (pl_BlockNumber p <> id_Number (gen_L2 (cfg_Genesis config)) -> at_origin (k + 1) ref).
Proof.
  intros Hk Hr E. destruct Hdata as [Hfetch Hinfo Hok Hnum Htime]. unfold createNewBlock in E.
  apply M_bind_ok in E as ([[info rs] sq] & w1 & Ef & E). apply M_err_ok in Ef.
  assert (Hi : info = l1Info /\ rs = (if k =? 0 then receipts else []) /\ sq = k).
  { unfold at_origin in Hk.
    destruct (Z.eqb_spec (id_Number (l2_L1Origin head)) (l1_Number o)) as [Heq|Hne];
      cbn [negb] in Ef; destruct (Z.eqb_spec k 0) as [Hk0|Hk0]; try tauto.
    - apply M_bind_ok in Ef as (i & w2 & Ei & Ef). injection Ef as -> <- <- <-.
      apply Hinfo in Ei. destruct Hk as [_ Hsq]. rewrite Hsq, wrap_small by (unfold in_range; lia).
      split_and!; [done|done|lia].
    - apply M_bind_ok in Ef as ([[i t] r] & w2 & Ei & Ef). injection Ef as -> -> <- <-.
      by apply Hfetch in Ei as [-> ->]. }
  destruct Hi as (-> & -> & ->).
  apply M_bind_ok in E as (b & ? & Eb & E). apply lift_ok in Eb as [Eb <-].
  apply M_bind_ok in E as ([deps errs'] & ? & Ed & E). apply lift_ok in Ed as [Ed <-].
  assert (deps = if k =? 0 then deposits else []) as ->.
  { destruct (k =? 0); [congruence|]. by injection Ed as <- <-. }
  apply M_bind_ok in E as (q & w2 & Ei & E). apply M_err_ok in Ei.
  apply M_bind_ok in E as (ref' & ? & Er & E). apply lift_ok in Er as [Er <-].
  injection E as -> -> ->.
  apply insertHeadBlock_inv in Ei as (r1 & id & w3 & w4 & _ & _ & E1 & Eid & E2 & _).
  destruct (Hengine _ _ _ _ _ _ _ _ E1 Eid E2) as (Hp & Ht & Hrand & pool & Htx & Hpool & Hnp).
  cbn in Hp, Ht, Hrand, Htx, Hnp.
  pose proof Er as Er'. unfold PayloadToBlockRef in Er'.
  apply res_bind_ok in Er' as ([og n] & _ & Er'). injection Er' as Er'.
  split_and!; [|by subst ref|by subst ref|].
  - split_and!; [done..|]. exists b, pool. split_and!; [done|done|done|].
    intros Hne. apply Z.leb_gt. destruct (_ <=? _); [by rewrite Hnp in Hne|done].
  - intros Hn. assert (Hno : l2_Number ref <> id_Number (gen_L2 (cfg_Genesis config))) by (by subst ref).
    destruct (PayloadToBlockRef_origin _ _ _ _ _ _ _ Hok Hr Eb Htx Er Hno) as [Ho Hs].
    unfold at_origin. rewrite (proj2 (Z.eqb_neq (k + 1) 0)) by lia. rewrite Ho, Hs. cbn.
    split; [done|lia].
Qed.

Lemma sequenced_epoch_blocks head ps k :
  sequenced config o head ps -> at_origin k head -> 0 <= k ->
  0 < cfg_BlockTime config -> 0 <= l2_Time head -> k + zlen ps < 2 ^ 64 ->
  l2_Time head + zlen ps * cfg_BlockTime config < 2 ^ 64 ->
  Forall (fun p => pl_BlockNumber p <> id_Number (gen_L2 (cfg_Genesis config))) ps ->
  epoch_blocks l1Info deposits (l1_Time o +64 cfg_MaxSequencerDrift config) (cfg_BlockTime config)
    (l2_Hash head) k (l2_Time head + cfg_BlockTime config) ps.
Proof.
  intros Hs. revert k. induction Hs as [head|head safe fin w ref p w' ps E Hs IH];
    intros k Hk Hk0 Hbt Ht Hlen Hfit Hng; cbn [epoch_blocks]; [done|].
  rewrite zlen_cons in Hlen, Hfit. pose proof (zlen_nonneg ps).
  apply Forall_cons in Hng as [Hng Hngs].
  destruct (createNewBlock_epoch_block _ _ _ _ _ _ _ k Hk ltac:(lia) E) as (Hb & Hh & Htr & Hat).
  rewrite (wrap_small 64 (l2_Time head + _)) in Hb by (unfold in_range; nia).
  split; [done|]. destruct Hb as (_ & Hpt & _). rewrite <-Hh.
  rewrite Hpt in Htr. rewrite <-Htr. apply IH; rewrite ?Htr; try done; try nia. auto.
Qed.
End Sequencer.

(** ** The verifier's attributes *)
Section Verifier.
Context (config : Config) (l1Info : L1Info) (deposits : list Data).
Context (Hdeposits : Forall is_deposit_bytes deposits).

Lemma epoch_blocks_take maxTime bt parent k t ps m :
  epoch_blocks l1Info deposits maxTime bt parent k t ps ->
  epoch_blocks l1Info deposits maxTime bt parent k t (take m ps).
Proof.
  revert parent k t m. induction ps as [|p ps IH]; intros parent k t [|m]; [done..|].
  intros [Hb Hps]. split; [done|by apply IH].
Qed.

Lemma epoch_blocks_lookup maxTime bt parent k t ps i p :
  epoch_blocks l1Info deposits maxTime bt parent k t ps -> ps !! i = Some p ->
  exists parent', epoch_block l1Info deposits maxTime parent' (k + Z.of_nat i) (t + Z.of_nat i * bt) p.
Proof.
  revert parent k t i. induction ps as [|q ps IH]; intros parent k t i; [done|].
  intros [Hb Hps]. destruct i as [|i]; cbn [lookup list_lookup].
  - intros [= ->]. exists parent. by replace (k + _) with k by lia; replace (t + _) with t by lia.
  - intros Hi. destruct (IH _ _ _ _ Hps Hi) as [parent' Hb']. exists parent'.
    by replace (k + _) with (k + 1 + Z.of_nat i) by lia;
       replace (t + _) with (t + bt + Z.of_nat i * bt) by lia.
Qed.

Lemma epoch_block_user maxTime parent k t p :
  epoch_block l1Info deposits maxTime parent k t p ->
  exists b, L1InfoDepositBytes k l1Info = Ok b /\
    pl_Transactions p = b :: (if k =? 0 then deposits else []) ++ user_txs (pl_Transactions p) /\
    (user_txs (pl_Transactions p) <> [] -> t < maxTime).
Proof.
  intros (_ & _ & _ & b & user & Eb & Etx & Hu & Ht). exists b.
  assert (user_txs (pl_Transactions p) = user) as ->; [|done].
  rewrite Etx, app_comm_cons. apply user_txs_deposits; [|done].
  constructor; [by eapply L1InfoDepositBytes_deposit|]. by destruct (k =? 0).
Qed.

(** The attributes that the verifier makes of the blocks' batches match the blocks. *)
Lemma epoch_blocks_attributes epoch maxTime bt parent k t ps :
  epoch_blocks l1Info deposits maxTime bt parent k t ps ->
  exists attrss,
    epoch_attributes_list config l1Info deposits k (block_batch epoch <$> ps) = Ok attrss /\
    chained parent attrss ps.
Proof.
  revert parent k t. induction ps as [|p ps IH]; intros parent k t; [by exists []|].
  intros [Hb Hps]. apply IH in Hps as (attrss & El & Hch).
  destruct (epoch_block_user _ _ _ _ _ Hb) as (b & Eb & Etx & _).
  destruct Hb as (Hp & Ht & Hr & _).
  rewrite fmap_cons. cbn [epoch_attributes_list]. unfold epoch_attributes. rewrite Eb.
  cbn [map_err mbind res_bind]. rewrite El. cbn [mbind res_bind].
  eexists. split; [done|]. cbn [chained]. split; [|done].
  unfold attributes_match. cbn. split_and!; [done|done|done|by symmetry].
Qed.

(** ** Completing the published batches *)

Lemma first_per_time_covers seen bs b :
  b ∈ bs -> b_Timestamp b ∉ seen -> b_Timestamp b ∈ b_Timestamp <$> first_per_time seen bs.
Proof.
  revert seen. induction bs as [|b' bs IH]; intros seen Hin Hs; [by apply elem_of_nil in Hin|].
  cbn [first_per_time]. apply elem_of_cons in Hin as [<-|Hin].
  - rewrite decide_False by done. left.
  - case_decide; [by apply IH|]. rewrite fmap_cons.
    destruct (decide (b_Timestamp b = b_Timestamp b')) as [->|Hne]; [left|right].
    apply IH; [done|]. set_solver.
Qed.

(** A block with the L1 info transaction only has no batch. *)
Definition has_batch (p : ExecutionPayload) : Prop := tail (pl_Transactions p) <> [].

Lemma epoch_block_has_batch maxTime parent k t p :
  epoch_block l1Info deposits maxTime parent k t p ->
  user_txs (pl_Transactions p) <> [] -> has_batch p.
Proof.
  intros Hb Hne. apply epoch_block_user in Hb as (b & _ & Etx & _). unfold has_batch.
  rewrite Etx. cbn [tail]. by intros [_ ?]%app_nil.
Qed.

Section Fill.
Context (epoch lo hi maxTime next : Z) (parent : Hash) (ps : list ExecutionPayload)
  (window : list BatchData).
Local Abbreviation bt := (cfg_BlockTime config).
Local Abbreviation gen := (gen_L2Time (cfg_Genesis config)).
Context (Hbt : 0 < bt) (Hgen : 0 <= gen <= lo) (Halign : (lo - gen) mod bt = 0)
  (Hfit : lo + (zlen ps + 1) * bt < 2 ^ 64) (Hmax : maxTime <= hi) (Hne : ps <> [])
  (Hnext : 0 <= next < lo + (zlen ps + 1) * bt)
  (Hps : epoch_blocks l1Info deposits maxTime bt parent 0 lo ps)
  (Hin : forall p, p ∈ ps -> has_batch p -> block_batch epoch p ∈ window)
  (Hout : forall b, b ∈ window -> valid config epoch lo hi b ->
     exists p, p ∈ ps /\ has_batch p /\ b = block_batch epoch p).

Local Abbreviation out := (first_per_time ∅ (filter (valid config epoch lo hi) window)).

Lemma ps_time i p : ps !! i = Some p -> pl_Timestamp p = lo + Z.of_nat i * bt.
Proof. intros Hi. by destruct (epoch_blocks_lookup _ _ _ _ _ _ _ _ Hps Hi) as (? & _ & ? & _). Qed.

Lemma ps_bound i p : ps !! i = Some p -> Z.of_nat i * bt <= (zlen ps - 1) * bt.
Proof. intros Hi%lookup_lt_Some. apply Z.mul_le_mono_nonneg_r; unfold zlen; lia. Qed.

Lemma ps_valid i p : ps !! i = Some p -> pl_Timestamp p < hi ->
  valid config epoch lo hi (block_batch epoch p).
Proof.
  intros Hi Hhi. pose proof (ps_time _ _ Hi) as Ht. pose proof (ps_bound _ _ Hi).
  unfold valid, ValidBatch, block_batch. cbn [b_Epoch b_Timestamp b_Transactions].
  rewrite Z.eqb_refl. cbn [negb]. rewrite (proj2 (Z.eqb_neq bt 0)) by lia.
  rewrite wrap_small by (unfold in_range; lia).
  assert ((pl_Timestamp p - gen) mod bt = 0) as ->.
  { rewrite Ht. replace (_ - gen) with (lo - gen + Z.of_nat i * bt) by lia.
    by rewrite Z.mod_add by lia. }
  cbn [negb Z.eqb]. rewrite (proj2 (Z.ltb_ge _ _)), (proj2 (Z.leb_gt _ _)) by lia.
  by rewrite ValidBatch_user_txs.
Qed.

Lemma out_inv b : b ∈ out -> valid config epoch lo hi b /\
  exists i p, ps !! i = Some p /\ has_batch p /\ b = block_batch epoch p.
Proof.
  intros Hb. assert (b ∈ filter (valid config epoch lo hi) window) as [Hv Hw]%list_elem_of_filter
    by (by eapply elem_of_sublist; [|apply first_per_time_sublist]).
  split; [done|]. destruct (Hout _ Hw Hv) as (p & [i Hi]%list_elem_of_lookup & ? & ?). eauto.
Qed.

(** The time of a block with a valid batch is kept by the filter. *)
Lemma out_time i p : ps !! i = Some p -> has_batch p -> pl_Timestamp p < hi ->
  pl_Timestamp p ∈ b_Timestamp <$> out.
Proof.
  intros Hi Hb Hhi. apply (first_per_time_covers ∅ _ (block_batch epoch p)); [|set_solver].
  apply list_elem_of_filter. split; [by eapply ps_valid|].
  apply Hin; [by eapply list_elem_of_lookup_2|done].
Qed.

Lemma fill_batch_block i p : ps !! i = Some p ->
  fill_batch out epoch (lo + Z.of_nat i * bt) = block_batch epoch p.
Proof.
  intros Hi. pose proof (ps_time _ _ Hi) as Ht. rewrite <-Ht.
  destruct (fill_batch_cases out epoch (pl_Timestamp p)) as [[Hb Hbt']|Hemp].
  - destruct (out_inv _ Hb) as (_ & j & q & Hj & _ & Hq).
    rewrite Hq in Hbt' |- *. cbn in Hbt'. rewrite (ps_time _ _ Hj), Ht in Hbt'.
    assert (j = i) as -> by nia. congruence.
  - assert (Hu : user_txs (pl_Transactions p) = []).
    { destruct (decide (user_txs (pl_Transactions p) = [])) as [|Hu]; [done|exfalso].
      destruct (epoch_blocks_lookup _ _ _ _ _ _ _ _ Hps Hi) as (parent' & Hblk).
      assert (Hhb : has_batch p) by (by eapply epoch_block_has_batch).
      destruct (epoch_block_user _ _ _ _ _ Hblk) as (_ & _ & _ & Htm). specialize (Htm Hu).
      assert (Hmem : pl_Timestamp p ∈ b_Timestamp <$> out) by (eapply out_time; [done..|lia]).
      apply list_elem_of_fmap in Hmem as (b & Hbt' & Hb).
      pose proof (fill_batch_elem out epoch b (first_per_time_NoDup _ _) Hb) as Hf.
      rewrite <-Hbt', Hemp in Hf. destruct (out_inv _ Hb) as (_ & j & q & Hj & _ & ->).
      cbn in Hbt'. rewrite (ps_time _ _ Hi), (ps_time _ _ Hj) in Hbt'.
      assert (j = i) as -> by nia. assert (q = p) as -> by congruence.
      unfold block_batch in Hf. injection Hf as Hf. congruence. }
    rewrite Hemp. unfold block_batch. by rewrite Hu.
Qed.

(** When the derivation reaches the last block: it is the only one, or there is room for
    it before the next L1 block, or its batch is in the window and not too late. *)
Definition reached : Prop :=
  length ps = 1%nat \/ lo + zlen ps * bt <= next \/
  exists p, last ps = Some p /\ has_batch p /\ pl_Timestamp p < hi.

Lemma ps_last : exists p, last ps = Some p /\ ps !! (length ps - 1)%nat = Some p /\
  pl_Timestamp p = lo + (zlen ps - 1) * bt /\ 1 <= zlen ps.
Proof.
  destruct (last ps) as [p|] eqn:El; [|by apply last_None in El].
  exists p. rewrite last_lookup in El. replace (Nat.pred (length ps)) with (length ps - 1)%nat in El by lia.
  pose proof (lookup_lt_Some _ _ _ El). rewrite (ps_time _ _ El). unfold zlen.
  split_and!; [done|done| |lia]. by rewrite Nat2Z.inj_sub by lia.
Qed.

Lemma fill_head_bound : fill_head out bt lo next < lo + zlen ps * bt.
Proof.
  destruct ps_last as (_ & _ & _ & _ & Hn).
  assert (fill_head out bt lo next <= lo + zlen ps * bt - 1); [|lia].
  apply foldl_max_le; [case_match; nia|]. apply Forall_forall.
  intros t (b & -> & Hb)%list_elem_of_fmap. destruct (out_inv _ Hb) as (_ & i & p & Hi & _ & ->).
  cbn. rewrite (ps_time _ _ Hi). pose proof (ps_bound _ _ Hi). lia.
Qed.

Lemma foldl_max_cases l z : foldl Z.max z l = z \/ foldl Z.max z l ∈ l.
Proof.
  revert z. induction l as [|x l IH]; intros z; cbn; [by left|].
  destruct (IH (Z.max z x)) as [->|]; [|right; by right].
  destruct (Z.max_spec z x) as [[_ ->]|[_ ->]]; [right; left|by left].
Qed.

Lemma fill_head_reached : lo + (zlen ps - 1) * bt <= fill_head out bt lo next <-> reached.
Proof.
  destruct ps_last as (p & Hl & Hi & Ht & Hn). split.
  - unfold fill_head. intros Hh.
    match type of Hh with _ <= foldl _ ?z ?l => destruct (foldl_max_cases l z) as [E|E] end.
    + rewrite E in Hh. case_match; [right; left; nia|left]. unfold zlen in *. nia.
    + apply list_elem_of_fmap in E as (b & E & Hb). rewrite E in Hh.
      destruct (out_inv _ Hb) as (Hv & j & q & Hj & Hhb & ->). apply valid_inv in Hv.
      cbn in Hh, Hv. pose proof (ps_bound _ _ Hj). pose proof (lookup_lt_Some _ _ _ Hj).
      rewrite (ps_time _ _ Hj) in Hh. assert (j = (length ps - 1)%nat) as -> by (unfold zlen in *; nia).
      right; right. exists q. split_and!; [congruence|done|lia].
  - pose proof (fill_head_min out bt lo next Hbt). pose proof (fill_head_next out bt lo next Hbt).
    intros [Hc|[Hc|(q & Hq & Hhb & Hlt)]]; [unfold zlen; lia|lia|].
    assert (q = p) as -> by congruence.
    pose proof (out_time _ _ Hi Hhb Hlt) as (b & Hbt' & Hb)%list_elem_of_fmap.
    pose proof (fill_head_ge out bt lo next b Hb). lia.
Qed.

(** Completing the filtered batches gives the batches of the first blocks, and of all of
    them exactly when the last block is reached. *)
Lemma fill_published fuel : (length ps < fuel)%nat -> next < 2 ^ 64 -> exists m,
  (0 < m <= length ps)%nat /\
  FillMissingBatches fuel out epoch bt lo next = Ok (block_batch epoch <$> take m ps) /\
  (m = length ps <-> reached).
Proof.
  intros Hfuel Hn64. destruct ps_last as (_ & _ & _ & _ & Hn). pose proof fill_head_reached as Hr.
  pose proof fill_head_bound as Hh. pose proof (fill_head_min out bt lo next Hbt) as Hlo.
  set (h := fill_head out bt lo next) in *.
  pose proof (Z.div_mod (h - lo) bt ltac:(lia)) as Hd.
  pose proof (Z.mod_pos_bound (h - lo) bt ltac:(lia)).
  pose proof (Z.div_pos (h - lo) bt ltac:(lia) ltac:(lia)).
  assert (Hq : (h - lo) / bt <= zlen ps - 1) by (apply Z.lt_succ_r; nia).
  exists (S (Z.to_nat ((h - lo) / bt))). split; [unfold zlen in *; lia|]. split.
  - rewrite FillMissingBatches_spec; fold h; [|lia..| |lia|unfold zlen in *; lia].
    + f_equal. apply list_eq. intros i. rewrite !list_lookup_fmap.
      destruct (decide (i < S (Z.to_nat ((h - lo) / bt)))%nat) as [Hi|Hi].
      * rewrite lookup_seq_lt by done. rewrite lookup_take_lt by done.
        destruct (lookup_lt_is_Some_2 ps i) as [p Hp]; [unfold zlen in *; lia|].
        rewrite Hp. cbn. f_equal. by apply fill_batch_block.
      * rewrite lookup_seq_ge by lia. by rewrite lookup_take_ge by lia.
    + apply Forall_forall. intros b Hb. destruct (out_inv _ Hb) as (_ & i & p & Hi & _ & ->).
      cbn. rewrite (ps_time _ _ Hi). pose proof (ps_bound _ _ Hi). lia.
  - rewrite <-Hr. unfold zlen in *. split; intros; [|apply Nat.le_antisymm; [lia|]]; nia.
Qed.
End Fill.
End Verifier.

(** ** The whole way round *)
Section Whole.
Context {W : Type} `{!Engine W} `{!Downloader W}.

(** The end of the time range of an epoch on the L2 parent of time [l2Time]. *)
Definition epoch_maxTime (config : Config) (l1Info : L1Info) (l2Time : uint64) : Z :=
  Z.max (li_Time l1Info +64 cfg_MaxSequencerDrift config)
    (l2Time +64 cfg_BlockTime config +64 cfg_BlockTime config).

(** The batches of the window: that of each block of [bls] that has one and, among the
    valid batches of the epoch, no other.  Their order, repetitions and the batches that
    are not valid do not matter. *)
Record published (config : Config) (epoch lo hi : Z) (bls : list Block)
    (txLists : list (list Transaction)) : Prop := {
  pub_returns : forall txs tx, txs ∈ txLists -> tx ∈ txs ->
    returns (tx_Sender (cfg_L1ChainID config) tx) = true /\
    returns (DecodeBatches (tx_Data tx)) = true;
  pub_in : forall bl b, bl ∈ bls -> BlockToBatch bl = Ok (Some b) ->
    b ∈ concat txLists ≫= tx_batches config;
  pub_out : forall b, b ∈ concat txLists ≫= tx_batches config -> valid config epoch lo hi b ->
    exists bl, bl ∈ bls /\ BlockToBatch bl = Ok (Some b);
}.

(** When the last block of the epoch is derived: it is the only one, the next L1 block
    leaves room for it, or it has a batch in time. *)
Definition last_derived (config : Config) (l2Time next hi : Z) (bls : list Block) : Prop :=
  length bls = 1%nat \/ l2Time + (zlen bls + 1) * cfg_BlockTime config <= next \/
  exists bl b, last bls = Some bl /\ BlockToBatch bl = Ok (Some b) /\ b_Timestamp b < hi.

(** The chain runs from [l2Time] on with a fixed block time, and the [n] blocks of the
    epoch end less than two block times before the next L1 block. *)
Record epoch_times (config : Config) (l2Time next n : Z) : Prop := {
  et_blockTime : 0 < cfg_BlockTime config;
  et_genesis : 0 <= gen_L2Time (cfg_Genesis config) <= l2Time;
  et_aligned : (l2Time - gen_L2Time (cfg_Genesis config)) mod cfg_BlockTime config = 0;
  et_next : 0 <= next < l2Time + (n + 2) * cfg_BlockTime config;
  et_fit : l2Time + (n + 2) * cfg_BlockTime config < 2 ^ 64;
}.

Lemma epoch_block_BlockToBatch l1Info deposits maxTime parent k t p bl :
  L1Info_ok l1Info -> in_range 64 k -> epoch_block l1Info deposits maxTime parent k t p ->
  BlockAsPayload bl = Ok p -> forall b,
  BlockToBatch bl = Ok (Some b) <-> has_batch p /\ b = block_batch (li_NumberU64 l1Info) p.
Proof.
  intros Hok Hk (_ & _ & _ & b0 & user & Eb & Etx & _) Ep b.
  rewrite (BlockToBatch_block_batch _ _ _ _ _ _ Ep Hok Hk Eb Etx). unfold has_batch. rewrite Etx.
  cbn [tail]. case_decide as Hd; rewrite ?Hd; split; [done|by intros [? _]| |].
  - by intros [= <-].
  - by intros [_ ->].
Qed.

(** ** Inserting an epoch that the engine already holds *)

(** In the worlds [I], [c] answers [a] and stays in [I]. *)
Definition answers {A} (I : W -> Prop) (c : M W A) (a : A) : Prop :=
  forall w, I w -> wp c (fun r w' => r = Ok a /\ I w') w.

Lemma answers_bind {A B} I (c : M W A) (f : A -> M W B) a b :
  answers I c a -> answers I (f a) b -> answers I (c ≫= f) b.
Proof.
  intros Hc Hf w Hw. apply wp_bind. eapply wp_mono; [by apply Hc|].
  intros ? w' [-> Hw']. by apply Hf.
Qed.
Lemma answers_M_err {A} I e (c : M W A) a : answers I c a -> answers I (M_err e c) a.
Proof.
  intros Hc w Hw. apply wp_M_err. eapply wp_mono; [by apply Hc|]. by intros ? w' [-> ?].
Qed.
Lemma answers_lift {A} I (r : res A) a : r = Ok a -> answers I (lift r) a.
Proof. by intros -> w Hw. Qed.
Lemma answers_ret {A} I (a : A) : answers I (mret a) a.
Proof. by intros w Hw. Qed.
Lemma answers_attempt {A} I (c : M W A) a : answers I c a -> answers I (attempt c) (inr a).
Proof.
  intros Hc w Hw. apply wp_attempt. eapply wp_mono; [by apply Hc|]. by intros ? w' [-> ?].
Qed.

(** The node can read the L1 data of the window and its engine holds the blocks [ps] on
    top of [safe], at the heights of [safe] plus one and up. *)
Record node_view (I : W -> Prop) (safe : L2BlockRef) (o : L1BlockRef) (in1 : BlockID)
    (l1Input : list BlockID) (l1Info nextInfo : L1Info) (receipts : list Receipt)
    (txLists : list (list Transaction)) (ps : list ExecutionPayload) : Prop := {
  nv_parent : exists p, answers I (eng_PayloadByHash (l2_Hash safe)) p /\ pl_Timestamp p = l2_Time safe;
  nv_Fetch : exists txs, answers I (dl_Fetch (l1_Hash o)) (l1Info, txs, receipts);
  nv_next : answers I (dl_InfoByHash (id_Hash in1)) nextInfo;
  nv_txs : answers I (dl_FetchAllTransactions l1Input) txLists;
  nv_blocks : forall i p, ps !! i = Some p ->
    pl_BlockNumber p = l2_Number safe + 1 + Z.of_nat i /\
    answers I (eng_PayloadByNumber (pl_BlockNumber p)) p;
  nv_forkchoice : forall fc, exists r, answers I (eng_ForkchoiceUpdate fc None) r;
  nv_numbers : 0 <= l2_Number safe /\ l2_Number safe + zlen ps < 2 ^ 64;
}.

Lemma PayloadToBlockRef_fields p genesis ref :
  PayloadToBlockRef p genesis = Ok ref ->
  l2_Hash ref = pl_BlockHash p /\ l2_Number ref = pl_BlockNumber p /\ l2_Time ref = pl_Timestamp p.
Proof.
  unfold PayloadToBlockRef. intros E. apply res_bind_ok in E as ([og n] & _ & E). by injection E as <-.
Qed.

Lemma sequenced_refs config o head ps :
  sequenced config o head ps ->
  Forall (fun p => exists ref, PayloadToBlockRef p (cfg_Genesis config) = Ok ref) ps.
Proof.
  induction 1 as [|head safe fin w ref p w' ps E _ IH]; constructor; [|done].
  unfold createNewBlock in E.
  apply M_bind_ok in E as ([[i rs] sq] & w1 & _ & E). apply M_bind_ok in E as (b & w2 & _ & E).
  apply M_bind_ok in E as ([d e] & w3 & _ & E). apply M_bind_ok in E as (q & w4 & _ & E).
  apply M_bind_ok in E as (ref' & w5 & Er & E). apply lift_ok in Er as [Er _].
  injection E as _ -> _. eauto.
Qed.

Lemma verifySafeBlock_answers I config fc attrs parent p ref r :
  answers I (eng_PayloadByNumber (id_Number parent +64 1)) p ->
  PayloadToBlockRef p (cfg_Genesis config) = Ok ref ->
  attributes_match attrs (id_Hash parent) p ->
  answers I (eng_ForkchoiceUpdate
    (mkForkchoiceState (fc_HeadBlockHash fc) (pl_BlockHash p) (fc_FinalizedBlockHash fc)) None) r ->
  answers I (verifySafeBlock config fc attrs parent) (p, false).
Proof.
  intros Hp Hr Hm Hf. unfold verifySafeBlock.
  eapply answers_bind; [by apply answers_M_err|].
  eapply answers_bind; [by apply answers_M_err, answers_lift|].
  eapply answers_bind; [apply answers_attempt, answers_lift|cbn].
  - destruct (attributesMatchBlock_cases attrs (id_Hash parent) p) as [[E _]|[_ Hn]]; [exact E|done].
  - eapply answers_bind; [by apply answers_M_err|apply answers_ret].
Qed.

(** Blocks that match the attributes one after the other become safe without a reorg. *)
Lemma insertEpoch_loop_answers I config l1Info deposits batches i fc head safe attrss ps d r :
  epoch_attributes_list config l1Info deposits i batches = Ok attrss ->
  chained (l2_Hash safe) attrss ps ->
  Forall (fun p => exists ref, PayloadToBlockRef p (cfg_Genesis config) = Ok ref) ps ->
  (forall j p, ps !! j = Some p -> pl_BlockNumber p = l2_Number safe + 1 + Z.of_nat j /\
     answers I (eng_PayloadByNumber (pl_BlockNumber p)) p) ->
  (forall fc, exists r, answers I (eng_ForkchoiceUpdate fc None) r) ->
  0 <= l2_Number safe -> l2_Number safe + zlen ps < 2 ^ 64 ->
  (ps <> [] -> l2_Hash head <> l2_Hash safe) ->
  (forall j p, ps !! j = Some p -> (S j < length ps)%nat -> pl_BlockHash p <> l2_Hash head) ->
  exists safe',
    answers I (insertEpoch_loop config l1Info deposits batches i fc head safe d r) (head, safe', d) /\
    match last ps with
    | None => safe' = safe
    | Some p => PayloadToBlockRef p (cfg_Genesis config) = Ok safe'
    end.
Proof.
  revert i fc safe attrss ps r. induction batches as [|b bs IH];
    intros i fc safe attrss ps r E Hch Hrefs Hblocks Hfcu Hnum Hfit Hhead Hdist;
    cbn [epoch_attributes_list] in E.
  { injection E as <-. destruct ps; [|done]. exists safe. split; [apply answers_ret|done]. }
  apply res_bind_ok in E as (attrs & Ea & E). apply res_bind_ok in E as (attrss' & El & E).
  injection E as <-. destruct ps as [|p ps]; [done|]. destruct Hch as [Hm Hch].
  apply Forall_cons in Hrefs as [[ref Hr] Hrefs]. rewrite zlen_cons in Hfit.
  pose proof (zlen_nonneg ps). destruct (PayloadToBlockRef_fields _ _ _ Hr) as (Hh & Hn & _).
  destruct (Hblocks 0%nat p eq_refl) as [Hpn Hp].
  assert (Hloop : exists safe',
    answers I (insertEpoch_loop config l1Info deposits bs (i + 1)
      (mkForkchoiceState (l2_Hash head) (l2_Hash ref) (fc_FinalizedBlockHash fc)) head ref d false)
      (head, safe', d) /\
    match last ps with
    | None => safe' = ref | Some q => PayloadToBlockRef q (cfg_Genesis config) = Ok safe'
    end).
  { apply (IH _ _ _ attrss' ps); try done; try lia.
    - by rewrite Hh.
    - intros j q Hj. destruct (Hblocks (S j) q Hj) as [Hq ?]. split; [lia|done].
    - rewrite Hh. intros Hne. apply not_eq_sym, (Hdist 0%nat); [done|]. destruct ps; [done|simpl; lia].
    - intros j q Hj Hlt. apply (Hdist (S j)); [done|simpl; lia]. }
  destruct Hloop as (safe' & Hans & Hlast). exists safe'. split.
  - cbn [insertEpoch_loop]. eapply answers_bind; [by apply answers_lift|].
    rewrite (proj2 (Z.eqb_neq (l2_Hash head) (l2_Hash safe))) by (by apply Hhead). cbn [negb].
    destruct (Hfcu (mkForkchoiceState (fc_HeadBlockHash fc) (pl_BlockHash p) (fc_FinalizedBlockHash fc)))
      as [fr Hfr].
    eapply answers_bind; [apply answers_M_err; eapply verifySafeBlock_answers; try done|].
    { cbn [id_Number L2BlockRef_ID]. rewrite wrap_small by (unfold in_range; lia).
      replace (l2_Number safe + 1) with (pl_BlockNumber p) by lia. done. }
    cbn beta iota. eapply answers_bind; [by apply answers_M_err, answers_lift|]. exact Hans.
  - rewrite last_cons. destruct (last ps); [done|by subst].
Qed.
(** ** The theorems *)
Section Derive.
Context (config : Config) (o : L1BlockRef) (l1Info : L1Info) (receipts : list Receipt)
  (deposits : list Data) (errs : list error) (head : L2BlockRef) (ps : list ExecutionPayload)
  (bls : list Block) (txLists : list (list Transaction)) (next : Z).
Local Abbreviation bt := (cfg_BlockTime config).
Local Abbreviation hi := (epoch_maxTime config l1Info (l2_Time head)).
Context (Hengine : engine_extends) (Hdata : origin_data o l1Info receipts)
  (Hdeps : DeriveDeposits receipts (cfg_DepositContractAddress config) = Ok (deposits, errs))
  (Hseq : sequenced config o head ps) (Hne : ps <> [])
  (Hfirst : id_Number (l2_L1Origin head) <> l1_Number o)
  (Hng : Forall (fun p => pl_BlockNumber p <> id_Number (gen_L2 (cfg_Genesis config))) ps)
  (Hbls : Forall2 (fun bl p => BlockAsPayload bl = Ok p) bls ps)
  (Htimes : epoch_times config (l2_Time head) next (zlen ps))
  (Hpub : published config (l1_Number o) (l2_Time head + bt) hi bls txLists).

Lemma sequenced_blocks :
  epoch_blocks l1Info deposits (l1_Time o +64 cfg_MaxSequencerDrift config) bt
    (l2_Hash head) 0 (l2_Time head + bt) ps.
Proof.
  destruct Htimes. pose proof (zlen_nonneg ps).
  eapply sequenced_epoch_blocks; try done; try nia.
Qed.

Lemma block_has_batch i bl p : bls !! i = Some bl -> ps !! i = Some p -> forall b,
  BlockToBatch bl = Ok (Some b) <-> has_batch p /\ b = block_batch (l1_Number o) p.
Proof.
  intros Hbl Hp. destruct (epoch_blocks_lookup _ _ _ _ _ _ _ _ _ _ sequenced_blocks Hp) as [parent Hb].
  destruct Hdata as [_ _ Hok Hnum _]. rewrite <-Hnum. destruct Htimes.
  eapply epoch_block_BlockToBatch; [done| |done|].
  - pose proof (lookup_lt_Some _ _ _ Hp). unfold in_range, zlen in *. nia.
  - by eapply Forall2_lookup_lr in Hbls.
Qed.

Lemma last_derived_reached :
  last_derived config (l2_Time head) next hi bls <-> reached config (l2_Time head + bt) hi next ps.
Proof.
  pose proof (Forall2_length _ _ _ Hbls) as Hlen.
  unfold last_derived, reached. unfold zlen. rewrite Hlen.
  assert (Hl : (exists bl b, last bls = Some bl /\ BlockToBatch bl = Ok (Some b) /\ b_Timestamp b < hi)
    <-> exists p, last ps = Some p /\ has_batch p /\ pl_Timestamp p < hi).
  { rewrite !last_lookup, Hlen. split.
    - intros (bl & b & Hbl & Hb & Hlt).
      destruct (Forall2_lookup_l _ _ _ _ _ Hbls Hbl) as (p & Hp & _). exists p.
      apply (block_has_batch _ _ _ Hbl Hp) in Hb as [Hb ->]. done.
    - intros (p & Hp & Hb & Hlt). destruct (Forall2_lookup_r _ _ _ _ _ Hbls Hp) as (bl & Hbl & _).
      exists bl, (block_batch (l1_Number o) p). split_and!; [done| |done].
      by apply (block_has_batch _ _ _ Hbl Hp). }
  rewrite Hl. replace (l2_Time head + (Z.of_nat (length ps) + 1) * bt)
    with (l2_Time head + bt + Z.of_nat (length ps) * bt) by lia. done.
Qed.

Lemma derive_epoch_sequenced fuel : (length ps < fuel)%nat -> next < 2 ^ 64 -> exists attrss,
  derive_epoch fuel config (l1_Number o) (l2_Time head) l1Info next receipts txLists = Ok attrss /\
  (0 < length attrss)%nat /\
  chained (l2_Hash head) attrss (take (length attrss) ps) /\
  (length attrss = length ps <-> last_derived config (l2_Time head) next hi bls).
Proof.
  intros Hfuel Hn64. pose proof sequenced_blocks as Hps. pose proof last_derived_reached as Hlast.
  destruct Hpub as [Hret Hin Hout], Htimes as [Hbt Hgen Hal Hnext Hfit].
  pose proof (zlen_nonneg ps). pose proof (DeriveDeposits_deposits _ _ _ _ Hdeps) as Hdd.
  destruct Hdata as [_ _ _ _ Htime].
  edestruct (fill_published config l1Info deposits Hdd (l1_Number o) (l2_Time head + bt) hi
    (l1_Time o +64 cfg_MaxSequencerDrift config) next (l2_Hash head) ps
    (concat txLists ≫= tx_batches config)) as (m & Hm & Hfill & Hreach); try done; try lia.
  - replace (_ - _) with (l2_Time head - gen_L2Time (cfg_Genesis config) + 1 * bt) by lia.
    by rewrite Z.mod_add by lia.
  - unfold epoch_maxTime. rewrite Htime. lia.
  - intros p [i Hi]%list_elem_of_lookup Hb. destruct (Forall2_lookup_r _ _ _ _ _ Hbls Hi) as (bl & Hbl & _).
    apply (Hin bl); [by eapply list_elem_of_lookup_2|]. by apply (block_has_batch _ _ _ Hbl Hi).
  - intros b Hb Hv. destruct (Hout _ Hb Hv) as (bl & [i Hbl]%list_elem_of_lookup & Hbb).
    destruct (Forall2_lookup_l _ _ _ _ _ Hbls Hbl) as (p & Hp & _).
    exists p. split; [by eapply list_elem_of_lookup_2|]. by apply (block_has_batch _ _ _ Hbl Hp).
  - destruct (epoch_blocks_attributes config l1Info deposits Hdd (l1_Number o) _ _ _ _ _ _
      (epoch_blocks_take l1Info deposits _ _ _ _ _ _ m Hps)) as (attrss & El & Hch).
    assert (Hlen : length attrss = m).
    { rewrite (epoch_attributes_list_length _ _ _ _ _ _ El), length_fmap, length_take. lia. }
    exists attrss. rewrite Hlen, Hlast. split_and!; [|lia|done|done].
    unfold derive_epoch. rewrite Hdeps. cbn [mbind res_bind]. unfold BatchesFromEVMTransactions.
    rewrite BatchesFromEVMTransactions_lists_spec by done. cbn [mbind res_bind app].
    rewrite (wrap_small 64 (l2_Time head + bt)) by (unfold in_range; nia).
    unfold FilterBatches. rewrite FilterBatches_loop_spec by lia. cbn [mbind res_bind app].
    unfold epoch_maxTime in Hfill. rewrite (wrap_small 64 (l2_Time head + bt)) in Hfill by (unfold in_range; nia).
    rewrite Hfill. cbn [mbind res_bind]. done.
Qed.

(** [C7] The sequencer and the verifiers agree.  For the blocks that the sequencer built
    on one L1 origin, whose batches were published in the sequencing window among any
    other transactions, in any order and any number of times: the attributes that every
    verifier derives match, in order and from the same parent, the first of these
    blocks; and they match all of them exactly when the last one has a batch in time, or
    ends a block time before the next L1 block, or is the only one.  In the remaining
    case, empty blocks at the end of the epoch are not derived and their times fall
    to the next epoch. *)
Theorem sequencer_verifier_agree fuel :
  (length ps < fuel)%nat -> next < 2 ^ 64 -> exists attrss,
  derive_epoch fuel config (l1_Number o) (l2_Time head) l1Info next receipts txLists = Ok attrss /\
  (0 < length attrss)%nat /\
  chained (l2_Hash head) attrss (take (length attrss) ps) /\
  (length attrss = length ps <-> last_derived config (l2_Time head) next hi bls).
Proof. apply derive_epoch_sequenced. Qed.

(** [C8] A node that holds the sequencer's blocks on its unsafe chain keeps them: when
    their batches were published, [insertEpoch] succeeds without a reorg, leaves the
    unsafe head where it is and moves the safe head to the last block of the epoch. *)
Theorem insertEpoch_keeps fuel l2Head l2Finalized in1 rest nextInfo (I : W -> Prop) w :
  let l1Input := mkBlockID (l1_Hash o) (l1_Number o) :: in1 :: rest in
  (length ps < fuel)%nat -> next < 2 ^ 64 ->
  zlen l1Input = to_int64 (cfg_SeqWindowSize config) ->
  li_ParentHash l1Info = id_Hash (l2_L1Origin head) ->
  li_Time nextInfo = next ->
  node_view I head o in1 l1Input l1Info nextInfo receipts txLists ps ->
  last_derived config (l2_Time head) next hi bls ->
  l2_Hash l2Head <> l2_Hash head ->
  (forall j p, ps !! j = Some p -> (S j < length ps)%nat -> pl_BlockHash p <> l2_Hash l2Head) ->
  I w ->
  exists safe' p w',
    insertEpoch fuel config l2Head head l2Finalized l1Input w = (Ok (l2Head, safe', false), w') /\
    I w' /\ last ps = Some p /\ PayloadToBlockRef p (cfg_Genesis config) = Ok safe'.
Proof.
  intros l1Input Hfuel Hn64 Hwin Hparent Hnt Hview Hld Hhd Hdist Hw.
  destruct (derive_epoch_sequenced _ Hfuel Hn64) as (attrss & Ed & _ & Hch & Hall).
  rewrite take_ge in Hch by (rewrite (proj2 Hall Hld); done).
  destruct Hview as [(pp & Hpp & Hpt) [txs Hf] Hnx Htx Hbl Hfc [Hnum Hfit]].
  unfold derive_epoch in Ed. rewrite Hdeps in Ed. cbn [mbind res_bind] in Ed.
  apply res_bind_ok in Ed as (bs1 & Eb1 & Ed). apply res_bind_ok in Ed as (bs2 & Eb2 & Ed).
  apply res_bind_ok in Ed as (bs3 & Eb3 & El).
  destruct (insertEpoch_loop_answers I config l1Info deposits bs3 0
    (mkForkchoiceState (l2_Hash l2Head) (l2_Hash head) (id_Hash l2Finalized)) l2Head head
    attrss ps false false El Hch (sequenced_refs _ _ _ _ Hseq) Hbl Hfc Hnum Hfit ltac:(done) Hdist)
    as (safe' & Hloop & Hlast).
  destruct (last ps) as [p|] eqn:Elast; [|by apply last_None in Elast].
  assert (Hans : answers I (insertEpoch fuel config l2Head head l2Finalized l1Input)
    (l2Head, safe', false)).
  { unfold insertEpoch. rewrite (proj2 (Z.leb_gt (zlen l1Input) 1)) by (unfold zlen; simpl; lia).
    rewrite (proj2 (Z.eqb_eq _ _) Hwin). cbn [negb].
    do 2 (eapply answers_bind; [by apply answers_lift|]).
    eapply answers_bind; [by apply answers_M_err|].
    eapply answers_bind; [by apply answers_M_err|]. cbn beta iota.
    eapply answers_bind; [apply answers_lift; by rewrite Hparent, Z.eqb_refl|].
    eapply answers_bind; [by apply answers_M_err|].
    eapply answers_bind; [by apply answers_lift|]. cbn beta iota.
    eapply answers_bind; [by apply answers_M_err|].
    eapply answers_bind; [by apply answers_M_err, answers_lift|]. cbv zeta.
    eapply answers_bind; [apply answers_lift|].
    { rewrite Hpt, <-Eb2. f_equal. case_match; lia. }
    eapply answers_bind; [apply answers_lift|exact Hloop].
    by rewrite Hpt, Hnt. }
  specialize (Hans w Hw). unfold wp in Hans. destruct (insertEpoch _ _ _ _ _ _ w) as [r w'].
  cbn in Hans. destruct Hans as [-> Hw']. by exists safe', p, w'.
Qed.

(** An epoch that ends in an empty block, less than a block time before the next L1
    block: the block is not derived, and the unsafe chain will be reorganised. *)
Lemma empty_tail_lost fuel bl :
  (length ps < fuel)%nat -> next < 2 ^ 64 -> (2 <= length bls)%nat ->
  last bls = Some bl -> BlockToBatch bl = Ok None ->
  next < l2_Time head + (zlen bls + 1) * bt -> exists attrss,
  derive_epoch fuel config (l1_Number o) (l2_Time head) l1Info next receipts txLists = Ok attrss /\
  (length attrss < length ps)%nat.
Proof.
  intros Hfuel Hn64 Htwo Hl Hnone Hlt.
  destruct (derive_epoch_sequenced _ Hfuel Hn64) as (attrss & Ed & _ & Hch & Hall).
  exists attrss. split; [done|].
  apply chained_length in Hch. rewrite length_take in Hch.
  assert (length attrss <> length ps); [|lia].
  intros [Hc|[Hc|(bl' & b & Hl' & Hb & _)]]%Hall; [lia|lia|]. congruence.
Qed.
End Derive.
End Whole.
End Agreement.

(** ** Witnesses: an epoch of two blocks

    The engine of Step's witnesses, except that block hashes are computed from the
    header and that the transaction pool has one transaction for the second block. *)
Definition agree_header (parent : Hash) (attrs : PayloadAttributes) : Header := {|
  hdr_ParentHash := parent; hdr_UncleHash := @EmptyUncleHash ToyGeth; hdr_Coinbase := 0;
  hdr_Root := 0; hdr_TxHash := 0; hdr_ReceiptHash := 0; hdr_Bloom := 0; hdr_Difficulty := 0;
  hdr_Number := (at_Timestamp attrs - 1000) / 2; hdr_GasLimit := 0; hdr_GasUsed := 0;
  hdr_Time := at_Timestamp attrs; hdr_Extra := []; hdr_MixDigest := at_PrevRandao attrs;
  hdr_Nonce := 0; hdr_BaseFee := 0 |}.
Definition agree_pool (attrs : PayloadAttributes) : list Data :=
  if at_NoTxPool attrs then [] else if at_Timestamp attrs =? 1004 then [[x02; x05]] else [].
Definition agree_payload (parent : Hash) (attrs : PayloadAttributes) : ExecutionPayload :=
  let h := agree_header parent attrs in
  mkExecutionPayload parent 0 0 0 0 (at_PrevRandao attrs) (wrap 64 (hdr_Number h)) 0 0
    (at_Timestamp attrs) [] 0 (@header_Hash ToyGeth h) (at_Transactions attrs ++ agree_pool attrs).

Definition AgreeEngine : Engine ToyWorld := {|
  eng_GetPayload := fun id w =>
    (match tw_building w with
     | Some (parent, attrs) => Ok (agree_payload parent attrs)
     | None => Err ENotFound
     end, w);
  eng_ForkchoiceUpdate := @eng_ForkchoiceUpdate _ ToyEngine;
  eng_NewPayload := @eng_NewPayload _ ToyEngine;
  eng_PayloadByHash := @eng_PayloadByHash _ ToyEngine;
  eng_PayloadByNumber := @eng_PayloadByNumber _ ToyEngine;
|}.

(** The batch of the second block, in one transaction to the inbox. *)
Definition agree_data : list byte :=
  match @EncodeBatches ToyRLP [mkBatchV1 11 1004 [[x02; x05]]] with Ok b => b | _ => [] end.
Definition agree_config : Config :=
  mkConfig toy_genesis 2 10 2 900 901 77 78 (zlen agree_data) 907 79.
Definition agree_l1 (h : Hash) : L1Info := mkL1Info h (h - 1) 0 (h - 90) (1001 + 4 * (h - 101)) 55 7 0.
Definition agree_txLists : list (list (@Transaction ToyGeth)) := [[(x02, agree_data)]].
Definition AgreeDownloader : @Downloader ToyGeth ToyWorld := @Build_Downloader ToyGeth ToyWorld
  (fun h w => (Ok (agree_l1 h), w))
  (fun h w => (Ok (agree_l1 h, [], []), w))
  (fun ids w => (Ok agree_txLists, w)).
Definition agree_o : L1BlockRef := mkL1BlockRef 101 11 100 1001.

Definition agree_create (head : L2BlockRef) (w : ToyWorld) :=
  @createNewBlock ToyKeccak ToyGeth ToyWorld AgreeEngine AgreeDownloader agree_config head
    zeroBlockID zeroBlockID agree_o w.
Definition agree_get (r : res (L2BlockRef * ExecutionPayload) * ToyWorld) : L2BlockRef * ExecutionPayload :=
  match r.1 with Ok a => a | _ => (zeroL2BlockRef, agree_payload 0 toy_attrs) end.
Definition agree_1 := Eval vm_compute in agree_get (agree_create toy_l2_genesis toy_world).
Definition agree_2 := Eval vm_compute in agree_get (agree_create agree_1.1 toy_world).
Definition agree_ps : list ExecutionPayload := [agree_1.2; agree_2.2].

(** The blocks, with the transactions decoded. *)
Definition agree_block (p : ExecutionPayload) : @Block ToyGeth :=
  @mkBlock ToyGeth (agree_header (pl_ParentHash p)
    (mkPayloadAttributes (pl_Timestamp p) (pl_PrevRandao p) 0 [] true))
    ((fun b => match b with t :: r => (t, r) | [] => (x00, []) end) <$> pl_Transactions p).
Definition agree_bls : list (@Block ToyGeth) := agree_block <$> agree_ps.

Lemma agree_engine_extends : @engine_extends ToyGeth ToyWorld AgreeEngine.
Proof.
  intros fc attrs w r w1 id p w2 E1 _ E2. cbn in E1. injection E1 as <- <-.
  cbn in E2. injection E2 as <- <-. cbn. split_and!; [done..|].
  exists (agree_pool attrs). unfold agree_pool. split_and!; [done| |by intros ->].
  repeat case_match; repeat constructor. by exists x02, [x05].
Qed.

Lemma agree_origin_data :
  @origin_data ToyGeth ToyWorld AgreeDownloader agree_o (agree_l1 101) [].
Proof.
  split; [by intros w i txs rs w' [= <- _ <- _]|by intros w i w' [= <- _]| |done..].
  unfold L1Info_ok, in_range; cbn; lia.
Qed.

Lemma agree_sequenced :
  @sequenced ToyKeccak ToyGeth ToyWorld AgreeEngine AgreeDownloader agree_config agree_o
    toy_l2_genesis agree_ps.
Proof.
  eapply (sequenced_cons _ _ _ zeroBlockID zeroBlockID toy_world agree_1.1);
    [vm_compute; reflexivity|].
  eapply (sequenced_cons _ _ _ zeroBlockID zeroBlockID toy_world agree_2.1);
    [vm_compute; reflexivity|constructor].
Qed.

Lemma agree_blocks :
  Forall2 (fun bl p => @BlockAsPayload ToyGeth bl = Ok p) agree_bls agree_ps.
Proof. repeat constructor. Qed.

Lemma agree_batches :
  concat agree_txLists ≫= @tx_batches ToyRLP ToyGeth agree_config = [mkBatchV1 11 1004 [[x02; x05]]].
Proof. vm_compute. reflexivity. Qed.

Lemma agree_published hi :
  @published ToyGeth ToyRLP agree_config 11 1002 hi agree_bls agree_txLists.
Proof.
  split.
  - intros txs tx ->%list_elem_of_singleton ->%list_elem_of_singleton. split; by vm_compute.
  - intros bl b Hbl Hb. rewrite agree_batches. apply list_elem_of_singleton.
    apply elem_of_cons in Hbl as [->|Hbl]; [vm_compute in Hb; discriminate|].
    apply list_elem_of_singleton in Hbl as ->. vm_compute in Hb. by injection Hb as <-.
  - intros b Hb _. rewrite agree_batches in Hb. apply list_elem_of_singleton in Hb as ->.
    exists (agree_block agree_2.2). split; [right; left|reflexivity].
Qed.

Lemma agree_length : zlen agree_ps = 2.
Proof. reflexivity. Qed.
Lemma agree_times : epoch_times agree_config 1000 1005 (zlen agree_ps).
Proof.
  rewrite agree_length. unfold agree_config. generalize (zlen agree_data). intros z.
  split; cbn [cfg_BlockTime cfg_Genesis gen_L2Time toy_genesis]; lia || reflexivity.
Qed.

Lemma agree_last_derived :
  @last_derived ToyGeth agree_config 1000 1005
    (epoch_maxTime agree_config (agree_l1 101) (l2_Time toy_l2_genesis)) agree_bls.
Proof.
  right; right. exists (agree_block agree_2.2), (mkBatchV1 11 1004 [[x02; x05]]).
  split_and!; reflexivity.
Qed.

Lemma sequencer_verifier_agree_witness :
  exists attrss, @derive_epoch ToyKeccak ToyGeth ToyRLP 5 agree_config 11 1000 (agree_l1 101) 1005 []
      agree_txLists = Ok attrss /\ length attrss = 2%nat /\ chained 200 attrss agree_ps.
Proof.
  edestruct (@sequencer_verifier_agree ToyKeccak ToyGeth ToyGethLaws ToyRLP ToyWorld AgreeEngine
    AgreeDownloader agree_config agree_o (agree_l1 101) [] [] [] toy_l2_genesis agree_ps agree_bls
    agree_txLists 1005 agree_engine_extends agree_origin_data eq_refl agree_sequenced)
    as (attrss & Ed & _ & Hch & Hall).
  - discriminate.
  - discriminate.
  - repeat constructor; discriminate.
  - exact agree_blocks.
  - exact agree_times.
  - apply agree_published.
  - instantiate (1 := 5%nat). cbn. lia.
  - lia.
  - pose proof (proj2 Hall agree_last_derived) as Hl. exists attrss. split_and!; [exact Ed|exact Hl|].
    rewrite Hl in Hch. exact Hch.
Defined.

(** The node that holds the two blocks, with the second as unsafe head. *)
Definition agree_world : ToyWorld :=
  mkToyWorld (rev agree_ps ++ tw_blocks toy_world) None [].
Definition agree_holds (w : ToyWorld) : Prop := tw_blocks w = tw_blocks agree_world.

Lemma agree_node_view :
  @node_view ToyGeth ToyWorld AgreeEngine AgreeDownloader agree_holds toy_l2_genesis agree_o
    (mkBlockID 102 12) [mkBlockID 101 11; mkBlockID 102 12] (agree_l1 101) (agree_l1 102) []
    agree_txLists agree_ps.
Proof.
  split.
  - exists (mkExecutionPayload 199 0 0 0 0 0 0 0 0 1000 [] 0 200 []). split; [|done].
    intros w Hw. unfold wp. cbn. rewrite Hw. split; [reflexivity|done].
  - exists []. by intros w Hw.
  - by intros w Hw.
  - by intros w Hw.
  - intros [|[|i]] p Hi; [injection Hi as <-|injection Hi as <-|done].
    all: split; [vm_compute; reflexivity|].
    all: intros w Hw; unfold wp; cbn; rewrite Hw; split; [vm_compute; reflexivity|done].
  - intros fc. eexists. by intros w Hw.
  - vm_compute. by split.
Qed.

Lemma insertEpoch_keeps_witness :
  exists safe' w', @insertEpoch ToyKeccak ToyGeth ToyRLP ToyWorld AgreeEngine AgreeDownloader 5
      agree_config agree_2.1 toy_l2_genesis zeroBlockID [mkBlockID 101 11; mkBlockID 102 12] agree_world
    = (Ok (agree_2.1, safe', false), w') /\ l2_Number safe' = 2.
Proof.
  edestruct (@insertEpoch_keeps ToyKeccak ToyGeth ToyGethLaws ToyRLP ToyWorld AgreeEngine
    AgreeDownloader agree_config agree_o (agree_l1 101) [] [] [] toy_l2_genesis agree_ps agree_bls
    agree_txLists 1005 agree_engine_extends agree_origin_data eq_refl agree_sequenced)
    with (fuel := 5%nat) (l2Head := agree_2.1) (l2Finalized := zeroBlockID) (in1 := mkBlockID 102 12)
      (rest := @nil BlockID) (nextInfo := agree_l1 102) (I := agree_holds) (w := agree_world)
    as (safe' & p & w' & E & _ & Hl & Hr).
  - discriminate.
  - discriminate.
  - repeat constructor; discriminate.
  - exact agree_blocks.
  - exact agree_times.
  - apply agree_published.
  - cbn. lia.
  - lia.
  - reflexivity.
  - reflexivity.
  - reflexivity.
  - exact agree_node_view.
  - exact agree_last_derived.
  - discriminate.
  - intros [|[|j]] q Hj Hlt; cbn in Hlt; [|lia..]. injection Hj as <-. discriminate.
  - reflexivity.
  - exists safe', w'. split; [exact E|]. injection Hl as <-. vm_compute in Hr. by injection Hr as <-.
Defined.

(** Without batches the epoch of time 1001 ends at 1002, and the first block of the next
    epoch, at 1004, is older than its L1 origin, of time 1005. *)
Definition derived_times (l2Time : Z) (l1Info : L1Info) (next : Z) : list Z :=
  match @derive_epoch ToyKeccak ToyGeth ToyRLP 5 agree_config (li_NumberU64 l1Info) l2Time l1Info next
          [] [] with
  | Ok attrss => at_Timestamp <$> attrss
  | _ => []
  end.
Example derived_before_origin :
  derived_times 1000 (agree_l1 101) 1005 = [1002] /\
  head (derived_times 1002 (agree_l1 102) 1009) = Some 1004 /\ 1004 < li_Time (agree_l1 102).
Proof. by vm_compute. Qed.
