(* ===== verification/L1Source.v ===== *)
(** * The L1 source

    op-node/l1/types.go, receipts.go and source.go: headers and blocks as the L1 RPC
    returns them, checked against their hash when the RPC is not trusted, the caches by
    block hash, and the requests the driver makes. *)

From S2P Require Import Prelude Types Geth L1Info Deposits Sync Step DriverState.

(** ** types.go *)
Record HeaderInfo := mkHeaderInfo {
  hi_hash : Hash;
  hi_parentHash : Hash;
  hi_root : Hash;
  hi_number : uint64;
  hi_time : uint64;
  hi_mixDigest : Hash;
  hi_baseFee : bigInt;
  hi_txHash : Hash;
  hi_receiptHash : Hash;
}.
Definition HeaderInfo_ID (info : HeaderInfo) : BlockID := mkBlockID (hi_hash info) (hi_number info).
Definition HeaderInfo_BlockRef (info : HeaderInfo) : L1BlockRef :=
  mkL1BlockRef (hi_hash info) (hi_number info) (hi_parentHash info) (hi_time info).
(** A [*HeaderInfo] as the interface [derive.L1Info]. *)
Definition HeaderInfo_L1Info (info : HeaderInfo) : L1Info :=
  mkL1Info (hi_hash info) (hi_parentHash info) (hi_root info) (hi_number info) (hi_time info)
    (hi_mixDigest info) (hi_baseFee info) (hi_receiptHash info).

(** The hash the RPC reports, and the header it belongs to. *)
Record rpcHeader := mkRpcHeader { rh_cache_Hash : Hash; rh_header : Header }.
Record rpcBlock `{GethTypes} := mkRpcBlock {
  rb_header : rpcHeader;
  rb_extra_Transactions : list Transaction;
}.

Section Types.
Context `{GethTypes}.

(** [rpcHeader.Info] *)
Definition rpcHeader_Info (header : rpcHeader) (trustCache : bool) : res HeaderInfo :=
  let hdr := rh_header header in
  let info := mkHeaderInfo (rh_cache_Hash header) (hdr_ParentHash hdr) (hdr_Root hdr)
    (wrap 64 (hdr_Number hdr)) (hdr_Time hdr) (hdr_MixDigest hdr) (hdr_BaseFee hdr)
    (hdr_TxHash hdr) (hdr_ReceiptHash hdr) in
  _ ← (if negb trustCache then
         fail_if (negb (header_Hash hdr =? hi_hash info)) (EMsg "failed to verify block hash")
       else mret tt);
  Ok info.

(** [rpcBlock.Info] *)
Definition rpcBlock_Info (block : rpcBlock) (trustCache : bool) : res (HeaderInfo * list Transaction) :=
  info ← map_err (wrapv "failed to verify block from RPC: ") (rpcHeader_Info (rb_header block) trustCache);
  _ ← (if negb trustCache then
         fail_if (negb (hi_txHash info =? DeriveSha_txs (rb_extra_Transactions block)))
           (EMsg "failed to verify transactions list")
       else mret tt);
  Ok (info, rb_extra_Transactions block).
End Types.

(** ** What the source uses of other code *)

(** An element of a batch request after the call. *)
Record BatchElem (A : Type) := mkBatchElem { be_Result : A; be_Error : option error }.
Arguments mkBatchElem {A}.
Arguments be_Result {A}.
Arguments be_Error {A}.

(** The method and argument of a block request. *)
Inductive block_id := ByHash (h : Hash) | ByNumber (n : uint64) | Latest.

(** The RPC client, and [batchCall] for the three kinds of requests; the results have the
    order of the requests.  A header or receipt may be [null]. *)
Class RPCClient `{GethTypes} (W : Type) := {
  CallContext_header : block_id -> M W (option rpcHeader);
  CallContext_block : block_id -> M W (option rpcBlock);
  batchCall_blocks : list Hash -> M W (list (BatchElem rpcBlock));
  batchCall_headers : list uint64 -> M W (list (BatchElem (option rpcHeader)));
  batchCall_receipts : list Hash -> M W (list (option Receipt));
}.

(** An LRU cache by block hash.  [lru_New] returns no cache (nil, with an error that the
    code drops) for a size that is not positive. *)
Class LRU := {
  Cache : Type -> Type;
  lru_New : forall V, Z -> option (Cache V);
  lru_Get : forall {V}, Hash -> Cache V -> option V * Cache V;
  lru_Add : forall {V}, Hash -> V -> Cache V -> Cache V;
}.
Definition cached `{LRU} {V} (c : Cache V) (h : Hash) (v : V) : Prop := (lru_Get h c).1 = Some v.
(** It may evict at any time; it never makes up an entry. *)
Class LRULaws `{LRU} := {
  lru_New_size : forall V n, is_Some (lru_New V n) <-> 0 < n;
  lru_New_empty : forall V n c, lru_New V n = Some c -> forall h v, ~ cached c h v;
  lru_Get_keeps : forall V k (c : Cache V) h v, cached (lru_Get k c).2 h v -> cached c h v;
  lru_Add_cached : forall V k v' (c : Cache V) h v, cached (lru_Add k v' c) h v ->
    (h = k /\ v = v') \/ cached c h v;
}.

(** ** source.go *)
Record SourceConfig := mkSourceConfig {
  sc_MaxParallelBatching : Z;
  sc_MaxBatchRetry : Z;
  sc_MaxRequestsPerBatch : Z;
  sc_MaxConcurrentRequests : Z;
  sc_ReceiptsCacheSize : Z;
  sc_TransactionsCacheSize : Z;
  sc_HeadersCacheSize : Z;
  sc_TrustRPC : bool;
}.

Definition SourceConfig_Check (c : SourceConfig) : res unit :=
  _ ← fail_if (sc_ReceiptsCacheSize c <? 0) (EMsg "invalid receipts cache size");
  _ ← fail_if (sc_TransactionsCacheSize c <? 0) (EMsg "invalid transactions cache size");
  _ ← fail_if (sc_HeadersCacheSize c <? 0) (EMsg "invalid headers cache size");
  _ ← fail_if (sc_MaxConcurrentRequests c <? 1) (EMsg "expected at least 1 concurrent request");
  _ ← fail_if (sc_MaxParallelBatching c <? 1)
        (EMsg "expected at least 1 batch request to run at a time");
  _ ← fail_if ((sc_MaxBatchRetry c <? 0) || (20 <? sc_MaxBatchRetry c))
        (EMsg "number of max batch retries is not reasonable");
  fail_if (sc_MaxRequestsPerBatch c <? 1) (EMsg "expected at least 1 request per batch").

Definition L1_DefaultConfig (config : Config) (trustRPC : bool) : SourceConfig := {|
  sc_ReceiptsCacheSize := 20;
  sc_TransactionsCacheSize := to_int64 (cfg_SeqWindowSize config *64 4);
  sc_HeadersCacheSize := to_int64 (cfg_SeqWindowSize config *64 4);
  sc_MaxParallelBatching := 8;
  sc_MaxBatchRetry := 3;
  sc_MaxRequestsPerBatch := 20;
  sc_MaxConcurrentRequests := 10;
  sc_TrustRPC := trustRPC;
|}.

Section Source.
Context `{GethTypes} `{LRU} {W : Type} `{!RPCClient W}.

(** [Source]: a nil cache is [None]. *)
Record Source := mkSource {
  so_trustRPC : bool;
  so_receiptsCache : option (Cache (list Receipt));
  so_transactionsCache : option (Cache (list Transaction));
  so_headersCache : option (Cache HeaderInfo);
}.

(** [NewSource]: the errors of [lru.New] are dropped. *)
Definition NewSource (config : SourceConfig) : res Source :=
  _ ← map_err (wrapw "bad config, cannot create L1 source: ") (SourceConfig_Check config);
  Ok (mkSource (sc_TrustRPC config) (lru_New _ (sc_ReceiptsCacheSize config))
        (lru_New _ (sc_TransactionsCacheSize config)) (lru_New _ (sc_HeadersCacheSize config))).

Definition set_receiptsCache c (s : Source) :=
  mkSource (so_trustRPC s) c (so_transactionsCache s) (so_headersCache s).
Definition set_transactionsCache c (s : Source) :=
  mkSource (so_trustRPC s) (so_receiptsCache s) c (so_headersCache s).
Definition set_headersCache c (s : Source) :=
  mkSource (so_trustRPC s) (so_receiptsCache s) (so_transactionsCache s) c.

(** [cache.Get] and [cache.Add] on a field; a nil cache panics. *)
Definition cache_Get {V} (field : Source -> option (Cache V)) (set : option (Cache V) -> Source -> Source)
    (h : Hash) : M (Source * W) (option V) :=
  s ← get;
  match field s with
  | None => lift Panic
  | Some c =>
      let '(v, c) := lru_Get h c in
      _ ← modify (set (Some c));
      mret v
  end.
Definition cache_Add {V} (field : Source -> option (Cache V)) (set : option (Cache V) -> Source -> Source)
    (h : Hash) (v : V) : M (Source * W) unit :=
  s ← get;
  match field s with
  | None => lift Panic
  | Some c => modify (set (Some (lru_Add h v c)))
  end.

Definition headers_Get := cache_Get so_headersCache set_headersCache.
Definition headers_Add := cache_Add so_headersCache set_headersCache.
Definition transactions_Get := cache_Get so_transactionsCache set_transactionsCache.
Definition transactions_Add := cache_Add so_transactionsCache set_transactionsCache.
Definition receipts_Add := cache_Add so_receiptsCache set_receiptsCache.

Definition headerCall (id : block_id) : M (Source * W) HeaderInfo :=
  s ← get;
  header ← call (CallContext_header id);
  match header with
  | None => throw ENotFound
  | Some header =>
      info ← lift (rpcHeader_Info header (so_trustRPC s));
      _ ← headers_Add (hi_hash info) info;
      mret info
  end.

Definition blockCall (id : block_id) : M (Source * W) (HeaderInfo * list Transaction) :=
  s ← get;
  block ← call (CallContext_block id);
  match block with
  | None => throw ENotFound
  | Some block =>
      '(info, txs) ← lift (rpcBlock_Info block (so_trustRPC s));
      _ ← headers_Add (hi_hash info) info;
      _ ← transactions_Add (hi_hash info) txs;
      mret (info, txs)
  end.

Definition InfoByHash (hash : Hash) : M (Source * W) HeaderInfo :=
  header ← headers_Get hash;
  match header with
  | Some header => mret header
  | None => headerCall (ByHash hash)
  end.
Definition InfoByNumber (number : uint64) : M (Source * W) HeaderInfo := headerCall (ByNumber number).
Definition InfoHead : M (Source * W) HeaderInfo := headerCall Latest.

Definition InfoAndTxsByHash (hash : Hash) : M (Source * W) (HeaderInfo * list Transaction) :=
  header ← headers_Get hash;
  match header with
  | Some header =>
      txs ← transactions_Get hash;
      match txs with
      | Some txs => mret (header, txs)
      | None => blockCall (ByHash hash)
      end
  | None => blockCall (ByHash hash)
  end.
Definition InfoAndTxsByNumber (number : uint64) : M (Source * W) (HeaderInfo * list Transaction) :=
  blockCall (ByNumber number).
Definition InfoAndTxsHead : M (Source * W) (HeaderInfo * list Transaction) := blockCall Latest.

(** *** receipts.go: the checks of the logs of receipt [i] *)
Fixpoint fetchReceipts_logs (block : BlockID) (i : uint64) (txHash : Hash) (logs : list Log)
    (logIndex : uint64) : res uint64 :=
  match logs with
  | [] => Ok logIndex
  | log :: logs =>
      _ ← fail_if (negb (log_Index log =? logIndex)) (EMsg "log has unexpected log index");
      _ ← fail_if (negb (log_TxIndex log =? i)) (EMsg "log has unexpected tx index");
      _ ← fail_if (negb (log_BlockHash log =? id_Hash block)) (EMsg "log has unexpected block hash");
      _ ← fail_if (negb (log_BlockNumber log =? id_Number block))
            (EMsg "log has unexpected block number");
      _ ← fail_if (negb (log_TxHash log =? txHash)) (EMsg "log has unexpected tx hash");
      _ ← fail_if (log_Removed log) (EMsg "canonical log must never be removed due to reorg");
      fetchReceipts_logs block i txHash logs (logIndex +64 1)
  end.
(** ... and of the receipts; [txs] are the transactions from index [i] on. *)
Fixpoint fetchReceipts_loop (block : BlockID) (i : uint64) (txs : list Transaction)
    (receipts : list (option Receipt)) (logIndex : uint64) : res (list Receipt) :=
  match receipts with
  | [] => Ok []
  | None :: _ => Err (EMsg "receipt of tx returns nil on retrieval")
  | Some r :: receipts =>
      _ ← fail_if (negb (rc_TransactionIndex r =? i)) (EMsg "receipt has unexpected tx index");
      blockNumber ← (match rc_BlockNumber r with None => Panic | Some n => Ok (wrap 64 n) end);
      _ ← fail_if (negb (blockNumber =? id_Number block)) (EMsg "receipt has unexpected block number");
      _ ← fail_if (negb (rc_BlockHash r =? id_Hash block)) (EMsg "receipt has unexpected block hash");
      match txs with
      | [] => Panic
      | tx :: txs =>
          logIndex ← fetchReceipts_logs block i (tx_Hash tx) (rc_Logs r) logIndex;
          rs ← fetchReceipts_loop block (i +64 1) txs receipts logIndex;
          Ok (r :: rs)
      end
  end.

Definition fetchReceipts (block : BlockID) (receiptHash : Hash) (txs : list Transaction)
    : M W (list Receipt) :=
  match txs with
  | [] =>
      if negb (receiptHash =? EmptyRootHash)
      then throw (EMsg "no transactions, but got non-empty receipt trie root") else mret []
  | _ =>
      receipts ← M_err (wrapv "failed to fetch batch of receipts: ")
                   (batchCall_receipts (tx_Hash <$> txs));
      receipts ← lift (fetchReceipts_loop block 0 txs receipts 0);
      if negb (receiptHash =? DeriveSha_receipts receipts)
      then throw (EMsg "failed to fetch list of receipts: unexpected receipt root")
      else mret receipts
  end.

Definition Fetch (blockHash : Hash) : M (Source * W) (HeaderInfo * list Transaction * list Receipt) :=
  if blockHash =? 0 then throw ENotFound
  else
    '(info, txs) ← blockCall (ByHash blockHash);
    receipts ← call (fetchReceipts (HeaderInfo_ID info) (hi_receiptHash info) txs);
    _ ← receipts_Add (hi_hash info) receipts;
    mret (info, txs, receipts).

(** *** [FetchAllTransactions]: what the cache has, and the indices to request *)
Fixpoint FetchAllTransactions_cached (window : list BlockID) (i : nat)
    : M (Source * W) (list (list Transaction) * list (nat * Hash)) :=
  match window with
  | [] => mret ([], [])
  | b :: window =>
      txs ← transactions_Get (id_Hash b);
      '(lists, requests) ← FetchAllTransactions_cached window (S i);
      match txs with
      | Some txs => mret (txs :: lists, requests)
      | None => mret ([] :: lists, (i, id_Hash b) :: requests)
      end
  end.
(** The first loop over the results, which caches and stores what was retrieved. *)
Fixpoint FetchAllTransactions_store (indices : list nat) (elems : list (BatchElem rpcBlock))
    (lists : list (list Transaction)) : M (Source * W) (list (list Transaction)) :=
  match elems, indices with
  | [], _ => mret lists
  | _ :: _, [] => lift Panic
  | elem :: elems, i :: indices =>
      lists ←
        (match be_Error elem with
         | None =>
             s ← get;
             '(info, txs) ← M_err (wrapw "bad block data for block: ")
                              (lift (rpcBlock_Info (be_Result elem) (so_trustRPC s)));
             _ ← headers_Add (hi_hash info) info;
             _ ← transactions_Add (hi_hash info) txs;
             mret (<[i := txs]> lists)
         | Some _ => mret lists
         end);
      FetchAllTransactions_store indices elems lists
  end.
Fixpoint first_Error {A} (elems : list (BatchElem A)) : option error :=
  match elems with
  | [] => None
  | elem :: elems => match be_Error elem with Some e => Some e | None => first_Error elems end
  end.

Definition FetchAllTransactions (window : list BlockID) : M (Source * W) (list (list Transaction)) :=
  '(lists, requests) ← FetchAllTransactions_cached window 0;
  elems ← (if bool_decide (requests = []) then mret [] else call (batchCall_blocks requests.*2));
  lists ← FetchAllTransactions_store requests.*1 elems lists;
  match first_Error elems with
  | Some e => throw (wrapw "failed to retrieve transactions of block: " e)
  | None => mret lists
  end.

(** *** The chain of the driver *)
Definition L1HeadBlockRef : M (Source * W) L1BlockRef :=
  head ← M_err (wrapw "failed to fetch head header: ") InfoHead;
  mret (HeaderInfo_BlockRef head).
Definition L1BlockRefByNumber (l1Num : uint64) : M (Source * W) L1BlockRef :=
  head ← M_err (wrapw "failed to fetch header by num: ") (InfoByNumber l1Num);
  mret (HeaderInfo_BlockRef head).
Definition L1BlockRefByHash (hash : Hash) : M (Source * W) L1BlockRef :=
  block ← M_err (wrapw "failed to fetch header by hash: ") (InfoByHash hash);
  mret (HeaderInfo_BlockRef block).

Fixpoint L1Range_loop (begin : BlockID) (i : Z) (elems : list (BatchElem (option rpcHeader)))
    (out : list BlockID) : M (Source * W) (list BlockID) :=
  match elems with
  | [] => mret out
  | elem :: elems =>
      match be_Error elem with
      | None =>
          match be_Result elem with
          | None => mret out (* no more headers from here *)
          | Some result =>
              s ← get;
              info ← M_err (wrapw "bad header data for block: ")
                       (lift (rpcHeader_Info result (so_trustRPC s)));
              _ ← headers_Add (hi_hash info) info;
              let out := out ++ [HeaderInfo_ID info] in
              prev ← (if 0 <? i then lift (index out (i - 1)) else mret begin);
              if negb (id_Hash prev =? hi_parentHash info)
              then throw (EMsg "inconsistent results from L1 chain range request")
              else L1Range_loop begin (i + 1) elems out
          end
      | Some e =>
          if errors_is ENotFound e then mret out
          else throw (wrapw "failed to retrieve block: " e)
      end
  end.
(** [L1Range]: block numbers [begin.Number + 1 + i] for [i < max]. *)
Definition L1Range (begin : BlockID) (max : uint64) : M (Source * W) (list BlockID) :=
  let numbers := (fun i => id_Number begin +64 1 +64 Z.of_nat i) <$> seq 0 (Z.to_nat max) in
  elems ← call (batchCall_headers numbers);
  L1Range_loop begin 0 elems [].

(** [*Source] is the L1 chain and the downloader of the driver. *)
Definition Source_DriverL1 : DriverL1 (Source * W) := {|
  dl1_sync := {| Sync.L1HeadBlockRef := L1HeadBlockRef; Sync.L1BlockRefByNumber := L1BlockRefByNumber |};
  DriverState.L1BlockRefByHash := L1BlockRefByHash;
  DriverState.L1Range := L1Range;
|}.
Definition Source_Downloader : Downloader (Source * W) := {|
  dl_InfoByHash := fun h => info ← InfoByHash h; mret (HeaderInfo_L1Info info);
  dl_Fetch := fun h =>
    '(info, txs, receipts) ← Fetch h; mret (HeaderInfo_L1Info info, txs, receipts);
  dl_FetchAllTransactions := FetchAllTransactions;
|}.
End Source.

(** ** Nothing false gets into the caches *)
Section Sound.
Context `{GethTypes} `{LRULaws} {W : Type} `{!RPCClient W}.

Definition info_of (hd : Header) : HeaderInfo :=
  mkHeaderInfo (header_Hash hd) (hdr_ParentHash hd) (hdr_Root hd) (wrap 64 (hdr_Number hd))
    (hdr_Time hd) (hdr_MixDigest hd) (hdr_BaseFee hd) (hdr_TxHash hd) (hdr_ReceiptHash hd).
(** What the header with hash [h] commits to. *)
Definition real_info (h : Hash) (info : HeaderInfo) : Prop :=
  exists hd, header_Hash hd = h /\ info = info_of hd.
Definition real_txs (h : Hash) (txs : list Transaction) : Prop :=
  exists hd, header_Hash hd = h /\ DeriveSha_txs txs = hdr_TxHash hd.
Definition real_receipts (h : Hash) (receipts : list Receipt) : Prop :=
  exists hd, header_Hash hd = h /\
    (DeriveSha_receipts receipts = hdr_ReceiptHash hd \/
     (receipts = [] /\ hdr_ReceiptHash hd = EmptyRootHash)).

Definition cache_sound {V} (R : Hash -> V -> Prop) (oc : option (Cache V)) : Prop :=
  forall c h v, oc = Some c -> cached c h v -> R h v.
(** A source that does not trust the RPC and has nothing false in its caches. *)
Definition caches_sound (s : Source) : Prop :=
  so_trustRPC s = false /\ cache_sound real_receipts (so_receiptsCache s) /\
  cache_sound real_txs (so_transactionsCache s) /\ cache_sound real_info (so_headersCache s).
Definition sound (sw : Source * W) : Prop := caches_sound sw.1.

Lemma cache_Get_keeps {V} (field : Source -> option (Cache V)) set R h :
  (forall s, caches_sound s -> cache_sound R (field s)) ->
  (forall s oc, caches_sound s -> cache_sound R oc -> caches_sound (set oc s)) ->
  keeps sound (cache_Get (W:=W) field set h) (fun o => forall v, o = Some v -> R h v).
Proof.
  intros Hf Hset [s w] Hs. unfold cache_Get, mbind, M_bind, get. cbn.
  destruct (field s) as [c|] eqn:Ec; [|split; done].
  destruct (lru_Get h c) as [o c'] eqn:Eg. cbn. unfold mret, M_ret. cbn. split.
  - apply Hset; [done|]. intros c2 k v [= <-] Hc. apply (Hf s Hs c); [done|].
    apply (lru_Get_keeps _ h). by rewrite Eg.
  - intros a [= <-] v ->. apply (Hf s Hs c); [done|]. unfold cached. by rewrite Eg.
Qed.
Lemma cache_Add_keeps {V} (field : Source -> option (Cache V)) set (R : Hash -> V -> Prop) h v :
  (forall s, caches_sound s -> cache_sound R (field s)) ->
  (forall s oc, caches_sound s -> cache_sound R oc -> caches_sound (set oc s)) ->
  R h v -> keeps sound (cache_Add (W:=W) field set h v) (fun _ => True).
Proof.
  intros Hf Hset HR [s w] Hs. unfold cache_Add, mbind, M_bind, get. cbn.
  destruct (field s) as [c|] eqn:Ec; [|split; done]. cbn. split; [|done].
  apply Hset; [done|]. intros c2 k v' [= <-] [[-> ->]|Hc]%lru_Add_cached; [done|].
  by apply (Hf s Hs c).
Qed.

Ltac fields := unfold caches_sound; intros; destruct_and?; simplify_eq; auto.
Lemma headers_Get_keeps h :
  keeps sound (headers_Get (W:=W) h) (fun o => forall i, o = Some i -> real_info h i).
Proof. apply cache_Get_keeps; fields. Qed.
Lemma headers_Add_keeps h i : real_info h i -> keeps sound (headers_Add (W:=W) h i) (fun _ => True).
Proof. intros Hr. eapply cache_Add_keeps; [| |exact Hr]; fields. Qed.
Lemma transactions_Get_keeps h :
  keeps sound (transactions_Get (W:=W) h) (fun o => forall t, o = Some t -> real_txs h t).
Proof. apply cache_Get_keeps; fields. Qed.
Lemma transactions_Add_keeps h t : real_txs h t -> keeps sound (transactions_Add (W:=W) h t) (fun _ => True).
Proof. intros Hr. eapply cache_Add_keeps; [| |exact Hr]; fields. Qed.
Lemma receipts_Add_keeps h r : real_receipts h r -> keeps sound (receipts_Add (W:=W) h r) (fun _ => True).
Proof. intros Hr. eapply cache_Add_keeps; [| |exact Hr]; fields. Qed.

Lemma get_keeps : keeps sound (get (S:=Source) (W:=W)) (fun s => so_trustRPC s = false).
Proof. intros [s w] Hs. split; [done|]. intros a [= <-]. apply Hs. Qed.
Lemma call_keeps {A} (c : M W A) : keeps sound (call c) (fun _ => True).
Proof. by apply keeps_call. Qed.

Lemma rpcHeader_Info_real header info :
  rpcHeader_Info header false = Ok info -> info = info_of (rh_header header).
Proof.
  unfold rpcHeader_Info. cbn [negb]. intros E. apply res_bind_ok in E as (u & Eu & E).
  apply fail_if_ok in Eu. injection E as <-. cbn in Eu. unfold info_of. f_equal.
  apply negb_false_iff, Z.eqb_eq in Eu. done.
Qed.
Lemma info_of_real hd : real_info (hi_hash (info_of hd)) (info_of hd).
Proof. by exists hd. Qed.
Lemma rpcBlock_Info_real block info txs :
  rpcBlock_Info block false = Ok (info, txs) ->
  real_info (hi_hash info) info /\ real_txs (hi_hash info) txs.
Proof.
  unfold rpcBlock_Info. cbn [negb]. intros E. apply res_bind_ok in E as (i & Ei & E).
  apply map_err_ok, rpcHeader_Info_real in Ei as ->. apply res_bind_ok in E as (u & Eu & E).
  injection E as <- <-. apply fail_if_ok, negb_false_iff, Z.eqb_eq in Eu.
  split; [apply info_of_real|]. by eexists.
Qed.

Lemma rpcHeader_Info_hash header t info :
  rpcHeader_Info header t = Ok info -> hi_hash info = rh_cache_Hash header.
Proof. unfold rpcHeader_Info. intros E. apply res_bind_ok in E as (u & _ & E). by injection E as <-. Qed.
Lemma rpcBlock_Info_hash block t info txs :
  rpcBlock_Info block t = Ok (info, txs) -> hi_hash info = rh_cache_Hash (rb_header block).
Proof.
  unfold rpcBlock_Info. intros E. apply res_bind_ok in E as (i & Ei & E).
  apply map_err_ok, rpcHeader_Info_hash in Ei. apply res_bind_ok in E as (u & _ & E). by injection E as <- _.
Qed.

Definition real_block (b : HeaderInfo * list Transaction) : Prop :=
  real_info (hi_hash b.1) b.1 /\ real_txs (hi_hash b.1) b.2.

Lemma NewSource_sound config s :
  NewSource config = Ok s -> sc_TrustRPC config = false -> caches_sound s.
Proof.
  intros E Ht. unfold NewSource in E. apply res_bind_ok in E as (u & _ & E). injection E as <-.
  split; [done|]. split_and!; intros c h v Ec Hc; cbn in Ec; by apply (lru_New_empty _ _ _ Ec) in Hc.
Qed.

(** *** Requests by hash *)
Section Answers.
(** [answer h h']: asked for the block with hash [h], the RPC may answer with one that has
    the hash [h'].  The code does not restrict it. *)
Context (answer : Hash -> Hash -> Prop).
Record rpc_answers : Prop := {
  ans_header h (w : W) header w' : CallContext_header (ByHash h) w = (Ok (Some header), w') ->
    answer h (rh_cache_Hash header);
  ans_block h (w : W) block w' : CallContext_block (ByHash h) w = (Ok (Some block), w') ->
    answer h (rh_cache_Hash (rb_header block));
  ans_blocks hs (w : W) elems w' : batchCall_blocks hs w = (Ok elems, w') ->
    Forall2 (fun h elem => be_Error elem = None ->
      answer h (rh_cache_Hash (rb_header (be_Result elem)))) hs elems;
}.
Context (answer_refl : forall h, answer h h) (Hrpc : rpc_answers).

Lemma call_answer {A} (c : M W A) (Q : A -> Prop) :
  (forall w a w', c w = (Ok a, w') -> Q a) -> keeps sound (call (S:=Source) c) Q.
Proof.
  intros Hc [s w] Hs. unfold call. cbn. destruct (c w) as [r w'] eqn:E. split; [done|].
  cbn. intros a ->. by eapply Hc.
Qed.

Lemma headerCall_keeps (Q : Hash -> Prop) id :
  (forall (w : W) header w', CallContext_header id w = (Ok (Some header), w') -> Q (rh_cache_Hash header)) ->
  keeps sound (headerCall (W:=W) id) (fun info => Q (hi_hash info) /\ real_info (hi_hash info) info).
Proof.
  intros HQ. eapply keeps_bind; [apply get_keeps|]. intros s Hs.
  eapply (keeps_bind _ _ (fun o => forall header, o = Some header -> Q (rh_cache_Hash header))).
  { apply call_answer. intros w a w' E header ->. by eapply HQ. }
  intros [header|] Hq; [|apply keeps_throw]. rewrite Hs.
  eapply (keeps_bind _ _ (fun info => Q (hi_hash info) /\ info = info_of (rh_header header))).
  { apply keeps_lift. intros info E. split; [|by apply rpcHeader_Info_real].
    rewrite (rpcHeader_Info_hash _ _ _ E). by apply Hq. }
  intros info [Hi ->]. eapply keeps_bind; [apply headers_Add_keeps, info_of_real|]. intros _ _.
  apply keeps_ret. split; [done|apply info_of_real].
Qed.
Lemma blockCall_keeps (Q : Hash -> Prop) id :
  (forall (w : W) block w', CallContext_block id w = (Ok (Some block), w') ->
     Q (rh_cache_Hash (rb_header block))) ->
  keeps sound (blockCall (W:=W) id) (fun b => Q (hi_hash b.1) /\ real_block b).
Proof.
  intros HQ. eapply keeps_bind; [apply get_keeps|]. intros s Hs.
  eapply (keeps_bind _ _ (fun o => forall block, o = Some block -> Q (rh_cache_Hash (rb_header block)))).
  { apply call_answer. intros w a w' E block ->. by eapply HQ. }
  intros [block|] Hq; [|apply keeps_throw]. rewrite Hs.
  eapply (keeps_bind _ _ (fun b => Q (hi_hash b.1) /\ real_block b)).
  { apply keeps_lift. intros [info txs] E. split; [|by eapply rpcBlock_Info_real].
    cbn. rewrite (rpcBlock_Info_hash _ _ _ _ E). by apply Hq. }
  intros [info txs] (Hi & Hr & Ht).
  eapply keeps_bind; [by apply headers_Add_keeps|]. intros _ _.
  eapply keeps_bind; [by apply transactions_Add_keeps|]. intros _ _. by apply keeps_ret.
Qed.

Definition answers_info (h : Hash) (info : HeaderInfo) : Prop :=
  answer h (hi_hash info) /\ real_info (hi_hash info) info.
Definition answers_block (h : Hash) (b : HeaderInfo * list Transaction) : Prop :=
  answer h (hi_hash b.1) /\ real_block b.
Definition answers_txs (h : Hash) (txs : list Transaction) : Prop :=
  exists h', answer h h' /\ real_txs h' txs.

Lemma InfoByHash_keeps h : keeps sound (InfoByHash (W:=W) h) (answers_info h).
Proof.
  eapply keeps_bind; [apply headers_Get_keeps|].
  intros [i|] Hi; [|apply headerCall_keeps; by apply Hrpc].
  apply keeps_ret. destruct (Hi i eq_refl) as (hd & <- & ->). split; [apply answer_refl|apply info_of_real].
Qed.
Lemma InfoAndTxsByHash_keeps h : keeps sound (InfoAndTxsByHash (W:=W) h) (answers_block h).
Proof.
  assert (Hb : keeps sound (blockCall (W:=W) (ByHash h)) (answers_block h))
    by (apply blockCall_keeps; by apply Hrpc).
  eapply keeps_bind; [apply headers_Get_keeps|]. intros [i|] Hi; [|done].
  eapply keeps_bind; [apply transactions_Get_keeps|]. intros [t|] Ht; [|done].
  apply keeps_ret. destruct (Hi i eq_refl) as (hd & <- & ->). split; [apply answer_refl|].
  split; [apply info_of_real|by apply Ht].
Qed.

Lemma fetchReceipts_root block root txs (w : W) receipts w' :
  fetchReceipts block root txs w = (Ok receipts, w') ->
  DeriveSha_receipts receipts = root \/ (receipts = [] /\ root = EmptyRootHash).
Proof.
  unfold fetchReceipts. destruct txs as [|tx txs].
  - destruct (Z.eqb_spec root EmptyRootHash); cbn; [|done]. intros [= <- <-]. auto.
  - intros E. apply M_bind_ok in E as (l & w1 & _ & E). apply M_bind_ok in E as (rs & w2 & _ & E).
    destruct (Z.eqb_spec root (DeriveSha_receipts rs)); cbn in E; [|done].
    injection E as <- <-. auto.
Qed.
Definition answers_fetch (h : Hash) (f : HeaderInfo * list Transaction * list Receipt) : Prop :=
  answers_block h f.1 /\ real_receipts (hi_hash f.1.1) f.2.
Lemma Fetch_keeps h : keeps sound (Fetch (W:=W) h) (answers_fetch h).
Proof.
  unfold Fetch. destruct (h =? 0); [apply keeps_throw|].
  eapply (keeps_bind _ _ (answers_block h)); [apply blockCall_keeps; by apply Hrpc|].
  intros [info txs] Hb. eapply (keeps_bind _ _ (real_receipts (hi_hash info))).
  { apply call_answer. intros w a w' E. apply fetchReceipts_root in E.
    destruct Hb as (_ & (hd & Hh & Hi) & _). cbn in Hi. subst info. exists hd. by split. }
  intros receipts Hr. eapply keeps_bind; [by apply receipts_Add_keeps|]. intros _ _.
  by apply keeps_ret.
Qed.

(** The lists of the window: what the cache had, or empty where it had nothing and the
    block is requested. *)
Lemma FetchAllTransactions_cached_keeps window i :
  keeps sound (FetchAllTransactions_cached (W:=W) window i) (fun '(lists, requests) =>
    length lists = length window /\
    (forall k txs b, lists !! k = Some txs -> window !! k = Some b ->
       answers_txs (id_Hash b) txs \/ (i + k)%nat ∈ requests.*1) /\
    (forall j h, (j, h) ∈ requests -> exists k b, j = (i + k)%nat /\ window !! k = Some b /\ h = id_Hash b)).
Proof.
  revert i. induction window as [|b window IH]; intros i; cbn [FetchAllTransactions_cached].
  { apply keeps_ret. split; [done|]. split; [by intros ? ? ?|]. intros j h Hj.
    by apply elem_of_nil in Hj. }
  eapply keeps_bind; [apply transactions_Get_keeps|]. intros o Ho.
  eapply keeps_bind; [apply IH|]. intros [lists requests] (Hlen & Hl & Hr).
  assert (Hr' : forall j h, (j, h) ∈ requests ->
    exists k b', j = (i + k)%nat /\ (b :: window) !! k = Some b' /\ h = id_Hash b').
  { intros j h (k & b' & -> & Hk & ->)%Hr. exists (S k), b'. split_and!; [lia|done|done]. }
  assert (Hl' : forall k txs b', lists !! k = Some txs -> window !! k = Some b' ->
    answers_txs (id_Hash b') txs \/ (i + S k)%nat ∈ requests.*1).
  { intros k txs b' E Eb. replace (i + S k)%nat with (S i + k)%nat by lia. by apply Hl. }
  destruct o as [t|]; apply keeps_ret; (split; [cbn; by rewrite Hlen|]); split; [|done|..].
  - intros [|k] txs b' E Eb; [injection E as ->; injection Eb as ->|by apply Hl'].
    left. exists (id_Hash b'). split; [apply answer_refl|by apply Ho].
  - intros [|k] txs b' E Eb; [right; cbn; rewrite Nat.add_0_r; by left|].
    destruct (Hl' k txs b' E Eb) as [?|?]; [by left|right]. cbn. by right.
  - intros j h [[= -> ->]|Hj]%elem_of_cons; [|by apply Hr'].
    exists 0%nat, b. split_and!; [lia|done|done].
Qed.

(** When no element failed, every requested index is filled with transactions. *)
Lemma FetchAllTransactions_store_keeps requests elems lists :
  Forall2 (fun h elem => be_Error elem = None ->
    answer h (rh_cache_Hash (rb_header (be_Result elem)))) requests.*2 elems ->
  first_Error elems = None ->
  keeps sound (FetchAllTransactions_store (W:=W) requests.*1 elems lists) (fun out =>
    length out = length lists /\
    forall k txs, out !! k = Some txs -> (exists h, (k, h) ∈ requests /\ answers_txs h txs) \/
      (lists !! k = Some txs /\ k ∉ requests.*1)).
Proof.
  revert elems lists. induction requests as [|[i h] requests IH]; intros [|elem elems] lists Hall He;
    try by inversion Hall.
  { apply keeps_ret. split; [done|]. intros k txs E. right. split; [done|]. apply not_elem_of_nil. }
  cbn [fmap list_fmap fst snd] in Hall |- *. apply Forall2_cons in Hall as [Ha Hall].
  cbn [FetchAllTransactions_store]. cbn in He. destruct (be_Error elem); [done|].
  eapply (keeps_bind _ _ (fun l => exists txs, answers_txs h txs /\ l = <[i := txs]> lists)).
  - eapply keeps_bind; [apply get_keeps|]. intros s Hs. rewrite Hs.
    eapply (keeps_bind _ _ (fun b => answer h (hi_hash b.1) /\ real_block b)).
    { apply keeps_M_err, keeps_lift. intros [info txs] E. split; [|by eapply rpcBlock_Info_real].
      cbn. rewrite (rpcBlock_Info_hash _ _ _ _ E). by apply Ha. }
    intros [info txs] (Hh & Hi & Ht).
    eapply keeps_bind; [by apply headers_Add_keeps|]. intros _ _.
    eapply keeps_bind; [by apply transactions_Add_keeps|]. intros _ _. apply keeps_ret.
    exists txs. split; [by exists (hi_hash info)|done].
  - intros l (txs & Ht & ->). eapply keeps_weaken; [apply IH; [done|done]|].
    intros out [Hl Ho]. rewrite length_insert in Hl. split; [done|].
    intros k txs' E. destruct (Ho k txs' E) as [(h' & Hin & ?)|[Hk Hni]].
    { left. exists h'. split; [by right|done]. }
    apply list_lookup_insert_Some in Hk as [(-> & <- & _)|[Hne Hk]]; [left; exists h; split; [by left|done]|].
    right. split; [done|]. by intros [?|?]%elem_of_cons.
Qed.

Lemma FetchAllTransactions_store_sound indices elems lists :
  keeps sound (FetchAllTransactions_store (W:=W) indices elems lists) (fun _ => True).
Proof.
  revert indices lists. induction elems as [|elem elems IH]; intros [|i indices] lists;
    cbn [FetchAllTransactions_store]; [by apply keeps_ret..|by apply keeps_lift|].
  eapply (keeps_bind _ _ (fun _ => True)); [|intros l _; apply IH].
  destruct (be_Error elem); [by apply keeps_ret|].
  eapply keeps_bind; [apply get_keeps|]. intros s Hs. rewrite Hs.
  eapply (keeps_bind _ _ real_block).
  { apply keeps_M_err, keeps_lift. intros [info txs]. apply rpcBlock_Info_real. }
  intros [info txs] [Hi Ht].
  eapply keeps_bind; [by apply headers_Add_keeps|]. intros _ _.
  eapply keeps_bind; [by apply transactions_Add_keeps|]. intros _ _. by apply keeps_ret.
Qed.

Lemma FetchAllTransactions_keeps window :
  keeps sound (FetchAllTransactions (W:=W) window) (fun lists =>
    Forall2 (fun b txs => answers_txs (id_Hash b) txs) window lists).
Proof.
  eapply keeps_bind; [apply FetchAllTransactions_cached_keeps|].
  intros [lists requests] (Hlen & Hl & Hr).
  eapply (keeps_bind _ _ (fun elems : list (BatchElem rpcBlock) => Forall2 (fun h elem =>
    be_Error elem = None -> answer h (rh_cache_Hash (rb_header (be_Result elem)))) requests.*2 elems)).
  { destruct (bool_decide_reflect (requests = [])) as [->|]; [by apply keeps_ret, Forall2_nil|].
    apply call_answer. intros w a w' E. by eapply ans_blocks. }
  intros elems Helems. destruct (first_Error elems) eqn:He.
  - eapply keeps_bind; [apply FetchAllTransactions_store_sound|]. intros l _. apply keeps_throw.
  - eapply keeps_bind; [by apply FetchAllTransactions_store_keeps|].
    intros out [Hlo Ho]. apply keeps_ret. apply Forall2_same_length_lookup_2; [congruence|].
    intros k b txs Eb E. destruct (Ho k txs E) as [(h & Hin & Ht)|[Hk Hni]].
    + apply Hr in Hin as (k' & b' & -> & Hb & ->). cbn in Eb. rewrite Eb in Hb. by injection Hb as <-.
    + destruct (Hl k txs b Hk Eb) as [?|?]; [done|]. by cbn in *.
Qed.

(** [C15] A source that does not trust its RPC starts with, and always keeps, caches that
    hold under a block hash only what the header with that hash commits to; whatever the
    RPC answers, the headers it gives are real headers with the hash they carry, the
    transactions match the header's transactions root, the receipts its receipts root,
    and [FetchAllTransactions] returns one real transactions list per block of the window.
    They are of the block that was asked for, as far as the RPC answers with that block:
    the code does not compare the hashes ([answer] may hold of any two). *)
Theorem Source_authentic :
  (forall config s, NewSource config = Ok s -> sc_TrustRPC config = false -> caches_sound s) /\
  (forall h, keeps sound (InfoByHash (W:=W) h) (answers_info h)) /\
  (forall h, keeps sound (InfoAndTxsByHash (W:=W) h) (answers_block h)) /\
  (forall h, keeps sound (Fetch (W:=W) h) (answers_fetch h)) /\
  (forall window, keeps sound (FetchAllTransactions (W:=W) window) (fun lists =>
     Forall2 (fun b txs => answers_txs (id_Hash b) txs) window lists)).
Proof.
  split_and!; [apply NewSource_sound|apply InfoByHash_keeps|apply InfoAndTxsByHash_keeps|
    apply Fetch_keeps|apply FetchAllTransactions_keeps].
Qed.
End Answers.

(** What is not checked: that the block is the one asked for.  To a request by hash, an RPC
    can answer with any header whose hash is right; it is taken, and cached under its own
    hash.  The same holds of [Fetch], [InfoAndTxsByHash] and [FetchAllTransactions]. *)
Lemma InfoByHash_unchecked h hd (s : Source) c (w w' : W) :
  so_trustRPC s = false -> so_headersCache s = Some c -> (lru_Get h c).1 = None ->
  CallContext_header (ByHash h) w = (Ok (Some (mkRpcHeader (header_Hash hd) hd)), w') ->
  exists s', InfoByHash h (s, w) = (Ok (info_of hd), (s', w')).
Proof.
  intros Ht Hc Hg E. unfold InfoByHash, headers_Get, cache_Get, headerCall, headers_Add, cache_Add,
    mbind, M_bind, get, modify, call, lift, mret, M_ret. cbn [fst snd]. rewrite Hc.
  destruct (lru_Get h c) as [v c'] eqn:Eg. cbn in Hg. subst v. cbn [fst snd]. rewrite E.
  cbn [fst snd set_headersCache so_trustRPC so_headersCache]. rewrite Ht.
  unfold rpcHeader_Info. cbn [rh_cache_Hash rh_header negb]. rewrite Z.eqb_refl. by eexists.
Qed.

(** *** The receipts of a block *)
Definition log_ok (block : BlockID) (i : Z) (txHash : Hash) (log : Log) : Prop :=
  log_TxIndex log = i /\ log_BlockHash log = id_Hash block /\
  log_BlockNumber log = id_Number block /\ log_TxHash log = txHash /\ log_Removed log = false.
Definition receipt_ok (block : BlockID) (i : Z) (tx : Transaction) (r : Receipt) : Prop :=
  rc_TransactionIndex r = i /\ rc_BlockHash r = id_Hash block /\
  (exists n, rc_BlockNumber r = Some n /\ wrap 64 n = id_Number block) /\
  Forall (log_ok block i (tx_Hash tx)) (rc_Logs r).
(** The logs are numbered from [k] on. *)
Definition numbered (k : Z) (logs : list Log) : Prop :=
  forall j log, logs !! j = Some log -> log_Index log = wrap 64 (k + Z.of_nat j).

Lemma wrap_wrap_add k j : wrap 64 (wrap 64 k + j) = wrap 64 (k + j).
Proof. unfold wrap. by rewrite Zplus_mod_idemp_l. Qed.
Lemma numbered_cons k log logs :
  log_Index log = wrap 64 k -> numbered (k + 1) logs -> numbered k (log :: logs).
Proof.
  intros Hl Hn [|j] l E; [injection E as <-; by rewrite Z.add_0_r|].
  rewrite (Hn j l E). f_equal. lia.
Qed.
Lemma numbered_app k l1 l2 : numbered k l1 -> numbered (k + zlen l1) l2 -> numbered k (l1 ++ l2).
Proof.
  intros Hn1 Hn2 j l [E|[Hj E]]%lookup_app_Some; [by apply Hn1|].
  rewrite (Hn2 _ _ E). unfold zlen. f_equal. lia.
Qed.

Lemma fetchReceipts_logs_ok block i txHash logs k k' :
  fetchReceipts_logs block i txHash logs (wrap 64 k) = Ok k' ->
  k' = wrap 64 (k + zlen logs) /\ Forall (log_ok block i txHash) logs /\ numbered k logs.
Proof.
  revert k. induction logs as [|log logs IH]; intros k E.
  { injection E as <-. split; [by rewrite Z.add_0_r|]. by split. }
  cbn [fetchReceipts_logs] in E.
  repeat (let u := fresh in let E' := fresh "C" in
          apply res_bind_ok in E as (u & E' & E); apply fail_if_ok in E'; clear u).
  rewrite negb_false_iff, Z.eqb_eq in C, C0, C1, C2, C3.
  rewrite wrap_wrap_add in E. apply IH in E as (-> & Hl & Hn).
  split; [f_equal; unfold zlen; simpl; lia|]. split; [by constructor|]. by apply numbered_cons.
Qed.

(** The receipts are at the positions they say, in a block with these transactions. *)
Definition placed_from (block : BlockID) (i k : Z) (txs : list Transaction) (rs : list Receipt) : Prop :=
  (length rs <= length txs)%nat /\
  (forall j tx r, txs !! j = Some tx -> rs !! j = Some r ->
     receipt_ok block (wrap 64 (i + Z.of_nat j)) tx r) /\
  numbered k (concat (rc_Logs <$> rs)).
Definition placed (block : BlockID) : list Transaction -> list Receipt -> Prop := placed_from block 0 0.

Lemma fetchReceipts_loop_ok block i txs receipts k rs :
  fetchReceipts_loop block (wrap 64 i) txs receipts (wrap 64 k) = Ok rs ->
  receipts = Some <$> rs /\ placed_from block i k txs rs.
Proof.
  revert i k txs rs. induction receipts as [|[r|] receipts IH]; intros i k [|tx txs] rs E;
    try done; cbn [fetchReceipts_loop] in E.
  { injection E as <-. by split. }
  { injection E as <-. split; [done|]. split_and!; [cbn; lia|done..]. }
  { by repeat (apply res_bind_ok in E as (? & _ & E)). }
  apply res_bind_ok in E as (u1 & C1 & E). apply res_bind_ok in E as (n & Cn & E).
  apply res_bind_ok in E as (u2 & C2 & E). apply res_bind_ok in E as (u3 & C3 & E).
  apply res_bind_ok in E as (k' & El & E). apply res_bind_ok in E as (rs' & Er & E).
  injection E as <-. apply fail_if_ok in C1, C2, C3.
  rewrite negb_false_iff, Z.eqb_eq in C1, C2, C3.
  apply fetchReceipts_logs_ok in El as (-> & Hlogs & Hn). rewrite wrap_wrap_add in Er.
  apply IH in Er as (-> & Hl & Hr & Hnum). split; [done|]. split_and!; [cbn; lia| |].
  - intros [|j] tx' r' Etx Er; [|replace (i + Z.of_nat (S j)) with (i + 1 + Z.of_nat j) by lia;
      by apply Hr].
    injection Etx as <-. injection Er as <-. rewrite Z.add_0_r.
    split_and!; [done|done| |done]. destruct (rc_BlockNumber r) as [m|]; [|done].
    injection Cn as Cn. exists m. split; [done|congruence].
  - cbn. by apply numbered_app.
Qed.

Definition batch_receipts_length : Prop := forall hs (w : W) receipts w',
  batchCall_receipts hs w = (Ok receipts, w') -> length receipts = length hs.

(** [C34] The receipts [fetchReceipts] returns are one per transaction, in the order of the
    transactions, all of the requested block, with the block's receipts root; and their
    logs, one receipt after the other, are numbered 0, 1, 2, ... without a gap, none of
    them removed: the log index that identifies a deposit is unique in the block. *)
Theorem fetchReceipts_spec block receiptHash txs (w : W) rs w' :
  batch_receipts_length ->
  fetchReceipts block receiptHash txs w = (Ok rs, w') ->
  length rs = length txs /\
  (forall j tx r, txs !! j = Some tx -> rs !! j = Some r ->
     receipt_ok block (wrap 64 (Z.of_nat j)) tx r) /\
  (forall j log, concat (rc_Logs <$> rs) !! j = Some log ->
     log_Index log = wrap 64 (Z.of_nat j)) /\
  (rs = [] /\ receiptHash = EmptyRootHash \/ DeriveSha_receipts rs = receiptHash).
Proof.
  intros Hb E. pose proof (fetchReceipts_root _ _ _ _ _ _ E) as Hroot.
  unfold fetchReceipts in E. destruct txs as [|tx txs].
  - destruct (receiptHash =? EmptyRootHash); [|done]. cbn in E. injection E as <- <-.
    split_and!; [done|by intros ? ?|by intros ? ?|tauto].
  - apply M_bind_ok in E as (l & w1 & Ef & E). apply M_err_ok, Hb in Ef.
    apply M_bind_ok in E as (rs' & w2 & El & E). apply lift_ok in El as [El ->].
    destruct (negb (receiptHash =? DeriveSha_receipts rs')); [done|]. injection E as <- <-.
    apply (fetchReceipts_loop_ok block 0 (tx :: txs) l 0) in El as (-> & _ & Hr & Hn).
    rewrite !length_fmap in Ef. split_and!; [done|exact Hr|exact Hn|tauto].
Qed.

(** What an RPC gives as a receipt. *)
Definition receipt_answer (r : Receipt) : Prop :=
  exists hs (w : W) l w', batchCall_receipts hs w = (Ok l, w') /\ Some r ∈ l.

Lemma fetchReceipts_placed block root txs (w : W) rs w' :
  fetchReceipts block root txs w = (Ok rs, w') -> placed block txs rs /\ Forall receipt_answer rs.
Proof.
  unfold fetchReceipts. destruct txs as [|tx txs].
  - destruct (root =? EmptyRootHash); [|done]. cbn. intros [= <- <-]. split; [|done].
    split_and!; [done|by intros ? ?|by intros ? ?].
  - intros E. apply M_bind_ok in E as (l & w1 & Ef & E). apply M_err_ok in Ef.
    apply M_bind_ok in E as (rs' & w2 & El & E). apply lift_ok in El as [El ->].
    destruct (negb (root =? DeriveSha_receipts rs')); [done|]. injection E as <- <-.
    apply (fetchReceipts_loop_ok block 0 (tx :: txs) l 0) in El as [-> Hp]. split; [exact Hp|].
    apply Forall_forall. intros r Hr. eexists (tx_Hash <$> tx :: txs), w, (Some <$> rs'), _.
    split; [exact Ef|]. by apply list_elem_of_fmap_2.
Qed.
Lemma Fetch_placed h (sw : Source * W) info txs rs sw' :
  Fetch h sw = (Ok (info, txs, rs), sw') ->
  placed (HeaderInfo_ID info) txs rs /\ Forall receipt_answer rs.
Proof.
  unfold Fetch. destruct (h =? 0); [done|]. intros E.
  apply M_bind_ok in E as ([info' txs'] & sw1 & _ & E). apply M_bind_ok in E as (rs' & sw2 & Ef & E).
  apply M_bind_ok in E as ([] & sw3 & _ & E). injection E as -> -> -> _.
  unfold call in Ef. destruct (fetchReceipts _ _ _ sw1.2) as [r w2] eqn:Er. cbn in Ef.
  injection Ef as -> _. by apply fetchReceipts_placed in Er.
Qed.

(** The root and the positions determine what the deposits depend on, given plain statuses:
    the root does not tell a status from a post state. *)
Definition plain_status (r : Receipt) : Prop :=
  rc_PostState r = [] /\ (rc_Status r = ReceiptStatusFailed \/ rc_Status r = ReceiptStatusSuccessful).

Lemma numbered_app_inv k l1 l2 : numbered k (l1 ++ l2) -> numbered k l1 /\ numbered (k + zlen l1) l2.
Proof.
  intros Hn. split; intros j l E.
  - apply Hn. by apply lookup_app_l_Some.
  - rewrite (Hn (length l1 + j)%nat l); [unfold zlen; f_equal; lia|].
    rewrite lookup_app_r by lia. by replace (length l1 + j - length l1)%nat with j by lia.
Qed.
Lemma placed_from_cons block i k tx txs r rs :
  placed_from block i k (tx :: txs) (r :: rs) ->
  receipt_ok block (wrap 64 i) tx r /\ numbered k (rc_Logs r) /\
  placed_from block (i + 1) (k + zlen (rc_Logs r)) txs rs.
Proof.
  intros (Hl & Hr & Hn). cbn in Hl, Hn. apply numbered_app_inv in Hn as [Hn Hns].
  split; [rewrite <-(Z.add_0_r i); by apply (Hr 0%nat)|]. split; [done|]. split; [lia|]. split; [|done].
  intros j tx' r' Etx Er. replace (i + 1 + Z.of_nat j) with (i + Z.of_nat (S j)) by lia. by apply Hr.
Qed.
Lemma placed_logs block i txHash k logs logs' :
  Forall (log_ok block i txHash) logs -> Forall (log_ok block i txHash) logs' ->
  numbered k logs -> numbered k logs' -> log_consensus <$> logs = log_consensus <$> logs' -> logs = logs'.
Proof.
  intros Hl Hl' Hn Hn' E. apply list_eq. intros j.
  assert (Ej : log_consensus <$> logs !! j = log_consensus <$> logs' !! j)
    by (rewrite <-!list_lookup_fmap; by rewrite E).
  destruct (logs !! j) as [l|] eqn:El, (logs' !! j) as [l'|] eqn:El'; try done.
  injection Ej as Ea Et Ed. pose proof (Hn _ _ El) as Ei. pose proof (Hn' _ _ El') as Ei'.
  eapply Forall_lookup_1 in Hl as (? & ? & ? & ? & ?); [|exact El].
  eapply Forall_lookup_1 in Hl' as (? & ? & ? & ? & ?); [|exact El'].
  f_equal. destruct l, l'. cbn in *. by subst.
Qed.
Lemma placed_read block i k txs rs rs' :
  placed_from block i k txs rs -> placed_from block i k txs rs' ->
  Forall plain_status rs -> Forall plain_status rs' ->
  consensus <$> rs = consensus <$> rs' -> receipt_read <$> rs = receipt_read <$> rs'.
Proof.
  revert i k txs rs'. induction rs as [|r rs IH]; intros i k txs [|r' rs'] Hp Hp' Hs Hs' E; try done.
  destruct txs as [|tx txs]; [destruct Hp as [Hp _]; cbn in Hp; lia|].
  apply placed_from_cons in Hp as ((_ & _ & _ & Hl) & Hn & Hp).
  apply placed_from_cons in Hp' as ((_ & _ & _ & Hl') & Hn' & Hp').
  apply Forall_cons in Hs as [(Hps & Hst) Hs]. apply Forall_cons in Hs' as [(Hps' & Hst') Hs'].
  injection E as _ Est _ _ Elogs E.
  assert (Elog : rc_Logs r = rc_Logs r') by (by eapply placed_logs).
  rewrite <-Elog in Hp'. cbn. f_equal; [|by eapply IH]. unfold receipt_read. rewrite Elog. f_equal.
  unfold statusEncoding in Est. rewrite Hps, Hps' in Est.
  destruct Hst as [Hst|Hst], Hst' as [Hst'|Hst']; rewrite Hst, Hst' in Est |- *; done.
Qed.

(** *** What the receipts root does not bind
    A receipt with a post state and a status of its choice: its encoding has the post state
    in place of the status, so the one-byte post state [x01] reads as a success there, while
    the receipt's status is the failed one and its deposits are left out. *)
Definition forge_status (r : Receipt) : Receipt :=
  mkReceipt (rc_Type r) [x01] ReceiptStatusFailed (rc_CumulativeGasUsed r) (rc_Bloom r) (rc_Logs r)
    (rc_TransactionIndex r) (rc_BlockNumber r) (rc_BlockHash r) (rc_TxHash r).
Lemma fetchReceipts_loop_forge block i txs rs k :
  fetchReceipts_loop block i txs (Some <$> rs) k = Ok rs ->
  fetchReceipts_loop block i txs (Some <$> (forge_status <$> rs)) k = Ok (forge_status <$> rs).
Proof.
  revert i txs k. induction rs as [|r rs IH]; intros i [|tx txs] k E; try done;
    cbn [fmap list_fmap fetchReceipts_loop] in E |- *.
  { by repeat (apply res_bind_ok in E as (? & _ & E)). }
  cbn [forge_status rc_TransactionIndex rc_BlockNumber rc_BlockHash rc_Logs].
  do 5 (apply res_bind_ok in E as (? & -> & E); cbn [mbind res_bind]).
  apply res_bind_ok in E as (rs' & Er & E). injection E as ->. by rewrite (IH _ _ _ Er).
Qed.
Lemma fetchReceipts_status_unbound `{Keccak} block root txs rs (w0 w1 w w' : W) addr :
  (forall l l', consensus <$> l = consensus <$> l' -> DeriveSha_receipts l = DeriveSha_receipts l') ->
  Forall (fun r => rc_PostState r = [] /\ rc_Status r = ReceiptStatusSuccessful) rs -> txs <> [] ->
  fetchReceipts block root txs w0 = (Ok rs, w1) ->
  batchCall_receipts (tx_Hash <$> txs) w = (Ok (Some <$> (forge_status <$> rs)), w') ->
  fetchReceipts block root txs w = (Ok (forge_status <$> rs), w') /\
  UserDeposits (forge_status <$> rs) addr = Ok ([], []).
Proof.
  intros Hsha Hs Htxs E Ew. split.
  - unfold fetchReceipts in *. destruct txs as [|tx txs]; [done|].
    apply M_bind_ok in E as (l & w2 & _ & E). apply M_bind_ok in E as (rs' & w3 & El & E).
    apply lift_ok in El as [El ->]. destruct (negb (root =? DeriveSha_receipts rs')) eqn:Er; [done|].
    injection E as -> ->. pose proof (fetchReceipts_loop_ok block 0 (tx :: txs) l 0 rs El) as [-> _].
    apply fetchReceipts_loop_forge in El.
    rewrite (M_bind_eq _ _ w (Some <$> (forge_status <$> rs)) w') by (unfold M_err; by rewrite Ew).
    rewrite (M_bind_eq _ _ w' (forge_status <$> rs) w') by (unfold lift; by rewrite El).
    rewrite (Hsha _ rs), Er; [done|]. rewrite <-list_fmap_compose. apply list_fmap_ext.
    intros i r Hi. eapply Forall_lookup_1 in Hs as [Hp Hst]; [|exact Hi].
    unfold consensus, statusEncoding. cbn. by rewrite Hp, Hst.
  - unfold UserDeposits. clear. generalize (@nil DepositTx, @nil error).
    induction rs as [|r rs IH]; intros acc; [done|]. apply IH.
Qed.

(** *** Ranges of L1 blocks *)
Section Range.
Context (parentOf : Hash -> Hash).
(** The hash of a header determines its parent. *)
Context (parentOf_header : forall hd, parentOf (header_Hash hd) = hdr_ParentHash hd).

Lemma L1Range_loop_keeps begin elems out :
  linked parentOf (id_Hash begin) out ->
  keeps sound (L1Range_loop (W:=W) begin (zlen out) elems out) (fun ids =>
    linked parentOf (id_Hash begin) ids /\ (length ids <= length out + length elems)%nat).
Proof.
  revert out. induction elems as [|[result err] elems IH]; intros out Hl; cbn [L1Range_loop].
  { apply keeps_ret. split; [done|]. simpl. lia. }
  cbn [be_Error be_Result].
  assert (Hout : keeps sound (mret (M:=M (Source * W)) out) (fun ids =>
    linked parentOf (id_Hash begin) ids /\ (length ids <= length out + length (mkBatchElem result err :: elems))%nat)).
  { apply keeps_ret. split; [done|]. simpl. lia. }
  destruct err as [e|]; [destruct (errors_is _ _); [done|apply keeps_throw]|].
  destruct result as [header|]; [|done].
  eapply keeps_bind; [apply get_keeps|]. intros s Hs. rewrite Hs.
  eapply keeps_bind; [apply keeps_M_err, keeps_lift, rpcHeader_Info_real|]. intros info ->.
  eapply keeps_bind; [apply headers_Add_keeps, info_of_real|]. intros _ _. cbv zeta.
  eapply (keeps_bind _ _ (fun prev => id_Hash prev = from_option id_Hash (id_Hash begin) (last out))).
  { destruct (Z.ltb_spec 0 (zlen out)).
    - apply keeps_lift. intros prev E. unfold index in E.
      rewrite (proj2 (Z.leb_le 0 _)) in E by lia. unfold zlen in *.
      replace (Z.to_nat (Z.of_nat (length out) - 1)) with (pred (length out)) in E by lia.
      rewrite lookup_app_l, <-last_lookup in E by lia. destruct (last out); [|done].
      by injection E as ->.
    - apply keeps_ret. destruct out; [done|]. unfold zlen in *. simpl in *. lia. }
  intros prev Hprev.
  destruct (Z.eqb_spec (id_Hash prev) (hi_parentHash (info_of (rh_header header)))) as [Hp|];
    [|apply keeps_throw]. cbn [negb].
  replace (zlen out + 1) with (zlen (out ++ [HeaderInfo_ID (info_of (rh_header header))]))
    by (unfold zlen; rewrite length_app; simpl; lia).
  eapply keeps_weaken; [apply IH|].
  - apply linked_app. split; [done|]. cbn. split; [|done]. rewrite parentOf_header.
    rewrite <-Hprev. done.
  - intros ids [Hli Hle]. split; [done|]. rewrite length_app in Hle. simpl in *. lia.
Qed.

Definition batch_headers_length : Prop := forall ns (w : W) elems w',
  batchCall_headers ns w = (Ok elems, w') -> length elems = length ns.

(** [L1Range] against an untrusted RPC: the blocks it returns are a chain, each the
    child of the one before and the first the child of [begin], whatever reorg happens
    between the answers, and there are at most [max] of them. *)
Lemma L1Range_spec begin max :
  batch_headers_length ->
  keeps sound (L1Range (W:=W) begin max) (fun ids =>
    linked parentOf (id_Hash begin) ids /\ (length ids <= Z.to_nat max)%nat).
Proof.
  intros Hb. unfold L1Range.
  eapply (keeps_bind _ _ (fun elems : list (BatchElem (option rpcHeader)) =>
    length elems = Z.to_nat max)).
  { intros [s w] Hs. unfold call. cbn. destruct (batchCall_headers _ w) as [r w'] eqn:E.
    split; [done|]. cbn. intros a ->. apply Hb in E. by rewrite E, length_fmap, length_seq. }
  intros elems He. rewrite <-He. by apply (L1Range_loop_keeps begin elems []).
Qed.
End Range.
End Sound.

(** ** Witnesses: one-entry caches and a chain where a block's hash is its parent's plus one *)
Definition OneEntry : LRU := {|
  Cache := fun V => option (Hash * V);
  lru_New := fun V n => if 0 <? n then Some None else None;
  lru_Get := fun V h c =>
    (match c with Some (k, v) => if k =? h then Some v else None | None => None end, c);
  lru_Add := fun V h v c => Some (h, v);
|}.
Lemma OneEntryLaws : @LRULaws OneEntry.
Proof.
  split; cbn.
  - intros V n. destruct (Z.ltb_spec 0 n); split; intros Hx; eauto; [by destruct Hx|lia].
  - intros V n c E h v. destruct (0 <? n); [|done]. by injection E as <-.
  - intros V k c h v. done.
  - intros V k v' c h v. unfold cached. cbn. destruct (Z.eqb_spec k h); [|done].
    intros [= ->]. auto.
Qed.

Definition ChainGeth : GethTypes := {|
  Transaction := @Transaction ToyGeth; tx_Type := @tx_Type ToyGeth; tx_Data := @tx_Data ToyGeth;
  tx_To := @tx_To ToyGeth; tx_Hash := @tx_Hash ToyGeth;
  tx_MarshalBinary := @tx_MarshalBinary ToyGeth; tx_UnmarshalBinary := @tx_UnmarshalBinary ToyGeth;
  DepositTxType := x7e; NewDepositTx := @NewDepositTx ToyGeth; tx_Sender := @tx_Sender ToyGeth;
  DeriveSha_bytes := @DeriveSha_bytes ToyGeth; DeriveSha_txs := @DeriveSha_txs ToyGeth;
  DeriveSha_receipts := @DeriveSha_receipts ToyGeth;
  header_Hash := fun hd => hdr_ParentHash hd + 1; EmptyRootHash := 11; EmptyUncleHash := 12;
|}.

Definition chain_txs : list (byte * list byte) := [(x02, [x01]); (x02, [x05])].
Definition chain_log (i tx : Z) (txHash : Hash) : Log := mkLog 900 [] [] 13 txHash tx 103 i false.
Definition chain_receipts : list Receipt :=
  [mkReceipt x02 [] 1 21000 0 [chain_log 0 0 (@tx_Hash ToyGeth (x02, [x01])); chain_log 1 0 (@tx_Hash ToyGeth (x02, [x01]))]
     0 (Some 13) 103 0;
   mkReceipt x02 [] 0 21000 0 [chain_log 2 1 (@tx_Hash ToyGeth (x02, [x05]))] 1 (Some 13) 103 0].
Definition chain_header (n : Z) : Header :=
  mkHeader (89 + n) 12 0 0 (@DeriveSha_txs ToyGeth chain_txs)
    (@DeriveSha_receipts ToyGeth chain_receipts) 0 0 n 0 0 (1000 + n) [] 5 0 7.
Definition chain_rpc (n : Z) : rpcHeader := mkRpcHeader (90 + n) (chain_header n).
(** The chain ends at block 13. *)
Definition chain_block (n : Z) : @rpcBlock ChainGeth := @mkRpcBlock ChainGeth (chain_rpc n) chain_txs.
Definition ChainRPC : @RPCClient ChainGeth unit := {|
  CallContext_header := fun id => mret (match id with
    | ByHash h => Some (chain_rpc (h - 90)) | ByNumber n => Some (chain_rpc n)
    | Latest => Some (chain_rpc 13) end);
  CallContext_block := fun id => mret (match id with
    | ByHash h => Some (chain_block (h - 90)) | ByNumber n => Some (chain_block n)
    | Latest => Some (chain_block 13) end);
  batchCall_blocks := fun hs => mret ((fun h => mkBatchElem (chain_block (h - 90)) None) <$> hs);
  batchCall_headers := fun ns => mret ((fun n => mkBatchElem
    (if n <=? 13 then Some (chain_rpc n) else None) None) <$> ns);
  batchCall_receipts := fun hs => mret ((fun i => chain_receipts !! i) <$> seq 0 (length hs));
|}.
Definition chain_config : SourceConfig := mkSourceConfig 1 1 1 1 5 5 5 false.

Section ChainRun.
#[local] Existing Instance ChainGeth.
#[local] Existing Instance OneEntry.
#[local] Existing Instance OneEntryLaws.
#[local] Existing Instance ChainRPC.

Definition chain_source : Source :=
  match NewSource chain_config with Ok s => s | _ => mkSource true None None None end.

Lemma chain_answers : @rpc_answers ChainGeth unit ChainRPC eq.
Proof.
  split; intros *; cbn.
  - intros [= <- _]. cbn. lia.
  - intros [= <- _]. cbn. lia.
  - intros [= <- _]. apply Forall2_fmap_r, Forall_Forall2_diag, Forall_forall. intros h _ _. cbn. lia.
Qed.

Lemma Source_authentic_witness :
  exists lists sw, FetchAllTransactions [mkBlockID 102 12; mkBlockID 103 13] (chain_source, tt)
      = (Ok lists, sw) /\ lists = [chain_txs; chain_txs] /\ sound sw.
Proof.
  destruct (@Source_authentic ChainGeth OneEntry OneEntryLaws unit ChainRPC eq (fun h => eq_refl) chain_answers)
    as (Hn & _ & _ & _ & Hf).
  assert (Hs : sound (chain_source, tt)) by by apply (Hn chain_config).
  destruct (Hf [mkBlockID 102 12; mkBlockID 103 13] _ Hs) as [H1 _].
  assert (E : (FetchAllTransactions [mkBlockID 102 12; mkBlockID 103 13] (chain_source, tt)).1
    = Ok [chain_txs; chain_txs]) by (vm_compute; reflexivity).
  destruct (FetchAllTransactions [mkBlockID 102 12; mkBlockID 103 13] (chain_source, tt)) as [r sw].
  cbn in E. subst r. exists [chain_txs; chain_txs], sw. by split_and!.
Defined.

Lemma fetchReceipts_spec_witness :
  exists rs, @fetchReceipts ChainGeth unit ChainRPC (mkBlockID 103 13) (hdr_ReceiptHash (chain_header 13)) chain_txs tt
      = (Ok rs, tt) /\ length rs = 2%nat.
Proof.
  destruct (@fetchReceipts ChainGeth unit ChainRPC (mkBlockID 103 13) (hdr_ReceiptHash (chain_header 13)) chain_txs tt)
    as [[rs| | |] []] eqn:E; try (vm_compute in E; discriminate).
  exists rs. split; [done|].
  refine (proj1 (fetchReceipts_spec _ _ _ _ _ _ _ E)).
  intros hs w receipts w' Er. cbn in Er. injection Er as <- _. by rewrite length_fmap, length_seq.
Defined.

(** The whole chain above block 11, of the ten blocks asked for. *)
Lemma L1Range_spec_witness :
  exists ids sw, L1Range (mkBlockID 101 11) 10 (chain_source, tt) = (Ok ids, sw) /\
    ids = [mkBlockID 102 12; mkBlockID 103 13] /\ linked (fun h => h - 1) 101 ids.
Proof.
  assert (Hs : sound (chain_source, tt)).
  { split; [done|]. split_and!; intros c h v Ec Hc; by apply (lru_New_empty _ _ _ Ec) in Hc. }
  assert (Hp : forall hd, @header_Hash ChainGeth hd - 1 = hdr_ParentHash hd) by (intros hd; cbn; lia).
  destruct (@L1Range_spec ChainGeth OneEntry OneEntryLaws unit ChainRPC (fun h => h - 1) Hp
    (mkBlockID 101 11) 10
    ltac:(intros ns w elems w' E; cbn in E; injection E as <- _; by rewrite length_fmap) _ Hs)
    as [_ Hl].
  assert (E : (L1Range (mkBlockID 101 11) 10 (chain_source, tt)).1
    = Ok [mkBlockID 102 12; mkBlockID 103 13]) by (vm_compute; reflexivity).
  destruct (L1Range (mkBlockID 101 11) 10 (chain_source, tt)) as [r sw].
  cbn in E. subst r. exists [mkBlockID 102 12; mkBlockID 103 13], sw. split_and!; [done..|]. by apply Hl.
Defined.
End ChainRun.
