(* ===== verification/L1Rollup.v ===== *)
(** * The rollup on the L1 client

    The driver with the L1 client of L1Source.v: a source that does not trust its RPC meets
    what Rollup.v asks of the L1 services, when the RPC answers with the blocks it is asked
    for.  op-node/l1/source.go under op-node/rollup/driver. *)

From S2P Require Import Prelude Types Geth L1Info Deposits Batches L2Source Sync Step DriverState Rollup L1Source.

Section L1Rollup.
Context `{Keccak} `{GethLaws} `{RLP} `{LRULaws} {W : Type}.
Context `{!RPCClient W} `{!Engine W} `{!DriverL2 W} `{!Network W}.

(** ** The source beside the other services *)
Definition beside_Engine : Engine (Source * W) := {|
  eng_GetPayload := fun id => call (eng_GetPayload id);
  eng_ForkchoiceUpdate := fun fc attrs => call (eng_ForkchoiceUpdate fc attrs);
  eng_NewPayload := fun p => call (eng_NewPayload p);
  eng_PayloadByHash := fun h => call (eng_PayloadByHash h);
  eng_PayloadByNumber := fun n => call (eng_PayloadByNumber n);
|}.
Definition beside_DriverL2 : DriverL2 (Source * W) := {|
  dl2_sync := {| chain_L2BlockRefByHash := fun h => call (chain_L2BlockRefByHash h) |};
  l2_ForkchoiceUpdate := fun fc attrs => call (l2_ForkchoiceUpdate fc attrs);
  l2_L2BlockRefByNumber := fun n => call (l2_L2BlockRefByNumber n);
|}.
Definition beside_Network : Network (Source * W) := {|
  PublishL2Payload := (fun publish p => call (publish p)) <$> PublishL2Payload;
|}.
#[local] Existing Instance beside_Engine.
#[local] Existing Instance beside_DriverL2.
#[local] Existing Instance beside_Network.
#[local] Existing Instance Source_DriverL1.
#[local] Existing Instance Source_Downloader.

Context (config : Config) (c : CanonicalL1) (timeOf : Hash -> uint64).

(** ** What is asked of the world *)

(** The hash of a block of the chain commits to its header, and the roots in the header to
    the transactions and to what the receipts trie encodes of the receipts. *)
Definition commits : Prop := forall n hd, c_has c n -> header_Hash hd = c_hash c n ->
  HeaderInfo_L1Info (info_of hd) = c_info c n /\
  (forall txs, DeriveSha_txs txs = hdr_TxHash hd -> txs = lb_txs (c_block c n)) /\
  (forall rs, DeriveSha_receipts rs = hdr_ReceiptHash hd \/ (rs = [] /\ hdr_ReceiptHash hd = EmptyRootHash) ->
     consensus <$> rs = consensus <$> lb_receipts (c_block c n)).

(** The receipts of the chain are in their places: the positions, which no root covers, are
    those of the block and its transactions, and a status is 0 or 1. *)
Definition receipts_placed : Prop := forall n, c_has c n ->
  placed (c_id c n) (lb_txs (c_block c n)) (lb_receipts (c_block c n)) /\
  Forall plain_status (lb_receipts (c_block c n)).
(** The RPC gives statuses of 0 or 1 and no post states: the one field of a receipt that it
    can lie about, [fetchReceipts_status_unbound]. *)
Definition rpc_statuses : Prop := forall r, receipt_answer (W:=W) r -> plain_status r.

(** Headers by number are of the chain; the RPC may know of fewer blocks, and may lie about
    what the hash does not commit to. *)
Definition rpc_numbers : Prop := forall ns (w : W) elems w',
  batchCall_headers ns w = (Ok elems, w') ->
  Forall2 (fun n elem => forall header, be_Error elem = None -> be_Result elem = Some header ->
    c_has c n /\ rh_cache_Hash header = c_hash c n) ns elems.

(** The L2 engine, in all worlds. *)
Record engine_ok : Prop := {
  eo_builds : engine_builds (W:=W);
  eo_time h : in_range 62 (timeOf h);
  eo_answer p : engine_answer (W:=W) (fun _ => True) p ->
    pl_Timestamp p = timeOf (pl_BlockHash p) /\
    (pl_BlockNumber p = id_Number (gen_L2 (cfg_Genesis config)) -> pl_Transactions p = []);
  eo_byhash h (w : W) p w' : eng_PayloadByHash h w = (Ok p, w') -> pl_Timestamp p = timeOf h;
}.

Context (Hcan : canonical c) (Hcommits : commits) (Hengine : engine_ok).
Context (Hhash : rpc_answers (W:=W) eq) (Hnumbers : rpc_numbers).
Context (Hplaced : receipts_placed) (Hstatuses : rpc_statuses).

(** ** The L1 answers *)
Lemma real_info_chain n info : c_has c n -> real_info (c_hash c n) info -> HeaderInfo_L1Info info = c_info c n.
Proof. intros Hn (hd & Hh & ->). by apply Hcommits. Qed.
Lemma real_txs_chain n txs : c_has c n -> real_txs (c_hash c n) txs -> txs = lb_txs (c_block c n).
Proof. intros Hn (hd & Hh & Ht). by eapply Hcommits. Qed.

Lemma info_ID_chain n info : c_has c n -> real_info (c_hash c n) info -> HeaderInfo_ID info = c_id c n.
Proof.
  intros Hn Hr. pose proof (real_info_chain _ _ Hn Hr) as E. destruct (can_info _ Hcan _ Hn) as [_ Hnum].
  unfold HeaderInfo_ID, c_id. f_equal.
  - unfold c_hash. by rewrite <-E.
  - rewrite <-Hnum, <-E. done.
Qed.

(** The block numbers that [L1Range] asks for from position [i] on. *)
Definition range_numbers (n : Z) (i m : nat) : list uint64 :=
  (fun j => n +64 1 +64 Z.of_nat j) <$> seq i m.

Lemma L1Range_loop_chain n i m elems :
  c_has c n -> n + Z.of_nat i <= c_height c ->
  Forall2 (fun k elem => forall header, be_Error elem = None -> be_Result elem = Some header ->
    c_has c k /\ rh_cache_Hash header = c_hash c k) (range_numbers n i m) elems ->
  keeps sound (L1Range_loop (W:=W) (c_id c n) (Z.of_nat i) elems (c_ids c (n + 1) (Z.of_nat i)))
    (fun ids => exists len, ids = c_ids c (n + 1) len /\ 0 <= len /\ n + len <= c_height c).
Proof.
  intros [Hn0 Hn]. pose proof (can_height _ Hcan). revert i m.
  induction elems as [|[result err] elems IH]; intros i m Hi Hall; cbn [L1Range_loop be_Error be_Result].
  { apply keeps_ret. exists (Z.of_nat i). split_and!; [done|lia|done]. }
  assert (Hout : keeps sound (mret (M:=M (Source * W)) (c_ids c (n + 1) (Z.of_nat i)))
    (fun ids => exists len, ids = c_ids c (n + 1) len /\ 0 <= len /\ n + len <= c_height c)).
  { apply keeps_ret. exists (Z.of_nat i). split_and!; [done|lia|done]. }
  destruct m as [|m]; [by apply Forall2_nil_inv_l in Hall|].
  change (range_numbers n i (S m)) with ((n +64 1 +64 Z.of_nat i) :: range_numbers n (S i) m) in Hall.
  apply Forall2_cons in Hall as [Ha Hall].
  destruct err as [e|]; [destruct (errors_is _ _); [done|apply keeps_throw]|].
  destruct result as [header|]; [|done]. destruct (Ha header eq_refl eq_refl) as [Hk Hh].
  rewrite (wrap_small 64 (n + 1)), wrap_small in Hk, Hh by (unfold in_range; lia).
  eapply keeps_bind; [apply get_keeps|]. intros s Hs. rewrite Hs.
  eapply (keeps_bind _ _ (real_info (c_hash c (n + 1 + Z.of_nat i)))).
  { apply keeps_M_err, keeps_lift. intros info E. rewrite <-Hh, <-(rpcHeader_Info_hash _ _ _ E).
    apply rpcHeader_Info_real in E as ->. apply info_of_real. }
  intros info Hr. pose proof (info_ID_chain _ _ Hk Hr) as Hid.
  eapply keeps_bind; [apply headers_Add_keeps; by injection Hid as -> _|]. intros _ _. cbv zeta.
  eapply (keeps_bind _ _ (fun _ => True)); [destruct (_ <? _); [by apply keeps_lift|by apply keeps_ret]|].
  intros prev _. destruct (negb _); [apply keeps_throw|].
  rewrite Hid. change [c_id c (n + 1 + Z.of_nat i)] with (c_ids c (n + 1 + Z.of_nat i) 1).
  rewrite <-c_ids_app by lia. replace (Z.of_nat i + 1) with (Z.of_nat (S i)) by lia.
  apply (IH _ m); [|done]. unfold c_has in Hk. lia.
Qed.

Lemma L1Range_chain n max : c_has c n ->
  keeps sound (L1Range (W:=W) (c_id c n) max)
    (fun ids => exists len, ids = c_ids c (n + 1) len /\ 0 <= len /\ n + len <= c_height c).
Proof.
  intros Hn. unfold L1Range.
  eapply (keeps_bind _ _ (fun elems => Forall2 (fun k elem => forall header, be_Error elem = None ->
    be_Result elem = Some header -> c_has c k /\ rh_cache_Hash header = c_hash c k)
    (range_numbers n 0 (Z.to_nat max)) elems)).
  { apply call_answer. intros w elems w' E. by apply Hnumbers in E. }
  intros elems Hall. apply (L1Range_loop_chain n 0 (Z.to_nat max)); [done|unfold c_has in Hn; lia|done].
Qed.

Lemma dl_InfoByHash_chain n : c_has c n ->
  keeps sound (dl_InfoByHash (W:=Source * W) (c_hash c n)) (fun i => i = c_info c n).
Proof.
  intros Hn. eapply keeps_bind; [by apply (InfoByHash_keeps eq)|].
  intros info [Hh Hr]. apply keeps_ret, real_info_chain; [done|]. by rewrite Hh.
Qed.
Lemma dl_Fetch_chain n : c_has c n ->
  keeps sound (dl_Fetch (W:=Source * W) (c_hash c n))
    (fun '(i, t, r) => i = c_info c n /\ receipt_read <$> r = receipt_read <$> lb_receipts (c_block c n)).
Proof.
  intros Hn. eapply keeps_bind.
  { apply (keeps_post _ _ (answers_fetch eq (c_hash c n)) (fun f => placed (HeaderInfo_ID f.1.1) f.1.2 f.2 /\
      Forall (receipt_answer (W:=W)) f.2)); [by apply (Fetch_keeps eq)|].
    intros w [[info txs] rs] w' E. by eapply Fetch_placed. }
  intros [[info txs] rs] [((Hh & Hr & Ht) & hd & Hhd & Hrs) [Hp Hs]]. cbn in Hh, Hr, Ht, Hhd, Hrs, Hp, Hs.
  apply keeps_ret. rewrite <-Hh in Hr, Ht, Hhd. split; [by apply real_info_chain|].
  rewrite (info_ID_chain _ _ Hn Hr), (real_txs_chain _ _ Hn Ht) in Hp.
  destruct (Hplaced _ Hn) as [Hp' Hs']. eapply placed_read; [exact Hp|exact Hp'| |exact Hs'|].
  - eapply Forall_impl; [exact Hs|exact Hstatuses].
  - by eapply Hcommits.
Qed.
Lemma dl_FetchAllTransactions_chain n len : 0 <= n -> n + len - 1 <= c_height c ->
  keeps sound (dl_FetchAllTransactions (W:=Source * W) (c_ids c n len))
    (fun l => l = (fun m => lb_txs (c_block c m)) <$> seqZ n len).
Proof.
  intros Hn Hh. eapply keeps_weaken; [by apply (FetchAllTransactions_keeps eq)|].
  intros lists Hall. unfold c_ids in Hall. rewrite Forall2_fmap_l in Hall.
  apply list_eq. intros i. rewrite list_lookup_fmap. destruct (seqZ n len !! i) as [m|] eqn:E.
  - destruct (Forall2_lookup_l _ _ _ _ _ Hall E) as (txs & -> & h' & <- & Ht). cbn. f_equal.
    apply real_txs_chain; [|exact Ht]. apply lookup_seqZ in E. unfold c_has. lia.
  - cbn. apply lookup_ge_None in E. apply lookup_ge_None. apply Forall2_length in Hall. lia.
Qed.

(** ** The source meets what the driver asks of its services *)
Lemma call_sound {A} (cl : M W A) : preserves sound (call (S:=Source) cl).
Proof. intros w Hw. by apply (call_keeps cl). Qed.
Lemma keeps_is_preserves {A} (cl : M (Source * W) A) Q : keeps sound cl Q -> preserves sound cl.
Proof. intros Hc w Hw. by apply Hc. Qed.

(** An answer of the engine beside the source is one of the engine. *)
Lemma reads_beside {A} (cl : M W A) a : reads sound (call (S:=Source) cl) a -> reads (fun _ => True) cl a.
Proof.
  intros ([s w] & w' & _ & E). unfold call in E. cbn in E. destruct (cl w) as [r w1] eqn:Ec.
  injection E as -> <-. by exists w, w1.
Qed.
Lemma beside_answer p : engine_answer (W:=Source * W) sound p -> engine_answer (W:=W) (fun _ => True) p.
Proof. intros [[i Hr]|[n Hr]]; apply reads_beside in Hr; [left|right]; eauto. Qed.
Lemma beside_builds : engine_builds_in (W:=Source * W) sound.
Proof.
  intros fc attrs [s w] r w1 id p w2 _ E1 Ei E2 Hn. cbn in E1, E2. unfold call in E1, E2. cbn in E1, E2.
  destruct (eng_ForkchoiceUpdate fc (Some attrs) w) as [r1 v1] eqn:E. injection E1 as -> <-. cbn in E2.
  destruct (eng_GetPayload id v1) as [r2 v2] eqn:E'. injection E2 as -> <-.
  by eapply (eo_builds Hengine).
Qed.

(** Every L1 call keeps the caches sound. *)
Lemma header_ref_sound e id : preserves sound
  (head ← M_err e (headerCall (W:=W) id); mret (HeaderInfo_BlockRef head)).
Proof.
  eapply (keeps_is_preserves _ (fun _ => True)), keeps_bind; [|intros; by apply keeps_ret].
  apply keeps_M_err. by apply (headerCall_keeps (fun _ => True)).
Qed.
Lemma L1Range_sound b max : preserves sound (L1Range (W:=W) b max).
Proof.
  apply (keeps_is_preserves _ (fun _ => True)). eapply keeps_bind; [apply call_keeps|]. intros elems _.
  generalize 0 (@nil BlockID).
  induction elems as [|[result err] elems IH]; intros i out; cbn [L1Range_loop be_Error be_Result];
    [by apply keeps_ret|].
  destruct err; [destruct (errors_is _ _); [by apply keeps_ret|apply keeps_throw]|].
  destruct result as [header|]; [|by apply keeps_ret].
  eapply keeps_bind; [apply get_keeps|]. intros s Hs. rewrite Hs.
  eapply keeps_bind; [apply keeps_M_err, keeps_lift, rpcHeader_Info_real|]. intros info ->.
  eapply keeps_bind; [apply headers_Add_keeps, info_of_real|]. intros _ _. cbv zeta.
  eapply (keeps_bind _ _ (fun _ => True)); [destruct (_ <? _); [by apply keeps_lift|by apply keeps_ret]|].
  intros prev _. destruct (negb _); [apply keeps_throw|apply IH].
Qed.

Lemma source_invariant fin : driver_invariant (W:=Source * W) fin sound.
Proof.
  unfold driver_invariant, step_invariant. split_and!; try (intros; apply call_sound).
  - intros h. eapply keeps_is_preserves, keeps_bind; [by apply (InfoByHash_keeps eq)|].
    intros info _. by apply (keeps_ret _ _ (fun _ => True)).
  - intros h. eapply keeps_is_preserves, keeps_bind; [by apply (Fetch_keeps eq)|].
    intros [[info txs] rs] _. by apply (keeps_ret _ _ (fun _ => True)).
  - intros ids. eapply keeps_is_preserves. by apply (FetchAllTransactions_keeps eq).
  - apply header_ref_sound.
  - intros n. apply header_ref_sound.
  - intros h. eapply keeps_is_preserves, keeps_bind; [by apply keeps_M_err, (InfoByHash_keeps eq)|].
    intros info _. by apply (keeps_ret _ _ (fun _ => True)).
  - apply L1Range_sound.
  - intros publish p. cbn. destruct PublishL2Payload; [|done]. intros [= <-]. apply call_sound.
Qed.

Lemma source_node_ok fin : node_ok (W:=Source * W) config c fin sound timeOf.
Proof.
  split.
  - apply source_invariant.
  - apply beside_builds.
  - apply Hengine.
  - intros p Hp. apply Hengine. by apply beside_answer.
  - intros h p (w & w' & _ & E)%reads_beside. by eapply eo_byhash.
  - intros n i t r Hn Hr. exact (keeps_reads _ _ _ _ (dl_Fetch_chain n Hn) Hr).
  - intros n i Hn Hr. exact (keeps_reads _ _ _ _ (dl_InfoByHash_chain n Hn) Hr).
  - intros n len l Hn Hh Hr. exact (keeps_reads _ _ _ _ (dl_FetchAllTransactions_chain n len Hn Hh) Hr).
  - intros n max ids Hn Hr. exact (keeps_reads _ _ _ _ (L1Range_chain n max Hn) Hr).
Qed.

Context (fuel : nat) (HW : 1 <= cfg_SeqWindowSize config < 2 ^ 63).
Context (Hbt : 0 < cfg_BlockTime config < 2 ^ 62) (Hfuel : Z.of_nat fuel < 2 ^ 63).

(** [C3] The safe chain over the L1 client.  A node whose source does not trust its RPC, but
    whose RPC answers requests by hash and by number with blocks of the chain [c]: it may
    lie about everything that the hashes commit to and about the positions of receipts and
    logs, know of fewer blocks and fail at any time.  A block hash commits to the header, its
    roots to the transactions and to the receipts as the trie encodes them; the statuses,
    which that encoding does not pin down, are taken to be 0 or 1.  In every run the safe
    head is at the end of blocks that [derive_chain] gives for some number of epochs of [c];
    nothing false is ever in the source's caches. *)
Theorem source_safe_chain sequencer sc src s0 w0 tr l :
  NewSource sc = Ok src -> sc_TrustRPC sc = false ->
  starts c timeOf (s_l2SafeHead s0) -> s_l1WindowBuf s0 = [] ->
  heads_extend c (l1_Hash (s_l1Head s0)) (announced tr) ->
  @reachable (Source * W) _ _ _ (node_output fuel config) _ fuel config sequencer s0 (src, w0) tr l ->
  caches_sound (lp_world l).1 /\
  exists k attrss payloads,
    derived_to fuel config c sound (s_l2SafeHead s0) (s_l2SafeHead (lp_state l)) k attrss payloads.
Proof.
  intros Esrc Htrust Hs Hw Hh Hr. apply NewSource_sound in Esrc; [|done].
  assert (R : node_run fuel config c sequencer sound timeOf s0 (src, w0) tr l).
  { split; [apply source_node_ok|exact Esrc|done..]. }
  by eapply node_run_derived in R.
Qed.
End L1Rollup.

(** ** Witness: a chain of 15 blocks whose hashes commit to them *)
Definition commit_txs (n : Z) : list (byte * list byte) := if n =? 11 then [(x02, toy_batch_data)] else [].
Definition commit_receipts (n : Z) : list Receipt :=
  if n =? 11 then
    let h := @tx_Hash ToyGeth (x02, toy_batch_data) in
    [mkReceipt x02 [] 1 21000 0 [mkLog 900 [7] [x01] 11 h 0 101 0 false] 0 (Some 11) 101 h]
  else [].

(** The root of a list is 1 for no, 2 for the known one and 3 for any other. *)
Definition commit_root {A} `{EqDecision A} (known l : list A) : Hash :=
  if bool_decide (l = []) then 1 else if bool_decide (l = known) then 2 else 3.
#[local] Instance Header_eq_dec : EqDecision Header.
Proof. solve_decision. Defined.

Definition txs_root (encs : list (list byte)) : Hash := commit_root [x02 :: toy_batch_data] encs.
Definition enc_txs (l : list (byte * list byte)) : list (list byte) := (fun tx => fst tx :: snd tx) <$> l.
Definition receipts_root (l : list Receipt) : Hash :=
  commit_root (consensus <$> commit_receipts 11) (consensus <$> l).

Definition commit_header (n : Z) : Header :=
  mkHeader (n + 89) 12 0 0 (txs_root (enc_txs (commit_txs n))) (receipts_root (commit_receipts n)) 0 0 n 0 0
    (1004 + 6 * (n - 11)) [] 55 0 7.
Definition commit_hash (hd : Header) : Hash :=
  let n := hdr_Number hd in
  if (0 <=? n) && (n <=? 15) && bool_decide (hd = commit_header n) then n + 90 else 9999.

Definition CommitGeth : GethTypes := {|
  Transaction := @Transaction ToyGeth; tx_Type := @tx_Type ToyGeth; tx_Data := @tx_Data ToyGeth;
  tx_To := @tx_To ToyGeth; tx_Hash := @tx_Hash ToyGeth;
  tx_MarshalBinary := @tx_MarshalBinary ToyGeth; tx_UnmarshalBinary := @tx_UnmarshalBinary ToyGeth;
  DepositTxType := x7e; NewDepositTx := @NewDepositTx ToyGeth; tx_Sender := @tx_Sender ToyGeth;
  DeriveSha_bytes := txs_root; DeriveSha_txs := fun l => txs_root (enc_txs l);
  DeriveSha_receipts := receipts_root;
  header_Hash := commit_hash; EmptyRootHash := 1; EmptyUncleHash := 12;
|}.
Lemma CommitGethLaws : @GethLaws CommitGeth.
Proof.
  pose proof ToyGethLaws as HL. split; try apply HL.
  intros txs encs Hall. cbn. f_equal.
  induction Hall as [|[t d] b txs encs [= <-] _ IH]; [done|]. cbn. by rewrite IH.
Qed.

Definition commit_L1 : @CanonicalL1 CommitGeth := @mkCanonicalL1 CommitGeth 15 (fun n =>
  @mkL1Block CommitGeth (HeaderInfo_L1Info (@info_of CommitGeth (commit_header n))) (commit_receipts n) (commit_txs n)).

Lemma commit_header_hash n : 0 <= n <= 15 -> commit_hash (commit_header n) = n + 90.
Proof.
  intros ?. unfold commit_hash. cbn [hdr_Number commit_header].
  rewrite bool_decide_eq_true_2 by done. by rewrite !(proj2 (Z.leb_le _ _)) by lia.
Qed.
Lemma commit_hash_inv hd n : 0 <= n <= 15 -> commit_hash hd = n + 90 -> hd = commit_header n.
Proof.
  intros ?. unfold commit_hash. destruct (_ && _) eqn:E; [|lia].
  apply andb_prop in E as [_ E]. apply bool_decide_eq_true in E. intros Hn.
  replace (hdr_Number hd) with n in E by lia. done.
Qed.
Lemma commit_hash_chain n : @c_has CommitGeth commit_L1 n -> @c_hash CommitGeth commit_L1 n = n + 90.
Proof. intros Hn. apply commit_header_hash, Hn. Qed.

Lemma commit_canonical : @canonical CommitGeth commit_L1.
Proof.
  split; [cbn; lia| |].
  - intros n [Hn1 Hn2]. cbn in Hn2. unfold L1Info_ok, c_info. cbn. rewrite commit_header_hash by lia.
    rewrite wrap_small by (unfold in_range; lia). unfold in_range. split; [lia|done].
  - intros n m Hn Hm. rewrite !commit_hash_chain by done. lia.
Qed.

Lemma commit_root_inv {A} `{EqDecision A} (known l : list A) b :
  known <> [] -> commit_root known l = commit_root known (if b : bool then known else []) ->
  l = if b then known else [].
Proof.
  unfold commit_root. intros Hk. destruct b.
  - rewrite (bool_decide_eq_false_2 _ Hk), (bool_decide_eq_true_2 (known = known)) by done.
    by repeat case_bool_decide.
  - rewrite (bool_decide_eq_true_2 ([] = [])) by done. by repeat case_bool_decide.
Qed.

Lemma enc_txs_inj l l' : enc_txs l = enc_txs l' -> l = l'.
Proof.
  revert l'. induction l as [|[t d] l IH]; intros [|[t' d'] l'] E; try done.
  cbn in E. injection E as -> -> E. f_equal. by apply IH.
Qed.
Lemma commit_commits : @commits CommitGeth commit_L1.
Proof.
  intros n hd Hn Hh. rewrite commit_hash_chain in Hh by done. apply commit_hash_inv in Hh as ->; [|exact Hn].
  split; [done|]. split.
  - intros txs E. apply enc_txs_inj. change (txs_root (enc_txs txs) = txs_root (enc_txs (commit_txs n))) in E.
    change (enc_txs txs = enc_txs (commit_txs n)). unfold txs_root, commit_txs in *.
    destruct (n =? 11).
    + by apply (commit_root_inv _ _ true) in E.
    + by apply (commit_root_inv _ _ false) in E.
  - intros rs [E|[-> E]].
    + change (receipts_root rs = receipts_root (commit_receipts n)) in E. change (consensus <$> rs = consensus <$> commit_receipts n).
      unfold receipts_root, commit_receipts in *. destruct (n =? 11).
      * by apply (commit_root_inv _ _ true) in E.
      * by apply (commit_root_inv _ _ false) in E.
    + change (receipts_root (commit_receipts n) = 1) in E. 
      change ([] = consensus <$> commit_receipts n).
      unfold commit_receipts in *. destruct (n =? 11); [vm_compute in E; discriminate|done].
Qed.

(** The RPC knows the chain up to block 12. *)
Definition commit_rpc (n : Z) : option rpcHeader :=
  if (0 <=? n) && (n <=? 15) then Some (mkRpcHeader (n + 90) (commit_header n)) else None.
Definition commit_rpc_block (n : Z) : option (@rpcBlock CommitGeth) :=
  (fun hd => @mkRpcBlock CommitGeth hd (commit_txs n)) <$> commit_rpc n.
Definition no_block : @rpcBlock CommitGeth := @mkRpcBlock CommitGeth (mkRpcHeader 0 (commit_header 0)) [].
Definition CommitRPC : @RPCClient CommitGeth ToyWorld := @Build_RPCClient CommitGeth ToyWorld
  (fun id => mret (match id with ByHash h => commit_rpc (h - 90) | ByNumber n => commit_rpc n | Latest => commit_rpc 12 end))
  (fun id => mret (match id with
     | ByHash h => commit_rpc_block (h - 90) | ByNumber n => commit_rpc_block n | Latest => commit_rpc_block 12 end))
  (fun hs => mret ((fun h => match commit_rpc_block (h - 90) with
     | Some b => mkBatchElem b None | None => mkBatchElem no_block (Some ENotFound) end) <$> hs))
  (fun ns => mret ((fun n => mkBatchElem (if n <=? 12 then commit_rpc n else None) None) <$> ns))
  (fun hs => mret (Some <$> (if bool_decide (hs = []) then [] else commit_receipts 11))).

Lemma commit_answers : @rpc_answers CommitGeth ToyWorld CommitRPC eq.
Proof.
  assert (Hr : forall h hd, commit_rpc (h - 90) = Some hd -> h = rh_cache_Hash hd).
  { intros h hd. unfold commit_rpc. destruct (_ && _); [|done]. intros [= <-]. cbn. lia. }
  split.
  - intros h w hd w' E. cbn in E. injection E as E _. by apply Hr.
  - intros h w b w' E. cbn in E. injection E as E _. apply fmap_Some in E as (hd & E & ->). by apply Hr.
  - intros hs w elems w' E. cbn in E. injection E as <- _.
    apply Forall2_fmap_r, Forall_Forall2_diag, Forall_forall. intros h _. cbn -[commit_rpc]. unfold commit_rpc_block.
    destruct (commit_rpc (h - 90)) as [hd|] eqn:E; cbn; [|done]. intros _. by apply Hr.
Qed.
Lemma commit_placed : @receipts_placed CommitGeth commit_L1.
Proof.
  intros n Hn. change (@placed CommitGeth (@c_id CommitGeth commit_L1 n) (commit_txs n) (commit_receipts n) /\
    Forall plain_status (commit_receipts n)).
  unfold c_id. rewrite commit_hash_chain by done. unfold commit_txs, commit_receipts.
  destruct (Z.eqb_spec n 11) as [->|]; [|split; [split_and!; [done|by intros ? ?..]|done]].
  split; [|constructor; [split; [done|by right]|done]]. split_and!; [done| |].
  - intros [|j] tx r Etx Er; [|done]. injection Etx as <-. injection Er as <-.
    split_and!; [done|done|by exists 11|]. constructor; [by split_and!|done].
  - intros [|j] l E; [|done]. by injection E as <-.
Qed.
Lemma commit_statuses : @rpc_statuses CommitGeth ToyWorld CommitRPC.
Proof.
  intros r (hs & w & l & w' & E & Hr). cbn in E. injection E as <- _.
  apply list_elem_of_fmap in Hr as (r' & [= <-] & Hr). case_bool_decide; [by apply elem_of_nil in Hr|].
  apply list_elem_of_singleton in Hr as ->. split; [done|by right].
Qed.
Lemma commit_numbers : @rpc_numbers CommitGeth ToyWorld CommitRPC commit_L1.
Proof.
  intros ns w elems w' E. cbn in E. injection E as <- _.
  apply Forall2_fmap_r, Forall_Forall2_diag, Forall_forall. intros n _ header _ E. cbn in E.
  unfold commit_rpc in E. destruct (n <=? 12); [|done]. destruct (_ && _) eqn:Hn; [|done].
  assert (Hhas : @c_has CommitGeth commit_L1 n) by (unfold c_has; cbn; lia).
  injection E as <-. split; [done|]. by rewrite commit_hash_chain.
Qed.
Lemma commit_engine : @engine_ok ToyWorld ChainEngine toy_config chain_time.
Proof.
  pose proof (chain_ok ToyDriverL2) as Hok. split.
  - apply Hok.
  - apply Hok.
  - intros p Hp. by apply (ok_answer _ _ _ _ _ Hok).
  - intros h w p w' E. apply (ok_byhash _ _ _ _ _ Hok). by exists w, w'.
Qed.

Section CommitRun.
#[local] Existing Instance CommitGeth.
#[local] Existing Instance CommitRPC.
#[local] Existing Instance OneEntry.
#[local] Existing Instance ToyDriverL2.
#[local] Existing Instance ToyNetwork.
#[local] Existing Instance ChainEngine.
Definition commit_DriverL1 := @Source_DriverL1 CommitGeth OneEntry ToyWorld CommitRPC.
Definition commit_Downloader := @Source_Downloader CommitGeth OneEntry ToyWorld CommitRPC.
Definition commit_Engine := @beside_Engine CommitGeth OneEntry ToyWorld ChainEngine.
Definition commit_DriverL2 := @beside_DriverL2 CommitGeth OneEntry ToyWorld ToyDriverL2.
Definition commit_Network := @beside_Network CommitGeth OneEntry ToyWorld ToyNetwork.
Definition commit_output : Output (Source * ToyWorld) :=
  @node_output ToyKeccak CommitGeth ToyRLP (Source * ToyWorld) commit_Engine commit_Downloader 10 toy_config.

Definition commit_source : Source :=
  match NewSource chain_config with Ok s => s | _ => mkSource true None None None end.
Definition commit_step (e : event) (l : loop_state) : loop_state :=
  from_option id l (@loop_step (Source * ToyWorld) CommitGeth commit_DriverL1 commit_DriverL2 commit_output
    commit_Network 10 toy_config false e l).

(** A verifier derives the epoch of block 11, is told of block 13 and derives that of 12. *)
Definition commit_0 : loop_state := loop_start toy_state (commit_source, toy_world).
Definition commit_1 := commit_step EvStepReq commit_0.
Definition commit_2 := commit_step (EvOnL1Head toy_head) commit_1.
Definition commit_3 := commit_step EvL1Head commit_2.
Definition commit_end := commit_step EvStepReq commit_3.

Definition commit_run : list event -> loop_state -> Prop :=
  @reachable (Source * ToyWorld) CommitGeth commit_DriverL1 commit_DriverL2 commit_output commit_Network
    10 toy_config false toy_state (commit_source, toy_world).
Definition commit_enabled (e : event) (l : loop_state) : bool :=
  match @loop_step (Source * ToyWorld) CommitGeth commit_DriverL1 commit_DriverL2 commit_output
    commit_Network 10 toy_config false e l with Some _ => true | None => false end.
Lemma commit_run_step tr e l : commit_run tr l -> commit_enabled e l = true ->
  commit_run (tr ++ [e]) (commit_step e l).
Proof.
  intros Hr He. eapply reach_step; [exact Hr|]. unfold commit_enabled, commit_step in *.
  by destruct (loop_step _ _ _ e l).
Qed.
Lemma commit_reachable : commit_run [EvStepReq; EvOnL1Head toy_head; EvL1Head; EvStepReq] commit_end.
Proof.
  apply (commit_run_step [EvStepReq; EvOnL1Head toy_head; EvL1Head]); [|vm_compute; reflexivity].
  apply (commit_run_step [EvStepReq; EvOnL1Head toy_head]); [|vm_compute; reflexivity].
  apply (commit_run_step [EvStepReq]); [|vm_compute; reflexivity].
  apply (commit_run_step []); [apply reach_start|vm_compute; reflexivity].
Qed.

Lemma source_safe_chain_witness :
  l2_Number (s_l2SafeHead (lp_state commit_end)) = 7 /\ caches_sound (lp_world commit_end).1 /\
  exists k attrss payloads,
    @derived_to ToyKeccak CommitGeth ToyRLP _ commit_Engine 10 toy_config commit_L1 sound
      toy_l2_genesis (s_l2SafeHead (lp_state commit_end)) k attrss payloads.
Proof.
  split; [vm_compute; reflexivity|].
  refine (@source_safe_chain ToyKeccak CommitGeth CommitGethLaws ToyRLP OneEntry OneEntryLaws ToyWorld
    CommitRPC ChainEngine ToyDriverL2 ToyNetwork toy_config commit_L1 chain_time commit_canonical
    commit_commits commit_engine commit_answers commit_numbers commit_placed commit_statuses 10 _ _ _ false chain_config commit_source
    toy_state toy_world _ commit_end _ _ _ _ _ commit_reachable).
  - cbn. lia.
  - cbn. lia.
  - cbn. lia.
  - reflexivity.
  - reflexivity.
  - split; [reflexivity|unfold c_has; cbn; lia|vm_compute; reflexivity].
  - reflexivity.
  - cbn. split; [|split; [by right|done]]. unfold head_of_chain, c_has. cbn. by split_and!.
Defined.
End CommitRun.
