(* ===== verification/Batching.v ===== *)
(** * Batched RPC requests

    op-node/l1/batching.go and request_sema.go: [fetchBatched] splits requests into
    batches, runs them on worker go-routines and retries the elements that failed.  It is
    a step relation over the main go-routine, the workers and the two channels; the steps
    interleave freely. *)

From S2P Require Import Prelude.

(** ** The elements

    A request is identified by its index in the caller's slice.  Its [Result] pointer is
    shared by all copies of the element, its [Error] field is not: [el_orig] tells an
    element of the caller's array, whose [Error] the caller reads, from a copy. *)
Record elem := mkElem { el_id : nat; el_orig : bool }.
Definition copy_elem (e : elem) : elem := mkElem (el_id e) false.

Record batchResult := mkBatchResult {
  br_failed : list elem;
  br_err : option error;
  br_success : Z;
}.

Inductive worker :=
  | Idle                      (* waits for a batch *)
  | Busy (batch : list elem)  (* inside getBatch *)
  | Sending (r : batchResult). (* completed <- r *)

(** Where the main go-routine is: in the loop of [parallelRequests] at [i], at the head of
    its own loop, in the select, or returned. *)
Inductive main_state :=
  | Pushing (i : Z)
  | Checking
  | Selecting
  | Returned (r : option error).

Record fetch_state := mkFetch {
  fs_requests : list elem;
  fs_batchRequests : list (list elem);
  fs_workers : list worker;
  fs_completed : list batchResult;
  fs_count : Z;
  fs_awaited : Z;
  fs_main : main_state;
  fs_errors : gmap nat error; (* the caller's [Error] fields that are not nil *)
  fs_results : gset nat;      (* the requests whose [Result] is filled *)
}.

(** What [getBatch] does to a batch: it fails as a whole, or answers each element with a
    result or an error. *)
Inductive answer :=
  | BatchError (e : error)
  | Answers (l : list (option error)).

Section Fetch.
Context (maxRetry maxPerBatch maxParallel0 : Z) (n : nat).

Definition expectedBatches : Z := Z.quot (Z.of_nat n + maxPerBatch - 1) maxPerBatch.
Definition maxParallel : Z := if expectedBatches <? maxParallel0 then expectedBatches else maxParallel0.
Definition maxCount : Z := expectedBatches * maxRetry.

(** The state when the main go-routine starts its first [parallelRequests]. *)
Definition fetch_start : fetch_state := {|
  fs_requests := (fun i => mkElem i true) <$> seq 0 n;
  fs_batchRequests := [];
  fs_workers := replicate (Z.to_nat maxParallel) Idle;
  fs_completed := [];
  fs_count := 0;
  fs_awaited := Z.of_nat n;
  fs_main := Pushing 0;
  fs_errors := ∅;
  fs_results := ∅;
|}.

(** [batchRequest], given what [getBatch] did. *)
Fixpoint batch_failed (batch : list elem) (l : list (option error)) : list elem :=
  match batch, l with
  | e :: batch, Some _ :: l => copy_elem e :: batch_failed batch l
  | _ :: batch, _ :: l => batch_failed batch l
  | _, _ => []
  end.
Fixpoint batch_errors (batch : list elem) (l : list (option error)) (m : gmap nat error) : gmap nat error :=
  match batch, l with
  | e :: batch, Some err :: l =>
      batch_errors batch l (if el_orig e then <[el_id e := err]> m else m)
  | _ :: batch, _ :: l => batch_errors batch l m
  | _, _ => m
  end.
Fixpoint batch_results (batch : list elem) (l : list (option error)) (s : gset nat) : gset nat :=
  match batch, l with
  | e :: batch, None :: l => batch_results batch l ({[el_id e]} ∪ s)
  | _ :: batch, _ :: l => batch_results batch l s
  | _, _ => s
  end.
Definition batchRequest (batch : list elem) (a : answer) : batchResult :=
  match a with
  | BatchError e => mkBatchResult [] (Some (wrapw "failed batch-retrieval: " e)) (zlen batch)
  | Answers l =>
      let failed := batch_failed batch l in
      mkBatchResult failed None (zlen batch - zlen failed)
  end.

(** [append(requests, failed...)]: the capacity of the slice is its length, so a first
    append copies the elements that are left to a new array. *)
Definition append_failed (requests failed : list elem) : list elem :=
  match failed with
  | [] => requests
  | _ => (copy_elem <$> requests) ++ failed
  end.

Definition with_main (m : main_state) (s : fetch_state) : fetch_state :=
  mkFetch (fs_requests s) (fs_batchRequests s) (fs_workers s) (fs_completed s) (fs_count s)
    (fs_awaited s) m (fs_errors s) (fs_results s).

Inductive fetch_event :=
  | MainPush | MainCheck | MainTick | MainResult | MainCancel (e : error)
  | WorkerTake (w : nat) | WorkerAnswer (w : nat) (a : answer) | WorkerSend (w : nat).

(** One step of one go-routine, when it is not blocked. *)
Definition fetch_step (ev : fetch_event) (s : fetch_state) : option fetch_state :=
  match ev, fs_main s with
  | MainPush, Pushing i =>
      if (i <? maxParallel) && (0 <? zlen (fs_requests s)) then
        if zlen (fs_batchRequests s) <? maxParallel then
          let nextBatch := if maxPerBatch <? zlen (fs_requests s)
                           then take (Z.to_nat maxPerBatch) (fs_requests s) else fs_requests s in
          Some (mkFetch (drop (length nextBatch) (fs_requests s)) (fs_batchRequests s ++ [nextBatch])
                  (fs_workers s) (fs_completed s) (fs_count s) (fs_awaited s) (Pushing (i + 1))
                  (fs_errors s) (fs_results s))
        else None
      else
        Some (mkFetch (fs_requests s) (fs_batchRequests s) (fs_workers s) (fs_completed s)
                (fs_count s + i) (fs_awaited s) Checking (fs_errors s) (fs_results s))
  | MainCheck, Checking =>
      Some (with_main (if fs_awaited s <=? 0 then Returned None
                       else if maxCount <? fs_count s then Returned (Some ETooManyRetries)
                       else Selecting) s)
  | MainTick, Selecting => Some (with_main (Pushing 0) s)
  | MainResult, Selecting =>
      match fs_completed s with
      | [] => None
      | r :: rest =>
          let s := mkFetch (fs_requests s) (fs_batchRequests s) (fs_workers s) rest (fs_count s)
                     (fs_awaited s) (fs_main s) (fs_errors s) (fs_results s) in
          match br_err r with
          | Some e => Some (with_main (Returned (Some (wrapw "batch request failed: " e))) s)
          | None =>
              Some (mkFetch (append_failed (fs_requests s) (br_failed r)) (fs_batchRequests s)
                      (fs_workers s) (fs_completed s) (fs_count s) (fs_awaited s - br_success r)
                      Checking (fs_errors s) (fs_results s))
          end
      end
  | MainCancel e, Selecting => Some (with_main (Returned (Some e)) s)
  | WorkerTake w, _ =>
      match fs_workers s !! w, fs_batchRequests s with
      | Some Idle, batch :: rest =>
          Some (mkFetch (fs_requests s) rest (<[w := Busy batch]> (fs_workers s)) (fs_completed s)
                  (fs_count s) (fs_awaited s) (fs_main s) (fs_errors s) (fs_results s))
      | _, _ => None
      end
  | WorkerAnswer w a, _ =>
      match fs_workers s !! w with
      | Some (Busy batch) =>
          match a with
          | BatchError _ =>
              Some (mkFetch (fs_requests s) (fs_batchRequests s)
                      (<[w := Sending (batchRequest batch a)]> (fs_workers s)) (fs_completed s)
                      (fs_count s) (fs_awaited s) (fs_main s) (fs_errors s) (fs_results s))
          | Answers l =>
              if (length l =? length batch)%nat then
                Some (mkFetch (fs_requests s) (fs_batchRequests s)
                        (<[w := Sending (batchRequest batch a)]> (fs_workers s)) (fs_completed s)
                        (fs_count s) (fs_awaited s) (fs_main s)
                        (batch_errors batch l (fs_errors s)) (batch_results batch l (fs_results s)))
              else None
          end
      | _ => None
      end
  | WorkerSend w, _ =>
      match fs_workers s !! w with
      | Some (Sending r) =>
          if zlen (fs_completed s) <? maxParallel then
            Some (mkFetch (fs_requests s) (fs_batchRequests s) (<[w := Idle]> (fs_workers s))
                    (fs_completed s ++ [r]) (fs_count s) (fs_awaited s) (fs_main s)
                    (fs_errors s) (fs_results s))
          else None
      | _ => None
      end
  | _, _ => None
  end.

Inductive fetch_reachable : fetch_state -> Prop :=
  | fetch_reach_start : fetch_reachable fetch_start
  | fetch_reach_step s ev s' : fetch_reachable s -> fetch_step ev s = Some s' -> fetch_reachable s'.

Fixpoint fetch_run (evs : list fetch_event) (s : fetch_state) : option fetch_state :=
  match evs with
  | [] => Some s
  | ev :: evs => match fetch_step ev s with Some s => fetch_run evs s | None => None end
  end.
Lemma fetch_run_reachable evs s s' :
  fetch_reachable s -> fetch_run evs s = Some s' -> fetch_reachable s'.
Proof.
  revert s. induction evs as [|ev evs IH]; intros s Hr; cbn; [by intros [= <-]|].
  destruct (fetch_step ev s) as [s1|] eqn:E; [|done]. apply IH. by eapply fetch_reach_step.
Qed.
End Fetch.

(** ** Where the requests are *)
Definition ids (l : list elem) : list nat := el_id <$> l.

Definition sumZ (l : list Z) : Z := foldr Z.add 0 l.
Lemma sumZ_cons x l : sumZ (x :: l) = x + sumZ l.
Proof. done. Qed.
Lemma sumZ_app l1 l2 : sumZ (l1 ++ l2) = sumZ l1 + sumZ l2.
Proof. induction l1; unfold sumZ in *; cbn; lia. Qed.
Lemma sumZ_insert {A} (f : A -> Z) l i x y :
  l !! i = Some x -> sumZ (f <$> <[i := y]> l) = sumZ (f <$> l) - f x + f y.
Proof.
  revert i. induction l as [|z l IH]; intros [|i] E; try done.
  - injection E as ->. change (<[0%nat:=y]> (x :: l)) with (y :: l). rewrite !fmap_cons, !sumZ_cons. lia.
  - apply IH in E. change (<[S i:=y]> (z :: l)) with (z :: <[i:=y]> l).
    rewrite !fmap_cons, !sumZ_cons. lia.
Qed.
(** With every load at least one, the sum bounds the length. *)
Lemma sumZ_length {A} (f : A -> Z) l : Forall (fun x => 1 <= f x) l -> zlen l <= sumZ (f <$> l).
Proof. induction 1; [done|]. rewrite fmap_cons, sumZ_cons, zlen_cons. lia. Qed.

Lemma elem_of_zlen {A} (x : A) l : x ∈ l -> 1 <= zlen l.
Proof. destruct l; [by intros ?%elem_of_nil|]. rewrite zlen_cons. pose proof (zlen_nonneg l). lia. Qed.

(** The number of elements a result, or a worker, answers for. *)
Definition res_load (r : batchResult) : Z := zlen (br_failed r) + br_success r.
Definition worker_load (w : worker) : Z :=
  match w with Idle => 0 | Busy b => zlen b | Sending r => res_load r end.
Definition total (s : fetch_state) : Z :=
  zlen (fs_requests s) + sumZ (zlen <$> fs_batchRequests s) +
  sumZ (worker_load <$> fs_workers s) + sumZ (res_load <$> fs_completed s).

Definition result_ok (r : batchResult) : Prop := 1 <= res_load r /\ 0 <= br_success r.
Definition worker_ok (w : worker) : Prop :=
  match w with Idle => True | Busy b => b <> [] | Sending r => result_ok r end.

(** Request [id] is answered, or still on its way. *)
Definition result_has (id : nat) (r : batchResult) : Prop := id ∈ ids (br_failed r) \/ br_err r <> None.
Definition worker_has (id : nat) (w : worker) : Prop :=
  match w with Idle => False | Busy b => id ∈ ids b | Sending r => result_has id r end.
Definition covered (s : fetch_state) (id : nat) : Prop :=
  id ∈ fs_results s \/ id ∈ ids (fs_requests s) \/
  Exists (fun b => id ∈ ids b) (fs_batchRequests s) \/
  Exists (worker_has id) (fs_workers s) \/ Exists (result_has id) (fs_completed s).

Lemma ids_copy l : ids (copy_elem <$> l) = ids l.
Proof. unfold ids. rewrite <-list_fmap_compose. by apply list_fmap_ext. Qed.
Lemma ids_append_failed requests failed :
  ids (append_failed requests failed) = ids requests ++ ids failed.
Proof.
  unfold append_failed. destruct failed; [by rewrite app_nil_r|].
  unfold ids at 1. rewrite fmap_app. by rewrite <-(ids_copy requests).
Qed.
Lemma length_append_failed requests failed :
  zlen (append_failed requests failed) = zlen requests + zlen failed.
Proof.
  pose proof (f_equal (length (A:=nat)) (ids_append_failed requests failed)) as E.
  unfold ids in E. rewrite length_app, !length_fmap in E. unfold zlen. lia.
Qed.
Lemma batch_failed_spec batch l :
  length l = length batch ->
  (length (batch_failed batch l) <= length batch)%nat /\
  forall id s, id ∈ ids batch -> id ∈ ids (batch_failed batch l) \/ id ∈ batch_results batch l s.
Proof.
  revert l. induction batch as [|e batch IH]; intros [|[err|] l] Hl; try done.
  - split; [done|]. intros id s Hin. by apply elem_of_nil in Hin.
  - destruct (IH l) as [H1 H2]; [by injection Hl|]. split; [simpl; lia|].
    intros id s [->|Hin]%elem_of_cons; [left; cbn; by left|].
    destruct (H2 id s Hin); [left; cbn; by right|by right].
  - destruct (IH l) as [H1 H2]; [by injection Hl|]. split; [simpl; lia|].
    intros id s [->|Hin]%elem_of_cons; [|by apply H2]. right. cbn.
    clear. generalize ({[el_id e]} ∪ s) as t, (elem_of_union_l (el_id e) {[el_id e]} s
      (proj2 (elem_of_singleton _ _) eq_refl)).
    intros t Ht. revert l t Ht.
    induction batch as [|e' batch IH]; intros [|[]] t Ht; cbn; auto. apply IH. set_solver.
Qed.
Lemma batch_results_keeps batch l (s : gset nat) id : id ∈ s -> id ∈ batch_results batch l s.
Proof.
  revert l s. induction batch as [|e batch IH]; intros [|[]] s Hs; cbn; auto.
  apply IH. set_solver.
Qed.

Lemma batchRequest_ok batch a :
  batch <> [] -> (forall l, a = Answers l -> length l = length batch) ->
  result_ok (batchRequest batch a) /\ res_load (batchRequest batch a) = zlen batch.
Proof.
  intros Hne Ha. assert (0 < zlen batch) by (destruct batch; [done|]; unfold zlen; simpl; lia).
  destruct a as [e|l]; unfold result_ok, res_load; cbn.
  - unfold zlen in *. simpl. lia.
  - destruct (batch_failed_spec batch l (Ha l eq_refl)) as [Hf _]. unfold zlen in *. lia.
Qed.

Ltac fs_cbn :=
  cbn [fs_requests fs_batchRequests fs_workers fs_completed fs_count fs_awaited fs_main fs_errors fs_results].

(** ** The invariant *)
Section Invariant.
Context (maxRetry maxPerBatch maxParallel0 : Z) (n : nat).
Context (HB : 1 <= maxPerBatch) (HP : 1 <= maxParallel0).
Abbreviation P := (maxParallel maxPerBatch maxParallel0 n).
Abbreviation step := (fetch_step maxRetry maxPerBatch maxParallel0 n).
Abbreviation reach := (fetch_reachable maxRetry maxPerBatch maxParallel0 n).

Definition failed_return (s : fetch_state) : Prop := exists e, fs_main s = Returned (Some e).
Definition fetch_inv (s : fetch_state) : Prop :=
  zlen (fs_workers s) = P /\
  Forall (fun b => b <> []) (fs_batchRequests s) /\
  Forall worker_ok (fs_workers s) /\ Forall result_ok (fs_completed s) /\
  fs_awaited s <= Z.of_nat n /\
  (fs_main s = Returned None -> fs_awaited s <= 0) /\
  (failed_return s \/ (total s = fs_awaited s /\ forall id, (id < n)%nat -> covered s id)).

Lemma maxParallel_nonneg : 0 <= P.
Proof.
  unfold maxParallel, expectedBatches.
  assert (0 <= Z.quot (Z.of_nat n + maxPerBatch - 1) maxPerBatch) by (apply Z.quot_pos; lia).
  destruct (_ <? _); lia.
Qed.

Lemma fetch_inv_start : fetch_inv (fetch_start maxPerBatch maxParallel0 n).
Proof.
  pose proof maxParallel_nonneg. unfold fetch_inv, fetch_start. cbn. split_and!; try done.
  - unfold zlen. rewrite length_replicate. lia.
  - by apply Forall_replicate.
  - right. split.
    + unfold total. cbn [fs_requests fs_batchRequests fs_workers fs_completed fs_awaited].
      assert (forall k, sumZ (worker_load <$> replicate k Idle) = 0) as ->.
      { intros k. induction k; [done|]. cbn [replicate]. by rewrite fmap_cons, sumZ_cons. }
      unfold zlen. rewrite length_fmap, length_seq. cbn. lia.
    + intros id Hid. right; left. unfold ids. cbn. apply list_elem_of_fmap. exists (mkElem id true).
      split; [done|]. apply list_elem_of_fmap. exists id. split; [done|]. apply elem_of_seq. lia.
Qed.

Lemma Exists_insert {A} (Q : A -> Prop) l i x y :
  l !! i = Some x -> Exists Q l -> Q x \/ Exists Q (<[i := y]> l).
Proof.
  intros E HQ. apply Exists_exists in HQ as (z & Hin & HQ).
  apply list_elem_of_lookup in Hin as [j Ej]. destruct (decide (i = j)) as [->|Hne]; [left; congruence|].
  right. apply Exists_exists. exists z. split; [|done]. apply list_elem_of_lookup. exists j.
  by rewrite list_lookup_insert_ne.
Qed.
Lemma Exists_at {A} (Q : A -> Prop) l i x : l !! i = Some x -> Q x -> Exists Q l.
Proof. intros E HQ. apply Exists_exists. exists x. split; [|done]. by eapply list_elem_of_lookup_2. Qed.

(** The main go-routine schedules a batch. *)
Lemma push_inv s (b : list elem) m :
  fetch_inv s -> fs_main s <> Returned None -> b <> [] ->
  fs_requests s = b ++ drop (length b) (fs_requests s) -> (forall r, m <> Returned r) ->
  fetch_inv (mkFetch (drop (length b) (fs_requests s)) (fs_batchRequests s ++ [b]) (fs_workers s)
    (fs_completed s) (fs_count s) (fs_awaited s) m (fs_errors s) (fs_results s)) \/ failed_return s.
Proof.
  intros (Hw & Hq & Hwk & Hc & Ha & Hr & [Hf|[Ht Hcov]]) Hm Hne Hreq Hm'; [by right|left].
  unfold fetch_inv. cbn. split_and!; try done.
  - apply Forall_app. split; [done|]. by constructor.
  - by intros ?%Hm'.
  - right. split.
    + unfold total in *. fs_cbn. rewrite fmap_app, sumZ_app.
      change (sumZ (zlen <$> [b])) with (zlen b + 0). rewrite Hreq, zlen_app in Ht. lia.
    + intros id Hid. destruct (Hcov id Hid) as [?|[Hin|[?|[?|?]]]]; unfold covered; cbn; auto.
      * rewrite Hreq in Hin. unfold ids in Hin. rewrite fmap_app in Hin.
        apply elem_of_app in Hin as [Hin|Hin]; [|by auto]. right; right; left.
        apply Exists_app. right. by constructor.
      * right; right; left. apply Exists_app. by left.
Qed.

(** A worker moves from [x] to [y], and takes or adds batches or results elsewhere. *)
Lemma worker_inv s w x y queue completed errors results :
  fetch_inv s -> fs_workers s !! w = Some x -> worker_ok y ->
  Forall (fun b => b <> []) queue -> Forall result_ok completed ->
  sumZ (zlen <$> queue) + worker_load y + sumZ (res_load <$> completed)
    = sumZ (zlen <$> fs_batchRequests s) + worker_load x + sumZ (res_load <$> fs_completed s) ->
  (forall id, id ∈ fs_results s -> id ∈ results) ->
  (forall id, Exists (fun b => id ∈ ids b) (fs_batchRequests s) \/ worker_has id x \/
     Exists (result_has id) (fs_completed s) ->
   id ∈ results \/ Exists (fun b => id ∈ ids b) queue \/ worker_has id y \/
     Exists (result_has id) completed) ->
  fetch_inv (mkFetch (fs_requests s) queue (<[w := y]> (fs_workers s)) completed (fs_count s)
    (fs_awaited s) (fs_main s) errors results).
Proof.
  intros (Hw & Hq & Hwk & Hc & Ha & Hr & Hrest) Hx Hy Hq' Hc' Hsum Hres Hhas.
  unfold fetch_inv. cbn. split_and!; try done.
  - unfold zlen in *. by rewrite length_insert.
  - by apply Forall_insert.
  - destruct Hrest as [Hf|[Ht Hcov]]; [by left|right]. split.
    + unfold total in *. fs_cbn. rewrite (sumZ_insert _ _ _ x) by done. lia.
    + intros id Hid. specialize (Hhas id).
      assert (Hat : worker_has id y -> Exists (worker_has id) (<[w:=y]> (fs_workers s))).
      { intros Hwy. apply (Exists_at _ _ w y); [|done]. apply list_lookup_insert_eq.
        by eapply lookup_lt_Some. }
      destruct (Hcov id Hid) as [?|[?|[?|[Hwo|?]]]]; unfold covered; cbn; auto.
      * destruct Hhas as [?|[?|[?|?]]]; auto 8.
      * destruct (Exists_insert _ _ _ _ y Hx Hwo) as [Hwx|?]; [|by auto 8].
        destruct Hhas as [?|[?|[?|?]]]; auto 8.
      * destruct Hhas as [?|[?|[?|?]]]; auto 8.
Qed.

Lemma fetch_inv_main s m :
  fetch_inv s -> (forall r, fs_main s <> Returned r) -> (m = Returned None -> fs_awaited s <= 0) ->
  fetch_inv (with_main m s).
Proof.
  intros (Hw & Hq & Hwk & Hc & Ha & Hr & Hrest) Hm Hm'. unfold fetch_inv. cbn. split_and!; try done.
  destruct Hrest as [[e He]|Hrest]; [by apply Hm in He|]. by right.
Qed.

Lemma fetch_inv_result s r rest :
  fetch_inv s -> fs_main s = Selecting -> fs_completed s = r :: rest -> br_err r = None ->
  fetch_inv (mkFetch (append_failed (fs_requests s) (br_failed r)) (fs_batchRequests s) (fs_workers s)
    rest (fs_count s) (fs_awaited s - br_success r) Checking (fs_errors s) (fs_results s)).
Proof.
  intros (Hw & Hq & Hwk & Hc & Ha & Hr & Hrest) Hm Hrs Herr. rewrite Hrs in Hc.
  apply Forall_cons in Hc as [[Hr1 Hr2] Hc]. unfold fetch_inv. cbn. split_and!; try done; [lia|].
  destruct Hrest as [[e He]|[Ht Hcov]]; [congruence|]. right. split.
  - unfold total in *. fs_cbn. rewrite length_append_failed. rewrite Hrs in Ht.
    rewrite fmap_cons, sumZ_cons in Ht. unfold res_load in Ht at 1. lia.
  - intros id Hid. unfold covered. cbn. rewrite ids_append_failed, elem_of_app.
    destruct (Hcov id Hid) as [?|[?|[?|[?|Hex]]]]; auto 8.
    rewrite Hrs in Hex. apply Exists_cons in Hex as [[?|?]|?]; [by auto 8|congruence|by auto 8].
Qed.

Lemma fetch_inv_failed s s' e :
  fetch_inv s -> fs_main s' = Returned (Some e) -> fs_workers s' = fs_workers s ->
  fs_batchRequests s' = fs_batchRequests s -> fs_awaited s' = fs_awaited s ->
  Forall result_ok (fs_completed s') -> fetch_inv s'.
Proof.
  intros (Hw & Hq & Hwk & Hc & Ha & Hr & Hrest) Hm Ew Eq Ea Hc'. unfold fetch_inv.
  rewrite Hm, Ew, Eq, Ea. split_and!; try done. left. by exists e.
Qed.

Lemma fetch_inv_step ev s s' : fetch_inv s -> step ev s = Some s' -> fetch_inv s'.
Proof.
  intros HI E. pose proof HI as (Hw & Hq & Hwk & Hc & Ha & Hr & Hrest).
  destruct ev; cbn [fetch_step] in E.
  - destruct (fs_main s) as [i| | |] eqn:Em; try done.
    assert (Hno : forall r, fs_main s <> Returned r) by (intros r; congruence).
    destruct ((i <? P) && (0 <? zlen (fs_requests s))) eqn:Hi.
    2:{ injection E as <-. unfold fetch_inv. cbn. split_and!; try done.
        destruct Hrest as [[e He]|?]; [congruence|by right]. }
    destruct (zlen (fs_batchRequests s) <? P); [|done].
    apply andb_true_iff in Hi as [_ Hi%Z.ltb_lt]. cbv zeta in E.
    set (b := if maxPerBatch <? zlen (fs_requests s) then take _ _ else fs_requests s) in E.
    injection E as <-.
    assert (b <> [] /\ fs_requests s = b ++ drop (length b) (fs_requests s)) as [Hb1 Hb2].
    { unfold b. destruct (Z.ltb_spec maxPerBatch (zlen (fs_requests s))) as [Hlt|_].
      - split; [|rewrite length_take, Nat.min_l by (unfold zlen in *; lia); by rewrite take_drop].
        intros Hnil%(f_equal (length (A:=elem))). rewrite length_take in Hnil.
        unfold zlen in *. simpl in Hnil. lia.
      - split; [|by rewrite drop_ge, app_nil_r]. intros Hnil. by rewrite Hnil in Hi. }
    destruct (push_inv s b (Pushing (i + 1)) HI) as [Hinv|[e He]];
      [by rewrite Em|done|done|done|exact Hinv|by apply Hno in He].
  - destruct (fs_main s) eqn:Em; try done. injection E as <-.
    apply fetch_inv_main; [done|intros; congruence|].
    destruct (Z.leb_spec (fs_awaited s) 0); [done|]. by destruct (_ <? _).
  - destruct (fs_main s) eqn:Em; try done. injection E as <-.
    apply fetch_inv_main; [done|intros; congruence|done].
  - destruct (fs_main s) eqn:Em; try done. destruct (fs_completed s) as [|r rest] eqn:Ec; [done|].
    destruct (br_err r) as [e|] eqn:Ee; injection E as <-.
    + eapply fetch_inv_failed; cbn; try done. by apply Forall_cons in Hc as [_ Hc].
    + by apply fetch_inv_result.
  - destruct (fs_main s) eqn:Em; try done. injection E as <-.
    eapply fetch_inv_failed; cbn; try done.
  - destruct (fs_workers s !! w) as [[]|] eqn:Ewk; try done.
    destruct (fs_batchRequests s) as [|b rest] eqn:Eb; [done|]. injection E as <-.
    apply Forall_cons in Hq as [Hb Hq].
    apply (worker_inv s w Idle (Busy b)); try done; rewrite Eb.
    + cbn [worker_load]. rewrite fmap_cons, sumZ_cons. lia.
    + intros id [Hex|[[]|?]]; [|by auto]. apply Exists_cons in Hex as [?|?]; cbn; auto.
  - destruct (fs_workers s !! w) as [[|b|]|] eqn:Ewk; try done.
    assert (Hb : b <> []) by (rewrite Forall_lookup in Hwk; by apply (Hwk w _ Ewk)).
    destruct a as [e|l].
    + injection E as <-. destruct (batchRequest_ok b (BatchError e) Hb) as [Hok Hload]; [done|].
      apply (worker_inv s w (Busy b) (Sending (batchRequest b (BatchError e)))); try done.
      intros id [?|[?|?]]; auto. right; right; left. by right.
    + destruct (Nat.eqb_spec (length l) (length b)) as [Hl|]; [|done]. injection E as <-.
      destruct (batchRequest_ok b (Answers l) Hb) as [Hok Hload]; [by intros ? [= <-]|].
      destruct (batch_failed_spec b l Hl) as [_ Hf].
      apply (worker_inv s w (Busy b) (Sending (batchRequest b (Answers l)))); try done.
      * by cbn [worker_load]; rewrite Hload.
      * intros id. apply batch_results_keeps.
      * intros id [?|[Hin|?]]; auto. destruct (Hf id (fs_results s) Hin); auto.
        right; right; left. by left.
  - destruct (fs_workers s !! w) as [[| |r]|] eqn:Ewk; try done.
    destruct (_ <? _); [|done]. injection E as <-.
    assert (Hok : result_ok r) by (rewrite Forall_lookup in Hwk; by apply (Hwk w _ Ewk)).
    apply (worker_inv s w (Sending r) Idle); try done.
    + apply Forall_app. split; [done|]. by constructor.
    + cbn [worker_load]. rewrite fmap_app, sumZ_app.
      change (sumZ (res_load <$> [r])) with (res_load r + 0). cbn. lia.
    + intros id [?|[?|?]]; auto; right; right; right; apply Exists_app; [right|by left].
      by constructor.
Qed.
Lemma fetch_reachable_inv s : reach s -> fetch_inv s.
Proof. induction 1; [apply fetch_inv_start|by eapply fetch_inv_step]. Qed.

(** [fetchBatched] never returns nil too early: in every interleaving of the workers
    and whatever [getBatch] answers and however often elements are retried, when it returns
    nil every request has its result. *)
Lemma fetchBatched_returned s id :
  fetch_reachable maxRetry maxPerBatch maxParallel0 n s ->
  fs_main s = Returned None -> (id < n)%nat -> id ∈ fs_results s.
Proof.
  intros Hr Hm Hid. apply fetch_reachable_inv in Hr as (Hw & Hq & Hwk & Hc & Ha & Hr & Hrest).
  specialize (Hr Hm). destruct Hrest as [[e He]|[Ht Hcov]]; [congruence|]. unfold total in Ht.
  assert (Hq1 : zlen (fs_batchRequests s) <= sumZ (zlen <$> fs_batchRequests s)).
  { apply sumZ_length. eapply Forall_impl; [exact Hq|]. intros [|? ?] ?; [done|].
    rewrite zlen_cons. pose proof (zlen_nonneg l). lia. }
  assert (Hc1 : zlen (fs_completed s) <= sumZ (res_load <$> fs_completed s)).
  { apply sumZ_length. eapply Forall_impl; [exact Hc|]. by intros r [? ?]. }
  assert (Hw0 : forall l, Forall worker_ok l -> 0 <= sumZ (worker_load <$> l) /\
    (sumZ (worker_load <$> l) <= 0 -> Forall (fun w => w = Idle) l)).
  { intros l. induction 1 as [|x l Hx _ [IH1 IH2]]; [done|]. rewrite fmap_cons, sumZ_cons.
    assert (0 <= worker_load x /\ (worker_load x <= 0 -> x = Idle)) as [Hx1 Hx2].
    { destruct x as [|b|r]; cbn in Hx |- *; [done| |destruct Hx; split; [lia|intros; lia]].
      destruct b as [|e b]; [done|]. rewrite zlen_cons. pose proof (zlen_nonneg b).
      split; [lia|intros; lia]. }
    split; [lia|]. intros. constructor; [apply Hx2|apply IH2]; lia. }
  destruct (Hw0 _ Hwk) as [Hw1 Hw2].
  pose proof (zlen_nonneg (fs_requests s)). pose proof (zlen_nonneg (fs_batchRequests s)).
  pose proof (zlen_nonneg (fs_completed s)).
  destruct (Hcov id Hid) as [?|[Hin|[Hin|[Hin|Hin]]]]; [done|exfalso..].
  - unfold ids in Hin. apply list_elem_of_fmap in Hin as (e & _ & Hin).
    apply elem_of_zlen in Hin. lia.
  - apply Exists_exists in Hin as (b & Hin%elem_of_zlen & _). lia.
  - apply Exists_exists in Hin as (x & Hx & Hhas). specialize (Hw2 ltac:(lia)).
    rewrite Forall_forall in Hw2. by rewrite (Hw2 x Hx) in Hhas.
  - apply Exists_exists in Hin as (r & Hin%elem_of_zlen & _). lia.
Qed.

Lemma pushing_nonneg s i : reach s -> fs_main s = Pushing i -> 0 <= i.
Proof.
  intros Hr. revert i. induction Hr as [|s ev s' Hr IH E]; intros i Em; [by injection Em as <-|].
  assert (Hkeep : fs_main s' = fs_main s -> 0 <= i) by (intros H; apply IH; congruence).
  destruct ev; cbn [fetch_step] in E; repeat case_match; try done; injection E as <-; cbn in Em; auto;
    simplify_eq; try lia.
  all: assert (0 <= i0) by (by apply IH); lia.
Qed.

Definition is_sending (w : worker) : bool := match w with Sending _ => true | _ => false end.
(** With batches queued, some worker can step unless all wait for room in [completed]. *)
Lemma worker_steps s :
  fs_batchRequests s <> [] ->
  (exists ev s', step ev s = Some s') \/
  (Forall (fun w => is_sending w = true) (fs_workers s) /\
   (fs_workers s <> [] -> P <= zlen (fs_completed s))).
Proof.
  intros Hq. destruct (decide (Forall (fun w => is_sending w = true) (fs_workers s))) as [Hall|Hex].
  - destruct (fs_workers s) as [|w ws] eqn:Ew; [by right|].
    pose proof Hall as Hall'. apply Forall_cons in Hall' as [Hw _]. destruct w as [| |r]; try done.
    destruct (Z.ltb_spec (zlen (fs_completed s)) P) as [Hlt|]; [left|by right].
    exists (WorkerSend 0). cbn [fetch_step]. rewrite Ew. cbn.
    rewrite (proj2 (Z.ltb_lt _ _) Hlt). eauto.
  - left. apply not_Forall_Exists, Exists_exists in Hex as (x & Hin & Hx); [|intros y; apply _].
    apply list_elem_of_lookup in Hin as [w Ew]. destruct x as [|b|r]; [| |by destruct Hx].
    + exists (WorkerTake w). cbn [fetch_step]. rewrite Ew. destruct (fs_batchRequests s); [done|eauto].
    + exists (WorkerAnswer w (BatchError ECanceled)). cbn [fetch_step]. rewrite Ew. eauto.
Qed.

(** [fetchBatched] cannot get stuck when there are at most three requests per worker:
    as long as it has not returned, some go-routine can take a step.  (With more, it can:
    [fetchBatched_stuck].) *)
Lemma fetchBatched_not_stuck s :
  Z.of_nat n <= 3 * maxParallel maxPerBatch maxParallel0 n ->
  fetch_reachable maxRetry maxPerBatch maxParallel0 n s ->
  (exists r, fs_main s = Returned r) \/
  exists ev s', fetch_step maxRetry maxPerBatch maxParallel0 n ev s = Some s'.
Proof.
  intros Hn Hreach. pose proof (fetch_reachable_inv s Hreach) as (Hw & Hq & Hwk & Hc & Ha & _ & Hrest).
  destruct (fs_main s) as [i| | |r] eqn:Em; [| | |by left; exists r]; right.
  2:{ exists MainCheck. cbn. rewrite Em. eauto. }
  2:{ exists MainTick. cbn. rewrite Em. eauto. }
  destruct (step MainPush s) as [s'|] eqn:Epush; [by exists MainPush, s'|].
  cbn [fetch_step] in Epush. rewrite Em in Epush. apply pushing_nonneg in Em as Hi; [|done].
  destruct (Z.ltb_spec i P); [|done]. destruct (Z.ltb_spec 0 (zlen (fs_requests s))); [|done].
  cbn [andb] in Epush. destruct (Z.ltb_spec (zlen (fs_batchRequests s)) P) as [|HqP]; [done|].
  destruct (worker_steps s) as [?|[Hsend HcP]]; [intros E; rewrite E in HqP; change (zlen []) with 0 in HqP; lia|done|].
  exfalso. specialize (HcP ltac:(intros E; rewrite E in Hw; change (zlen []) with 0 in Hw; lia)).
  destruct Hrest as [[e He]|[Ht _]]; [congruence|]. unfold total in Ht.
  assert (zlen (fs_batchRequests s) <= sumZ (zlen <$> fs_batchRequests s)).
  { apply sumZ_length. eapply Forall_impl; [exact Hq|]. intros [|? l] ?; [done|].
    rewrite zlen_cons. pose proof (zlen_nonneg l). lia. }
  assert (zlen (fs_completed s) <= sumZ (res_load <$> fs_completed s)).
  { apply sumZ_length. eapply Forall_impl; [exact Hc|]. by intros r [? ?]. }
  assert (zlen (fs_workers s) <= sumZ (worker_load <$> fs_workers s)).
  { apply sumZ_length. apply Forall_forall. intros x Hx. rewrite Forall_forall in Hsend, Hwk.
    specialize (Hsend x Hx). specialize (Hwk x Hx). destruct x; try done. apply Hwk. }
  lia.
Qed.
(** [C35] [fetchBatched] is complete and does not deadlock.  In every interleaving of the
    workers, whatever [getBatch] answers and however often elements are retried: when it
    returns nil every request has its result; and with at most three requests per worker,
    as long as it has not returned, some go-routine can take a step.  (With more requests
    it can deadlock: [fetchBatched_stuck].) *)
Theorem fetchBatched_complete s :
  fetch_reachable maxRetry maxPerBatch maxParallel0 n s ->
  (fs_main s = Returned None -> forall id, (id < n)%nat -> id ∈ fs_results s) /\
  (Z.of_nat n <= 3 * maxParallel maxPerBatch maxParallel0 n ->
    (exists r, fs_main s = Returned r) \/
    exists ev s', fetch_step maxRetry maxPerBatch maxParallel0 n ev s = Some s').
Proof.
  intros Hr. split.
  - intros Hm id Hid. by apply fetchBatched_returned.
  - intros Hn. by apply fetchBatched_not_stuck.
Qed.
End Invariant.

(** ** Two runs

    One worker, four requests of one element each.  While the worker runs the first batch
    the ticker fires: the second batch is queued.  The worker takes it, and before its
    first result is read the ticker fires again, and again: the worker waits for room in
    [completed], the main go-routine for room in [batchRequests]. *)
Definition stuck_run : list fetch_event :=
  [MainPush; MainPush; MainCheck; WorkerTake 0; MainTick; MainPush; MainPush; MainCheck;
   WorkerAnswer 0 (Answers [None]); WorkerSend 0; WorkerTake 0; MainTick; MainPush; MainPush; MainCheck;
   WorkerAnswer 0 (Answers [None]); MainTick].
Definition blocked (maxRetry maxPerBatch maxParallel0 : Z) (n : nat) (s : fetch_state) : Prop :=
  (forall r, fs_main s <> Returned r) /\
  forall ev, fetch_step maxRetry maxPerBatch maxParallel0 n ev s = None.

Lemma fetchBatched_stuck : exists s, fetch_reachable 3 1 1 4 s /\ blocked 3 1 1 4 s.
Proof.
  assert (E : exists s, fetch_run 3 1 1 4 stuck_run (fetch_start 1 1 4) = Some s /\
    fs_main s = Pushing 0 /\ fs_requests s = [mkElem 3 true] /\
    fs_batchRequests s = [[mkElem 2 true]] /\
    (exists r r', fs_workers s = [Sending r] /\ fs_completed s = [r'])).
  { eexists. split; [vm_compute; reflexivity|]. split_and!; try reflexivity. by do 2 eexists. }
  destruct E as (s & Er & Hm & Hr & Hq & r & r' & Hw & Hc). exists s. split.
  - eapply fetch_run_reachable; [apply fetch_reach_start|exact Er].
  - split; [intros r1; congruence|].
    intros [| | | |e|w|w a|w]; unfold fetch_step; rewrite ?Hm; try reflexivity.
    + rewrite Hr, Hq. reflexivity.
    + rewrite Hw. by destruct w.
    + rewrite Hw. by destruct w.
    + rewrite Hw, Hc. by destruct w.
Qed.

(** A request that fails once and is then answered: [fetchBatched] returns nil, but the
    [Error] field of the caller's element still holds the first error, because the copy
    was reset and retried.  [FetchAllTransactions] and [L1Range] read that field. *)
Definition retry_run : list fetch_event :=
  [MainPush; MainPush; MainCheck; WorkerTake 0; WorkerAnswer 0 (Answers [Some ECanceled]); WorkerSend 0;
   MainResult; MainCheck; MainTick; MainPush; MainPush; MainCheck; WorkerTake 0;
   WorkerAnswer 0 (Answers [None]); WorkerSend 0; MainResult; MainCheck].
Lemma fetchBatched_stale_error : exists s, fetch_reachable 3 1 1 1 s /\
  fs_main s = Returned None /\ fs_errors s !! 0%nat = Some ECanceled.
Proof.
  assert (E1 : fs_main <$> fetch_run 3 1 1 1 retry_run (fetch_start 1 1 1) = Some (Returned None))
    by (vm_compute; reflexivity).
  assert (E2 : (fun s => fs_errors s !! 0%nat) <$> fetch_run 3 1 1 1 retry_run (fetch_start 1 1 1)
    = Some (Some ECanceled)) by (vm_compute; reflexivity).
  destruct (fetch_run 3 1 1 1 retry_run (fetch_start 1 1 1)) as [s|] eqn:Er; [|discriminate E1].
  injection E1 as E1. injection E2 as E2. exists s. split; [|by split].
  eapply fetch_run_reachable; [apply fetch_reach_start|exact Er].
Qed.

Lemma fetchBatched_complete_witness :
  (exists s, fetch_reachable 3 1 1 1 s /\ 0%nat ∈ fs_results s) /\
  exists ev s', fetch_step 3 1 1 3 ev (fetch_start 1 1 3) = Some s'.
Proof.
  split.
  - destruct fetchBatched_stale_error as (s & Hr & Hm & _). exists s. split; [done|].
    apply (proj1 (fetchBatched_complete 3 1 1 1 ltac:(lia) ltac:(lia) s Hr) Hm). lia.
  - destruct (proj2 (fetchBatched_complete 3 1 1 3 ltac:(lia) ltac:(lia) (fetch_start 1 1 3) (fetch_reach_start _ _ _ _)))
      as [[r Hr]|H].
    + vm_compute. discriminate.
    + discriminate Hr.
    + exact H.
Defined.

(** ** request_sema.go

    A limited client: a call first counts in the wait group, then waits for a slot of the
    semaphore (a channel of capacity [concurrentRequests]), runs, and frees both. *)
Inductive call_state := CallWaiting | CallRunning.
Record limitClient := mkLimitClient {
  lc_calls : gmap nat call_state; (* the calls in progress *)
  lc_sema : nat;
  lc_wg : nat;
  lc_closed : bool;
}.
Definition LimitRPC : limitClient := mkLimitClient ∅ 0 0 false.

Inductive limit_event :=
  | LCall (i : nat) | LAcquire (i : nat) | LReturn (i : nat) | LClose.

(** [BatchCallContext] and [CallContext] in three steps, and [Close]. A send on the
    closed semaphore panics. *)
Definition limit_step (concurrentRequests : nat) (ev : limit_event) (lc : limitClient)
    : option (res limitClient) :=
  match ev with
  | LCall i =>
      match lc_calls lc !! i with
      | None => Some (Ok (mkLimitClient (<[i := CallWaiting]> (lc_calls lc)) (lc_sema lc)
                            (S (lc_wg lc)) (lc_closed lc)))
      | Some _ => None
      end
  | LAcquire i =>
      match lc_calls lc !! i with
      | Some CallWaiting =>
          if lc_closed lc then Some Panic
          else if (lc_sema lc <? concurrentRequests)%nat then
            Some (Ok (mkLimitClient (<[i := CallRunning]> (lc_calls lc)) (S (lc_sema lc))
                        (lc_wg lc) (lc_closed lc)))
          else None
      | _ => None
      end
  | LReturn i =>
      match lc_calls lc !! i with
      | Some CallRunning =>
          Some (Ok (mkLimitClient (delete i (lc_calls lc)) (pred (lc_sema lc)) (pred (lc_wg lc))
                      (lc_closed lc)))
      | _ => None
      end
  | LClose =>
      if (lc_wg lc =? 0)%nat && negb (lc_closed lc)
      then Some (Ok (mkLimitClient (lc_calls lc) (lc_sema lc) (lc_wg lc) true)) else None
  end.

Inductive limit_reachable (n : nat) : limitClient -> Prop :=
  | limit_start : limit_reachable n LimitRPC
  | limit_next lc ev lc' : limit_reachable n lc -> limit_step n ev lc = Some (Ok lc') ->
      limit_reachable n lc'.

#[export] Instance call_state_eq_dec : EqDecision call_state.
Proof. solve_decision. Defined.

Definition running (lc : limitClient) : gmap nat call_state :=
  filter (fun ic => ic.2 = CallRunning) (lc_calls lc).

(** Never more than [concurrentRequests] calls run, and [Close] waits for all calls. *)
Lemma limit_bound n lc :
  limit_reachable n lc ->
  size (running lc) = lc_sema lc /\ (lc_sema lc <= n)%nat /\ size (lc_calls lc) = lc_wg lc.
Proof.
  induction 1 as [|lc ev lc' _ (IH1 & IH2 & IH3) E].
  { cbn. split_and!; [|lia|apply map_size_empty]. unfold running. cbn. by rewrite map_filter_empty, map_size_empty. }
  unfold running in *. destruct ev; cbn [limit_step] in E.
  - destruct (lc_calls lc !! i) eqn:Ei; [done|]. injection E as <-. cbn.
    rewrite map_filter_insert_False, map_filter_delete by done.
    rewrite delete_id, map_size_insert_None by (done || by apply map_lookup_filter_None; left).
    split_and!; [done|done|lia].
  - destruct (lc_calls lc !! i) as [[]|] eqn:Ei; try done. destruct (lc_closed lc); [done|].
    destruct (Nat.ltb_spec (lc_sema lc) n); [|done]. injection E as <-. cbn.
    rewrite map_filter_insert_True by done. rewrite map_size_insert_None.
    2:{ apply map_lookup_filter_None. right. intros x Hx. rewrite Ei in Hx. by injection Hx as <-. }
    rewrite map_size_insert_Some by eauto. split_and!; lia.
  - destruct (lc_calls lc !! i) as [[]|] eqn:Ei; try done. injection E as <-. cbn.
    rewrite map_filter_delete, !map_size_delete, Ei.
    assert (filter (fun ic => ic.2 = CallRunning) (lc_calls lc) !! i = Some CallRunning) as ->
      by (by apply map_lookup_filter_Some).
    split_and!; lia.
  - destruct (_ && _); [|done]. by injection E as <-.
Qed.
