(* ===== verification/TxMgr.v ===== *)
(** * The transaction manager

    op-proposer/txmgr: the bookkeeping of publications ([SendState]) and [Send], whose
    main go-routine and publishing go-routines are a step relation. *)

From S2P Require Import Prelude Types Geth.

(** [strings.Contains] *)
Definition strings_Contains (s sub : string) : bool :=
  match String.index 0 sub s with Some _ => true | None => false end.

(** ** send_state.go *)
Record SendState := mkSendState {
  ss_minedTxs : gset Hash;
  ss_nonceTooLowCount : uint64;
  ss_safeAbortNonceTooLowCount : uint64;
}.

Definition NewSendState (safeAbortNonceTooLowCount : uint64) : res SendState :=
  _ ← panic_if (safeAbortNonceTooLowCount =? 0);
  Ok (mkSendState ∅ 0 safeAbortNonceTooLowCount).

Section SendState.
(** The text of go-ethereum's [core.ErrNonceTooLow]. *)
Context (ErrNonceTooLow_text : string).

Definition is_nonce_too_low (err : error) : bool :=
  strings_Contains (error_text err) ErrNonceTooLow_text.
Definition ProcessSendError (err : option error) (s : SendState) : SendState :=
  match err with
  | None => s
  | Some err =>
      if negb (is_nonce_too_low err) then s
      else mkSendState (ss_minedTxs s) (ss_nonceTooLowCount s +64 1) (ss_safeAbortNonceTooLowCount s)
  end.
Definition TxMined (txHash : Hash) (s : SendState) : SendState :=
  mkSendState ({[txHash]} ∪ ss_minedTxs s) (ss_nonceTooLowCount s) (ss_safeAbortNonceTooLowCount s).
Definition TxNotMined (txHash : Hash) (s : SendState) : SendState :=
  let wasMined := bool_decide (txHash ∈ ss_minedTxs s) in
  let minedTxs := ss_minedTxs s ∖ {[txHash]} in
  mkSendState minedTxs
    (if bool_decide (minedTxs = ∅) && wasMined then 0 else ss_nonceTooLowCount s)
    (ss_safeAbortNonceTooLowCount s).
Definition ShouldAbortImmediately (s : SendState) : bool :=
  if bool_decide (ss_minedTxs s <> ∅) then false
  else ss_safeAbortNonceTooLowCount s <=? ss_nonceTooLowCount s.
Definition IsWaitingForConfirmation (s : SendState) : bool := bool_decide (ss_minedTxs s <> ∅).
End SendState.

(** ** txmgr.go *)

(** Where a publishing go-routine ([sendTxAsync]) is; a transaction is its hash. *)
Inductive publisher :=
  | PUpdating                             (* updateGasPrice *)
  | PSending (tx : Hash)                  (* sendTx *)
  | PFailed                               (* sendTx failed, before ShouldAbortImmediately *)
  | PWaiting (tx : Hash)                  (* waitMined: TransactionReceipt *)
  | PMined (tx : Hash) (receipt : Receipt) (height : uint64) (* waitMined: BlockNumber *)
  | PPolling (tx : Hash)                  (* waitMined: ticker or cancellation *)
  | PConfirmed (receipt : Receipt)        (* before the send to receiptChan *)
  | PDone.

Inductive send_main :=
  | SLooping
  | SReturning (r : option Receipt)       (* deferred cancel and wg.Wait *)
  | SReturned (r : option Receipt)        (* the receipt, or the context's error *)
  | SCrashed.

Record send_state := mkSend {
  sd_state : SendState;
  sd_publishers : list publisher;
  sd_receiptChan : option Receipt;
  sd_cancelled : bool;
  sd_main : send_main;
}.

Inductive send_event :=
  | EvUpdateGasPrice (i : nat) (tx : option Hash)
  | EvSendTx (i : nat) (err : option error)
  | EvCheckAbort (i : nat)
  | EvTransactionReceipt (i : nat) (receipt : option Receipt) (failed : bool)
  | EvBlockNumber (i : nat) (tipHeight : option uint64)
  | EvQueryTick (i : nat)
  | EvQueryDone (i : nat)
  | EvReport (i : nat)
  | EvResubmission
  | EvContextDone
  | EvReceipt
  | EvWaited
  | EvParentCancelled.

Definition NewSimpleTxManager (NumConfirmations : uint64) : res uint64 :=
  _ ← panic_if (NumConfirmations =? 0); Ok NumConfirmations.

(** [context.Canceled], or any error with its text. *)
Definition is_canceled (err : error) : bool :=
  bool_decide (err = ECanceled) || strings_Contains (error_text err) "context canceled".

Section Send.
Context (ErrNonceTooLow_text : string) (NumConfirmations : uint64).

(** The start of [Send]: the first publication is launched. *)
Definition Send_start (ss : SendState) : send_state :=
  mkSend ss [PUpdating] None false SLooping.

Definition set_publisher (i : nat) (p : publisher) (s : send_state) : send_state :=
  mkSend (sd_state s) (<[i := p]> (sd_publishers s)) (sd_receiptChan s) (sd_cancelled s) (sd_main s).
Definition update_state (f : SendState -> SendState) (s : send_state) : send_state :=
  mkSend (f (sd_state s)) (sd_publishers s) (sd_receiptChan s) (sd_cancelled s) (sd_main s).
Definition set_cancelled (s : send_state) : send_state :=
  mkSend (sd_state s) (sd_publishers s) (sd_receiptChan s) true (sd_main s).
Definition set_main (m : send_main) (s : send_state) : send_state :=
  mkSend (sd_state s) (sd_publishers s) (sd_receiptChan s) (sd_cancelled s) m.

(** [txHeight + numConfirmations <= tipHeight + 1] *)
Definition confirmed (txHeight tipHeight : uint64) : bool :=
  (txHeight +64 NumConfirmations) <=? (tipHeight +64 1).

(** [waitMined], one step of publisher [i] *)
Definition waitMined_step (ev : send_event) (i : nat) (p : publisher) (s : send_state)
    : option send_state :=
  match ev, p with
  | EvTransactionReceipt _ (Some receipt) _, PWaiting tx =>
      let s := update_state (TxMined tx) s in
      match rc_BlockNumber receipt with
      | None => Some (set_main SCrashed s)
      | Some n => Some (set_publisher i (PMined tx receipt (wrap 64 n)) s)
      end
  | EvTransactionReceipt _ None true, PWaiting tx => Some (set_publisher i (PPolling tx) s)
  | EvTransactionReceipt _ None false, PWaiting tx =>
      Some (set_publisher i (PPolling tx) (update_state (TxNotMined tx) s))
  | EvBlockNumber _ None, PMined tx _ _ => Some (set_publisher i (PPolling tx) s)
  | EvBlockNumber _ (Some tipHeight), PMined tx receipt txHeight =>
      Some (set_publisher i (if confirmed txHeight tipHeight then PConfirmed receipt else PPolling tx) s)
  | EvQueryTick _, PPolling tx => Some (set_publisher i (PWaiting tx) s)
  | EvQueryDone _, PPolling tx => if sd_cancelled s then Some (set_publisher i PDone s) else None
  | _, _ => None
  end.

(** [sendTxAsync], one step of publisher [i] *)
Definition publisher_step (ev : send_event) (i : nat) (p : publisher) (s : send_state)
    : option send_state :=
  match ev, p with
  | EvUpdateGasPrice _ (Some tx), PUpdating => Some (set_publisher i (PSending tx) s)
  | EvUpdateGasPrice _ None, PUpdating => Some (set_publisher i PDone s)
  | EvSendTx _ err, PSending tx =>
      let s := update_state (ProcessSendError ErrNonceTooLow_text err) s in
      match err with
      | None => Some (set_publisher i (PWaiting tx) s)
      | Some e => Some (set_publisher i (if is_canceled e then PDone else PFailed) s)
      end
  | EvCheckAbort _, PFailed =>
      let s := if ShouldAbortImmediately (sd_state s) then set_cancelled s else s in
      Some (set_publisher i PDone s)
  | EvReport _, PConfirmed receipt =>
      Some (set_publisher i PDone
        (mkSend (sd_state s) (sd_publishers s)
           (match sd_receiptChan s with None => Some receipt | c => c end)
           (sd_cancelled s) (sd_main s)))
  | _, _ => waitMined_step ev i p s
  end.

Definition event_publisher (ev : send_event) : option nat :=
  match ev with
  | EvUpdateGasPrice i _ | EvSendTx i _ | EvCheckAbort i | EvTransactionReceipt i _ _
  | EvBlockNumber i _ | EvQueryTick i | EvQueryDone i | EvReport i => Some i
  | _ => None
  end.

(** One step of [Send] *)
Definition send_step (ev : send_event) (s : send_state) : option send_state :=
  match sd_main s with
  | SCrashed => None
  | m =>
      match event_publisher ev with
      | Some i =>
          match sd_publishers s !! i with
          | Some p => publisher_step ev i p s
          | None => None
          end
      | None =>
          match ev, m with
          | EvParentCancelled, _ => Some (set_cancelled s)
          | EvResubmission, SLooping =>
              if IsWaitingForConfirmation (sd_state s) then Some s
              else Some (mkSend (sd_state s) (sd_publishers s ++ [PUpdating]) (sd_receiptChan s)
                           (sd_cancelled s) (sd_main s))
          | EvContextDone, SLooping =>
              if sd_cancelled s then Some (set_main (SReturning None) s) else None
          | EvReceipt, SLooping =>
              match sd_receiptChan s with
              | Some r => Some (mkSend (sd_state s) (sd_publishers s) None true (SReturning (Some r)))
              | None => None
              end
          | EvWaited, SReturning r =>
              if forallb (fun p => match p with PDone => true | _ => false end) (sd_publishers s)
              then Some (set_main (SReturned r) s) else None
          | _, _ => None
          end
      end
  end.

Inductive send_reachable (ss : SendState) : list send_event -> send_state -> Prop :=
  | send_reach_start : send_reachable ss [] (Send_start ss)
  | send_reach_step tr s ev s' : send_reachable ss tr s -> send_step ev s = Some s' ->
      send_reachable ss (tr ++ [ev]) s'.
Fixpoint send_run (evs : list send_event) (s : send_state) : option send_state :=
  match evs with
  | [] => Some s
  | ev :: evs => match send_step ev s with Some s => send_run evs s | None => None end
  end.
Lemma send_run_reachable ss evs tr s s' :
  send_reachable ss tr s -> send_run evs s = Some s' -> send_reachable ss (tr ++ evs) s'.
Proof.
  revert tr s. induction evs as [|ev evs IH]; intros tr s Hr; cbn.
  { intros [= <-]. by rewrite app_nil_r. }
  destruct (send_step ev s) as [s1|] eqn:E; [|done]. intros Er.
  rewrite cons_middle, app_assoc. eapply IH; [|done]. by eapply send_reach_step.
Qed.
End Send.

(** [CalcGasFeeCap] *)
Definition CalcGasFeeCap (baseFee gasTipCap : bigInt) : bigInt := gasTipCap + baseFee * 2.

(** ** What [Send] guarantees *)
Section SendProofs.
Context (ErrNonceTooLow_text : string) (NumConfirmations : uint64) (ss : SendState).
Context (Hcount : 0 <= ss_nonceTooLowCount ss).
Abbreviation reach := (send_reachable ErrNonceTooLow_text NumConfirmations ss).

(** The publications that failed with the nonce too low. *)
Definition is_low (ev : send_event) : bool :=
  match ev with EvSendTx _ (Some e) => is_nonce_too_low ErrNonceTooLow_text e | _ => false end.
Fixpoint low_count (tr : list send_event) : Z :=
  match tr with [] => 0 | ev :: tr => (if is_low ev then 1 else 0) + low_count tr end.

(** Publisher [i] published its transaction, saw [receipt], and then a tip with enough
    blocks on top of it. *)
Definition confirmed_in (tr : list send_event) (receipt : Receipt) : Prop :=
  exists i failed n tip, EvSendTx i None ∈ tr /\
    EvTransactionReceipt i (Some receipt) failed ∈ tr /\ rc_BlockNumber receipt = Some n /\
    EvBlockNumber i (Some tip) ∈ tr /\ confirmed NumConfirmations (wrap 64 n) tip = true.
Definition publisher_ok (tr : list send_event) (i : nat) (p : publisher) : Prop :=
  match p with
  | PWaiting _ | PPolling _ => EvSendTx i None ∈ tr
  | PMined _ receipt h => EvSendTx i None ∈ tr /\
      exists failed n, EvTransactionReceipt i (Some receipt) failed ∈ tr /\
        rc_BlockNumber receipt = Some n /\ h = wrap 64 n
  | PConfirmed receipt => confirmed_in tr receipt
  | _ => True
  end.
(** The publication was called off: by the caller, or after enough failures. *)
Definition called_off (tr : list send_event) : Prop :=
  EvParentCancelled ∈ tr \/ ss_safeAbortNonceTooLowCount ss <= ss_nonceTooLowCount ss + low_count tr.
Definition returning (s : send_state) (r : option Receipt) : Prop :=
  sd_main s = SReturning r \/ sd_main s = SReturned r.
Definition all_done (s : send_state) : Prop := Forall (fun p => p = PDone) (sd_publishers s).

Record send_inv (tr : list send_event) (s : send_state) : Prop := {
  si_count : 0 <= ss_nonceTooLowCount (sd_state s) <= ss_nonceTooLowCount ss + low_count tr;
  si_threshold : ss_safeAbortNonceTooLowCount (sd_state s) = ss_safeAbortNonceTooLowCount ss;
  si_publishers : forall i p, sd_publishers s !! i = Some p -> publisher_ok tr i p;
  si_chan : forall r, sd_receiptChan s = Some r -> confirmed_in tr r;
  si_receipt : forall r, returning s (Some r) -> confirmed_in tr r;
  si_cancelled : sd_cancelled s = true ->
    called_off tr \/ (exists r, returning s (Some r)) \/ sd_main s = SCrashed;
  si_none : returning s None -> called_off tr;
  si_done : forall r, sd_main s = SReturned r -> all_done s;
}.

Lemma low_count_app tr ev : low_count (tr ++ [ev]) = low_count tr + (if is_low ev then 1 else 0).
Proof. induction tr as [|e tr IH]; cbn [low_count app]; [lia|]. rewrite IH. lia. Qed.
Lemma low_count_mono tr ev : low_count tr <= low_count (tr ++ [ev]).
Proof. rewrite low_count_app. destruct (is_low ev); lia. Qed.
Lemma elem_mono {A} (x : A) tr ev : x ∈ tr -> x ∈ tr ++ [ev].
Proof. intros. apply elem_of_app. by left. Qed.
Lemma elem_last {A} (tr : list A) ev : ev ∈ tr ++ [ev].
Proof. apply elem_of_app. right. by left. Qed.
Hint Resolve elem_mono elem_last : core.
Lemma confirmed_in_mono tr ev r : confirmed_in tr r -> confirmed_in (tr ++ [ev]) r.
Proof. intros (i & f & n & tip & ? & ? & ? & ? & ?). exists i, f, n, tip. auto 8. Qed.
Lemma publisher_ok_mono tr ev i p : publisher_ok tr i p -> publisher_ok (tr ++ [ev]) i p.
Proof.
  destruct p; cbn; auto; [|apply confirmed_in_mono].
  intros (? & f & n & ? & ? & ?). split; [auto|]. exists f, n. auto.
Qed.
Lemma called_off_mono tr ev : called_off tr -> called_off (tr ++ [ev]).
Proof. intros [?|?]; [left; auto|right]. pose proof (low_count_mono tr ev). lia. Qed.

(** Everything but the publishers and the event's own change is kept. *)
Lemma send_inv_mono tr ev s : send_inv tr s -> send_inv (tr ++ [ev]) s.
Proof.
  intros []. split; auto using confirmed_in_mono, publisher_ok_mono, called_off_mono.
  - pose proof (low_count_mono tr ev). lia.
  - intros Hc. destruct (si_cancelled0 Hc) as [?|?]; auto using called_off_mono.
Qed.
Lemma set_publisher_inv tr i p s :
  send_inv tr s -> publisher_ok tr i p -> (forall r, sd_main s <> SReturned r) ->
  send_inv tr (set_publisher i p s).
Proof.
  intros [] Hp Hm. split; auto; cbn.
  - intros j q E. apply list_lookup_insert_Some in E as [(<- & <- & _)|[_ E]]; auto.
  - intros r Hr. by apply Hm in Hr.
Qed.
Lemma update_state_inv tr f s :
  send_inv tr s -> ss_safeAbortNonceTooLowCount (f (sd_state s)) = ss_safeAbortNonceTooLowCount (sd_state s) ->
  0 <= ss_nonceTooLowCount (f (sd_state s)) <= ss_nonceTooLowCount ss + low_count tr ->
  send_inv tr (update_state f s).
Proof. intros [] Hf Hc. split; auto; cbn; by rewrite ?Hf. Qed.

(** Closes a claim about a return that the state is not in. *)
Ltac no_return :=
  try (intros ? [?|?]; done); try (intros [?|?]; done); try (intros ? ?; done).
Lemma crashed_inv tr s : send_inv tr s -> send_inv tr (set_main SCrashed s).
Proof. intros []. split; cbn; auto; no_return. Qed.

Lemma ProcessSendError_inv tr i err s :
  send_inv tr s ->
  send_inv (tr ++ [EvSendTx i err]) (update_state (ProcessSendError ErrNonceTooLow_text err) s).
Proof.
  intros HI. apply update_state_inv; [by apply send_inv_mono| |].
  - destruct err as [e|]; [|done]. cbn. by destruct (negb _).
  - pose proof (si_count _ _ HI) as Hc. rewrite low_count_app. destruct err as [e|]; cbn; [|lia].
    destruct (is_nonce_too_low ErrNonceTooLow_text e); cbn; [|lia].
    unfold wrap. pose proof (Z.mod_pos_bound (ss_nonceTooLowCount (sd_state s) + 1) (2 ^ 64) ltac:(lia)).
    pose proof (Z.mod_le (ss_nonceTooLowCount (sd_state s) + 1) (2 ^ 64) ltac:(lia) ltac:(lia)). lia.
Qed.

Lemma all_done_step s ev i p s' :
  all_done s -> sd_publishers s !! i = Some p ->
  publisher_step ErrNonceTooLow_text NumConfirmations ev i p s = Some s' -> False.
Proof.
  intros Hd Hp E. unfold all_done in Hd. rewrite Forall_lookup in Hd. rewrite (Hd i p Hp) in E.
  by destruct ev as [? []| | |? [] []|? []| | | | | | | |].
Qed.

Lemma publisher_step_inv tr ev i p s s' :
  send_inv tr s -> event_publisher ev = Some i -> sd_publishers s !! i = Some p ->
  (forall r, sd_main s <> SReturned r) ->
  publisher_step ErrNonceTooLow_text NumConfirmations ev i p s = Some s' ->
  send_inv (tr ++ [ev]) s'.
Proof.
  intros HI Hi Hp Hm E. pose proof (si_publishers _ _ HI i p Hp) as Hok.
  pose proof (send_inv_mono tr ev s HI) as HI'.
  assert (Hset : forall q, publisher_ok (tr ++ [ev]) i q -> send_inv (tr ++ [ev]) (set_publisher i q s))
    by (intros q Hq; by apply set_publisher_inv).
  destruct ev as [? [tx|]|? err|?|? [receipt|] failed|? [tip|]|?|?|?| | | | |]; try done;
    injection Hi as ->; destruct p; try done; cbn [publisher_step waitMined_step] in E; try by destruct failed.
  - injection E as <-. by apply Hset.
  - injection E as <-. by apply Hset.
  - pose proof (ProcessSendError_inv tr i err s HI) as HI1.
    destruct err as [e|]; injection E as <-; apply set_publisher_inv; try done; [by destruct (is_canceled e)|].
    cbn. auto.
  - injection E as <-. apply set_publisher_inv; [|done|by destruct (ShouldAbortImmediately _)].
    destruct (ShouldAbortImmediately (sd_state s)) eqn:Ea; [|done].
    unfold ShouldAbortImmediately in Ea. destruct (bool_decide _); [done|]. apply Z.leb_le in Ea.
    destruct HI'. split; auto. intros _. left. right. cbn in *. lia.
  - destruct (rc_BlockNumber receipt) as [n|] eqn:En; injection E as <-.
    + apply set_publisher_inv; [|cbn; eauto 10|done]. apply update_state_inv; [done..|]. apply HI'.
    + apply crashed_inv. by apply update_state_inv; [|done|apply HI'].
  - assert (Hn : low_count (tr ++ [EvTransactionReceipt i None failed]) = low_count tr)
      by (rewrite low_count_app; cbn; lia).
    destruct failed; injection E as <-; [by apply Hset; cbn; auto|].
    apply set_publisher_inv; [|cbn; auto|done]. apply update_state_inv; [done..|].
    pose proof (si_count _ _ HI') as Hc. cbn. destruct (_ && _); lia.
  - destruct Hok as (Hs & failed & n & Hr & En & ->). injection E as <-. apply Hset.
    destruct (confirmed _ _ _) eqn:Ec; cbn; [|auto]. exists i, failed, n, tip. auto 8.
  - injection E as <-. apply Hset. cbn. destruct Hok. auto.
  - injection E as <-. apply Hset. cbn. auto.
  - destruct (sd_cancelled s); [|done]. injection E as <-. by apply Hset.
  - injection E as <-. apply set_publisher_inv; [|done|done].
    destruct HI'. split; auto. cbn. intros r. destruct (sd_receiptChan s); [auto|].
    intros [= <-]. by apply confirmed_in_mono.
Qed.

Lemma send_inv_step tr ev s s' :
  send_inv tr s -> send_step ErrNonceTooLow_text NumConfirmations ev s = Some s' ->
  send_inv (tr ++ [ev]) s'.
Proof.
  intros HI E. unfold send_step in E.
  destruct (event_publisher ev) as [i|] eqn:Ei.
  - destruct (sd_publishers s !! i) as [p|] eqn:Ep; [|revert E; by destruct (sd_main s)].
    assert (Hm : forall r, sd_main s <> SReturned r).
    { intros r Hr. rewrite Hr in E. eapply all_done_step; [by eapply si_done|done..]. }
    apply (publisher_step_inv tr ev i p s s'); try done. revert E. by destruct (sd_main s).
  - pose proof (send_inv_mono tr ev s HI) as HI'.
    destruct ev; try done; destruct (sd_main s) as [|r|r|] eqn:Em; try done.
    + destruct (IsWaitingForConfirmation _); injection E as <-; [done|].
      rewrite <-Em. destruct HI'. split; auto; cbn; [|by rewrite Em].
      intros i p [?|[_ Hp]]%lookup_app_Some; [auto|].
      by destruct (i - _)%nat; [injection Hp as <-|].
    + destruct (sd_cancelled s) eqn:Ec; [|done]. injection E as <-. destruct HI'.
      assert (Hoff : called_off (tr ++ [EvContextDone])).
      { destruct (si_cancelled0 Ec) as [?|[[r [?|?]]|?]]; [done|congruence..]. }
      split; auto; cbn; no_return.
    + destruct (sd_receiptChan s) as [receipt|] eqn:Er; [|done]. injection E as <-. destruct HI'.
      split; auto; cbn; no_return.
      * intros r [[= <-]|?]; [auto|done].
      * intros _. right; left. exists receipt. by left.
    + destruct (forallb _ _) eqn:Ed; [|done]. injection E as <-. destruct HI'.
      assert (Hret : forall r', returning (set_main (SReturned r) s) r' -> returning s r').
      { intros r' [?|[= <-]]; [done|by left]. }
      split; auto; cbn.
      * intros Hc. destruct (si_cancelled0 Hc) as [?|[[r' [Hr|Hr]]|?]]; [by left| |congruence..].
        rewrite Em in Hr. injection Hr as ->. right; left. exists r'. by right.
      * intros r' _. apply Forall_forall. intros p Hp. apply forallb_forall with (x := p) in Ed;
          [|by apply list_elem_of_In]. by destruct p.
    + injection E as <-. destruct HI'. split; auto. intros _. left. by left; apply elem_last.
    + injection E as <-. destruct HI'. split; auto. intros _. left. by left; apply elem_last.
    + injection E as <-. destruct HI'. split; auto. intros _. left. by left; apply elem_last.
Qed.
Lemma send_reachable_inv tr s : reach tr s -> send_inv tr s.
Proof.
  induction 1 as [|tr s ev s' _ IH E]; [|by eapply send_inv_step].
  split; cbn; try done; no_return; [lia|]. intros [|i] p; [by intros [= <-]|done].
Qed.

(** [C25] What [Send] returns, in every interleaving: a receipt only of a transaction it
    published whose receipt it saw and which then had [NumConfirmations] blocks including
    its own; the context's error only when the caller cancelled or
    [SafeAbortNonceTooLowCount] publications failed with the nonce too low.  When it has
    returned, every publishing go-routine has ended. *)
Theorem Send_returns tr s r :
  send_reachable ErrNonceTooLow_text NumConfirmations ss tr s -> sd_main s = SReturned r ->
  all_done s /\
  match r with
  | Some receipt => confirmed_in tr receipt
  | None => EvParentCancelled ∈ tr \/
      ss_safeAbortNonceTooLowCount ss <= ss_nonceTooLowCount ss + low_count tr
  end.
Proof.
  intros HI%send_reachable_inv Hm. split; [by eapply si_done|].
  destruct r as [receipt|]; [apply (si_receipt _ _ HI)|apply (si_none _ _ HI)]; by right.
Qed.
End SendProofs.

(** ** Witness: published, mined at 7, and returned at tip 8 with two confirmations *)
Definition ex_send_state : SendState :=
  match NewSendState 3 with Ok s => s | _ => mkSendState ∅ 0 0 end.
Definition ex_receipt : Receipt := mkReceipt x02 [] 1 21000 0 [] 0 (Some 7) 70 5.
Definition ex_send_run : list send_event :=
  [EvUpdateGasPrice 0 (Some 5); EvSendTx 0 None; EvTransactionReceipt 0 (Some ex_receipt) false;
   EvBlockNumber 0 (Some 7); EvResubmission; EvQueryTick 0;
   EvTransactionReceipt 0 (Some ex_receipt) false; EvBlockNumber 0 (Some 8); EvReport 0;
   EvReceipt; EvWaited].
Definition low_text : string := "nonce too low".

Lemma Send_returns_witness :
  exists s, send_reachable low_text 2 ex_send_state ex_send_run s /\ all_done s /\
    confirmed_in 2 ex_send_run ex_receipt.
Proof.
  assert (E1 : sd_main <$> send_run low_text 2 ex_send_run (Send_start ex_send_state)
    = Some (SReturned (Some ex_receipt))) by (vm_compute; reflexivity).
  destruct (send_run low_text 2 ex_send_run (Send_start ex_send_state)) as [s|] eqn:Er;
    [|discriminate E1]. injection E1 as Hm.
  assert (Hr : send_reachable low_text 2 ex_send_state ex_send_run s).
  { by eapply (send_run_reachable _ _ _ _ []); [apply send_reach_start|exact Er]. }
  exists s. split; [exact Hr|].
  exact (Send_returns low_text 2 ex_send_state ltac:(cbn; lia) ex_send_run s _ Hr Hm).
Defined.

(** Three times the nonce is too low: the publisher aborts. *)
Lemma Send_aborts : exists s, send_reachable low_text 2 ex_send_state
    [EvUpdateGasPrice 0 (Some 5); EvSendTx 0 (Some (EMsg "nonce too low")); EvCheckAbort 0;
     EvResubmission; EvUpdateGasPrice 1 (Some 6); EvSendTx 1 (Some (EMsg "nonce too low")); EvCheckAbort 1;
     EvResubmission; EvUpdateGasPrice 2 (Some 7); EvSendTx 2 (Some (EMsg "rpc: nonce too low"));
     EvCheckAbort 2; EvContextDone; EvWaited] s /\ sd_main s = SReturned None.
Proof.
  set (evs := (_ :: _)).
  assert (E1 : sd_main <$> send_run low_text 2 evs (Send_start ex_send_state)
    = Some (SReturned None)) by (vm_compute; reflexivity).
  destruct (send_run low_text 2 evs (Send_start ex_send_state)) as [s|] eqn:Er; [|discriminate E1].
  injection E1 as Hm. exists s. split; [|exact Hm].
  by eapply (send_run_reachable _ _ _ _ []); [apply send_reach_start|exact Er].
Qed.
