(* ===== verification/NodeAPI.v ===== *)
(** * The node's RPC API

    op-node/node/bundle_builder.go and api.go: the batch bundles that the batcher asks
    for, and the output roots that the proposer asks for. *)

From S2P Require Import Prelude Types Geth L1Info Deposits Batches L2Source.

(** ** bundle_builder.go *)
Record BundleCandidate := mkBundleCandidate {
  bc_ID : BlockID;
  bc_Batch : option BatchData; (* nil for an empty block *)
}.
Record BundleBuilder := mkBundleBuilder {
  bb_prevBlockID : BlockID;
  bb_candidates : list BundleCandidate;
  bb_numNonEmpty : Z;
}.
Record BatchBundleRequest := mkBatchBundleRequest {
  bq_L2History : list Hash;
  bq_MinSize : uint64;
  bq_MaxSize : uint64;
}.
Record BatchBundleResponse := mkBatchBundleResponse {
  br_PrevL2BlockHash : Hash;
  br_PrevL2BlockNum : uint64;
  br_LastL2BlockHash : Hash;
  br_LastL2BlockNum : uint64;
  br_Bundle : list byte;
}.

Definition NewBundleBuilder (prevBlockID : BlockID) : BundleBuilder := mkBundleBuilder prevBlockID [] 0.
Definition AddCandidate (candidate : BundleCandidate) (b : BundleBuilder) : BundleBuilder :=
  mkBundleBuilder (bb_prevBlockID b) (bb_candidates b ++ [candidate])
    (match bc_Batch candidate with Some _ => bb_numNonEmpty b + 1 | None => bb_numNonEmpty b end).
Definition HasNonEmptyCandidate (b : BundleBuilder) : bool := 0 <? bb_numNonEmpty b.

(** The loop of [PruneLastNonEmpty], below index [i] *)
Fixpoint PruneLastNonEmpty_loop (i : nat) (b : BundleBuilder) : BundleBuilder :=
  match i with
  | O => b
  | S i =>
      match bb_candidates b !! i with
      | Some (mkBundleCandidate _ (Some _)) =>
          mkBundleBuilder (bb_prevBlockID b) (take i (bb_candidates b)) (bb_numNonEmpty b - 1)
      | _ => PruneLastNonEmpty_loop i b
      end
  end.
Definition PruneLastNonEmpty (b : BundleBuilder) : BundleBuilder :=
  if bb_numNonEmpty b =? 0 then b else PruneLastNonEmpty_loop (length (bb_candidates b)) b.
Definition Batches (b : BundleBuilder) : list BatchData := omap bc_Batch (bb_candidates b).
Definition Response (bundle : list byte) (b : BundleBuilder) : BatchBundleResponse :=
  let lastBlockID := match last (bb_candidates b) with Some c => bc_ID c | None => bb_prevBlockID b end in
  mkBatchBundleResponse (id_Hash (bb_prevBlockID b)) (id_Number (bb_prevBlockID b))
    (id_Hash lastBlockID) (id_Number lastBlockID) bundle.

(** ** api.go *)
Definition MaxL2BlocksPerBatchResponse : Z := 100.
(** predeploy.WithdrawalContractAddress *)
Definition WithdrawalContractAddress : Address := 0x4200000000000000000000000000000000000016.

(** The result of [toBlockNumArg]: a tag, or the number in hex. *)
Inductive block_tag := LatestTag | PendingTag | NumberTag (n : uint64).

(** [l2EthClient]; [GetBlockHeader] and [GetProof] may return nil. *)
Class L2EthClient `{GethTypes} (W : Type) := {
  GetBlockHeader : block_tag -> M W (option Header);
  GetProof : Address -> block_tag -> M W (option AccountResult);
  BlockByNumber : bigInt -> M W Block;
  cl_L2BlockRefByNumber : bigInt -> M W L2BlockRef;
  cl_L2BlockRefByHash : Hash -> M W L2BlockRef;
}.

Section API.
Context `{Keccak} `{GethTypes} `{RLP} `{TrieDB} {W : Type} `{!L2EthClient W}.
(** The constants of go-ethereum's rpc package. *)
Context (LatestBlockNumber PendingBlockNumber : Z).

Definition toBlockNumArg (number : Z) : block_tag :=
  if number =? LatestBlockNumber then LatestTag
  else if number =? PendingBlockNumber then PendingTag
  else NumberTag (wrap 64 number).

(** [OutputAtBlock]: the version and the output root *)
Definition OutputAtBlock (number : Z) : M W (list Hash) :=
  head ← GetBlockHeader (toBlockNumArg number);
  match head with
  | None => throw ENotFound
  | Some head =>
      proof ← GetProof WithdrawalContractAddress (toBlockNumArg number);
      match proof with
      | None => throw ENotFound
      | Some proof =>
          _ ← M_err (fun _ => EMsg "invalid withdrawal root hash")
                (lift (AccountResult_Verify proof (hdr_Root head)));
          let l2OutputRootVersion := 0 in
          mret [l2OutputRootVersion;
                ComputeL2OutputRoot l2OutputRootVersion (header_Hash head) (hdr_Root head)
                  (ar_StorageHash proof)]
      end
  end.

(** The search of [GetBatchBundle] for the continuation point *)
Fixpoint find_history (history : list Hash) : M W BlockID :=
  match history with
  | [] => mret zeroBlockID
  | h :: history =>
      l2Ref ← attempt (cl_L2BlockRefByHash h);
      match l2Ref with
      | inl err => if errors_is ENotFound err then find_history history
                   else throw (wrapv "failed to check L2 history for block hash: " err)
      | inr l2Ref =>
          canonBlock ← attempt (cl_L2BlockRefByNumber (to_int64 (l2_Number l2Ref)));
          match canonBlock with
          | inl err => if errors_is ENotFound err then find_history history
                       else throw (wrapv "failed to check L2 history for block number: " err)
          | inr canonBlock =>
              if l2_Hash canonBlock =? h
              then mret (mkBlockID (l2_Hash canonBlock) (l2_Number canonBlock))
              else find_history history
          end
      end
  end.

(** The loop that collects candidates; the result is [bundleBuilder] and
    [hasLargeNextBatch].  [fuel] bounds the iterations. *)
Fixpoint collect_candidates (fuel : nat) (req : BatchBundleRequest) (stop i : uint64)
    (bundleBuilder : BundleBuilder) (totalBatchSizeBytes : uint64) : M W (BundleBuilder * bool) :=
  if negb (i <? stop) then mret (bundleBuilder, false)
  else
    match fuel with
    | O => lift OutOfFuel
    | S fuel =>
        l2Block ← attempt (BlockByNumber (to_int64 i));
        match l2Block with
        | inl err =>
            if errors_is ENotFound err then mret (bundleBuilder, false)
            else throw (wrapv "failed to retrieve L2 block by number: " err)
        | inr l2Block =>
            batch ← M_err (wrapv "failed to convert L2 block to batch: ") (lift (BlockToBatch l2Block));
            let id := mkBlockID (bl_Hash l2Block) (bl_NumberU64 l2Block) in
            match batch with
            | None =>
                collect_candidates fuel req stop (i +64 1)
                  (AddCandidate (mkBundleCandidate id None) bundleBuilder) totalBatchSizeBytes
            | Some batch =>
                buf ← M_err (wrapv "failed to encode batch for size estimate: ")
                        (lift (EncodeBatches [batch]));
                let nextBatchSizeBytes := zlen buf in
                if bq_MaxSize req <? (totalBatchSizeBytes +64 nextBatchSizeBytes)
                then mret (bundleBuilder, totalBatchSizeBytes <? bq_MinSize req)
                else
                  collect_candidates fuel req stop (i +64 1)
                    (AddCandidate (mkBundleCandidate id (Some batch)) bundleBuilder)
                    (totalBatchSizeBytes +64 nextBatchSizeBytes)
            end
        end
    end.

(** The loop that encodes the bundle and prunes it while it is too large. *)
Fixpoint encode_bundle (fuel : nat) (req : BatchBundleRequest) (hasLargeNextBatch : bool)
    (pruneCount : Z) (bundleBuilder : BundleBuilder) : res (option BatchBundleResponse) :=
  match fuel with
  | O => OutOfFuel
  | S fuel =>
      if negb (HasNonEmptyCandidate bundleBuilder) then Ok (Some (Response [] bundleBuilder))
      else
        buf ← map_err (wrapv "failed to encode selected batches as bundle: ")
                (EncodeBatches (Batches bundleBuilder));
        let bundleSize := zlen buf in
        if bq_MaxSize req <? bundleSize then
          encode_bundle fuel req hasLargeNextBatch (pruneCount + 1) (PruneLastNonEmpty bundleBuilder)
        else
          let ignoreMinSize := (0 <? pruneCount) || hasLargeNextBatch in
          if negb ignoreMinSize && (bundleSize <? bq_MinSize req) then Ok None
          else Ok (Some (Response buf bundleBuilder))
  end.

(** [GetBatchBundle] *)
Definition GetBatchBundle (req : BatchBundleRequest) : M W (option BatchBundleResponse) :=
  found ← find_history (bq_L2History req);
  if bool_decide (found = zeroBlockID) then throw ENotFound
  else
    '(bundleBuilder, hasLargeNextBatch) ←
      collect_candidates (Z.to_nat MaxL2BlocksPerBatchResponse) req
        (id_Number found +64 MaxL2BlocksPerBatchResponse +64 1) (id_Number found +64 1)
        (NewBundleBuilder found) 0;
    lift (encode_bundle (S (Z.to_nat (bb_numNonEmpty bundleBuilder))) req hasLargeNextBatch 0 bundleBuilder).
End API.

(** ** The bundle builder *)

(** The counter is the number of batches held. *)
Definition builder_ok (b : BundleBuilder) : Prop := bb_numNonEmpty b = zlen (Batches b).

Lemma Batches_app prev c1 c2 n1 n2 n3 :
  Batches (mkBundleBuilder prev (c1 ++ c2) n1) =
  Batches (mkBundleBuilder prev c1 n2) ++ Batches (mkBundleBuilder prev c2 n3).
Proof. apply omap_app. Qed.
Lemma NewBundleBuilder_ok prev : builder_ok (NewBundleBuilder prev).
Proof. done. Qed.
Lemma AddCandidate_ok c b : builder_ok b -> builder_ok (AddCandidate c b).
Proof.
  unfold builder_ok, AddCandidate, Batches. intros Hb. cbn in *. rewrite omap_app, zlen_app.
  destruct (bc_Batch c) eqn:E; cbn; rewrite E; len.
Qed.
Lemma HasNonEmptyCandidate_spec b :
  builder_ok b -> HasNonEmptyCandidate b = negb (bool_decide (Batches b = [])).
Proof.
  unfold HasNonEmptyCandidate, builder_ok. intros ->.
  destruct (Batches b); [done|]. apply Z.ltb_lt. len.
Qed.

Lemma PruneLastNonEmpty_loop_spec i b :
  builder_ok b -> (i <= length (bb_candidates b))%nat ->
  omap bc_Batch (drop i (bb_candidates b)) = [] -> Batches b <> [] ->
  exists k, PruneLastNonEmpty_loop i b =
      mkBundleBuilder (bb_prevBlockID b) (take k (bb_candidates b)) (bb_numNonEmpty b - 1) /\
    (k < i)%nat /\ builder_ok (PruneLastNonEmpty_loop i b) /\
    exists bt, Batches b = Batches (PruneLastNonEmpty_loop i b) ++ [bt].
Proof.
  intros Hb. induction i as [|i IH]; intros Hi Hdrop Hne; cbn [PruneLastNonEmpty_loop].
  { by destruct Hne. }
  destruct (lookup_lt_is_Some_2 (bb_candidates b) i ltac:(lia)) as [c Ec]. rewrite Ec.
  assert (Hd : drop i (bb_candidates b) = c :: drop (S i) (bb_candidates b)) by by apply drop_S.
  destruct c as [id [bt|]].
  - exists i. split; [done|]. split; [lia|].
    assert (Hall : Batches b = omap bc_Batch (take i (bb_candidates b)) ++ [bt]).
    { unfold Batches. rewrite <-(take_drop i (bb_candidates b)) at 1.
      rewrite Hd, omap_app. cbn [omap list_omap bc_Batch]. by rewrite Hdrop. }
    split; [|by exists bt].
    unfold builder_ok, Batches in *. cbn. rewrite Hb, Hall. len.
  - destruct IH as (k & E & Hk & Hok); [lia| |done|].
    + rewrite Hd. cbn. exact Hdrop.
    + exists k. split; [done|]. split; [lia|done].
Qed.
(** One batch less, and all candidates before it kept. *)
Lemma PruneLastNonEmpty_spec b :
  builder_ok b -> Batches b <> [] ->
  exists k, PruneLastNonEmpty b =
      mkBundleBuilder (bb_prevBlockID b) (take k (bb_candidates b)) (bb_numNonEmpty b - 1) /\
    builder_ok (PruneLastNonEmpty b) /\ exists bt, Batches b = Batches (PruneLastNonEmpty b) ++ [bt].
Proof.
  intros Hb Hne. unfold PruneLastNonEmpty.
  replace (bb_numNonEmpty b =? 0) with false
    by (symmetry; apply Z.eqb_neq; rewrite Hb; destruct (Batches b); [done|len]).
  destruct (PruneLastNonEmpty_loop_spec (length (bb_candidates b)) b) as (k & ? & _ & ? & ?);
    try done; [by rewrite drop_all|]. by exists k.
Qed.

Section APISpec.
Context `{Keccak} `{GethTypes} `{RLP} `{TrieDB} {W : Type} `{!L2EthClient W}.

(** A response that carries the batches of a prefix of the candidates. *)
Definition bundles (req : BatchBundleRequest) (prev : BlockID) (cands : list BundleCandidate)
    (resp : BatchBundleResponse) : Prop :=
  (forall b, bb_prevBlockID b = prev -> bb_candidates b = cands ->
     resp = Response (br_Bundle resp) b) /\
  match omap bc_Batch cands with
  | [] => br_Bundle resp = []
  | batches => EncodeBatches batches = Ok (br_Bundle resp) /\ zlen (br_Bundle resp) <= bq_MaxSize req
  end.

Lemma Response_bundle buf b : br_Bundle (Response buf b) = buf.
Proof. done. Qed.
Lemma encode_bundle_spec fuel req large pc b resp :
  builder_ok b -> encode_bundle fuel req large pc b = Ok (Some resp) ->
  exists k, bundles req (bb_prevBlockID b) (take k (bb_candidates b)) resp.
Proof.
  revert pc b. induction fuel as [|fuel IH]; intros pc b Hb E; cbn [encode_bundle] in E; [done|].
  rewrite HasNonEmptyCandidate_spec, negb_involutive in E by done.
  assert (Hfull : take (length (bb_candidates b)) (bb_candidates b) = bb_candidates b) by by apply firstn_all.
  assert (Hresp : forall buf b', bb_prevBlockID b' = bb_prevBlockID b ->
    bb_candidates b' = bb_candidates b -> Response buf b = Response buf b').
  { intros buf b' E1 E2. unfold Response. by rewrite E1, E2. }
  case_bool_decide as Hne.
  - injection E as <-. exists (length (bb_candidates b)). rewrite Hfull. split.
    + intros b' E1 E2. by apply Hresp.
    + unfold Batches in Hne. by rewrite Hne.
  - apply res_bind_ok in E as (buf & Eb & E). apply map_err_ok in Eb.
    case_match eqn:Esz.
    + destruct (PruneLastNonEmpty_spec b Hb Hne) as (k & Ep & Hok & _).
      destruct (IH _ _ Hok E) as (k' & Hk). rewrite Ep in Hk. cbn in Hk.
      rewrite take_take in Hk. by exists (k' `min` k)%nat.
    + case_match; [done|]. apply Ok_inj in E. injection E as <-.
      exists (length (bb_candidates b)). rewrite Hfull. split; [intros b' E1 E2; by apply Hresp|].
      rewrite Response_bundle. fold (Batches b). destruct (Batches b) eqn:Eb'; [done|].
      split; [done|]. lia.
Qed.
Lemma encode_bundle_returns fuel req large pc b :
  (forall batches, returns (EncodeBatches batches) = true) ->
  builder_ok b -> bb_numNonEmpty b < Z.of_nat fuel ->
  returns (encode_bundle fuel req large pc b) = true.
Proof.
  intros Henc. revert pc b. induction fuel as [|fuel IH]; intros pc b Hb Hf.
  { unfold builder_ok in Hb. pose proof (zlen_nonneg (Batches b)). lia. }
  cbn [encode_bundle]. rewrite HasNonEmptyCandidate_spec, negb_involutive by done.
  case_bool_decide as Hne; [done|].
  apply res_bind_returns; [by apply map_err_returns|]. intros buf _.
  case_match; [|by case_match].
  destruct (PruneLastNonEmpty_spec b Hb Hne) as (k & Ep & Hok & _).
  apply IH; [done|]. rewrite Ep. cbn [bb_numNonEmpty]. lia.
Qed.

(** The blocks after number [n], each asked for by its number. *)
Definition fetched (n : uint64) (blocks : list Block) : Prop :=
  forall k bl, blocks !! k = Some bl ->
    exists w w', BlockByNumber (to_int64 (n +64 (1 + Z.of_nat k))) w = (Ok bl, w').
Definition candidate_of (bl : Block) (c : BundleCandidate) : Prop :=
  BlockToBatch bl = Ok (bc_Batch c) /\ bc_ID c = mkBlockID (bl_Hash bl) (bl_NumberU64 bl).

Lemma wrap_add_l w a b : 0 <= w -> wrap w (wrap w a + b) = wrap w (a + b).
Proof. intros. unfold wrap. apply Zplus_mod_idemp_l. Qed.

Lemma collect_candidates_spec fuel req stop n b total blocks b' large w w' :
  collect_candidates fuel req stop (n +64 (1 + zlen blocks)) b total w = (Ok (b', large), w') ->
  fetched n blocks -> Forall2 candidate_of blocks (bb_candidates b) -> builder_ok b ->
  exists blocks', fetched n (blocks ++ blocks') /\
    Forall2 candidate_of (blocks ++ blocks') (bb_candidates b') /\
    bb_prevBlockID b' = bb_prevBlockID b /\ builder_ok b' /\ (length blocks' <= fuel)%nat.
Proof.
  assert (Hstop : forall blocks b fuel, fetched n blocks ->
    Forall2 candidate_of blocks (bb_candidates b) -> builder_ok b ->
    exists blocks', fetched n (blocks ++ blocks') /\
      Forall2 candidate_of (blocks ++ blocks') (bb_candidates b) /\
      bb_prevBlockID b = bb_prevBlockID b /\ builder_ok b /\ (length blocks' <= fuel)%nat).
  { intros bs b0 fuel0 ? ? ?. exists []. rewrite app_nil_r. split_and!; [done..|cbn; lia]. }
  revert b total blocks w. induction fuel as [|fuel IH]; intros b total blocks w E Hf Hc Hb;
    cbn [collect_candidates] in E; (case_match; [injection E as <- <- <-; by apply Hstop|]); [done|].
  apply M_bind_ok in E as ([err|bl] & w1 & Ea & E).
  { case_match; [injection E as <- <- <-; by apply Hstop|done]. }
  assert (Hbl : BlockByNumber (to_int64 (n +64 (1 + zlen blocks))) w = (Ok bl, w1)).
  { unfold attempt in Ea. destruct (BlockByNumber _ w) as [[]]; by simplify_eq. }
  apply M_bind_ok in E as (ob & ? & Eb & E).
  apply M_err_ok in Eb. apply lift_ok in Eb as [Eb <-].
  assert (Hgo : forall ob total w, BlockToBatch bl = Ok ob ->
    collect_candidates fuel req stop ((n +64 (1 + zlen blocks)) +64 1)
      (AddCandidate (mkBundleCandidate (mkBlockID (bl_Hash bl) (bl_NumberU64 bl)) ob) b) total w
      = (Ok (b', large), w') ->
    exists blocks', fetched n (blocks ++ blocks') /\
      Forall2 candidate_of (blocks ++ blocks') (bb_candidates b') /\
      bb_prevBlockID b' = bb_prevBlockID b /\ builder_ok b' /\ (length blocks' <= S fuel)%nat).
  { intros ob' total' w0 Eob E'. rewrite wrap_add_l in E' by lia.
    replace (n + (1 + zlen blocks) + 1) with (n + (1 + zlen (blocks ++ [bl]))) in E' by len.
    destruct (IH _ _ _ _ E') as (blocks' & ? & ? & ? & ? & ?).
    - intros k bl' [Hk|[Hk1 Hk2]]%lookup_app_Some; [by apply Hf|].
      destruct (k - length blocks)%nat as [|j] eqn:Ej; [|done]. injection Hk2 as <-.
      replace (Z.of_nat k) with (zlen blocks) by len. eauto.
    - cbn. apply Forall2_app; [done|]. by repeat constructor.
    - by apply AddCandidate_ok.
    - exists (bl :: blocks'). rewrite cons_middle, app_assoc. split_and!; [done..|cbn; lia]. }
  destruct ob as [batch|]; [|by eapply Hgo].
  apply M_bind_ok in E as (buf & ? & Ebuf & E). apply M_err_ok in Ebuf. apply lift_ok in Ebuf as [_ <-].
  case_match; [injection E as <- <- <-; by apply Hstop|]. by eapply Hgo.
Qed.

Lemma find_history_spec history w found w' :
  find_history history w = (Ok found, w') -> found <> zeroBlockID ->
  id_Hash found ∈ history /\
  exists n w1 ref w2, cl_L2BlockRefByNumber n w1 = (Ok ref, w2) /\ found = L2BlockRef_ID ref.
Proof.
  revert w. induction history as [|h history IH]; intros w E Hne; cbn [find_history] in E.
  { injection E as <- <-. done. }
  assert (Hskip : forall w, find_history history w = (Ok found, w') ->
    id_Hash found ∈ h :: history /\
    exists n w1 ref w2, cl_L2BlockRefByNumber n w1 = (Ok ref, w2) /\ found = L2BlockRef_ID ref).
  { intros w0 E0. destruct (IH w0 E0 Hne) as [? ?]. split; [by right|done]. }
  apply M_bind_ok in E as ([err|l2Ref] & w1 & _ & E); [case_match; [by eapply Hskip|done]|].
  apply M_bind_ok in E as ([err|canon] & w2 & Ec & E); [case_match; [by eapply Hskip|done]|].
  case_match eqn:Eh; [|by eapply Hskip]. apply Z.eqb_eq in Eh. injection E as <- <-.
  split; [rewrite Eh; by left|]. exists (to_int64 (l2_Number l2Ref)), w1, canon, w2.
  split; [|done]. unfold attempt in Ec. destruct (cl_L2BlockRefByNumber _ _) as [[]]; by simplify_eq.
Qed.

Lemma candidates_batches blocks cands :
  Forall2 candidate_of blocks cands ->
  Forall2 (fun bl b => BlockToBatch bl = Ok b) blocks (bc_Batch <$> cands).
Proof. induction 1 as [|bl c blocks cands [Hb _] _ IH]; [constructor|]. by constructor. Qed.
Lemma omap_fmap_id (cands : list BundleCandidate) : omap id (bc_Batch <$> cands) = omap bc_Batch cands.
Proof. by induction cands as [|c cands IH]; [|cbn; rewrite IH]. Qed.

(** The response leaves no batch out: [PrevL2Block] is a canonical block of the requested
    history, and there are at most 100 blocks, fetched by consecutive numbers from the one
    after it up to [LastL2Block], whose batches are exactly what the bundle encodes, in
    [MaxSize] bytes at most; without a batch among them the bundle is empty. *)
Definition bundle_complete (req : BatchBundleRequest) (resp : BatchBundleResponse) : Prop :=
  exists found blocks batches,
    id_Hash found ∈ bq_L2History req /\
    (exists n w1 ref w2, cl_L2BlockRefByNumber n w1 = (Ok ref, w2) /\ found = L2BlockRef_ID ref) /\
    mkBlockID (br_PrevL2BlockHash resp) (br_PrevL2BlockNum resp) = found /\
    fetched (id_Number found) blocks /\ zlen blocks <= MaxL2BlocksPerBatchResponse /\
    mkBlockID (br_LastL2BlockHash resp) (br_LastL2BlockNum resp) =
      match last blocks with Some bl => mkBlockID (bl_Hash bl) (bl_NumberU64 bl) | None => found end /\
    Forall2 (fun bl b => BlockToBatch bl = Ok b) blocks batches /\
    match omap id batches with
    | [] => br_Bundle resp = []
    | bs => EncodeBatches bs = Ok (br_Bundle resp) /\ zlen (br_Bundle resp) <= bq_MaxSize req
    end.
Lemma GetBatchBundle_spec req w resp w' :
  GetBatchBundle req w = (Ok (Some resp), w') -> bundle_complete req resp.
Proof.
  intros E. apply M_bind_ok in E as (found & w1 & Ef & E).
  case_bool_decide as Hz; [done|].
  apply M_bind_ok in E as ([b large] & w2 & Ec & E). apply lift_ok in E as [E _].
  destruct (find_history_spec _ _ _ _ Ef Hz) as [Hin Hcanon].
  apply (collect_candidates_spec _ _ _ _ _ _ []) in Ec as (blocks & Hf & Hc & Hp & Hb & Hl);
    [|done|constructor|done].
  destruct (encode_bundle_spec _ _ _ _ _ _ Hb E) as (k & Hr & Hbundle).
  rewrite Hp in Hr. cbn [app NewBundleBuilder bb_prevBlockID] in Hf, Hc, Hr.
  specialize (Hr (mkBundleBuilder found (take k (bb_candidates b)) 0) eq_refl eq_refl).
  exists found, (take k blocks), (bc_Batch <$> take k (bb_candidates b)).
  assert (Hk : Forall2 candidate_of (take k blocks) (take k (bb_candidates b))) by by apply Forall2_take.
  split_and!; [done|done|rewrite Hr; by destruct found| | | |by apply candidates_batches|].
  - intros j bl Hj. apply Hf. by eapply lookup_take_Some in Hj as [? _].
  - unfold MaxL2BlocksPerBatchResponse in *. unfold zlen. rewrite length_take. lia.
  - rewrite Hr. cbn. destruct (last (take k blocks)) as [bl|] eqn:El.
    + destruct (Forall2_last _ _ _ Hk) as [? c [_ ->]|]; [|done]. by injection El as ->.
    + apply last_None in El. rewrite El in Hk. apply Forall2_nil_inv_l in Hk as ->. by destruct found.
  - rewrite omap_fmap_id. exact Hbundle.
Qed.
End APISpec.

(** ** Termination *)
Section APIReturns.
Context `{Keccak} `{GethTypes} `{RLP} `{TrieDB} {W : Type} `{!L2EthClient W}.
Context (Hnum : forall n, M_returns (W:=W) (BlockByNumber n)).
Context (Href : forall n, M_returns (W:=W) (cl_L2BlockRefByNumber n)).
Context (Hhash : forall h, M_returns (W:=W) (cl_L2BlockRefByHash h)).
Context (Htx : forall tx, returns (tx_MarshalBinary tx) = true).
Context (Hrlp : forall b, returns (rlp_BatchV1 b) = true).

Lemma BlockToBatch_txs_returns txs acc : returns (BlockToBatch_txs txs acc) = true.
Proof.
  revert acc. induction txs as [|tx txs IH]; intros acc; cbn [BlockToBatch_txs]; [done|].
  case_bool_decide; [done|]. apply res_bind_returns; [by apply map_err_returns|done].
Qed.
Lemma BlockToBatch_returns bl : returns (BlockToBatch bl) = true.
Proof.
  unfold BlockToBatch. destruct (bl_Transactions bl) as [|tx0 rest]; [done|].
  case_match; [done|]. case_match; [done|].
  apply res_bind_returns; [apply BlockToBatch_txs_returns|intros ? _].
  by apply res_bind_returns; [apply map_err_returns, L1BlockInfo_UnmarshalBinary_returns|].
Qed.
Lemma EncodeBatches_returns batches : returns (EncodeBatches batches) = true.
Proof.
  unfold EncodeBatches. case_match; [|by case_match].
  apply res_bind_returns; [|done]. apply map_err_returns, res_bind_returns; [|done].
  induction batches as [|b batches IH]; [done|]. cbn [mapM_res].
  apply res_bind_returns; [|intros; by apply res_bind_returns].
  unfold BatchData_EncodeRLP, encodeTyped. by repeat (apply res_bind_returns; [|done]).
Qed.

Lemma find_history_returns history : M_returns (find_history history).
Proof.
  induction history as [|h history IH]; [done|]. cbn [find_history].
  apply M_returns_bind; [by apply M_returns_attempt|]. intros [err|l2Ref] ? w _; [case_match; [apply IH|done]|].
  revert w. apply M_returns_bind; [by apply M_returns_attempt|].
  intros [err|canon] ? w _; case_match; [apply IH|done..|apply IH].
Qed.
Lemma collect_candidates_returns fuel req stop i b total :
  in_range 64 i -> in_range 64 stop -> stop - i <= Z.of_nat fuel ->
  M_returns (collect_candidates fuel req stop i b total).
Proof.
  revert i b total. induction fuel as [|fuel IH]; intros i b total Hi Hs Hf; cbn [collect_candidates];
    (destruct (negb (i <? stop)) eqn:E; [done|]); [lia|].
  assert (Hi' : i +64 1 = i + 1) by (apply wrap_small; unfold in_range in *; lia).
  apply M_returns_bind; [by apply M_returns_attempt|].
  intros [err|bl] ? w _; [by case_match|]. revert w.
  apply M_returns_bind; [apply M_returns_M_err, M_returns_lift, BlockToBatch_returns|].
  intros [batch|] ? w _.
  - revert w. apply M_returns_bind; [apply M_returns_M_err, M_returns_lift, EncodeBatches_returns|].
    intros buf ? w _. case_match; [done|]. rewrite Hi'. apply IH; unfold in_range in *; lia.
  - rewrite Hi'. apply IH; unfold in_range in *; lia.
Qed.

Lemma GetBatchBundle_returns req : M_returns (GetBatchBundle req).
Proof.
  apply M_returns_bind; [apply find_history_returns|].
  intros found _ w _. case_bool_decide; [done|].
  revert w. apply M_returns_bind.
  - apply collect_candidates_returns; [by apply wrap_range..|].
    pose proof (wrap_range 64 (id_Number found + 1) ltac:(lia)) as [Hlo _].
    replace (_ +64 MaxL2BlocksPerBatchResponse +64 1) with (wrap 64 (wrap 64 (id_Number found + 1) + 100)).
    + pose proof (Z.mod_le (wrap 64 (id_Number found + 1) + 100) (2 ^ 64) ltac:(lia) ltac:(lia)) as Hle.
      fold (wrap 64 (wrap 64 (id_Number found + 1) + 100)) in Hle.
      unfold MaxL2BlocksPerBatchResponse. lia.
    + unfold MaxL2BlocksPerBatchResponse. rewrite !wrap_add_l by lia. f_equal. lia.
  - intros [b large] w w' Ec.
    apply (collect_candidates_spec _ _ _ _ _ _ []) in Ec as (blocks & _ & _ & _ & Hb & _);
      [|done|constructor|done].
    apply (M_returns_lift (W:=W)), encode_bundle_returns; [apply EncodeBatches_returns|done|].
    rewrite Hb. unfold zlen. lia.
Qed.
(** [C21] [GetBatchBundle] returns, with a bundle, without one or with an error, whatever
    it is asked for and whatever the client holds: the collection ends within 100 blocks,
    near the largest block number included, and each round of the encoding loop drops one
    batch.  A bundle that it returns leaves no batch out ([bundle_complete]): it encodes,
    within [MaxSize], all the batches of the consecutive blocks after a canonical block of
    the requested history up to the last block it names. *)
Theorem GetBatchBundle_total req w :
  exists r w', GetBatchBundle req w = (r, w') /\
    match r with
    | Ok (Some resp) => bundle_complete req resp
    | Ok None | Err _ => True
    | _ => False
    end.
Proof.
  pose proof (GetBatchBundle_returns req w) as Hr.
  destruct (GetBatchBundle req w) as [r w'] eqn:E. exists r, w'. split; [done|].
  destruct r as [[resp|]|e| |]; try done. by apply GetBatchBundle_spec in E.
Qed.
End APIReturns.

(** ** Witness: two blocks on a known one, the first empty *)
Definition api_block (n : Z) (txs : list (byte * list byte)) : @Block ToyGeth :=
  @mkBlock ToyGeth {|
    hdr_ParentHash := 77; hdr_UncleHash := 0; hdr_Coinbase := 1; hdr_Root := 2; hdr_TxHash := 0;
    hdr_ReceiptHash := 3; hdr_Bloom := 4; hdr_Difficulty := 0; hdr_Number := n; hdr_GasLimit := 6;
    hdr_GasUsed := 7; hdr_Time := 104; hdr_Extra := []; hdr_MixDigest := 8; hdr_Nonce := 0;
    hdr_BaseFee := 9 |} txs.
Definition ToyL2EthClient : @L2EthClient ToyGeth unit := {|
  GetBlockHeader := fun _ w => (Ok None, w);
  GetProof := fun _ _ w => (Ok None, w);
  BlockByNumber := fun n w =>
    ((if n =? 5 then Ok (api_block 5 [(x7e, info_data_example)])
      else if n =? 6 then Ok (api_block 6 [(x7e, info_data_example); (x02, [x01; x02])])
      else Err ENotFound), w);
  cl_L2BlockRefByNumber := fun n w =>
    ((if n =? 4 then Ok (mkL2BlockRef 40 4 39 100 zeroBlockID 0) else Err ENotFound), w);
  cl_L2BlockRefByHash := fun h w =>
    ((if h =? 40 then Ok (mkL2BlockRef 40 4 39 100 zeroBlockID 0)
      else if h =? 41 then Ok (mkL2BlockRef 41 4 39 100 zeroBlockID 0) else Err ENotFound), w);
|}.
#[local] Existing Instance ToyGeth.
#[local] Existing Instance ToyRLP.
#[local] Existing Instance ToyL2EthClient.

Definition api_request : BatchBundleRequest := mkBatchBundleRequest [50; 41; 40] 0 1000.

Lemma GetBatchBundle_total_witness :
  exists resp, GetBatchBundle api_request tt = (Ok (Some resp), tt) /\
    br_PrevL2BlockHash resp = 40 /\ br_LastL2BlockNum resp = 6 /\
    id_Hash (mkBlockID 40 4) ∈ bq_L2History api_request /\ zlen (br_Bundle resp) <= 1000.
Proof.
  assert (Hc : exists r w', GetBatchBundle api_request tt = (r, w') /\
    match r with Ok (Some resp) => bundle_complete api_request resp | Ok None | Err _ => True | _ => False end).
  { apply (@GetBatchBundle_total ToyGeth ToyRLP unit ToyL2EthClient).
    - intros n w. cbn. by repeat case_match.
    - intros n w. cbn. by repeat case_match.
    - intros n w. cbn. by repeat case_match.
    - by intros [].
    - intros b. cbn. unfold toy_encode_batch. by destruct (_ && _). }
  destruct Hc as (r & [] & E & Hs).
  destruct r as [[resp|]|e| |]; try (vm_compute in E; discriminate E).
  exists resp. split; [done|]. destruct Hs as (found & blocks & batches & Hin & _ & Hp & _).
  assert (Er : br_PrevL2BlockHash resp = 40 /\ br_PrevL2BlockNum resp = 4 /\ br_LastL2BlockNum resp = 6
    /\ zlen (br_Bundle resp) <= 1000).
  { vm_compute in E. injection E as <-. vm_compute. by split_and!. }
  destruct Er as (E1 & E2 & E3 & E4). rewrite E1, E2 in Hp.
  rewrite Hp. done.
Defined.
