(* ===== verification/Gossip.v ===== *)
(** * Gossip of unsafe blocks

    op-node/p2p/signer.go and gossip.go: the signature of a block, the message that
    publishes it, and the validator of received messages.  Validators run concurrently on
    shared caches, so the validator is a step relation. *)

From S2P Require Import Prelude Types Geth SSZ L2Source L1Source.
From stdpp Require Import pretty.
#[local] Open Scope Z_scope.

(** ** External code: go-ethereum's secp256k1, snappy, SHA-256 *)
Class Ecdsa := {
  PrivateKey : Type;
  PublicKey : Type;
  PublicOf : PrivateKey -> PublicKey;
  PubkeyToAddress : PublicKey -> Address;
  crypto_Sign : Hash -> PrivateKey -> res (list byte);
  SigToPub : Hash -> list byte -> res PublicKey;
}.
(** A signature is 65 bytes, and the signer's key is recovered from it. *)
Class EcdsaLaws `{Ecdsa} := {
  Sign_recover : forall h priv sig, crypto_Sign h priv = Ok sig ->
    zlen sig = 65 /\ SigToPub h sig = Ok (PublicOf priv);
}.
Class Snappy := {
  snappy_Encode : list byte -> list byte;
  snappy_DecodedLen : list byte -> res Z;
  snappy_Decode : list byte -> res (list byte);
}.
Class SnappyLaws `{Snappy} := {
  snappy_roundtrip : forall d, snappy_Decode (snappy_Encode d) = Ok d;
  snappy_length : forall d, snappy_DecodedLen (snappy_Encode d) = Ok (zlen d);
}.

(** ** signer.go *)
Definition SigningDomainBlocksV1 : list byte := replicate 32 x00.

Definition SigningHash `{Keccak} (domain : list byte) (chainID : bigInt) (payloadBytes : list byte)
    : res Hash :=
  let msgInput := replicate (32 + 32 + 32) x00 in
  msgInput ← blit msgInput 0 32 domain;
  id ← fill_bytes 32 chainID;
  msgInput ← blit msgInput 32 64 id;
  msgInput ← blit msgInput 32 96 (be_bytes 32 (Keccak256 payloadBytes));
  Ok (Keccak256 msgInput).
Definition BlockSigningHash `{Keccak} (cfg : Config) (payloadBytes : list byte) : res Hash :=
  SigningHash SigningDomainBlocksV1 (cfg_L2ChainID cfg) payloadBytes.

Section LocalSigner.
Context `{Keccak} `{Ecdsa}.

(** A [LocalSigner] is its key, nil when closed. *)
Definition NewLocalSigner (priv : PrivateKey) : option PrivateKey := Some priv.
Definition LocalSigner_Sign (s : option PrivateKey) (domain : list byte) (chainID : bigInt)
    (encodedMsg : list byte) : res (list byte) :=
  match s with
  | None => Err (EMsg "signer is closed")
  | Some priv =>
      signingHash ← SigningHash domain chainID encodedMsg;
      signature ← crypto_Sign signingHash priv;
      _ ← panic_if (zlen signature <? 65);
      Ok (take 65 signature)
  end.
Definition LocalSigner_Close (s : option PrivateKey) : option PrivateKey := None.
End LocalSigner.

(** ** gossip.go *)
Definition maxGossipSize : Z := Z.shiftl 1 20.
Definition MessageDomainInvalidSnappy : list byte := [x00; x00; x00; x00].
Definition MessageDomainValidSnappy : list byte := [x01; x00; x00; x00].

Definition blocksTopicV1 (cfg : Config) : string :=
  "/optimism/" +:+ pretty (cfg_L2ChainID cfg) +:+ "/0/blocks".

(** [BuildMsgIdFn]: the identifier of a message on a topic, over SHA-256 *)
Definition BuildMsgIdFn `{Snappy} (sha256 : list byte -> list byte) (topic : string) (Data : list byte)
    : list byte :=
  let decoded :=
    match snappy_DecodedLen Data with
    | Ok dLen => if dLen <=? maxGossipSize
                 then match snappy_Decode Data with Ok data => Some data | _ => None end
                 else None
    | _ => None
    end in
  let data := match decoded with Some data => data | None => Data end in
  let domain := match decoded with Some _ => MessageDomainValidSnappy | None => MessageDomainInvalidSnappy end in
  let t := String.list_byte_of_string topic in
  take 20 (sha256 (domain ++ le_bytes 8 (zlen t) ++ t ++ data)).

Section Publish.
Context `{Snappy} {W : Type}.

(** [publisher.PublishL2Payload]; [pool] is the pooled buffer of [MarshalSSZ], [Sign] the
    signer and [Publish] the topic. *)
Definition PublishL2Payload (cfg : Config) (Sign : list byte -> bigInt -> list byte -> M W (list byte))
    (Publish : list byte -> M W unit) (pool : list byte) (payload : ExecutionPayload) : M W unit :=
  encoded ← M_err (wrapv "failed to encoded execution payload to publish: ")
              (lift (MarshalSSZ pool payload));
  let data := replicate 65 x00 ++ encoded in
  payloadData ← lift (slice data 65 (zlen data));
  sig ← M_err (wrapv "failed to sign execution payload with signer: ")
          (Sign SigningDomainBlocksV1 (cfg_L2ChainID cfg) payloadData);
  data ← lift (blit data 0 65 sig);
  Publish (snappy_Encode data).
End Publish.

Inductive ValidationResult := ValidationAccept | ValidationIgnore | ValidationReject.

(** [seenBlocks] *)
Definition hasSeen (h : Hash) (blockHashes : list Hash) : Z * bool :=
  (zlen blockHashes, bool_decide (h ∈ blockHashes)).
Definition markSeen (h : Hash) (blockHashes : list Hash) : list Hash := blockHashes ++ [h].

(** What the first part of the validator hands to the second. *)
Record decoded_block := mkDecodedBlock {
  db_payload : ExecutionPayload;
  db_payloadBytes : list byte;
  db_signature : list byte;
}.

(** Where a running validator is; [seen] points to a [seenBlocks]. *)
Inductive validator :=
  | VReceived
  | VGetting (b : decoded_block)                   (* blockHeightLRU.Get *)
  | VAdding (b : decoded_block)                    (* blockHeightLRU.Add *)
  | VChecking (b : decoded_block) (seen : nat)     (* hasSeen *)
  | VVerifying (b : decoded_block) (seen : nat)    (* the signature, markSeen *)
  | VDone (r : ValidationResult) (ValidatorData : option ExecutionPayload)
  | VPanicked.

(** How many elements satisfy [p] *)
Fixpoint countb {A} (p : A -> bool) (l : list A) : nat :=
  match l with [] => 0 | x :: l => Nat.b2n (p x) + countb p l end.

Section Validator.
Context `{Keccak} `{GethTypes} `{Ecdsa} `{Snappy} `{LRU} (cfg : Config).

(** The checks that need no cache, at time [now] *)
Definition validate_message (now : uint64) (message : list byte) : res (option decoded_block) :=
  match snappy_DecodedLen message with
  | Ok outLen =>
      if maxGossipSize <? outLen then Ok None
      else
        match snappy_Decode message with
        | Ok data =>
            signatureBytes ← slice data 0 65;
            payloadBytes ← slice data 65 (zlen data);
            match UnmarshalSSZ (wrap 32 (zlen payloadBytes)) payloadBytes with
            | Ok payload =>
                if pl_Timestamp payload <? (now -64 20) then Ok None
                else if (now +64 5) <? pl_Timestamp payload then Ok None
                else if negb (CheckBlockHash payload).2 then Ok None
                else Ok (Some (mkDecodedBlock payload payloadBytes signatureBytes))
            | Err _ => Ok None
            | Panic => Panic
            | OutOfFuel => OutOfFuel
            end
        | Err _ => Ok None
        | Panic => Panic
        | OutOfFuel => OutOfFuel
        end
  | Err _ => Ok None
  | Panic => Panic
  | OutOfFuel => OutOfFuel
  end.

(** The check of the author *)
Definition validate_author (b : decoded_block) : res bool :=
  signingHash ← BlockSigningHash cfg (db_payloadBytes b);
  match SigToPub signingHash (db_signature b) with
  | Ok pub => Ok (PubkeyToAddress pub =? cfg_P2PSequencerAddress cfg)
  | Err _ => Ok false
  | Panic => Panic
  | OutOfFuel => OutOfFuel
  end.

Record gossip_state := mkGossip {
  gs_blockHeightLRU : Cache nat;           (* by block number *)
  gs_seen : list (list Hash);              (* the [seenBlocks] objects *)
  gs_validators : list (list byte * validator);
}.

(** [BuildBlocksValidator] *)
Definition BuildBlocksValidator : res gossip_state :=
  match lru_New nat 100 with
  | Some c => Ok (mkGossip c [] [])
  | None => Panic
  end.

Inductive gossip_event :=
  | EvReceive (message : list byte)
  | EvDecode (i : nat) (now : uint64)
  | EvGet (i : nat)
  | EvAdd (i : nat)
  | EvHasSeen (i : nat)
  | EvVerify (i : nat).

(** [WithValidatorConcurrency]: how many validators run at a time *)
Context (concurrency : nat).

Definition running (v : validator) : bool :=
  match v with VDone _ _ | VPanicked => false | _ => true end.
Definition active (s : gossip_state) : nat :=
  countb (fun mv => running mv.2) (gs_validators s).

Definition set_validator (i : nat) (m : list byte) (v : validator) (s : gossip_state) : gossip_state :=
  mkGossip (gs_blockHeightLRU s) (gs_seen s) (<[i := (m, v)]> (gs_validators s)).

(** One step of validator [i] of message [m] *)
Definition validator_step (ev : gossip_event) (i : nat) (m : list byte) (v : validator)
    (s : gossip_state) : option gossip_state :=
  match ev, v with
  | EvDecode _ now, VReceived =>
      Some (set_validator i m
        (match validate_message now m with
         | Ok (Some b) => VGetting b
         | Ok None => VDone ValidationReject None
         | _ => VPanicked
         end) s)
  | EvGet _, VGetting b =>
      let '(seen, c) := lru_Get (pl_BlockNumber (db_payload b)) (gs_blockHeightLRU s) in
      Some (set_validator i m (match seen with Some p => VChecking b p | None => VAdding b end)
              (mkGossip c (gs_seen s) (gs_validators s)))
  | EvAdd _, VAdding b =>
      let seen := length (gs_seen s) in
      Some (set_validator i m (VChecking b seen)
              (mkGossip (lru_Add (pl_BlockNumber (db_payload b)) seen (gs_blockHeightLRU s))
                 (gs_seen s ++ [[]]) (gs_validators s)))
  | EvHasSeen _, VChecking b seen =>
      match gs_seen s !! seen with
      | Some blockHashes =>
          let '(count, has) := hasSeen (pl_BlockHash (db_payload b)) blockHashes in
          Some (set_validator i m
            (if 5 <? count then VDone ValidationReject None
             else if has then VDone ValidationIgnore None
             else VVerifying b seen) s)
      | None => None
      end
  | EvVerify _, VVerifying b seen =>
      match validate_author b with
      | Ok false => Some (set_validator i m (VDone ValidationReject None) s)
      | Ok true =>
          Some (set_validator i m (VDone ValidationAccept (Some (db_payload b)))
            (mkGossip (gs_blockHeightLRU s)
               (alter (markSeen (pl_BlockHash (db_payload b))) seen (gs_seen s)) (gs_validators s)))
      | _ => Some (set_validator i m VPanicked s)
      end
  | _, _ => None
  end.

(** One step of the validators *)
Definition gossip_step (ev : gossip_event) (s : gossip_state) : option gossip_state :=
  match ev with
  | EvReceive message =>
      if (active s <? concurrency)%nat
      then Some (mkGossip (gs_blockHeightLRU s) (gs_seen s) (gs_validators s ++ [(message, VReceived)]))
      else None
  | EvDecode i _ | EvGet i | EvAdd i | EvHasSeen i | EvVerify i =>
      match gs_validators s !! i with
      | Some (m, v) => validator_step ev i m v s
      | None => None
      end
  end.

Inductive gossip_reachable : list gossip_event -> gossip_state -> Prop :=
  | gossip_start s : BuildBlocksValidator = Ok s -> gossip_reachable [] s
  | gossip_next tr s ev s' : gossip_reachable tr s -> gossip_step ev s = Some s' ->
      gossip_reachable (tr ++ [ev]) s'.
Fixpoint gossip_run (evs : list gossip_event) (s : gossip_state) : option gossip_state :=
  match evs with
  | [] => Some s
  | ev :: evs => match gossip_step ev s with Some s => gossip_run evs s | None => None end
  end.
End Validator.

(** ** The signed message *)

Section Signing.
Context `{Keccak}.

(** The second copy starts at the chain id. *)
Lemma SigningHash_eq domain chainID payloadBytes :
  zlen domain = 32 -> Z.abs chainID < 2 ^ 256 ->
  SigningHash domain chainID payloadBytes =
    Ok (Keccak256 (domain ++ be_bytes 32 (Keccak256 payloadBytes) ++ replicate 32 x00)).
Proof.
  intros Hd Hc. unfold SigningHash. cbv zeta.
  change (replicate (32 + 32 + 32) x00) with ([] ++ replicate (32 + 64) x00 : list byte).
  rewrite blit_short by len. rewrite drop_replicate. cbn [app mbind res_bind].
  replace (32 + 64 - length domain)%nat with 64%nat by len.
  unfold fill_bytes. rewrite (proj2 (Z.ltb_lt _ _)) by exact Hc. cbn [mbind res_bind].
  rewrite blit_short by len. rewrite drop_replicate, length_be_bytes. cbn [mbind res_bind].
  rewrite blit_short by len. cbn [mbind res_bind]. rewrite length_be_bytes.
  rewrite drop_app_ge, length_be_bytes, drop_0 by len. done.
Qed.
Lemma BlockSigningHash_ok cfg payloadBytes :
  Z.abs (cfg_L2ChainID cfg) < 2 ^ 256 -> exists h, BlockSigningHash cfg payloadBytes = Ok h.
Proof. intros. unfold BlockSigningHash. rewrite SigningHash_eq by done. eauto. Qed.
End Signing.

(** ** What the validators guarantee *)
Lemma countb_app {A} (p : A -> bool) l1 l2 : countb p (l1 ++ l2) = (countb p l1 + countb p l2)%nat.
Proof. induction l1 as [|x l1 IH]; cbn [countb app]; lia. Qed.
Lemma countb_insert {A} (p : A -> bool) l i x y :
  l !! i = Some x ->
  (countb p (<[i := y]> l) + Nat.b2n (p x) = countb p l + Nat.b2n (p y))%nat.
Proof.
  revert i. induction l as [|z l IH]; intros [|i] E; try done; cbn in E.
  - injection E as ->. cbn. lia.
  - specialize (IH i E). change (<[S i := y]> (z :: l)) with (z :: <[i := y]> l). cbn [countb]. lia.
Qed.
Lemma countb_le {A} (p q : A -> bool) l :
  (forall x, p x = true -> q x = true) -> (countb p l <= countb q l)%nat.
Proof.
  intros Hpq. induction l as [|x l IH]; cbn [countb]; [lia|].
  specialize (Hpq x). destruct (p x), (q x); cbn; lia.
Qed.

Section ValidatorProofs.
Context `{Keccak} `{GethTypes} `{Ecdsa} `{Snappy} `{LRULaws} (cfg : Config) (concurrency : nat).

(** Validator [i] found a block [b] in message [m], of its own time. *)
Definition decoded_from (tr : list gossip_event) (i : nat) (m : list byte) (b : decoded_block) : Prop :=
  exists now outLen, EvDecode i now ∈ tr /\ snappy_DecodedLen m = Ok outLen /\ outLen <= maxGossipSize /\
    snappy_Decode m = Ok (db_signature b ++ db_payloadBytes b) /\ zlen (db_signature b) = 65 /\
    UnmarshalSSZ (wrap 32 (zlen (db_payloadBytes b))) (db_payloadBytes b) = Ok (db_payload b) /\
    now -64 20 <= pl_Timestamp (db_payload b) <= now +64 5 /\
    (CheckBlockHash (db_payload b)).2 = true.
(** The sequencer signed the bytes of the block. *)
Definition authored (b : decoded_block) : Prop :=
  exists h pub, BlockSigningHash cfg (db_payloadBytes b) = Ok h /\
    SigToPub h (db_signature b) = Ok pub /\ PubkeyToAddress pub = cfg_P2PSequencerAddress cfg.

Lemma validate_message_decodes now m b tr i :
  validate_message now m = Ok (Some b) -> EvDecode i now ∈ tr -> decoded_from tr i m b.
Proof.
  unfold validate_message. intros E Htr.
  destruct (snappy_DecodedLen m) as [outLen| | |] eqn:El; try done.
  destruct (Z.ltb_spec maxGossipSize outLen); [done|].
  destruct (snappy_Decode m) as [data| | |] eqn:Ed; try done.
  apply res_bind_ok in E as (sg & Esg & E). apply res_bind_ok in E as (pb & Epb & E).
  destruct (UnmarshalSSZ _ _) as [p| | |] eqn:Ep; try done.
  destruct (Z.ltb_spec (pl_Timestamp p) (now -64 20)); [done|].
  destruct (Z.ltb_spec (now +64 5) (pl_Timestamp p)); [done|].
  destruct (CheckBlockHash p).2 eqn:Eh; [|done]. injection E as <-.
  exists now, outLen. cbn [db_payload db_payloadBytes db_signature].
  pose proof (slice_length _ _ _ _ Esg) as (Hl & _ & Hle).
  rewrite slice_ok in Esg, Epb by lia. injection Esg as <-. injection Epb as <-.
  assert (Hdata : data = take 65 data ++ drop 65 data) by by rewrite take_drop.
  split_and!; try done. rewrite Ed. f_equal.
  rewrite Hdata at 1. f_equal. by rewrite take_ge by len.
Qed.
Lemma validate_author_authored b : validate_author cfg b = Ok true -> authored b.
Proof.
  unfold validate_author. intros E. apply res_bind_ok in E as (h & Eh & E).
  destruct (SigToPub h (db_signature b)) as [pub| | |] eqn:Ep; try done.
  injection E as E. apply Z.eqb_eq in E. exists h, pub. done.
Qed.

Definition validator_ok (tr : list gossip_event) (seen : list (list Hash)) (i : nat) (m : list byte)
    (v : validator) : Prop :=
  match v with
  | VGetting b | VAdding b => decoded_from tr i m b
  | VChecking b o | VVerifying b o => decoded_from tr i m b /\ (o < length seen)%nat
  | VDone ValidationAccept d => exists b, d = Some (db_payload b) /\ decoded_from tr i m b /\
      authored b /\ Exists (fun l => pl_BlockHash (db_payload b) ∈ l) seen
  | _ => True
  end.
Definition verifying (o : nat) (mv : list byte * validator) : bool :=
  match mv.2 with VVerifying _ o' => bool_decide (o = o') | _ => false end.

Record gossip_inv (tr : list gossip_event) (s : gossip_state) : Prop := {
  gi_validators : forall i m v, gs_validators s !! i = Some (m, v) -> validator_ok tr (gs_seen s) i m v;
  gi_cache : forall h o, cached (gs_blockHeightLRU s) h o -> (o < length (gs_seen s))%nat;
  gi_active : (active s <= concurrency)%nat;
  gi_bound : forall o l, gs_seen s !! o = Some l ->
    (length l + countb (verifying o) (gs_validators s) <= 5 + concurrency)%nat;
}.

(** The seen objects only grow. *)
Definition grows (seen seen' : list (list Hash)) : Prop :=
  (length seen <= length seen')%nat /\
  forall h, Exists (fun l => h ∈ l) seen -> Exists (fun l => h ∈ l) seen'.
Lemma validator_ok_mono tr ev seen seen' i m v :
  grows seen seen' -> validator_ok tr seen i m v -> validator_ok (tr ++ [ev]) seen' i m v.
Proof.
  intros [Hl He].
  assert (Hd : forall b, decoded_from tr i m b -> decoded_from (tr ++ [ev]) i m b).
  { intros b (now & n & ? & ?). exists now, n. split; [apply elem_of_app; by left|done]. }
  destruct v as [|?|?|? ?|? ?|[] ?|]; cbn; auto; try (intros [? ?]; split; [auto|lia]).
  intros (b & ? & ? & ? & ?). exists b. auto.
Qed.
Lemma grows_refl seen : grows seen seen.
Proof. split; [lia|done]. Qed.
Lemma grows_app seen l : grows seen (seen ++ [l]).
Proof. split; [len|]. intros h ?. apply Exists_app. by left. Qed.
Lemma Exists_alter_mark h h' seen o :
  Exists (fun l => h ∈ l) seen -> Exists (fun l => h ∈ l) (alter (markSeen h') o seen).
Proof.
  intros He. revert o. induction He as [l seen Hl|l seen He IH]; intros [|o]; cbn; auto.
  left. apply elem_of_app. by left.
Qed.
Lemma grows_mark h o seen : grows seen (alter (markSeen h) o seen).
Proof. split; [by rewrite length_alter|]. intros ? ?. by apply Exists_alter_mark. Qed.

(** Replacing the state of one validator *)
Lemma set_validator_inv tr ev i m v v' c seen' s :
  gossip_inv tr s -> gs_validators s !! i = Some (m, v) -> running v = true ->
  grows (gs_seen s) seen' ->
  (forall h o, cached c h o -> (o < length seen')%nat) ->
  validator_ok (tr ++ [ev]) seen' i m v' ->
  (forall o l', seen' !! o = Some l' ->
     (length l' + countb (verifying o) (<[i := (m, v')]> (gs_validators s)) <= 5 + concurrency)%nat) ->
  gossip_inv (tr ++ [ev]) (set_validator i m v' (mkGossip c seen' (gs_validators s))).
Proof.
  intros [] Hi Hr Hg Hc Hv Hb. split; cbn; [|done| |done].
  - intros j m' w E. apply list_lookup_insert_Some in E as [(<- & [= <- <-] & _)|[_ E]]; [done|].
    eapply validator_ok_mono; [done|]. by apply gi_validators0.
  - unfold active in *. cbn. pose proof (countb_insert (fun mv => running mv.2) _ i _ (m, v') Hi) as Hn.
    cbn in Hn. rewrite Hr in Hn. destruct (running v'); cbn in Hn; lia.
Qed.
(** The bound, when the validator is not the one that marks or passes [hasSeen] *)
Lemma bound_kept tr i m v v' s o l :
  gossip_inv tr s -> gs_validators s !! i = Some (m, v) -> gs_seen s !! o = Some l ->
  verifying o (m, v') = false ->
  (length l + countb (verifying o) (<[i := (m, v')]> (gs_validators s)) <= 5 + concurrency)%nat.
Proof.
  intros [] Hi Ho Hv. specialize (gi_bound0 o l Ho).
  pose proof (countb_insert (verifying o) _ i _ (m, v') Hi). rewrite Hv in *. cbn in *. lia.
Qed.

Lemma verifying_at o o' m b : verifying o' (m, VVerifying b o) = bool_decide (o' = o).
Proof. done. Qed.
Lemma verifying_other o m v :
  (forall b o', v <> VVerifying b o') -> verifying o (m, v) = false.
Proof. intros Hv. destruct v; try done. by destruct (Hv b seen). Qed.
Lemma elem_of_snoc {A} (l : list A) x : x ∈ l ++ [x].
Proof. apply elem_of_app. right. by left. Qed.
Lemma active_verifying o s : (countb (verifying o) (gs_validators s) <= active s)%nat.
Proof. apply countb_le. intros [m v]. unfold verifying. by destruct v. Qed.

Lemma gossip_inv_start s : BuildBlocksValidator = Ok s -> gossip_inv [] s.
Proof.
  unfold BuildBlocksValidator. intros E. destruct (lru_New nat 100) as [c|] eqn:Ec; [|done].
  injection E as <-. split; cbn; [done| |unfold active; cbn; lia|done].
  intros h o Hc. by destruct (lru_New_empty _ _ _ Ec h o).
Qed.
Lemma receive_inv tr m s :
  gossip_inv tr s -> (active s < concurrency)%nat ->
  gossip_inv (tr ++ [EvReceive m])
    (mkGossip (gs_blockHeightLRU s) (gs_seen s) (gs_validators s ++ [(m, VReceived)])).
Proof.
  intros [] Ha. split; cbn; [|done| |].
  - intros i m' v [E|[_ E]]%lookup_app_Some.
    + eapply validator_ok_mono; [apply grows_refl|]. by apply gi_validators0.
    + by destruct (i - _)%nat; [injection E as <- <-|].
  - unfold active in *. cbn. rewrite countb_app. cbn. lia.
  - intros o l E. rewrite countb_app. cbn. specialize (gi_bound0 o l E). lia.
Qed.

Lemma hasSeen_inv tr i m b o l s :
  gossip_inv tr s -> gs_validators s !! i = Some (m, VChecking b o) -> gs_seen s !! o = Some l ->
  zlen l <= 5 ->
  gossip_inv (tr ++ [EvHasSeen i]) (set_validator i m (VVerifying b o) s).
Proof.
  intros HI Hi Ho Hl. pose proof HI as [Hv Hc Ha Hb].
  apply (set_validator_inv tr (EvHasSeen i) i m (VChecking b o) (VVerifying b o)
           (gs_blockHeightLRU s) (gs_seen s) s); try done.
  - exact (validator_ok_mono tr _ _ _ i m (VVerifying b o) (grows_refl _) (Hv i m _ Hi)).
  - intros o' l' Ho'. pose proof (countb_insert (verifying o') _ i _ (m, VVerifying b o) Hi) as Hn.
    pose proof (countb_insert (fun mv => running mv.2) _ i _ (m, VVerifying b o) Hi) as Hr.
    pose proof (countb_le (verifying o') (fun mv => running mv.2)
      (<[i := (m, VVerifying b o)]> (gs_validators s))) as Hle.
    specialize (Hb o' l' Ho'). unfold active in Ha. cbn in Hr.
    rewrite verifying_at, (verifying_other o' m (VChecking b o)) in Hn by done.
    destruct (decide (o' = o)) as [->|Hne].
    + rewrite Ho in Ho'. injection Ho' as <-.
      assert (forall mv, verifying o mv = true -> running mv.2 = true) as Hvr
        by (intros [? v]; unfold verifying; by destruct v).
      specialize (Hle Hvr). unfold zlen in Hl. lia.
    + rewrite bool_decide_false in Hn by done. cbn in Hn. lia.
Qed.
Lemma verify_inv tr i m b o s :
  gossip_inv tr s -> gs_validators s !! i = Some (m, VVerifying b o) -> authored b ->
  gossip_inv (tr ++ [EvVerify i])
    (set_validator i m (VDone ValidationAccept (Some (db_payload b)))
       (mkGossip (gs_blockHeightLRU s) (alter (markSeen (pl_BlockHash (db_payload b))) o (gs_seen s))
          (gs_validators s))).
Proof.
  intros HI Hi Hauth. pose proof HI as [Hv Hc Ha Hb]. destruct (Hv i m _ Hi) as [Hd Hlt].
  apply (set_validator_inv tr (EvVerify i) i m (VVerifying b o)); try done; [apply grows_mark| | |].
  - intros h o' ?. rewrite length_alter. by apply (Hc h).
  - exists b. split; [done|]. split; [|split; [done|]].
    + exact (validator_ok_mono tr _ _ _ i m (VGetting b) (grows_refl (gs_seen s)) Hd).
    + destruct (lookup_lt_is_Some_2 _ _ Hlt) as [l El].
      apply Exists_exists. exists (markSeen (pl_BlockHash (db_payload b)) l).
      split; [|apply elem_of_snoc]. apply list_elem_of_lookup. exists o.
      by rewrite list_lookup_alter_eq, El.
  - intros o' l' Ho'. pose proof (countb_insert (verifying o') _ i _
      (m, VDone ValidationAccept (Some (db_payload b))) Hi) as Hn.
    rewrite verifying_at, (verifying_other o' m (VDone _ _)) in Hn by done.
    destruct (decide (o' = o)) as [->|Hne].
    + rewrite list_lookup_alter_eq in Ho'. destruct (gs_seen s !! o) as [l|] eqn:El; [|done].
      injection Ho' as <-. specialize (Hb o l El). rewrite bool_decide_true in Hn by done. cbn in Hn.
      unfold markSeen. rewrite length_app. cbn. lia.
    + rewrite list_lookup_alter_ne in Ho' by done. specialize (Hb o' l' Ho').
      rewrite bool_decide_false in Hn by done. cbn in Hn. lia.
Qed.

(** A step of a validator that changes neither the seen objects nor its share of the bound *)
Lemma plain_inv tr ev i m v v' c s :
  gossip_inv tr s -> gs_validators s !! i = Some (m, v) -> running v = true ->
  (forall h o, cached c h o -> cached (gs_blockHeightLRU s) h o) ->
  validator_ok (tr ++ [ev]) (gs_seen s) i m v' -> (forall b o, v' <> VVerifying b o) ->
  gossip_inv (tr ++ [ev]) (set_validator i m v' (mkGossip c (gs_seen s) (gs_validators s))).
Proof.
  intros HI Hi Hr Hc Hv Hv'. apply (set_validator_inv tr ev i m v v' c (gs_seen s) s); try done.
  - intros h o ?. apply (gi_cache _ _ HI h). auto.
  - intros o l Ho. by apply (bound_kept tr i m v v' s o l HI Hi Ho), verifying_other.
Qed.
Lemma add_inv tr i m b s :
  gossip_inv tr s -> gs_validators s !! i = Some (m, VAdding b) ->
  gossip_inv (tr ++ [EvAdd i])
    (set_validator i m (VChecking b (length (gs_seen s)))
       (mkGossip (lru_Add (pl_BlockNumber (db_payload b)) (length (gs_seen s)) (gs_blockHeightLRU s))
          (gs_seen s ++ [[]]) (gs_validators s))).
Proof.
  intros HI Hi. pose proof HI as [Hv Hc Ha Hb].
  apply (set_validator_inv tr (EvAdd i) i m (VAdding b)); try done; [apply grows_app| | |].
  - intros h o [[_ ->]|Ho]%lru_Add_cached; [len|]. specialize (Hc h o Ho). len.
  - split; [|len]. exact (validator_ok_mono tr _ _ _ i m (VGetting b) (grows_refl (gs_seen s)) (Hv i m _ Hi)).
  - intros o l Ho.
    assert (Hw : verifying o (m, VChecking b (length (gs_seen s))) = false) by done.
    apply lookup_app_Some in Ho as [Ho|[_ Ho]]; [by apply (bound_kept tr i m (VAdding b) _ s o l HI Hi)|].
    destruct (o - _)%nat; [|done]. injection Ho as <-. cbn [length].
    pose proof (countb_insert (verifying o) _ i _ (m, VChecking b (length (gs_seen s))) Hi) as Hn.
    rewrite Hw in Hn. pose proof (active_verifying o s). cbn in Hn. lia.
Qed.

Lemma validator_step_inv tr ev i m v s s' :
  gossip_inv tr s -> gs_validators s !! i = Some (m, v) ->
  validator_step cfg ev i m v s = Some s' ->
  (forall j now, ev = EvDecode j now -> j = i) -> (ev = EvHasSeen i \/ forall j, ev <> EvHasSeen j) ->
  (ev = EvAdd i \/ forall j, ev <> EvAdd j) -> (ev = EvVerify i \/ forall j, ev <> EvVerify j) ->
  gossip_inv (tr ++ [ev]) s'.
Proof.
  intros HI Hi E Hdec Hseen Hadd Hver. pose proof (gi_validators _ _ HI i m v Hi) as Hok.
  assert (Hself : s = mkGossip (gs_blockHeightLRU s) (gs_seen s) (gs_validators s)) by by destruct s.
  assert (Hmono : forall w, validator_ok tr (gs_seen s) i m w -> validator_ok (tr ++ [ev]) (gs_seen s) i m w)
    by (intros w; apply validator_ok_mono, grows_refl).
  destruct ev as [|j now|j|j|j|j], v as [|b|b|b o|b o|r d|]; try done; cbn [validator_step] in E.
  - rewrite (Hdec j now eq_refl) in *. injection E as <-. rewrite Hself at 1.
    apply (plain_inv tr _ i m VReceived); try done; destruct (validate_message now m) as [[b|]| | |] eqn:Ev; try done.
    cbn. by eapply validate_message_decodes, elem_of_snoc.
  - destruct (lru_Get _ _) as [seen c] eqn:Eg. injection E as <-.
    apply (plain_inv tr _ i m (VGetting b)); try done; destruct seen as [o|]; try done.
    + intros h o'. replace c with (lru_Get (pl_BlockNumber (db_payload b)) (gs_blockHeightLRU s)).2
        by by rewrite Eg. apply lru_Get_keeps.
    + intros h o'. replace c with (lru_Get (pl_BlockNumber (db_payload b)) (gs_blockHeightLRU s)).2
        by by rewrite Eg. apply lru_Get_keeps.
    + apply (Hmono (VChecking b o)). split; [done|].
      apply (gi_cache _ _ HI (pl_BlockNumber (db_payload b))). unfold cached. by rewrite Eg.
    + by apply (Hmono (VAdding b)).
  - injection E as <-. destruct Hadd as [[= ->]|Hadd]; [by apply add_inv|by destruct (Hadd j)].
  - destruct (gs_seen s !! o) as [l|] eqn:Eo; [|done]. unfold hasSeen in E. injection E as <-.
    destruct Hseen as [[= ->]|Hseen]; [|by destruct (Hseen j)].
    destruct (Z.ltb_spec 5 (zlen l)); [|case_bool_decide]; [..|by eapply hasSeen_inv].
    all: rewrite Hself at 1; by apply (plain_inv tr _ i m (VChecking b o)).
  - destruct (validate_author cfg b) as [[]| | |] eqn:Ea; injection E as <-;
      [|rewrite Hself at 1; by apply (plain_inv tr _ i m (VVerifying b o))..].
    destruct Hver as [[= ->]|Hver]; [|by destruct (Hver j)].
    by apply verify_inv, validate_author_authored.
Qed.
Lemma gossip_inv_step tr ev s s' :
  gossip_inv tr s -> gossip_step cfg concurrency ev s = Some s' -> gossip_inv (tr ++ [ev]) s'.
Proof.
  intros HI E. unfold gossip_step in E. destruct ev as [m|i now|i|i|i|i].
  1:{ destruct (Nat.ltb_spec (active s) concurrency); [|done]. injection E as <-. by apply receive_inv. }
  all: destruct (gs_validators s !! i) as [[m v]|] eqn:Hi; [|done];
    apply (validator_step_inv tr _ i m v s s' HI Hi E); try (by intros ? ? [= <-]); try (by left); by right.
Qed.
Lemma gossip_reachable_inv tr s : gossip_reachable cfg concurrency tr s -> gossip_inv tr s.
Proof. induction 1; [by apply gossip_inv_start|by eapply gossip_inv_step]. Qed.

(** What the validator accepts, however the validators of other messages interleave:
    a message that decompresses to at most a megabyte, of a 65-byte signature and the SSZ
    encoding of a payload with the right block hash, no more than 20 seconds old and no
    more than 5 seconds ahead of the time of validation, whose signature over these very
    bytes is the configured sequencer's.  The block is then marked as seen. *)
Lemma accepted_inv tr s i m d :
  gossip_reachable cfg concurrency tr s ->
  gs_validators s !! i = Some (m, VDone ValidationAccept d) ->
  exists b, d = Some (db_payload b) /\ decoded_from tr i m b /\ authored b /\
    Exists (fun seen => pl_BlockHash (db_payload b) ∈ seen) (gs_seen s).
Proof. intros HI%gossip_reachable_inv Hi. exact (gi_validators _ _ HI i m _ Hi). Qed.

Lemma seen_inv tr s o blockHashes :
  gossip_reachable cfg concurrency tr s -> gs_seen s !! o = Some blockHashes ->
  zlen blockHashes <= 5 + Z.of_nat concurrency.
Proof.
  intros HI%gossip_reachable_inv Ho. pose proof (gi_bound _ _ HI o _ Ho). unfold zlen. lia.
Qed.

(** [C36] However many messages are received, the record of the blocks seen at a height
    stays bounded: [markSeen] is reached with at most five blocks seen, so that with [n]
    validators at a time a record never holds more than [5 + n] hashes. *)
Theorem seen_bounded tr s o blockHashes :
  gossip_reachable cfg concurrency tr s -> gs_seen s !! o = Some blockHashes ->
  zlen blockHashes <= 5 + Z.of_nat concurrency.
Proof. apply seen_inv. Qed.
End ValidatorProofs.

(** ** A published block is accepted *)
Section PublishProofs.
Context `{Keccak} `{GethTypes} `{EcdsaLaws} `{SnappyLaws} `{LRULaws} (cfg : Config) (concurrency : nat).

(** A time at which the payload is neither too old nor too far ahead *)
Definition in_time (payload : ExecutionPayload) (now : uint64) : bool :=
  (now -64 20 <=? pl_Timestamp payload) && (pl_Timestamp payload <=? now +64 5).
Lemma validate_message_at now sig encoded payload :
  zlen sig = 65 -> zlen (sig ++ encoded) <= maxGossipSize ->
  UnmarshalSSZ (wrap 32 (zlen encoded)) encoded = Ok payload -> (CheckBlockHash payload).2 = true ->
  validate_message now (snappy_Encode (sig ++ encoded)) =
    Ok (if in_time payload now then Some (mkDecodedBlock payload encoded sig) else None).
Proof.
  intros Hs Hl Hp Hh. unfold validate_message, in_time.
  rewrite snappy_length, (proj2 (Z.ltb_ge _ _)), snappy_roundtrip by done.
  pose proof (slice_app [] sig encoded 0 65 eq_refl ltac:(len)) as Es. cbn [app] in Es. rewrite Es.
  pose proof (slice_app sig encoded [] 65 (zlen (sig ++ encoded)) ltac:(done) ltac:(len)) as Ep.
  rewrite app_nil_r in Ep. cbn [mbind res_bind]. rewrite Ep. cbn [mbind res_bind].
  rewrite Hp, Hh, !Z.ltb_antisym. cbn [negb].
  by destruct (now -64 20 <=? pl_Timestamp payload), (pl_Timestamp payload <=? now +64 5).
Qed.

(** The message of a payload under a key that signs *)
Lemma PublishL2Payload_message {W} priv pool payload (Publish : list byte -> M W unit) w :
  payload_ok payload -> zlen pool < 2 ^ 32 -> Z.abs (cfg_L2ChainID cfg) < 2 ^ 256 ->
  (forall h, exists sig, crypto_Sign h priv = Ok sig) ->
  exists h sig, BlockSigningHash cfg (sg_bytes (sg_of payload)) = Ok h /\ zlen sig = 65 /\
    SigToPub h sig = Ok (PublicOf priv) /\
    PublishL2Payload cfg (fun d c m => lift (LocalSigner_Sign (NewLocalSigner priv) d c m))
      Publish pool payload w = Publish (snappy_Encode (sig ++ sg_bytes (sg_of payload))) w.
Proof.
  intros Hok Hpool Hid Hsign. pose proof Hok as (_&_&_&_&_&_&_&_&_&_&_&_&_&_&Hfit).
  destruct (BlockSigningHash_ok cfg (sg_bytes (sg_of payload)) Hid) as [h Eh].
  destruct (Hsign h) as [sig Esig]. destruct (Sign_recover _ _ _ Esig) as [Hl Hrec].
  exists h, sig. split_and!; [done..|].
  unfold PublishL2Payload. rewrite (MarshalSSZ_layout pool payload) by done.
  set (encoded := sg_bytes (sg_of payload)) in *.
  pose proof (slice_app (replicate 65 x00) encoded [] 65 (zlen (replicate 65 x00 ++ encoded))
    eq_refl ltac:(len)) as Ep. rewrite app_nil_r in Ep.
  cbn [M_err lift mbind M_bind map_err]. unfold mbind, M_bind, M_err, lift. cbn [map_err].
  rewrite Ep. cbv iota beta. unfold LocalSigner_Sign, NewLocalSigner.
  unfold BlockSigningHash in Eh. rewrite Eh. cbn [mbind res_bind]. rewrite Esig. cbn [mbind res_bind].
  rewrite Hl. change (panic_if (65 <? 65)) with (@Ok unit tt). cbn [mbind res_bind].
  rewrite (take_ge sig) by len. cbn [map_err].
  pose proof (blit_app [] (replicate 65 x00 ++ encoded) sig 0 65 eq_refl ltac:(len) ltac:(len)) as Eb.
  cbn [app] in Eb. rewrite Eb. rewrite drop_app_ge by len. replace (length sig) with 65%nat by len.
  by rewrite length_replicate, Nat.sub_diag, drop_0.
Qed.

(** The steps of the validator that was started last *)
Lemma set_last c seen vs m v v' :
  set_validator (length vs) m v' (mkGossip c seen (vs ++ [(m, v)])) = mkGossip c seen (vs ++ [(m, v')]).
Proof.
  unfold set_validator. cbn. f_equal.
  rewrite insert_app_r_alt, Nat.sub_diag by lia. done.
Qed.
Lemma lookup_last_validator (vs : list (list byte * validator)) x : (vs ++ [x]) !! length vs = Some x.
Proof. by rewrite lookup_app_r, Nat.sub_diag by lia. Qed.

(** *** One message of a known block, under every interleaving *)

(** The record of the blocks seen at a height *)
Definition seen_at (s : gossip_state) (n : uint64) : list Hash :=
  match (lru_Get n (gs_blockHeightLRU s)).1 with
  | Some o => default [] (gs_seen s !! o)
  | None => []
  end.

(** The one time at which validator [i] looked at its message *)
Definition decoded_at (tr : list gossip_event) (i : nat) (now : uint64) : Prop :=
  forall now', EvDecode i now' ∈ tr <-> now' = now.

(** Where a validator of a message with the block [b] may be, and what it may have decided,
    by the time at which it looked at it. *)
Definition verdict (b : decoded_block) (tr : list gossip_event) (seen : list (list Hash)) (i : nat)
    (v : validator) : Prop :=
  match v with
  | VReceived => forall now, EvDecode i now ∉ tr
  | VGetting b' | VAdding b' | VChecking b' _ | VVerifying b' _ =>
      b' = b /\ exists now, decoded_at tr i now /\ in_time (db_payload b) now = true
  | VDone ValidationAccept d => d = Some (db_payload b) /\
      exists now, decoded_at tr i now /\ in_time (db_payload b) now = true
  | VDone ValidationIgnore d => d = None /\
      (exists now, decoded_at tr i now /\ in_time (db_payload b) now = true) /\
      Exists (fun l => pl_BlockHash (db_payload b) ∈ l) seen
  | VDone ValidationReject d => d = None /\ exists now, decoded_at tr i now /\
      (in_time (db_payload b) now = true -> Exists (fun l => 5 < zlen l) seen)
  | VPanicked => False
  end.

(** The event that lets validator [i] make its next step, and a validator left to itself *)
Definition next_event (i : nat) (now : uint64) (v : validator) : option gossip_event :=
  match v with
  | VReceived => Some (EvDecode i now)
  | VGetting _ => Some (EvGet i)
  | VAdding _ => Some (EvAdd i)
  | VChecking _ _ => Some (EvHasSeen i)
  | VVerifying _ _ => Some (EvVerify i)
  | VDone _ _ | VPanicked => None
  end.
Fixpoint run_alone (steps : nat) (i : nat) (now : uint64) (s : gossip_state) : option gossip_state :=
  match steps, gs_validators s !! i with
  | S steps, Some (_, v) =>
      match next_event i now v with
      | Some ev => gossip_step cfg concurrency ev s ≫= run_alone steps i now
      | None => Some s
      end
  | _, _ => Some s
  end.

(** What a step does to the state of one validator *)
Definition event_of (ev : gossip_event) : option nat :=
  match ev with
  | EvReceive _ => None
  | EvDecode i _ | EvGet i | EvAdd i | EvHasSeen i | EvVerify i => Some i
  end.
Lemma validator_step_sets ev i m v s s' :
  validator_step cfg ev i m v s = Some s' ->
  (exists v', gs_validators s' = <[i := (m, v')]> (gs_validators s)) /\
  (gs_seen s' = gs_seen s \/ gs_seen s' = gs_seen s ++ [[]] \/
   exists h o, gs_seen s' = alter (markSeen h) o (gs_seen s)).
Proof.
  destruct ev, v; try done; cbn [validator_step].
  - intros [= <-]. cbn. eauto.
  - destruct (lru_Get _ _) as [o c]. intros [= <-]. cbn. eauto.
  - intros [= <-]. cbn. eauto.
  - destruct (gs_seen s !! seen); [|done]. unfold hasSeen. intros [= <-]. cbn. eauto.
  - destruct (validate_author cfg b) as [[]| | |]; intros [= <-]; cbn; eauto 10.
Qed.
Lemma gossip_step_cases ev s s' i m v' :
  gossip_step cfg concurrency ev s = Some s' -> gs_validators s' !! i = Some (m, v') ->
  (gs_validators s !! i = Some (m, v') /\ event_of ev <> Some i) \/
  (ev = EvReceive m /\ v' = VReceived /\ i = length (gs_validators s)) \/
  (exists v, gs_validators s !! i = Some (m, v) /\ event_of ev = Some i /\
     validator_step cfg ev i m v s = Some s').
Proof.
  intros E Hi. unfold gossip_step in E. destruct ev as [m0|j now|j|j|j|j]; cbn [event_of].
  1:{ destruct (_ <? _)%nat; [|done]. injection E as <-. cbn in Hi.
      apply lookup_app_Some in Hi as [Hi|[Hle Hi]]; [by left|right; left].
      destruct (i - length (gs_validators s))%nat eqn:Hd; [|done]. injection Hi as <- <-.
      split_and!; [done|done|lia]. }
  all: destruct (gs_validators s !! j) as [[mj vj]|] eqn:Hj; [|done];
    destruct (validator_step_sets _ _ _ _ _ _ E) as [[w Ew] _]; rewrite Ew in Hi;
    apply list_lookup_insert_Some in Hi as [(<- & [= <- <-] & _)|[Hne Hi]];
    [right; right; by exists vj|left; split; [done|congruence]].
Qed.
(** What holds of a record goes on to hold of it when more blocks are marked. *)
Lemma gossip_step_seen (P : list Hash -> Prop) ev s s' :
  (forall h l, P l -> P (markSeen h l)) -> gossip_step cfg concurrency ev s = Some s' ->
  Exists P (gs_seen s) -> Exists P (gs_seen s').
Proof.
  intros HP E He.
  assert (Hs : gs_seen s' = gs_seen s \/ gs_seen s' = gs_seen s ++ [[]] \/
    exists h o, gs_seen s' = alter (markSeen h) o (gs_seen s)).
  { unfold gossip_step in E. destruct ev as [m0|j now|j|j|j|j].
    1:{ destruct (_ <? _)%nat; [|done]. injection E as <-. by left. }
    all: destruct (gs_validators s !! j) as [[mj vj]|] eqn:Hj; [|done]; by eapply validator_step_sets. }
  destruct Hs as [->|[->|(h & o & ->)]]; [done|by apply Exists_app; left|].
  clear E. revert o. induction He as [l seen Hl|l seen He IH]; intros [|o]; cbn; auto.
Qed.

Lemma decoded_at_other tr ev i now :
  (forall now', ev <> EvDecode i now') -> decoded_at tr i now -> decoded_at (tr ++ [ev]) i now.
Proof.
  intros Hev Hd now'. rewrite <-(Hd now'), elem_of_app, list_elem_of_singleton.
  split; [intros [?|<-]; [done|by destruct (Hev now')]|by left].
Qed.
Lemma decoded_at_first tr i now :
  (forall now, EvDecode i now ∉ tr) -> decoded_at (tr ++ [EvDecode i now]) i now.
Proof.
  intros Hn now'. rewrite elem_of_app, list_elem_of_singleton.
  split; [intros [?|[= ->]]; [by destruct (Hn now')|done]|intros ->; by right].
Qed.
Lemma verdict_other b tr ev seen seen' i v :
  (forall now, ev <> EvDecode i now) ->
  (forall P : list Hash -> Prop, (forall h l, P l -> P (markSeen h l)) -> Exists P seen -> Exists P seen') ->
  verdict b tr seen i v -> verdict b (tr ++ [ev]) seen' i v.
Proof.
  intros Hev Hs.
  assert (Hin : (exists now, decoded_at tr i now /\ in_time (db_payload b) now = true) ->
    exists now, decoded_at (tr ++ [ev]) i now /\ in_time (db_payload b) now = true)
    by (intros (now & ? & ?); exists now; split; [by apply decoded_at_other|done]).
  destruct v as [|?|?|? ?|? ?|[] ?|]; cbn; try tauto.
  - intros Hn now [?|Hd%list_elem_of_singleton]%elem_of_app; [by destruct (Hn now)|by destruct (Hev now)].
  - intros (-> & Ht & He). split; [done|]. split; [auto|]. eapply Hs; [|exact He].
    intros h l ?. apply elem_of_app. by left.
  - intros (-> & now & Hd & He). split; [done|]. exists now. split; [by apply decoded_at_other|].
    intros Ht. eapply Hs; [|by apply He]. intros h l ?. unfold markSeen, zlen in *. rewrite length_app. cbn. lia.
Qed.

Lemma validator_step_verdict b tr ev i m v s s' v' :
  (forall now, validate_message now m = Ok (if in_time (db_payload b) now then Some b else None)) ->
  validate_author cfg b = Ok true ->
  event_of ev = Some i -> validator_step cfg ev i m v s = Some s' ->
  gs_validators s !! i = Some (m, v) -> gs_validators s' !! i = Some (m, v') ->
  verdict b tr (gs_seen s) i v -> verdict b (tr ++ [ev]) (gs_seen s') i v'.
Proof.
  intros Hm Ha Hev E Hi Hi' Hv.
  assert (Hin : forall ev', (forall now, ev' <> EvDecode i now) ->
    (exists now, decoded_at tr i now /\ in_time (db_payload b) now = true) ->
    exists now, decoded_at (tr ++ [ev']) i now /\ in_time (db_payload b) now = true)
    by (intros ev' Hne (now & ? & ?); exists now; split; [by apply decoded_at_other|done]).
  apply lookup_lt_Some in Hi.
  destruct ev as [|j now|j|j|j|j], v as [|b'|b'|b' o|b' o|r d|]; try done; injection Hev as ->;
    cbn [validator_step] in E.
  - rewrite Hm in E. injection E as <-. cbn in Hi'. rewrite list_lookup_insert_eq in Hi' by done.
    injection Hi' as <-. apply (decoded_at_first _ _ now) in Hv.
    destruct (in_time (db_payload b) now) eqn:Et; cbn.
    + split; [done|]. by exists now.
    + split; [done|]. exists now. split; [done|]. by rewrite Et.
  - destruct Hv as [-> Hv]. apply (Hin (EvGet i)) in Hv; [|done]. destruct (lru_Get _ _) as [[o|] c];
      injection E as <-; cbn in Hi'; rewrite list_lookup_insert_eq in Hi' by done; by injection Hi' as <-.
  - destruct Hv as [-> Hv]. apply (Hin (EvAdd i)) in Hv; [|done].
    injection E as <-; cbn in Hi'; rewrite list_lookup_insert_eq in Hi' by done; by injection Hi' as <-.
  - destruct Hv as [-> Hv]. apply (Hin (EvHasSeen i)) in Hv; [|done].
    destruct (gs_seen s !! o) as [l|] eqn:Eo; [|done]. apply list_elem_of_lookup_2 in Eo. unfold hasSeen in E.
    injection E as <-. cbn in Hi'. rewrite list_lookup_insert_eq in Hi' by done. injection Hi' as <-.
    destruct (Z.ltb_spec 5 (zlen l)); [|case_bool_decide]; cbn.
    + split; [done|]. destruct Hv as (now & ? & ?). exists now. split; [done|]. intros _.
      apply Exists_exists. by exists l.
    + split; [done|]. split; [done|]. apply Exists_exists. by exists l.
    + done.
  - destruct Hv as [-> Hv]. apply (Hin (EvVerify i)) in Hv; [|done]. rewrite Ha in E.
    injection E as <-. cbn in Hi'. rewrite list_lookup_insert_eq in Hi' by done. injection Hi' as <-. done.
Qed.

(** Every validator of the message, in every reachable state *)
Lemma reachable_verdict b m tr s :
  (forall now, validate_message now m = Ok (if in_time (db_payload b) now then Some b else None)) ->
  validate_author cfg b = Ok true -> gossip_reachable cfg concurrency tr s ->
  (forall i now, EvDecode i now ∈ tr -> (i < length (gs_validators s))%nat) /\
  forall i v, gs_validators s !! i = Some (m, v) -> verdict b tr (gs_seen s) i v.
Proof.
  intros Hm Ha. induction 1 as [s E|tr s ev s' Hr [IHl IHv] E].
  { unfold BuildBlocksValidator in E. destruct (lru_New nat 100); [|done]. injection E as <-.
    split; [intros i now Hn; by apply elem_of_nil in Hn|done]. }
  assert (Hlen : (length (gs_validators s) <= length (gs_validators s'))%nat /\
    forall i now, ev = EvDecode i now -> (i < length (gs_validators s))%nat).
  { unfold gossip_step in E. destruct ev as [m0|j now|j|j|j|j].
    1:{ destruct (_ <? _)%nat; [|done]. injection E as <-. cbn. rewrite length_app. by split; [lia|]. }
    all: destruct (gs_validators s !! j) as [[mj vj]|] eqn:Hj; [|done];
      destruct (validator_step_sets _ _ _ _ _ _ E) as [[w ->] _]; rewrite length_insert;
      apply lookup_lt_Some in Hj; (split; [lia|]); intros i' now' [= <-]; done. }
  destruct Hlen as [Hlen Hdec]. split.
  { intros i now [Hi|Hi%list_elem_of_singleton]%elem_of_app; [specialize (IHl i now Hi); lia|].
    specialize (Hdec i now (eq_sym Hi)). lia. }
  intros i v' Hi. destruct (gossip_step_cases _ _ _ _ _ _ E Hi) as [[Hi0 Hev]|[(-> & -> & ->)|(v & Hi0 & Hev & Es)]].
  - apply (verdict_other _ _ _ (gs_seen s)); [|intros P HP; by apply (gossip_step_seen P ev)|by apply IHv].
    intros now ->. by destruct Hev.
  - cbn. intros now [Hn|Hn%list_elem_of_singleton]%elem_of_app; [|done]. specialize (IHl _ _ Hn). lia.
  - by eapply validator_step_verdict; [| | |exact Es|..]; [..|apply IHv].
Qed.
(** What a validator left to itself decides at time [now], from the record of the height *)
Definition alone_verdict (payload : ExecutionPayload) (now : uint64) (record : list Hash) : validator :=
  if negb (in_time payload now) then VDone ValidationReject None
  else if 5 <? zlen record then VDone ValidationReject None
  else if bool_decide (pl_BlockHash payload ∈ record) then VDone ValidationIgnore None
  else VDone ValidationAccept (Some payload).

Lemma run_alone_step steps i now s m v ev s' :
  gs_validators s !! i = Some (m, v) -> next_event i now v = Some ev ->
  validator_step cfg ev i m v s = Some s' -> run_alone (S steps) i now s = run_alone steps i now s'.
Proof.
  intros Hi Hn E. cbn [run_alone]. rewrite Hi, Hn.
  assert (Eg : gossip_step cfg concurrency ev s = Some s')
    by (destruct v; try done; injection Hn as <-; cbn [gossip_step]; by rewrite Hi).
  by rewrite Eg.
Qed.
Lemma run_alone_done steps i now s m v :
  gs_validators s !! i = Some (m, v) -> next_event i now v = None -> run_alone steps i now s = Some s.
Proof. intros Hi Hn. destruct steps; [done|]. cbn [run_alone]. by rewrite Hi, Hn. Qed.

(** From the check of its height on *)
Lemma run_alone_checking steps now c seen vs m b o record :
  validate_author cfg b = Ok true -> in_time (db_payload b) now = true -> seen !! o = Some record ->
  exists s', run_alone (2 + steps) (length vs) now (mkGossip c seen (vs ++ [(m, VChecking b o)])) = Some s' /\
    gs_validators s' !! length vs = Some (m, alone_verdict (db_payload b) now record).
Proof.
  intros Ha Ht Ho. unfold alone_verdict. rewrite Ht. cbn [negb].
  set (v := if 5 <? zlen record then VDone ValidationReject None
            else if bool_decide (pl_BlockHash (db_payload b) ∈ record) then VDone ValidationIgnore None
            else VVerifying b o).
  assert (E : validator_step cfg (EvHasSeen (length vs)) (length vs) m (VChecking b o)
    (mkGossip c seen (vs ++ [(m, VChecking b o)])) = Some (mkGossip c seen (vs ++ [(m, v)])))
    by (cbn [validator_step gs_seen]; rewrite Ho; cbn [hasSeen]; by rewrite set_last).
  change (2 + steps)%nat with (S (S steps)).
  rewrite (fun Hi => run_alone_step (S steps) _ now _ m (VChecking b o) _ _ Hi eq_refl E); [|apply lookup_last_validator].
  subst v. destruct (5 <? zlen record); [|case_bool_decide].
  1-2: eexists; (split; [by eapply run_alone_done; [apply lookup_last_validator|]|apply lookup_last_validator]).
  assert (E' : validator_step cfg (EvVerify (length vs)) (length vs) m (VVerifying b o)
    (mkGossip c seen (vs ++ [(m, VVerifying b o)])) =
    Some (mkGossip c (alter (markSeen (pl_BlockHash (db_payload b))) o seen)
      (vs ++ [(m, VDone ValidationAccept (Some (db_payload b)))])))
    by (cbn [validator_step]; rewrite Ha; cbn [gs_blockHeightLRU gs_seen gs_validators]; by rewrite set_last).
  rewrite (fun Hi => run_alone_step steps _ now _ m (VVerifying b o) _ _ Hi eq_refl E'); [|apply lookup_last_validator].
  eexists. split; [by eapply run_alone_done; [apply lookup_last_validator|]|apply lookup_last_validator].
Qed.

Lemma run_alone_verdict b m tr s now :
  (forall now, validate_message now m = Ok (if in_time (db_payload b) now then Some b else None)) ->
  validate_author cfg b = Ok true -> gossip_reachable cfg concurrency tr s ->
  exists s', run_alone 5 (length (gs_validators s)) now
      (mkGossip (gs_blockHeightLRU s) (gs_seen s) (gs_validators s ++ [(m, VReceived)])) = Some s' /\
    gs_validators s' !! length (gs_validators s) =
      Some (m, alone_verdict (db_payload b) now (seen_at s (pl_BlockNumber (db_payload b)))).
Proof.
  intros Hm Ha HI%gossip_reachable_inv. destruct s as [c seen vs]. cbn [gs_blockHeightLRU gs_seen gs_validators].
  set (n := pl_BlockNumber (db_payload b)). set (i := length vs).
  assert (E : validator_step cfg (EvDecode i now) i m VReceived (mkGossip c seen (vs ++ [(m, VReceived)])) =
    Some (mkGossip c seen (vs ++ [(m, if in_time (db_payload b) now then VGetting b
                                      else VDone ValidationReject None)])))
    by (cbn [validator_step]; rewrite Hm; unfold i; rewrite set_last; by destruct (in_time _ now)).
  rewrite (fun Hi => run_alone_step 4 _ now _ m VReceived _ _ Hi eq_refl E); [|apply lookup_last_validator].
  destruct (in_time (db_payload b) now) eqn:Et.
  2:{ unfold alone_verdict. rewrite Et. eexists.
      split; [by eapply run_alone_done; [apply lookup_last_validator|]|apply lookup_last_validator]. }
  destruct (lru_Get n c) as [found c'] eqn:Eg.
  assert (E2 : validator_step cfg (EvGet i) i m (VGetting b) (mkGossip c seen (vs ++ [(m, VGetting b)])) =
    Some (mkGossip c' seen (vs ++ [(m, match found with Some o => VChecking b o | None => VAdding b end)])))
    by (cbn [validator_step gs_blockHeightLRU gs_seen gs_validators]; fold n; rewrite Eg; unfold i; by rewrite set_last).
  rewrite (fun Hi => run_alone_step 3 _ now _ m (VGetting b) _ _ Hi eq_refl E2); [|apply lookup_last_validator].
  unfold seen_at. cbn [gs_blockHeightLRU gs_seen]. rewrite Eg. cbn [fst]. destruct found as [o|].
  - assert (Hc : cached c n o) by (unfold cached; by rewrite Eg).
    destruct (lookup_lt_is_Some_2 _ _ (gi_cache _ _ _ _ HI _ _ Hc)) as [record Er].
    cbn [gs_seen] in Er. rewrite Er. cbn [default]. by apply (run_alone_checking 1).
  - assert (E3 : validator_step cfg (EvAdd i) i m (VAdding b) (mkGossip c' seen (vs ++ [(m, VAdding b)])) =
      Some (mkGossip (lru_Add n (length seen) c') (seen ++ [[]]) (vs ++ [(m, VChecking b (length seen))])))
      by (cbn [validator_step gs_blockHeightLRU gs_seen gs_validators]; unfold i; by rewrite set_last).
    rewrite (fun Hi => run_alone_step 2 _ now _ m (VAdding b) _ _ Hi eq_refl E3); [|apply lookup_last_validator].
    apply (run_alone_checking 0); [done..|]. by rewrite lookup_app_r, Nat.sub_diag by lia.
Qed.

(** [C37] What a sequencer publishes, its peers accept: [PublishL2Payload] publishes one
    message, and at every node whose configuration names the sequencer, under every
    interleaving of the validators: a validator that looked at the message no more than 20
    seconds after and 5 seconds before the block's time accepts it, with the very payload
    that was published, unless the block was marked as seen or a record is full; at any
    other time it rejects it.  No validator panics on it.  One that runs by itself, at any
    time [now], decides from the time and from the record of the height alone. *)
Theorem PublishL2Payload_accepted {W} priv pool payload (Publish : list byte -> M W unit) w :
  payload_ok payload -> zlen pool < 2 ^ 32 -> Z.abs (cfg_L2ChainID cfg) < 2 ^ 256 ->
  (forall h, exists sig, crypto_Sign h priv = Ok sig) ->
  PubkeyToAddress (PublicOf priv) = cfg_P2PSequencerAddress cfg ->
  (CheckBlockHash payload).2 = true -> 65 + SizeSSZ payload <= maxGossipSize ->
  exists message b, db_payload b = payload /\
    PublishL2Payload cfg (fun d c m => lift (LocalSigner_Sign (NewLocalSigner priv) d c m))
      Publish pool payload w = Publish message w /\
    forall tr s, gossip_reachable cfg concurrency tr s ->
      (forall i v, gs_validators s !! i = Some (message, v) -> verdict b tr (gs_seen s) i v) /\
      ((active s < concurrency)%nat -> forall now, exists s1 s',
         gossip_step cfg concurrency (EvReceive message) s = Some s1 /\
         run_alone 5 (length (gs_validators s)) now s1 = Some s' /\
         gs_validators s' !! length (gs_validators s) =
           Some (message, alone_verdict payload now (seen_at s (pl_BlockNumber payload)))).
Proof.
  intros Hok Hpool Hid Hsign Haddr Hhash Hsize.
  destruct (PublishL2Payload_message priv pool payload Publish w) as (h & sig & Eh & Hl & Hrec & Epub);
    try done.
  set (encoded := sg_bytes (sg_of payload)) in *. set (b := mkDecodedBlock payload encoded sig).
  exists (snappy_Encode (sig ++ encoded)), b. split; [done|]. split; [done|].
  assert (Ha : validate_author cfg b = Ok true).
  { unfold validate_author, b. cbn [db_payloadBytes db_signature]. rewrite Eh. cbn [mbind res_bind]. rewrite Hrec.
    f_equal. by apply Z.eqb_eq. }
  assert (Hsz : zlen encoded = SizeSSZ payload) by (by rewrite SizeSSZ_eq by apply Hok).
  assert (Hv : forall now, validate_message now (snappy_Encode (sig ++ encoded)) =
    Ok (if in_time payload now then Some b else None)).
  { intros now. apply validate_message_at; try done; [len|].
    pose proof (UnmarshalSSZ_layout payload [] Hok) as Hu. rewrite app_nil_r in Hu.
    rewrite Hsz. fold encoded in Hu. by rewrite wrap_small by (rewrite <-Hsz; split; [len|apply Hok]). }
  intros tr s Hr. split; [by apply reachable_verdict|]. intros Hact now.
  destruct (run_alone_verdict b _ _ _ now Hv Ha Hr) as (s' & Es & Hs).
  eexists _, s'. split; [cbn [gossip_step]; by rewrite (proj2 (Nat.ltb_lt _ _) Hact)|]. by split.
Qed.
End PublishProofs.

(** ** Witnesses: a signature names its key and hash; nothing is compressed *)
Definition ToyEcdsa : Ecdsa := {|
  PrivateKey := Z; PublicKey := Z; PublicOf := id; PubkeyToAddress := id;
  crypto_Sign := fun h k =>
    if in_rangeb 256 k then Ok (be_bytes 32 k ++ be_bytes 33 h) else Err (EMsg "invalid private key");
  SigToPub := fun h sig =>
    if bool_decide (drop 32 sig = be_bytes 33 h) then Ok (be_value (take 32 sig))
    else Err (EMsg "invalid signature");
|}.
Lemma ToyEcdsaLaws : @EcdsaLaws ToyEcdsa.
Proof.
  split. intros h k sig E. cbn [crypto_Sign SigToPub PublicOf ToyEcdsa] in *.
  destruct (in_rangeb 256 k) eqn:Ek; [|done]. apply Ok_inj in E as <-.
  apply in_rangeb_spec in Ek. split; [len|].
  rewrite drop_app_ge, length_be_bytes, drop_0, bool_decide_true by (by len || done).
  rewrite take_app_le, take_ge by len. by rewrite (be_value_bytes_small 32 256).
Qed.
Definition ToySnappy : Snappy := {|
  snappy_Encode := id; snappy_DecodedLen := fun d => Ok (zlen d); snappy_Decode := Ok |}.
Lemma ToySnappyLaws : @SnappyLaws ToySnappy.
Proof. by split. Qed.

Section GossipExample.
#[local] Existing Instance ToyKeccak.
#[local] Existing Instance ToyGeth.
#[local] Existing Instance ToyEcdsa.
#[local] Existing Instance ToyEcdsaLaws.
#[local] Existing Instance ToySnappy.
#[local] Existing Instance ToySnappyLaws.
#[local] Existing Instance OneEntry.
#[local] Existing Instance OneEntryLaws.

Definition gossip_config : Config :=
  mkConfig (mkGenesis (mkBlockID 100 10) (mkBlockID 200 0) 1000) 2 10 2 900 901 77 78 80 907 79.
Definition gossip_payload : ExecutionPayload :=
  let p h := mkExecutionPayload 55 1 2 3 4 5 9 30000000 21000 1000 [x01] 7 h [[x7e; x01]; [x02]] in
  p (CheckBlockHash (p 0)).1.
Lemma gossip_payload_ok : payload_ok gossip_payload.
Proof. unfold payload_ok, in_range. split_and!; vm_compute; done. Qed.

(** The world is the list of published messages. *)
Definition toy_publish (m : list byte) : M (list (list byte)) unit := fun w => (Ok tt, w ++ [m]).
Definition gossip_message : list byte :=
  match (PublishL2Payload gossip_config
    (fun d c m => lift (LocalSigner_Sign (NewLocalSigner (77 : @PrivateKey ToyEcdsa)) d c m))
    toy_publish [] gossip_payload []).2 with [m] => m | _ => [] end.
Definition gossip_state0 : gossip_state :=
  match BuildBlocksValidator with Ok s => s | _ => mkGossip None [] [] end.
Definition gossip_events : list gossip_event :=
  [EvReceive gossip_message; EvDecode 0 1003; EvGet 0; EvAdd 0; EvHasSeen 0; EvVerify 0].

Lemma gossip_run_reachable evs tr s s' :
  gossip_reachable gossip_config 4 tr s -> gossip_run gossip_config 4 evs s = Some s' ->
  gossip_reachable gossip_config 4 (tr ++ evs) s'.
Proof.
  revert tr s. induction evs as [|ev evs IH]; intros tr s Hr; cbn [gossip_run].
  { intros [= <-]. by rewrite app_nil_r. }
  destruct (gossip_step gossip_config 4 ev s) as [s1|] eqn:E; [|done]. intros Er.
  rewrite cons_middle, app_assoc. eapply IH; [|done]. by eapply gossip_next.
Qed.
Lemma gossip_example : exists s, gossip_reachable gossip_config 4 gossip_events s /\
  gs_validators s = [(gossip_message, VDone ValidationAccept (Some gossip_payload))] /\
  gs_seen s = [[pl_BlockHash gossip_payload]].
Proof.
  assert (E : (fun s => (gs_validators s, gs_seen s)) <$> gossip_run gossip_config 4 gossip_events gossip_state0
    = Some ([(gossip_message, VDone ValidationAccept (Some gossip_payload))], [[pl_BlockHash gossip_payload]]))
    by (vm_compute; reflexivity).
  apply fmap_Some_1 in E as (s & Er & Es). apply pair_equal_spec in Es as [E1 E2].
  exists s. split; [|split; [exact (eq_sym E1)|exact (eq_sym E2)]].
  apply (gossip_run_reachable gossip_events [] gossip_state0); [by constructor|exact Er].
Qed.

Lemma seen_bounded_witness : exists tr s, gossip_reachable gossip_config 4 tr s /\
  exists seen, gs_seen s !! 0%nat = Some seen /\ seen = [pl_BlockHash gossip_payload] /\ zlen seen <= 9.
Proof.
  destruct gossip_example as (s & Hr & _ & Es). exists gossip_events, s. split; [exact Hr|].
  exists [pl_BlockHash gossip_payload]. split; [rewrite Es; reflexivity|]. split; [reflexivity|].
  apply (seen_bounded gossip_config 4 gossip_events s 0 [pl_BlockHash gossip_payload] Hr).
  rewrite Es. reflexivity.
Defined.
(** At 1003 the block of time 1000 is accepted, at 1021 it is rejected; and the verdict on
    the run above. *)
Lemma PublishL2Payload_accepted_witness : exists message b, db_payload b = gossip_payload /\
  PublishL2Payload gossip_config
    (fun d c m => lift (LocalSigner_Sign (NewLocalSigner (77 : @PrivateKey ToyEcdsa)) d c m))
    toy_publish [] gossip_payload [] = (Ok tt, [message]) /\
  (forall now v, (now, v) ∈ [(1003, VDone ValidationAccept (Some gossip_payload));
      (1021, VDone ValidationReject None)] ->
    exists s1 s', gossip_step gossip_config 4 (EvReceive message) gossip_state0 = Some s1 /\
      run_alone gossip_config 4 5 0 now s1 = Some s' /\ gs_validators s' !! 0%nat = Some (message, v)) /\
  exists s, gossip_reachable gossip_config 4 gossip_events s /\
    verdict b gossip_events (gs_seen s) 0 (VDone ValidationAccept (Some gossip_payload)).
Proof.
  destruct (PublishL2Payload_accepted gossip_config 4 (77 : @PrivateKey ToyEcdsa) [] gossip_payload
    toy_publish []) as (message & b & Eb & Em & Hacc); [apply gossip_payload_ok|reflexivity|reflexivity| | | | |].
  - intros h. exists (be_bytes 32 77 ++ be_bytes 33 h). reflexivity.
  - reflexivity.
  - vm_compute. reflexivity.
  - by vm_compute.
  - exists message, b. split; [exact Eb|]. split; [exact Em|].
    assert (H0 : gossip_reachable gossip_config 4 [] gossip_state0) by (constructor; reflexivity).
    split.
    + intros now v Hin. destruct (Hacc [] gossip_state0 H0) as [_ Hrun].
      destruct (Hrun (Nat.lt_0_succ _) now) as (s1 & s' & E1 & Es & Hs).
      exists s1, s'. split; [exact E1|]. split; [exact Es|]. etransitivity; [exact Hs|].
      f_equal. f_equal. apply elem_of_cons in Hin as [[= -> ->]|Hin]; [vm_compute; reflexivity|].
      apply list_elem_of_singleton in Hin as [= -> ->]. vm_compute. reflexivity.
    + destruct gossip_example as (s & Hr & Ev & _). exists s. split; [exact Hr|].
      apply (Hacc _ _ Hr). rewrite Ev. cbn. do 2 f_equal.
      unfold gossip_message. by rewrite Em.
Defined.
End GossipExample.
