(* ===== verification/GossipTopic.v ===== *)
(** * The topic of unsafe blocks

    op-node/p2p/gossip.go, the rest: setting up pubsub, joining the topic of the blocks,
    and the subscriber that hands on what the validators of Gossip.v accepted. *)

From S2P Require Import Prelude Types Geth SSZ L2Source L1Source Gossip.

(** ** Set-up *)
Definition maxOutboundQueue : Z := 256.
Definition maxValidateQueue : Z := 256.
Definition globalValidateThrottle : Z := 512.

(** [BuildGlobalGossipParams]: the fields it sets, times in nanoseconds. *)
Record GossipSubParams := mkGossipSubParams {
  gp_D : Z; gp_Dlo : Z; gp_Dhi : Z; gp_Dlazy : Z;
  gp_HeartbeatInterval : Z; gp_FanoutTTL : Z;
  gp_HistoryLength : Z; gp_HistoryGossip : Z;
}.
Definition BuildGlobalGossipParams : GossipSubParams := {|
  gp_D := 8; gp_Dlo := 6; gp_Dhi := 12; gp_Dlazy := 6;
  gp_HeartbeatInterval := 500 * time_Millisecond; gp_FanoutTTL := 24 * time_Second;
  gp_HistoryLength := 12; gp_HistoryGossip := 3;
|}.

(** [BuildSubscriptionFilter]: the topics it allows. *)
Definition BuildSubscriptionFilter (cfg : Config) : list string := [blocksTopicV1 cfg].

(** The options of [NewGossipSub] *)
Inductive MessageSignaturePolicy := StrictSign | StrictNoSign | LaxSign | LaxNoSign.
Record GossipSubOptions := mkGossipSubOptions {
  go_MaxMessageSize : Z;
  go_MessageIdFn : string -> list byte -> list byte;
  go_NoAuthor : bool;
  go_MessageSignaturePolicy : MessageSignaturePolicy;
  go_SubscriptionFilter : list string;
  go_ValidateQueueSize : Z;
  go_PeerOutboundQueueSize : Z;
  go_ValidateThrottle : Z;
  go_PeerExchange : bool;
  go_BlacklistExpiry : Z;
  go_Params : GossipSubParams;
}.

(** What is passed to [RegisterTopicValidator] with the validator *)
Record ValidatorOptions := mkValidatorOptions { vo_Timeout : Z; vo_Concurrency : nat }.

(** libp2p's pubsub: its constructors and the topic, over the world [W]. *)
Class PubSub (W : Type) := {
  NewTimeCachedBlacklist : Z -> W -> option error * W;
  pubsub_NewGossipSub : GossipSubOptions -> W -> option error * W;
  RegisterTopicValidator : string -> ValidatorOptions -> W -> option error * W;
  pubsub_Join : string -> W -> option error * W;
  topic_EventHandler : string -> W -> option error * W;
  topic_Subscribe : string -> W -> option error * W;
  topic_Publish : string -> list byte -> M W unit;
  topic_Close : string -> W -> option error * W;
  topic_ListPeers : string -> W -> list Z;
}.

Section Topic.
Context `{Snappy} {W : Type} `{!PubSub W}.

(** A call that may return an error *)
Definition try (f : W -> option error * W) : M W unit := fun w =>
  let '(err, w') := f w in (match err with Some e => Err e | None => Ok tt end, w').

(** [NewGossipSub] *)
Definition NewGossipSub (sha256 : list byte -> list byte) (cfg : Config) : M W unit :=
  _ ← try (NewTimeCachedBlacklist (30 * time_Second));
  try (pubsub_NewGossipSub {|
    go_MaxMessageSize := maxGossipSize;
    go_MessageIdFn := BuildMsgIdFn sha256;
    go_NoAuthor := true;
    go_MessageSignaturePolicy := StrictNoSign;
    go_SubscriptionFilter := BuildSubscriptionFilter cfg;
    go_ValidateQueueSize := maxValidateQueue;
    go_PeerOutboundQueueSize := maxOutboundQueue;
    go_ValidateThrottle := globalValidateThrottle;
    go_PeerExchange := false;
    go_BlacklistExpiry := 30 * time_Second;
    go_Params := BuildGlobalGossipParams;
  |}).

(** [publisher]: its topic is known by its name. *)
Record publisher := mkPublisher { pub_cfg : Config; pub_blocksTopic : string }.
Definition BlocksTopicPeers (p : publisher) (w : W) : list Z := topic_ListPeers (pub_blocksTopic p) w.
Definition publisher_PublishL2Payload (p : publisher)
    (Sign : list byte -> bigInt -> list byte -> M W (list byte)) (pool : list byte)
    (payload : ExecutionPayload) : M W unit :=
  PublishL2Payload (pub_cfg p) Sign (topic_Publish (pub_blocksTopic p)) pool payload.
Definition publisher_Close (p : publisher) : M W unit := try (topic_Close (pub_blocksTopic p)).

(** [JoinGossip]: the validator it registers is [validator_step] of Gossip.v, under
    [logValidationResult]; the subscriber that it starts as a go-routine is [MakeSubscriber]
    below, the other go-routine only logs the peers of the topic. *)
Definition validator_options : ValidatorOptions := mkValidatorOptions (3 * time_Second) 4.
Definition JoinGossip (cfg : Config) : M W publisher :=
  let blocksTopicName := blocksTopicV1 cfg in
  _ ← M_err (wrapv "failed to register blocks gossip topic: ")
        (try (RegisterTopicValidator blocksTopicName validator_options));
  _ ← M_err (wrapv "failed to join blocks gossip topic: ") (try (pubsub_Join blocksTopicName));
  _ ← M_err (wrapv "failed to create blocks gossip topic handler: ")
        (try (topic_EventHandler blocksTopicName));
  _ ← M_err (wrapv "failed to subscribe to blocks gossip topic: ")
        (try (topic_Subscribe blocksTopicName));
  mret (mkPublisher cfg blocksTopicName).
End Topic.

(** ** The subscriber *)

(** The dynamic type of a message's [ValidatorData] *)
Inductive ValidatorData := PayloadData (payload : ExecutionPayload) | OtherData.

(** [pubsub.Message], as the subscriber reads it *)
Record pubsub_Message := mkMessage {
  ms_ReceivedFrom : Z;
  ms_ValidatorData : option ValidatorData;
}.

Section Subscriber.
Context {W : Type}.

(** [BlocksHandler] *)
Definition BlocksHandler (onBlock : Z -> ExecutionPayload -> M W unit) (from : Z) (msg : ValidatorData)
    : M W unit :=
  match msg with
  | PayloadData payload => onBlock from payload
  | OtherData => throw (EMsg "expected topic validator to parse and validate data into execution payload")
  end.

(** [MakeSubscriber] on what successive calls of [sub.Next] return; at the end of the list
    it is waiting for the next. *)
Fixpoint MakeSubscriber (msgHandler : Z -> ValidatorData -> M W unit)
    (nexts : list (error + pubsub_Message)) : M W unit :=
  match nexts with
  | [] => mret tt
  | inl err :: _ => mret tt
  | inr msg :: nexts =>
      match ms_ValidatorData msg with
      | None => MakeSubscriber msgHandler nexts
      | Some data =>
          _ ← attempt (msgHandler (ms_ReceivedFrom msg) data);   (* an error is logged *)
          MakeSubscriber msgHandler nexts
      end
  end.
End Subscriber.

(** [validationResultString] and [logValidationResult]: the validator's result is passed on. *)
Definition validationResultString (v : ValidationResult) : string :=
  match v with
  | ValidationAccept => "ACCEPT"
  | ValidationIgnore => "IGNORE"
  | ValidationReject => "REJECT"
  end.
Definition logValidationResult {W A} (self : Z) (log : string -> option Z -> M W unit)
    (fn : Z -> A -> M W ValidationResult) (id : Z) (message : A) : M W ValidationResult :=
  res ← fn id message;
  let src := if id =? self then None else Some id in   (* None is "self" *)
  _ ← log (validationResultString res) src;
  mret res.

(** ** What the node is handed *)

(** The messages that [sub.Next] returns before its first error *)
Fixpoint received (nexts : list (error + pubsub_Message)) : list pubsub_Message :=
  match nexts with
  | inr msg :: nexts => msg :: received nexts
  | _ => []
  end.

Section Delivery.
Context {W : Type} (onBlock : Z -> ExecutionPayload -> M (list (Z * ExecutionPayload) * W) unit).

(** The handler is called, which is recorded, and returns, perhaps with an error. *)
Definition records : Prop := forall from payload calls w,
  exists r w', onBlock from payload (calls, w) = (r, (calls ++ [(from, payload)], w')) /\
    returns r = true.

Lemma attempt_recorded from payload calls w :
  records -> exists e w',
    attempt (onBlock from payload) (calls, w) = (Ok e, (calls ++ [(from, payload)], w')).
Proof.
  intros Hrec. destruct (Hrec from payload calls w) as (r & w' & E & Hr).
  unfold attempt. rewrite E. destruct r; [eauto..|done|done].
Qed.

(** The subscriber calls the handler once for every message with a payload, in order,
    until [sub.Next] fails; errors of the handler do not stop it. *)
Lemma MakeSubscriber_calls nexts calls w :
  records ->
  Forall (fun msg => exists p, ms_ValidatorData msg = Some (PayloadData p)) (received nexts) ->
  exists new w', MakeSubscriber (BlocksHandler onBlock) nexts (calls, w) = (Ok tt, (calls ++ new, w')) /\
    Forall2 (fun msg call => call.1 = ms_ReceivedFrom msg /\
      ms_ValidatorData msg = Some (PayloadData call.2)) (received nexts) new.
Proof.
  intros Hrec. revert calls w. induction nexts as [|[e|msg] nexts IH]; intros calls w Hall;
    cbn [MakeSubscriber received] in *.
  1-2: exists [], w; rewrite app_nil_r; by split.
  apply Forall_cons in Hall as [(p & Ep) Hall]. rewrite Ep. cbn [BlocksHandler].
  destruct (attempt_recorded (ms_ReceivedFrom msg) p calls w Hrec) as (e & w' & E).
  unfold mbind, M_bind. rewrite E.
  destruct (IH (calls ++ [(ms_ReceivedFrom msg, p)]) w' Hall) as (new & w'' & En & Hnew).
  rewrite En. exists ((ms_ReceivedFrom msg, p) :: new), w''. rewrite <-app_assoc. split; [done|].
  by constructor.
Qed.
End Delivery.

Section Authentic.
Context `{Keccak} `{GethTypes} `{Ecdsa} `{Snappy} `{LRULaws} {W : Type} (cfg : Config).

(** Pubsub passes on a message once its validator has accepted it, with the data that the
    validator attached. *)
Definition passed_on (s : gossip_state) (msg : pubsub_Message) : Prop :=
  exists i m payload, gs_validators s !! i = Some (m, VDone ValidationAccept payload) /\
    ms_ValidatorData msg = PayloadData <$> payload.

(** [C16] What the driver is handed from the network.  However the validators of the
    messages interleave, the subscriber of the topic calls the handler exactly once for
    every message that pubsub passes on, in their order and whatever errors the handler
    returns, with the sender of that message and the payload that its validator accepted;
    and that payload came in a message of at most a megabyte that holds 65 bytes of
    signature and its SSZ encoding, has the right block hash, was no more than 20 seconds
    old and no more than 5 seconds ahead when it was validated, and the signature over
    these very bytes is the configured sequencer's. *)
Theorem delivered_authentic tr s nexts onBlock (w : W) :
  gossip_reachable cfg (vo_Concurrency validator_options) tr s ->
  Forall (passed_on s) (received nexts) ->
  records onBlock ->
  exists calls w', MakeSubscriber (BlocksHandler onBlock) nexts ([], w) = (Ok tt, (calls, w')) /\
    Forall2 (fun msg call => call.1 = ms_ReceivedFrom msg /\
      ms_ValidatorData msg = Some (PayloadData call.2) /\
      exists i m b, gs_validators s !! i = Some (m, VDone ValidationAccept (Some call.2)) /\
        call.2 = db_payload b /\ decoded_from tr i m b /\ authored cfg b) (received nexts) calls.
Proof.
  intros Hr Hpass Hrec.
  destruct (MakeSubscriber_calls onBlock nexts [] w Hrec) as (calls & w' & E & Hall).
  { eapply Forall_impl; [exact Hpass|]. intros msg (i & m & d & Hi & ->).
    destruct (accepted_inv _ _ _ _ _ _ _ Hr Hi) as (b & -> & _). by eexists. }
  exists calls, w'. split; [done|]. clear E. induction Hall as [|msg call msgs calls [Ef Ed] Hall IH]; [constructor|].
  apply Forall_cons in Hpass as [(i & m & d & Hi & Ed') Hpass]. constructor; [|by apply IH].
  split; [done|]. split; [done|].
  destruct (accepted_inv _ _ _ _ _ _ _ Hr Hi) as (b & -> & Hd & Ha & _).
  rewrite Ed' in Ed. cbn in Ed. injection Ed as <-. by exists i, m, b.
Qed.

(** With the options of [JoinGossip] a record never holds more than nine blocks. *)
Lemma joined_seen_bounded tr s o blockHashes :
  gossip_reachable cfg (vo_Concurrency validator_options) tr s -> gs_seen s !! o = Some blockHashes ->
  zlen blockHashes <= 9.
Proof. intros Hr Ho. exact (seen_inv _ _ _ _ _ _ Hr Ho). Qed.
End Authentic.

(** [JoinGossip] subscribes only once its validator is registered. *)
Lemma JoinGossip_ok `{Snappy} {W} `{!PubSub W} cfg (w : W) p w' :
  JoinGossip cfg w = (Ok p, w') ->
  p = mkPublisher cfg (blocksTopicV1 cfg) /\
  exists w1 w2 w3, RegisterTopicValidator (blocksTopicV1 cfg) validator_options w = (None, w1) /\
    pubsub_Join (blocksTopicV1 cfg) w1 = (None, w2) /\
    topic_EventHandler (blocksTopicV1 cfg) w2 = (None, w3) /\
    topic_Subscribe (blocksTopicV1 cfg) w3 = (None, w').
Proof.
  intros E. unfold JoinGossip in E.
  assert (Htry : forall f (v : W) u v', try f v = (Ok u, v') -> f v = (None, v')).
  { intros f v u v'. unfold try. destruct (f v) as [[e|] v1]; [done|]. by intros [= _ <-]. }
  repeat (apply M_bind_ok in E as (? & ? & ?%M_err_ok%Htry & E)).
  injection E as <- <-. eauto 8.
Qed.

(** ** Witness: one accepted message, a handler that always fails, then the end *)
Definition failing_handler (from : Z) (payload : ExecutionPayload)
    : M (list (Z * ExecutionPayload) * unit) unit :=
  fun cw => (Err (EMsg "driver is closed"), (cw.1 ++ [(from, payload)], cw.2)).
Definition gossip_nexts : list (error + pubsub_Message) :=
  [inr (mkMessage 5 (Some (PayloadData gossip_payload))); inl ECanceled].

Lemma delivered_authentic_witness :
  exists calls, MakeSubscriber (BlocksHandler failing_handler) gossip_nexts ([], tt) =
      (Ok tt, (calls, tt)) /\ calls = [(5, gossip_payload)] /\
    exists tr i m b, gossip_payload = db_payload b /\ @decoded_from ToyGeth ToySnappy tr i m b /\
      @authored ToyKeccak ToyEcdsa gossip_config b.
Proof.
  destruct gossip_example as (s & Hr & Ev & _).
  edestruct (@delivered_authentic ToyKeccak ToyGeth ToyEcdsa ToySnappy OneEntry OneEntryLaws unit
    gossip_config gossip_events s gossip_nexts failing_handler tt) as (calls & [] & E & Ha).
  - exact Hr.
  - constructor; [|constructor]. exists 0%nat, gossip_message, (Some gossip_payload).
    split; [rewrite Ev; reflexivity|reflexivity].
  - intros from payload calls w. exists (Err (EMsg "driver is closed")), w. split; reflexivity.
  - exists calls. split; [exact E|]. inversion Ha as [|msg call msgs calls' Hc Hrest]; subst.
    inversion Hrest; subst. destruct call as [from p]. destruct Hc as (Hf & Hd & i & m & b & _ & Hb & Hrun).
    cbn in Hf, Hd, Hb. injection Hd as <-. subst from. split; [done|].
    exists gossip_events, i, m, b. split; [exact Hb|exact Hrun].
Defined.
