(* ===== verification/Threads.v ===== *)
(** * Code that go-routines run at the same time

    A computation of the monad [M] of Prelude.v is one step.  Code that several
    go-routines run concurrently on shared state is a [Co] instead: a sequence of atomic
    steps, between which the others run.  [run] runs it alone.  [sound] is what holds of it
    among others: an invariant that each of its steps keeps, a relation that each of its
    steps guarantees and that it may rely on for those of the others, and a postcondition. *)

From S2P Require Import Prelude.

(** It has returned, or makes a call and goes on with the result. *)
Inductive Co (D A : Type) : Type :=
  | CoRet (r : res A)
  | CoCall (B : Type) (c : M D B) (k : res B -> Co D A).
Arguments CoRet {D A}.
Arguments CoCall {D A B}.

#[export] Instance Co_ret {D} : MRet (Co D) := fun A a => CoRet (Ok a).
#[export] Instance Co_bind {D} : MBind (Co D) := fun A B f =>
  fix bind (m : Co D A) : Co D B :=
    match m with
    | CoRet (Ok a) => f a
    | CoRet (Err e) => CoRet (Err e)
    | CoRet Panic => CoRet Panic
    | CoRet OutOfFuel => CoRet OutOfFuel
    | CoCall c k => CoCall c (fun r => bind (k r))
    end.
Definition atomic {D A} (c : M D A) : Co D A := CoCall c CoRet.

(** The next step; one that has returned stays. *)
Definition co_step {D A} (m : Co D A) : M D (Co D A) := fun d =>
  match m with
  | CoRet r => (Ok (CoRet r), d)
  | CoCall c k => let '(r, d') := c d in (Ok (k r), d')
  end.
Fixpoint run {D A} (m : Co D A) : M D A := fun d =>
  match m with
  | CoRet r => (r, d)
  | CoCall c k => let '(r, d') := c d in run (k r) d'
  end.
(** The code of an object that calls the outside world *)
Fixpoint co_call {S W A} (m : Co W A) : Co (S * W) A :=
  match m with
  | CoRet r => CoRet r
  | CoCall c k => CoCall (call c) (fun r => co_call (k r))
  end.

Lemma run_bind {D A B} (m : Co D A) (f : A -> Co D B) d :
  run (m ≫= f) d = (run m ≫= fun a => run (f a)) d.
Proof.
  revert d. induction m as [[]|X c k IH]; intros d; try done.
  unfold mbind in *. unfold M_bind in *. cbn in *. destruct (c d) as [r d']. apply IH.
Qed.
Lemma run_atomic {D A} (c : M D A) d : run (atomic c) d = c d.
Proof. cbn. by destruct (c d). Qed.
Lemma run_call {S W A} (m : Co W A) (sw : S * W) : run (co_call m) sw = call (run m) sw.
Proof.
  revert sw. induction m as [r|X c k IH]; intros [s w]; cbn; [done|]. unfold call. cbn.
  destruct (c w) as [r w']. rewrite IH. done.
Qed.

Section Sound.
Context {D : Type} (I : D -> Prop) (G : D -> D -> Prop) `{!PreOrder G}.

(** From [d] on, whatever the others do in between *)
Fixpoint sound {A} (m : Co D A) (Q : A -> D -> Prop) (d : D) : Prop :=
  match m with
  | CoRet r => forall a, r = Ok a -> Q a d
  | CoCall c k => forall d1, G d d1 -> I d1 ->
      I (c d1).2 /\ G d1 (c d1).2 /\ sound (k (c d1).1) Q (c d1).2
  end.
(** The steps of others keep it. *)
Definition stable {A} (Q : A -> D -> Prop) : Prop := forall a d d', G d d' -> Q a d -> Q a d'.

Lemma stable_pure {A} (Q : A -> Prop) : stable (fun a _ => Q a).
Proof. by intros a d d' _. Qed.
Lemma sound_later {A} (m : Co D A) Q d d' : stable Q -> G d d' -> sound m Q d -> sound m Q d'.
Proof.
  intros HQ Hd. destruct m as [r|X c k]; cbn; intros Hm; [intros a Ha; by eapply HQ, Hm|].
  intros d1 Hd1 HI. apply Hm; [by etrans|done].
Qed.
Lemma sound_ret {A} (a : A) (Q : A -> D -> Prop) d : Q a d -> sound (mret a) Q d.
Proof. intros Ha a' [= <-]. exact Ha. Qed.
Lemma sound_lift {A} (r : res A) (Q : A -> D -> Prop) d :
  (forall a, r = Ok a -> Q a d) -> sound (CoRet r) Q d.
Proof. done. Qed.
Lemma sound_bind {A B} (m : Co D A) (f : A -> Co D B) Q R d :
  sound m Q d -> (forall a d', G d d' -> Q a d' -> sound (f a) R d') -> sound (m ≫= f) R d.
Proof.
  revert d. induction m as [r|X c k IH]; intros d Hm Hf.
  - destruct r as [a|e| |]; try (intros ? E; discriminate E). apply Hf; [done|]. by apply Hm.
  - intros d1 Hd1 HI. destruct (Hm d1 Hd1 HI) as (HI' & HG & Hk). split; [done|]. split; [done|].
    apply IH; [done|]. intros a d' Hd'. apply Hf. etrans; [done|]. by etrans.
Qed.
Lemma sound_atomic {A} (c : M D A) (Q : A -> D -> Prop) d :
  (forall d1, G d d1 -> I d1 -> I (c d1).2 /\ G d1 (c d1).2 /\ forall a, (c d1).1 = Ok a -> Q a (c d1).2) ->
  sound (atomic c) Q d.
Proof. done. Qed.
Lemma sound_weaken {A} (m : Co D A) (Q R : A -> D -> Prop) d :
  sound m Q d -> (forall a d', Q a d' -> R a d') -> sound m R d.
Proof.
  revert d. induction m as [r|X c k IH]; intros d Hm HQ; [intros a Ha; by apply HQ, Hm|].
  intros d1 Hd1 HI. destruct (Hm d1 Hd1 HI) as (? & ? & ?). split_and!; [done..|]. by apply IH.
Qed.
(** A step *)
Lemma sound_step {A} (m : Co D A) Q d :
  sound m Q d -> I d -> exists m' d', co_step m d = (Ok m', d') /\ I d' /\ G d d' /\ sound m' Q d'.
Proof.
  intros Hm Hd. destruct m as [r|X c k]; cbn in *; [by exists (CoRet r), d|].
  destruct (Hm d ltac:(reflexivity) Hd) as (? & ? & ?). destruct (c d) as [r d']. by exists (k r), d'.
Qed.
Lemma sound_run {A} (m : Co D A) Q d :
  sound m Q d -> I d ->
  I (run m d).2 /\ G d (run m d).2 /\ forall a, (run m d).1 = Ok a -> Q a (run m d).2.
Proof.
  revert d. induction m as [r|X c k IH]; intros d Hm Hd; cbn in *; [by split|].
  destruct (Hm d ltac:(reflexivity) Hd) as (H1 & H2 & H3). destruct (c d) as [r d']. cbn in *.
  destruct (IH r d' H3 H1) as (? & ? & ?). split_and!; [done|by etrans|done].
Qed.
(** A single call that is such a step *)
Definition steps {A} (c : M D A) : Prop := forall d, I d -> I (c d).2 /\ G d (c d).2.
Lemma steps_preserves {A} (c : M D A) : steps c -> preserves I c.
Proof. intros Hc d Hd. by apply Hc. Qed.
Lemma sound_steps {A} (c : M D A) d : steps c -> sound (atomic c) (fun _ _ => True) d.
Proof. intros Hc d1 _ Hd. destruct (Hc d1 Hd). by split_and!. Qed.
Lemma sound_keeps {A} (c : M D A) Q d : steps c -> keeps I c Q -> sound (atomic c) (fun a _ => Q a) d.
Proof. intros Hc Hk d1 _ Hd. destruct (Hc d1 Hd). destruct (Hk d1 Hd). by split_and!. Qed.
End Sound.

(** No promise to the others *)
Definition any_step {D : Type} (_ _ : D) : Prop := True.
#[export] Instance any_step_PreOrder {D} : PreOrder (@any_step D).
Proof. by split. Qed.

(** An object's code whose steps do not touch its fields *)
Section SoundCall.
Context {S W : Type} (P : S -> Prop) (I : W -> Prop) (G : W -> W -> Prop).
Definition fields_kept (sw : S * W) : Prop := P sw.1 /\ I sw.2.
Definition world_moves (sw sw' : S * W) : Prop := sw'.1 = sw.1 /\ G sw.2 sw'.2.
#[export] Instance world_moves_PreOrder : PreOrder G -> PreOrder world_moves.
Proof.
  intros []. split; [by intros []|]. intros x y z [E1 H1] [E2 H2]. split; [congruence|by etrans].
Qed.
Lemma sound_call {A} (m : Co W A) (Q : A -> W -> Prop) sw :
  sound I G m Q sw.2 -> sound fields_kept world_moves (co_call m) (fun a sw => Q a sw.2) sw.
Proof.
  revert sw. induction m as [r|X c k IH]; intros [s w] Hm; [exact Hm|].
  intros [s1 w1] [E1 H1] [HP HI]. cbn in *. destruct (Hm w1 H1 HI) as (H2 & H3 & H4). unfold call. cbn.
  specialize (IH (c w1).1 (s1, (c w1).2) H4). destruct (c w1) as [r w2]. cbn in *. by split_and!.
Qed.
Lemma steps_call {A} (c : M W A) : steps I G c -> steps fields_kept world_moves (call c).
Proof.
  intros Hc [s w] [Hs Hw]. cbn in *. unfold call. cbn. destruct (Hc w Hw). by destruct (c w).
Qed.
End SoundCall.
