(* ===== verification/History.v ===== *)
(** * The batcher's history database

    op-batcher/db/history_db.go: the recently submitted L2 blocks, kept as JSON in a file.
    The database has no lock, and [AppendEntry] reads the file, truncates it and writes it
    again: three steps, between which the batcher's other go-routines go on. *)

From S2P Require Import Prelude Types Threads.

Record History := mkHistory { h_BlockIDs : list BlockID }.

Definition LatestID (h : History) : res BlockID :=
  index (h_BlockIDs h) (zlen (h_BlockIDs h) - 1).

Definition History_AppendEntry (blockID : BlockID) (maxEntries : uint64) (h : History) : History :=
  if existsb (fun id => id_Hash id =? id_Hash blockID) (h_BlockIDs h) then h
  else
    let BlockIDs := h_BlockIDs h ++ [blockID] in
    if maxEntries <? wrap 64 (zlen BlockIDs)
    then mkHistory (drop (Z.to_nat (zlen BlockIDs - to_int64 maxEntries)) BlockIDs)
    else mkHistory BlockIDs.

(** [Ancestors] reads the entries from the last to the first; the sorted copy of them that
    it makes is not read. *)
Definition Ancestors (h : History) : list Hash := id_Hash <$> reverse (h_BlockIDs h).

(** [HistoryDatabase], what the batcher driver uses *)
Class HistoryDatabase (W : Type) := {
  LoadHistory : M W History;
  db_AppendEntry : BlockID -> Co W unit;
}.

(** encoding/json on a [History], and the operations of os and io/ioutil *)
Class HistoryJSON := {
  json_Marshal : History -> res (list byte);
  json_Unmarshal : list byte -> res History;
}.
Class HistoryJSONLaws `{HistoryJSON} := {
  json_roundtrip : forall h b, json_Marshal h = Ok b -> b <> [] /\ json_Unmarshal b = Ok h;
}.
Class Files (W : Type) := {
  os_Stat_NotExist : string -> M W bool;
  os_Create : string -> M W unit;              (* and close *)
  os_ReadFile : string -> M W (list byte);
  os_OpenFile : string -> M W unit;            (* O_WRONLY|O_CREATE|O_TRUNC *)
  file_Write : string -> list byte -> M W unit; (* to a file just opened, and close *)
}.
(** [ioutil.WriteFile] *)
Definition ioutil_WriteFile {W} `{!Files W} (filename : string) (data : list byte) : Co W unit :=
  _ ← atomic (os_OpenFile filename);
  atomic (file_Write filename data).
(** Files keep what is written, a read changes nothing, and opening a file to write it
    empties it.  A write starts at the beginning of the file, wherever another has left it
    by then, and leaves what the file has beyond its own end. *)
Class FilesLaws W `{!Files W} := {
  read_pure : forall f (w w' : W) r, os_ReadFile f w = (r, w') -> w' = w;
  read_opened : forall f (w w' : W), os_OpenFile f w = (Ok tt, w') -> (os_ReadFile f w').1 = Ok [];
  read_written : forall f b c (w w' : W), (os_ReadFile f w).1 = Ok c ->
    file_Write f b w = (Ok tt, w') -> (os_ReadFile f w').1 = Ok (b ++ drop (length b) c);
  read_created : forall f (w w' : W), os_Create f w = (Ok tt, w') -> (os_ReadFile f w').1 = Ok [];
}.

Record JSONFileDatabase := mkJSONFileDatabase {
  jd_filename : string;
  jd_maxEntries : uint64;
  jd_genesisHash : Hash;
}.

Section JSONFile.
Context `{HistoryJSON} {W : Type} `{!Files W}.

Definition OpenJSONFileDatabase (filename : string) (maxEntries : uint64) (genesisHash : Hash)
    : M W JSONFileDatabase :=
  notExist ← os_Stat_NotExist filename;
  _ ← (if notExist : bool then os_Create filename else mret tt);
  mret (mkJSONFileDatabase filename maxEntries genesisHash).

Definition JSON_LoadHistory (d : JSONFileDatabase) : M W History :=
  fileContents ← os_ReadFile (jd_filename d);
  match fileContents with
  | [] => mret (mkHistory [mkBlockID (jd_genesisHash d) 0])
  | _ => lift (json_Unmarshal fileContents)
  end.

Definition JSON_AppendEntry (d : JSONFileDatabase) (blockID : BlockID) : Co W unit :=
  history ← atomic (JSON_LoadHistory d);
  let history := History_AppendEntry blockID (jd_maxEntries d) history in
  newFileContents ← CoRet (json_Marshal history);
  ioutil_WriteFile (jd_filename d) newFileContents.

Definition JSON_HistoryDatabase (d : JSONFileDatabase) : HistoryDatabase W := {|
  LoadHistory := JSON_LoadHistory d;
  db_AppendEntry := JSON_AppendEntry d;
|}.
End JSONFile.

(** ** Well-formed histories *)

(** Of at least one and at most [maxEntries] blocks, each once. *)
Definition history_ok (maxEntries : uint64) (h : History) : Prop :=
  h_BlockIDs h <> [] /\ zlen (h_BlockIDs h) <= maxEntries /\ NoDup (id_Hash <$> h_BlockIDs h).

Lemma existsb_hash ids hash :
  existsb (fun id => id_Hash id =? hash) ids = true <-> hash ∈ id_Hash <$> ids.
Proof.
  rewrite existsb_exists, list_elem_of_fmap. split; intros (id & H1 & H2); exists id.
  - apply Z.eqb_eq in H2. split; [done|by apply list_elem_of_In].
  - subst. split; [by apply list_elem_of_In|apply Z.eqb_refl].
Qed.
Lemma NoDup_drop {A} n (l : list A) : NoDup l -> NoDup (drop n l).
Proof. rewrite <-(take_drop n l) at 1. by intros (_ & _ & ?)%NoDup_app. Qed.

(** Appending keeps a history well-formed, keeps its newest entries in order, and makes a
    new block the latest. *)
Lemma AppendEntry_spec blockID maxEntries h :
  0 < maxEntries < 2 ^ 63 -> history_ok maxEntries h ->
  let h' := History_AppendEntry blockID maxEntries h in
  history_ok maxEntries h' /\ id_Hash blockID ∈ id_Hash <$> h_BlockIDs h' /\
  (h' = h \/ LatestID h' = Ok blockID /\
             exists n, (n <= 1)%nat /\ h_BlockIDs h' = drop n (h_BlockIDs h) ++ [blockID]).
Proof.
  intros Hmax (Hne & Hl & Hnd). unfold History_AppendEntry. cbv zeta.
  destruct (existsb _ _) eqn:E.
  { apply existsb_hash in E. split; [done|]. split; [done|by left]. }
  assert (Hnew : NoDup (id_Hash <$> h_BlockIDs h ++ [blockID])).
  { rewrite fmap_app. apply NoDup_app. split; [done|]. split; [|apply NoDup_singleton].
    intros x Hx Hb. apply list_elem_of_singleton in Hb as ->. apply existsb_hash in Hx. congruence. }
  assert (Hlat : forall n, (n <= length (h_BlockIDs h))%nat ->
    LatestID (mkHistory (drop n (h_BlockIDs h) ++ [blockID])) = Ok blockID).
  { intros n Hn. unfold LatestID, index. cbn. rewrite zlen_app.
    rewrite (proj2 (Z.leb_le _ _)) by (pose proof (zlen_nonneg (drop n (h_BlockIDs h))); len).
    rewrite lookup_app_r by len. replace (_ - _)%nat with 0%nat by len. done. }
  assert (Hin : forall n, id_Hash blockID ∈ id_Hash <$> (drop n (h_BlockIDs h) ++ [blockID])).
  { intros n. rewrite fmap_app. apply elem_of_app. right. by left. }
  rewrite (wrap_small 64) by (unfold in_range; len).
  destruct (Z.ltb_spec maxEntries (zlen (h_BlockIDs h ++ [blockID]))) as [Hlt|Hge].
  - assert (Hfull : zlen (h_BlockIDs h) = maxEntries) by len.
    unfold to_int64. rewrite (wrap_small 64) by (unfold in_range; lia).
    rewrite (proj2 (Z.ltb_lt _ _)) by lia.
    replace (Z.to_nat _) with 1%nat by (rewrite zlen_app, Hfull; len).
    assert (Ed : drop 1 (h_BlockIDs h ++ [blockID]) = drop 1 (h_BlockIDs h) ++ [blockID])
      by (by rewrite drop_app_le by (destruct (h_BlockIDs h); [done|cbn; lia])).
    rewrite Ed. split; [|split; [apply Hin|right; split; [apply Hlat|by exists 1%nat]]].
    + split; [by intros [_ ?]%app_eq_nil|]. split; [cbn; len|].
      cbn [h_BlockIDs]. rewrite <-Ed, fmap_drop. by apply NoDup_drop.
    + destruct (h_BlockIDs h); [done|cbn; lia].
  - split; [|split; [apply (Hin 0%nat)|right; split; [apply (Hlat 0%nat); lia|by exists 0%nat; split; [lia|]]]].
    split; [by intros [_ ?]%app_eq_nil|]. by split.
Qed.

(** A recorded block is in the history, of any history. *)
Lemma AppendEntry_in blockID maxEntries h :
  0 < maxEntries < 2 ^ 63 -> id_Hash blockID ∈ id_Hash <$> h_BlockIDs (History_AppendEntry blockID maxEntries h).
Proof.
  intros Hmax. unfold History_AppendEntry. cbv zeta.
  destruct (existsb _ _) eqn:E; [by apply existsb_hash|].
  assert (Hin : forall n, (n <= length (h_BlockIDs h))%nat ->
    id_Hash blockID ∈ id_Hash <$> drop n (h_BlockIDs h ++ [blockID])).
  { intros n Hn. rewrite drop_app_le by done. rewrite fmap_app. apply elem_of_app. right. by left. }
  destruct (_ <? _); cbn [h_BlockIDs]; [apply Hin|apply (Hin 0%nat); lia].
  unfold to_int64. rewrite wrap_small by (unfold in_range; lia). rewrite (proj2 (Z.ltb_lt _ _)) by lia. len.
Qed.

Lemma Ancestors_head h id : LatestID h = Ok id -> head (Ancestors h) = Some (id_Hash id).
Proof.
  unfold LatestID, index, Ancestors. destruct (0 <=? _) eqn:E0; [|done].
  destruct (h_BlockIDs h !! _) as [x|] eqn:E; [|done]. intros [= ->].
  assert (Eh : head (reverse (h_BlockIDs h)) = Some id).
  { rewrite head_reverse, last_lookup.
    by replace (Init.Nat.pred _) with (Z.to_nat (zlen (h_BlockIDs h) - 1)) by (unfold zlen; lia). }
  destruct (reverse (h_BlockIDs h)); [done|]. cbn in *. by injection Eh as ->.
Qed.
Lemma LatestID_ok maxEntries h : history_ok maxEntries h -> exists id, LatestID h = Ok id.
Proof.
  intros (Hne & _ & _). unfold LatestID, index. destruct (h_BlockIDs h) as [|x l] eqn:E; [done|].
  rewrite (proj2 (Z.leb_le _ _)) by len.
  destruct (lookup_lt_is_Some_2 (x :: l) (Z.to_nat (zlen (x :: l) - 1)) ltac:(len)) as [y Ey].
  rewrite Ey. eauto.
Qed.

Section JSONProofs.
Context `{HistoryJSONLaws} {W : Type} `{FilesLaws W} (d : JSONFileDatabase).
Context (Hmax : 0 < jd_maxEntries d < 2 ^ 63).

Definition genesis_history : History := mkHistory [mkBlockID (jd_genesisHash d) 0].
(** The file holds [h]: an empty file stands for the genesis block. *)
Definition holds (h : History) (w : W) : Prop := JSON_LoadHistory d w = (Ok h, w).

Lemma holds_fresh w : (os_ReadFile (jd_filename d) w).1 = Ok [] -> holds genesis_history w.
Proof.
  unfold holds, JSON_LoadHistory, mbind, M_bind. destruct (os_ReadFile _ w) as [r w'] eqn:E.
  cbn. intros ->. by rewrite (read_pure _ _ _ _ E).
Qed.
(** A file that is written while no other go-routine writes it has what was written. *)
Lemma WriteFile_alone f b w w' :
  run (ioutil_WriteFile f b) w = (Ok tt, w') -> (os_ReadFile f w').1 = Ok b.
Proof.
  intros E. unfold ioutil_WriteFile in E. rewrite run_bind in E.
  apply M_bind_ok in E as ([] & w1 & E1 & E). rewrite run_atomic in E1, E.
  rewrite (read_written _ _ _ _ _ (read_opened _ _ _ E1) E), drop_nil. by rewrite app_nil_r.
Qed.
Lemma JSON_AppendEntry_holds h id w w' :
  holds h w -> run (JSON_AppendEntry d id) w = (Ok tt, w') ->
  holds (History_AppendEntry id (jd_maxEntries d) h) w'.
Proof.
  intros Hh E. unfold JSON_AppendEntry in E. rewrite run_bind in E.
  apply M_bind_ok in E as (h0 & w1 & E1 & E). rewrite run_atomic in E1. unfold holds in Hh.
  rewrite Hh in E1. injection E1 as <- <-. cbv zeta in E. rewrite run_bind in E.
  apply M_bind_ok in E as (b & w1 & Eb & E). apply lift_ok in Eb as [Eb <-].
  apply json_roundtrip in Eb as [Hb Eb]. pose proof (WriteFile_alone _ _ _ _ E) as Er.
  unfold holds, JSON_LoadHistory, mbind, M_bind.
  destruct (os_ReadFile _ w') as [r w2] eqn:E2. cbn in Er. subst r.
  rewrite (read_pure _ _ _ _ E2). destruct b; [done|]. unfold lift. by rewrite Eb.
Qed.

(** Whatever other go-routines do to the file in between, what [AppendEntry] writes in the
    end is a history that has the block. *)
Definition has_block (id : BlockID) (contents : list byte) : Prop :=
  exists h, json_Unmarshal contents = Ok h /\ id_Hash id ∈ id_Hash <$> h_BlockIDs h.

Lemma JSON_LoadHistory_pure w r w' : JSON_LoadHistory d w = (r, w') -> w' = w.
Proof.
  unfold JSON_LoadHistory, mbind, M_bind. destruct (os_ReadFile _ w) as [r0 w0] eqn:E.
  apply read_pure in E as ->. by destruct r0 as [[]| | |]; intros [= _ <-].
Qed.
Lemma JSON_AppendEntry_sound (I : W -> Prop) (G : W -> W -> Prop) `{!PreOrder G}
    (recorded : BlockID -> W -> Prop) id w :
  (forall w, I w -> let w' := (os_OpenFile (jd_filename d) w).2 in I w' /\ G w w') ->
  (forall b w, I w -> let '(r, w') := file_Write (jd_filename d) b w in
     I w' /\ G w w' /\ (r = Ok tt -> has_block id b -> recorded id w')) ->
  sound I G (JSON_AppendEntry d id) (fun _ => recorded id) w.
Proof.
  intros Hopen Hwrite. unfold JSON_AppendEntry.
  apply (sound_bind I G _ _ (fun _ _ => True)).
  { apply sound_atomic. intros w1 _ Hw1. destruct (JSON_LoadHistory d w1) as [r w2] eqn:E.
    apply JSON_LoadHistory_pure in E as ->. by split_and!. }
  intros h w1 _ _. cbv zeta.
  apply (sound_bind I G _ _ (fun b _ => has_block id b)).
  { apply sound_lift. intros b Eb. eexists. split; [by apply json_roundtrip|].
    apply AppendEntry_in. lia. }
  intros b w2 _ Hb. unfold ioutil_WriteFile. apply (sound_bind I G _ _ (fun _ _ => True)).
  { apply sound_atomic. intros w3 _ Hw3. destruct (Hopen w3 Hw3). by split_and!. }
  intros [] w3 _ _. apply sound_atomic. intros w4 _ Hw4. specialize (Hwrite b w4 Hw4).
  destruct (file_Write _ b w4) as [r w5]. destruct Hwrite as (? & ? & Hrec). split_and!; [done..|].
  intros [] Er. by apply Hrec.
Qed.

(** The blocks recorded one after the other *)
Fixpoint append_all (ids : list BlockID) : M W unit :=
  match ids with
  | [] => mret tt
  | id :: ids => _ ← run (JSON_AppendEntry d id); append_all ids
  end.

Lemma append_all_holds ids h w w' :
  holds h w -> history_ok (jd_maxEntries d) h -> append_all ids w = (Ok tt, w') ->
  exists h', holds h' w' /\ history_ok (jd_maxEntries d) h' /\
    forall id, last ids = Some id -> id_Hash id ∈ id_Hash <$> h_BlockIDs h'.
Proof.
  revert h w. induction ids as [|id ids IH]; intros h w Hh Hok E; cbn [append_all] in E.
  { injection E as <-. exists h. split; [done|]. by split. }
  apply M_bind_ok in E as ([] & w1 & E1 & E).
  destruct (AppendEntry_spec id _ h Hmax Hok) as (Hok' & Hin & _).
  apply (JSON_AppendEntry_holds h) in E1; [|done].
  destruct (IH _ _ E1 Hok' E) as (h' & ? & ? & Hlast). exists h'. split_and!; [done..|].
  intros id' Hid. destruct ids as [|id2 ids]; [|by apply Hlast].
  injection Hid as <-. cbn [append_all] in E. injection E as <-. unfold holds in *. congruence.
Qed.

(** [C38] The history file stays well-formed over any sequence of recorded blocks, from an
    empty file on: what [LoadHistory] reads back is a history of at least one and at most
    [maxEntries] blocks, no block twice, that has the block recorded last; [LatestID] does
    not panic on it, and [Ancestors] starts with the latest block. *)
Theorem history_file_wf ids w w' :
  (os_ReadFile (jd_filename d) w).1 = Ok [] -> append_all ids w = (Ok tt, w') ->
  exists h latest, JSON_LoadHistory d w' = (Ok h, w') /\ history_ok (jd_maxEntries d) h /\
    LatestID h = Ok latest /\ head (Ancestors h) = Some (id_Hash latest) /\
    forall id, last ids = Some id -> id_Hash id ∈ Ancestors h.
Proof.
  intros Hf E. destruct (append_all_holds ids genesis_history w w') as (h & Hh & Hok & Hlast);
    [by apply holds_fresh| |done|].
  { split; [done|]. split; [cbn; len|apply NoDup_singleton]. }
  destruct (LatestID_ok _ h Hok) as [latest El].
  exists h, latest. split_and!; [done..|by apply Ancestors_head|].
  intros id Hid. unfold Ancestors. rewrite fmap_reverse. by apply elem_of_reverse, Hlast.
Qed.
End JSONProofs.

(** ** Witness: a file of fixed-width entries, each after a comma, in braces *)
Fixpoint toy_entries (fuel : nat) (b : list byte) : res (list BlockID) :=
  match fuel, b with
  | S fuel, x2c :: b =>
      ids ← toy_entries fuel (drop 40 b);
      Ok (mkBlockID (be_value (take 32 b)) (be_value (take 8 (drop 32 b))) :: ids)
  | _, [x7d] => Ok []
  | _, _ => Err (EMsg "invalid character after top-level value")
  end.
Definition toy_unmarshal (b : list byte) : res History :=
  match b with
  | [] => Err (EMsg "unexpected end of JSON input")
  | _ :: b => mkHistory <$> toy_entries (length b) b
  end.
#[export] Instance res_eq_dec {A} `{EqDecision A} : EqDecision (res A).
Proof. solve_decision. Defined.
Definition toy_marshal (h : History) : res (list byte) :=
  let b := x7b :: (h_BlockIDs h ≫= fun id => x2c :: be_bytes 32 (id_Hash id) ++ be_bytes 8 (id_Number id)) ++ [x7d] in
  if bool_decide (h_BlockIDs <$> toy_unmarshal b = Ok (h_BlockIDs h)) then Ok b
  else Err (EMsg "json: unsupported value").
Definition ToyJSON : HistoryJSON := {| json_Marshal := toy_marshal; json_Unmarshal := toy_unmarshal |}.
Lemma ToyJSONLaws : @HistoryJSONLaws ToyJSON.
Proof.
  split. intros [ids] b E. cbn [json_Marshal json_Unmarshal ToyJSON] in *. unfold toy_marshal in E.
  cbv zeta in E. case_bool_decide as Hb; [|done]. apply Ok_inj in E as <-. split; [done|].
  destruct (toy_unmarshal _) as [[ids']| | |]; [|done..]. cbn in Hb. by apply Ok_inj in Hb as ->.
Qed.
(** The world is one file's contents. *)
Definition ToyFiles : Files (list byte) := {|
  os_Stat_NotExist := fun _ w => (Ok false, w);
  os_Create := fun _ w => (Ok tt, []);
  os_ReadFile := fun _ w => (Ok w, w);
  os_OpenFile := fun _ w => (Ok tt, []);
  file_Write := fun _ b w => (Ok tt, b ++ drop (length b) w);
|}.
Lemma ToyFilesLaws : @FilesLaws (list byte) ToyFiles.
Proof.
  split; cbn.
  - by intros f w w' r [= _ ->].
  - by intros f w w' [= <-].
  - by intros f b c w w' [= ->] [= <-].
  - by intros f w w' [= <-].
Qed.
Definition toy_db : JSONFileDatabase := mkJSONFileDatabase "history.json" 2 77.
Definition toy_blocks : list BlockID := [mkBlockID 100 1; mkBlockID 101 2; mkBlockID 100 1; mkBlockID 102 3].

Lemma history_file_wf_witness : exists w' h,
  @append_all ToyJSON (list byte) ToyFiles toy_db toy_blocks [] = (Ok tt, w') /\
  @JSON_LoadHistory ToyJSON (list byte) ToyFiles toy_db w' = (Ok h, w') /\ history_ok 2 h /\
  102 ∈ Ancestors h.
Proof.
  destruct (@append_all ToyJSON (list byte) ToyFiles toy_db toy_blocks []) as [r w'] eqn:E.
  assert (Er : r = Ok tt).
  { assert (E1 : (@append_all ToyJSON (list byte) ToyFiles toy_db toy_blocks []).1 = Ok tt)
      by (vm_compute; reflexivity).
    rewrite E in E1. exact E1. }
  subst r. destruct (@history_file_wf ToyJSON ToyJSONLaws (list byte) ToyFiles ToyFilesLaws toy_db
    ltac:(cbn; lia) toy_blocks [] w' eq_refl E) as (h & latest & El & Hok & _ & _ & Hlast).
  exists w', h. split; [reflexivity|]. split; [exact El|]. split; [exact Hok|].
  exact (Hlast (mkBlockID 102 3) eq_refl).
Defined.
