(* ===== verification/Submitter.v ===== *)
(** * The batcher and the proposer

    op-proposer/service.go, the loop both run; op-batcher/sequencer/driver.go, which
    submits batch bundles; op-proposer/drivers/l2output/driver.go, which submits output
    roots. *)

From S2P Require Import Prelude Types Threads Geth L1Info Batches L2Source NodeAPI TxMgr History.

(** ** External code *)

(** [types.DynamicFeeTx] *)
Record DynamicFeeTx := mkDynamicFeeTx {
  dt_ChainID : bigInt;
  dt_Nonce : uint64;
  dt_To : option Address;
  dt_GasTipCap : bigInt;
  dt_GasFeeCap : bigInt;
  dt_Gas : uint64;
  dt_Data : list byte;
}.
(** Signed transactions of go-ethereum: [tx_inner] are the fields its accessors read. *)
Class Signing := {
  SignedTx : Type;
  SigningKey : Type;
  tx_inner : SignedTx -> DynamicFeeTx;
  SignNewTx : SigningKey -> bigInt -> DynamicFeeTx -> res SignedTx;
  IntrinsicGas : list byte -> res uint64;
}.
(** Signing keeps the fields. *)
Class SigningLaws `{Signing} := {
  SignNewTx_inner : forall k id raw tx, SignNewTx k id raw = Ok tx -> tx_inner tx = raw;
}.
(** [ethclient.Client]; the header of no number is the latest. *)
Class EthClient `{GethTypes} `{Signing} (W : Type) := {
  SuggestGasTipCap : M W bigInt;
  HeaderByNumber : option bigInt -> M W Header;
  SendTransaction : SignedTx -> M W unit;
  NonceAt : Address -> M W uint64;
}.
(** [rollupclient.RollupClient]: the RPC client of a rollup node *)
Class RollupClient (W : Type) := {
  rc_GetBatchBundle : BatchBundleRequest -> M W (option BatchBundleResponse);
  rc_OutputAtBlock : bigInt -> M W (list Hash);
}.

(** ** service.go *)

(** [Driver].  The transaction manager calls the last two from several go-routines at a
    time; each is the sequence of its calls. *)
Class ServiceDriver `{Signing} (D : Type) := {
  WalletAddr : Address;
  GetBlockRange : M D (bigInt * bigInt);
  CraftTx : bigInt -> bigInt -> bigInt -> M D SignedTx;
  UpdateGasPrice : SignedTx -> Co D SignedTx;
  drv_SendTransaction : SignedTx -> Co D unit;
}.
(** [txmgr.TxManager]: [Send] on the two functions it is given *)
Class TxManager `{Signing} (D : Type) := {
  Send : Co D SignedTx -> (SignedTx -> Co D unit) -> M D Receipt;
}.
(** [Send] only calls the two functions, [sendTx] on results of [updateGasPrice], besides
    the manager's own queries, whose steps are those that [own] allows.  It may run any
    number of these calls at the same time. *)
Class TxManagerLaws `{TxManager} (own : (D -> Prop) -> (D -> D -> Prop) -> Prop) := {
  Send_keeps : forall (I : D -> Prop) (G : D -> D -> Prop) (Q : SignedTx -> Prop) update send,
    PreOrder G -> own I G ->
    (forall d, sound I G update (fun tx _ => Q tx) d) ->
    (forall tx d, Q tx -> sound I G (send tx) (fun _ _ => True) d) ->
    preserves I (Send update send);
}.

Section Service.
Context `{Signing} {D : Type} `{!ServiceDriver D} `{!TxManager D}.
(** The L1 client's [NonceAt], in the driver's world *)
Context (nonceAt : Address -> M D uint64).

(** [Service.eventLoop], a tick with blocks to submit: the receipt of the published
    transaction, or nothing; an error is logged and the loop goes on. *)
Definition eventLoop_submit (start end_ : bigInt) : M D (option Receipt) :=
  nonce64 ← attempt (nonceAt WalletAddr);
  match nonce64 with
  | inl _ => mret None
  | inr nonce64 =>
      tx ← attempt (CraftTx start end_ nonce64);
      match tx with
      | inl _ => mret None
      | inr tx =>
          receipt ← attempt (Send (UpdateGasPrice tx) drv_SendTransaction);
          match receipt with
          | inl _ => mret None
          | inr receipt => mret (Some receipt)
          end
      end
  end.
(** One tick of [Service.eventLoop] *)
Definition eventLoop_tick : M D (option Receipt) :=
  range ← attempt GetBlockRange;
  match range with
  | inl _ => mret None
  | inr (start, end_) => if start =? end_ then mret None else eventLoop_submit start end_
  end.
End Service.

(** ** op-batcher/sequencer/driver.go *)
Record BatcherConfig `{Signing} := mkBatcherConfig {
  bcfg_MinL1TxSize : uint64;
  bcfg_MaxL1TxSize : uint64;
  bcfg_BatchInboxAddress : Address;
  bcfg_ChainID : bigInt;
  bcfg_PrivKey : SigningKey;
}.

Section Batcher.
Context `{GethTypes} `{Signing} {W : Type} `{!EthClient W} `{!RollupClient W} `{!HistoryDatabase W}.
Context (cfg : BatcherConfig) (walletAddr : Address).
(** The driver's field [currentBatch] *)
Abbreviation BatcherState := (option BatchBundleResponse).
Abbreviation BM := (M (BatcherState * W)).

Definition Batcher_GetBlockRange : BM (bigInt * bigInt) :=
  _ ← modify (fun _ => None);
  history ← call LoadHistory;
  latestBlockID ← lift (LatestID history);
  batchResp ← call (rc_GetBatchBundle
    (mkBatchBundleRequest (Ancestors history) (bcfg_MinL1TxSize cfg) (bcfg_MaxL1TxSize cfg)));
  match batchResp with
  | None =>
      let start := to_int64 (id_Number latestBlockID +64 1) in
      mret (start, start)
  | Some batchResp =>
      let start := to_int64 (br_PrevL2BlockNum batchResp +64 1) in
      if br_LastL2BlockHash batchResp =? br_PrevL2BlockHash batchResp then mret (start, start)
      else if bool_decide (br_Bundle batchResp = []) then
        _ ← call (run (db_AppendEntry (mkBlockID (br_LastL2BlockHash batchResp) (br_LastL2BlockNum batchResp))));
        let next := to_int64 (br_LastL2BlockNum batchResp +64 1) in
        mret (next, next)
      else
        _ ← modify (fun _ => Some batchResp);
        mret (start, to_int64 (br_LastL2BlockNum batchResp +64 1))
  end.

(** [d.currentBatch], dereferenced *)
Definition currentBatch : BM BatchBundleResponse :=
  b ← get;
  match b with Some b => mret b | None => lift Panic end.

Definition Batcher_CraftTx (start end_ nonce : bigInt) : BM SignedTx :=
  gasTipCap ← call SuggestGasTipCap;
  head ← call (HeaderByNumber None);
  let gasFeeCap := CalcGasFeeCap (hdr_BaseFee head) gasTipCap in
  batch ← currentBatch;
  let Data := br_Bundle batch in
  gas ← lift (IntrinsicGas Data);
  lift (SignNewTx (bcfg_PrivKey cfg) (bcfg_ChainID cfg)
    (mkDynamicFeeTx (bcfg_ChainID cfg) (wrap 64 nonce) (Some (bcfg_BatchInboxAddress cfg))
       gasTipCap gasFeeCap gas Data)).

Definition Batcher_UpdateGasPrice (tx : SignedTx) : Co (BatcherState * W) SignedTx :=
  gasTipCap ← atomic (call SuggestGasTipCap);
  head ← atomic (call (HeaderByNumber None));
  let gasFeeCap := CalcGasFeeCap (hdr_BaseFee head) gasTipCap in
  CoRet (SignNewTx (bcfg_PrivKey cfg) (bcfg_ChainID cfg)
    (mkDynamicFeeTx (bcfg_ChainID cfg) (dt_Nonce (tx_inner tx)) (dt_To (tx_inner tx))
       gasTipCap gasFeeCap (dt_Gas (tx_inner tx)) (dt_Data (tx_inner tx)))).

Definition Batcher_SendTransaction (tx : SignedTx) : Co (BatcherState * W) unit :=
  batch ← atomic currentBatch;
  _ ← co_call (db_AppendEntry (mkBlockID (br_LastL2BlockHash batch) (br_LastL2BlockNum batch)));
  atomic (call (SendTransaction tx)).

Definition BatcherDriver : ServiceDriver (BatcherState * W) := {|
  WalletAddr := walletAddr;
  GetBlockRange := Batcher_GetBlockRange;
  CraftTx := Batcher_CraftTx;
  UpdateGasPrice := Batcher_UpdateGasPrice;
  drv_SendTransaction := Batcher_SendTransaction;
|}.
End Batcher.

(** ** op-proposer/drivers/l2output/driver.go *)

(** The generated binding of the L2OutputOracle contract; [AppendL2Output] and
    [RawTransact] sign a transaction of the given nonce without sending it. *)
Class L2OutputOracle `{Signing} (W : Type) := {
  LatestBlockTimestamp : M W bigInt;
  ComputeL2BlockNumber : bigInt -> M W bigInt;
  NextTimestamp : M W bigInt;
  AppendL2Output : SigningKey -> bigInt -> bigInt ->
    Hash -> bigInt -> Hash -> bigInt -> M W SignedTx;
  RawTransact : SigningKey -> bigInt -> bigInt -> list byte -> M W SignedTx;
}.
Definition supportedL2OutputVersion : Hash := 0.

Section Proposer.
Context `{Keccak} `{GethTypes} `{Signing} {W : Type} `{!EthClient W} `{!RollupClient W} `{!L2OutputOracle W}.
Context (PrivKey : SigningKey) (ChainID : bigInt) (walletAddr : Address).
(** The L2 client's [HeaderByNumber] *)
Context (l2HeaderByNumber : bigInt -> M W Header).

Definition Proposer_GetBlockRange : M W (bigInt * bigInt) :=
  l2ooTimestamp ← LatestBlockTimestamp;
  start ← ComputeL2BlockNumber l2ooTimestamp;
  let start := start + 1 in
  nextTimestamp ← NextTimestamp;
  latestHeader ← HeaderByNumber None;
  let currentTimestamp := to_int64 (hdr_Time latestHeader) in
  if currentTimestamp <? nextTimestamp then mret (start, start)
  else
    end_ ← ComputeL2BlockNumber nextTimestamp;
    mret (start, end_ + 1).

Definition outputRootAtBlock (blockNum : bigInt) : M W Hash :=
  output ← rc_OutputAtBlock blockNum;
  match output with
  | [version; root] =>
      if negb (version =? supportedL2OutputVersion)
      then throw (EMsg "unsupported l2 output version")
      else mret root
  | _ => throw (EMsg "invalid outputAtBlock response")
  end.

Definition Proposer_CraftTx (start end_ nonce : bigInt) : M W SignedTx :=
  let nextCheckpointBlock := end_ - 1 in
  l2OutputRoot ← outputRootAtBlock nextCheckpointBlock;
  timestamp ← NextTimestamp;
  expCheckpointBlock ← ComputeL2BlockNumber timestamp;
  if negb (nextCheckpointBlock =? expCheckpointBlock)
  then throw (EMsg "expected next checkpoint block to be another")
  else
    header ← M_err (wrapv "error resolving checkpoint block: ") (HeaderByNumber None);
    l2Header ← M_err (wrapv "error resolving checkpoint block: ") (l2HeaderByNumber nextCheckpointBlock);
    if negb (hdr_Time l2Header =? wrap 64 timestamp)
    then throw (EMsg "invalid timestamp: next timestamp is not the timestamp of the block")
    else AppendL2Output PrivKey ChainID nonce l2OutputRoot timestamp (header_Hash header) (hdr_Number header).

Definition Proposer_UpdateGasPrice (tx : SignedTx) : Co W SignedTx :=
  atomic (RawTransact PrivKey ChainID (dt_Nonce (tx_inner tx)) (dt_Data (tx_inner tx))).

Definition ProposerDriver : ServiceDriver W := {|
  WalletAddr := walletAddr;
  GetBlockRange := Proposer_GetBlockRange;
  CraftTx := Proposer_CraftTx;
  UpdateGasPrice := Proposer_UpdateGasPrice;
  drv_SendTransaction := fun tx => atomic (SendTransaction tx);
|}.
End Proposer.

(** ** A tick, for any driver *)
Section Ticks.
Context `{Signing} {D : Type} `{!ServiceDriver D} `{!TxManager D}.
Context {own : (D -> Prop) -> (D -> D -> Prop) -> Prop} `{!TxManagerLaws own}.
Context (nonceAt : Address -> M D uint64) (J : D -> Prop) (G : D -> D -> Prop) `{!PreOrder G}.
Context (Q : SignedTx -> Prop) (Hown : own J G).
Context (Hnonce : preserves J (nonceAt WalletAddr)).
Context (Hupdate : forall tx d, Q tx -> sound J G (UpdateGasPrice tx) (fun tx _ => Q tx) d).
Context (Hsend : forall tx d, Q tx -> sound J G (drv_SendTransaction tx) (fun _ _ => True) d).

(** Only transactions that satisfy [Q] are sent, if those crafted do. *)
Lemma eventLoop_submit_preserves start end_ :
  (forall nonce, keeps J (CraftTx start end_ nonce) Q) -> preserves J (eventLoop_submit nonceAt start end_).
Proof.
  intros Hcraft. unfold eventLoop_submit.
  apply preserves_bind; [by apply preserves_attempt|]. intros [e|nonce]; [apply preserves_ret|].
  intros d Hd. unfold mbind, M_bind.
  destruct (keeps_attempt _ _ _ (Hcraft nonce) d Hd) as [Hd' Hq].
  destruct (attempt _ d) as [[[e|tx]|e| |] d']; cbn in *; try done.
  apply (preserves_bind J); [|intros []; apply preserves_ret|done].
  apply preserves_attempt, (Send_keeps J G Q); try done. intros d1. apply Hupdate. by apply (Hq _ eq_refl).
Qed.
Lemma eventLoop_tick_preserves :
  preserves J GetBlockRange -> (forall start end_ nonce, keeps J (CraftTx start end_ nonce) Q) ->
  preserves J (eventLoop_tick nonceAt).
Proof.
  intros Hrange Hcraft. unfold eventLoop_tick.
  apply preserves_bind; [by apply preserves_attempt|]. intros [e|[start end_]]; [apply preserves_ret|].
  destruct (_ =? _); [apply preserves_ret|by apply eventLoop_submit_preserves].
Qed.
End Ticks.

(** ** What the batcher publishes *)
Section BatcherProofs.
Context `{GethTypes} `{SigningLaws} {W : Type} `{!EthClient W} `{!RollupClient W} `{!HistoryDatabase W}.
Abbreviation BD := (option BatchBundleResponse * W)%type.
Context `{!TxManager BD} {own : (BD -> Prop) -> (BD -> BD -> Prop) -> Prop}.
Context `{!TxManagerLaws own}.
Context (cfg : BatcherConfig) (walletAddr : Address).

(** The response [resp] to a request for the continuation of a history *)
Definition bundle_for (answers : BatchBundleRequest -> BatchBundleResponse -> Prop)
    (resp : BatchBundleResponse) : Prop :=
  (exists history, answers
     (mkBatchBundleRequest (Ancestors history) (bcfg_MinL1TxSize cfg) (bcfg_MaxL1TxSize cfg)) resp) /\
  br_Bundle resp <> [] /\ br_LastL2BlockHash resp <> br_PrevL2BlockHash resp.
Definition last_block (resp : BatchBundleResponse) : BlockID :=
  mkBlockID (br_LastL2BlockHash resp) (br_LastL2BlockNum resp).
(** The transaction carries the bundle to the inbox, signed with the driver's key for its
    chain, and bids for two base fees. *)
Definition carries (tx : SignedTx) (resp : BatchBundleResponse) : Prop :=
  dt_To (tx_inner tx) = Some (bcfg_BatchInboxAddress cfg) /\ dt_Data (tx_inner tx) = br_Bundle resp /\
  dt_ChainID (tx_inner tx) = bcfg_ChainID cfg /\
  (exists raw, SignNewTx (bcfg_PrivKey cfg) (bcfg_ChainID cfg) raw = Ok tx) /\
  exists baseFee, dt_GasFeeCap (tx_inner tx) = dt_GasTipCap (tx_inner tx) + baseFee * 2.

(** A property [I] of the outside world that every call keeps, but for the publication of
    a transaction that carries no bundle or whose last block is not [recorded]: what has
    been recorded stays so, whatever the calls of the go-routines. *)
Context (I : W -> Prop) (recorded : BlockID -> W -> Prop).
Definition remembers (w w' : W) : Prop := forall id, recorded id w -> recorded id w'.
#[local] Instance remembers_PreOrder : PreOrder remembers.
Proof. split; [by intros w id|]. intros w1 w2 w3 H12 H23 id Hid. by apply H23, H12. Qed.
Context (answers : BatchBundleRequest -> BatchBundleResponse -> Prop).
Context (nonceAt : Address -> M (option BatchBundleResponse * W) uint64).
Context (Hload : preserves I LoadHistory).
Context (Hbundle : forall req, keeps I (rc_GetBatchBundle req)
  (fun r => forall resp, r = Some resp -> answers req resp)).
Context (Happend : forall id w, sound I remembers (db_AppendEntry id) (fun _ => recorded id) w).
Context (Htip : steps I remembers SuggestGasTipCap) (Hhead : forall n, steps I remembers (HeaderByNumber n)).
Context (Hnonce : forall a sw, I sw.2 -> I (nonceAt a sw).2.2 /\ (nonceAt a sw).2.1 = sw.1).
Context (Hsend : forall tx resp w, carries tx resp -> bundle_for answers resp ->
  recorded (last_block resp) w -> I w ->
  I (SendTransaction tx w).2 /\ remembers w (SendTransaction tx w).2).

Lemma call_preserves {S A} (J : S * W -> Prop) (c : M W A) :
  (forall s w, J (s, w) -> J (s, (c w).2)) -> preserves J (call c).
Proof. intros HJ [s w] Hw. unfold call. cbn. specialize (HJ s w Hw). by destruct (c w). Qed.

(** While the tick works on [resp] *)
Definition working (resp : BatchBundleResponse) : option BatchBundleResponse * W -> Prop :=
  fields_kept (fun s => s = Some resp) I.
Abbreviation moves := (world_moves (S:=option BatchBundleResponse) remembers).
Lemma working_call {A} resp (c : M W A) : preserves I c -> preserves (working resp) (call c).
Proof. intros Hc. apply call_preserves. intros s w [Hs Hw]. split; [done|by apply Hc]. Qed.
Lemma keeps_true {A S} (J : S -> Prop) (c : M S A) : preserves J c -> keeps J c (fun _ => True).
Proof. apply keeps_preserves. Qed.
Lemma currentBatch_keeps resp : keeps (working resp) currentBatch (fun b => b = resp).
Proof.
  intros [s w] [Hs Hw]. cbn in Hs. subst s. unfold currentBatch, get, mbind, M_bind. cbn.
  split; [done|]. by intros b [= ->].
Qed.
Lemma currentBatch_sound resp d : sound (working resp) moves (atomic currentBatch) (fun b _ => b = resp) d.
Proof. apply sound_keeps; [|apply currentBatch_keeps]. intros [s w] [Hs Hw]. cbn in Hs. subst s. by repeat split. Qed.
Hint Resolve working_call keeps_true steps_preserves : core.
Context (Hown : forall resp, own (working resp) moves).

Lemma sign_carries resp nonce to_ tip fee gas data tx :
  to_ = Some (bcfg_BatchInboxAddress cfg) -> data = br_Bundle resp ->
  (exists baseFee, fee = tip + baseFee * 2) ->
  SignNewTx (bcfg_PrivKey cfg) (bcfg_ChainID cfg)
    (mkDynamicFeeTx (bcfg_ChainID cfg) nonce to_ tip fee gas data) = Ok tx -> carries tx resp.
Proof.
  intros ? ? ? Ht. unfold carries. rewrite (SignNewTx_inner _ _ _ _ Ht).
  split_and!; try done. by eexists.
Qed.

Lemma CraftTx_keeps resp start end_ nonce :
  keeps (working resp) (Batcher_CraftTx cfg start end_ nonce) (fun tx => carries tx resp).
Proof.
  unfold Batcher_CraftTx. eapply keeps_bind; [by eauto|]. intros tip _.
  eapply keeps_bind; [by eauto|]. intros head _.
  eapply keeps_bind; [apply currentBatch_keeps|]. intros b ->.
  eapply keeps_bind; [apply keeps_true, preserves_lift|]. intros gas _.
  apply keeps_lift. intros tx E. eapply sign_carries; [done..| |exact E]. by exists (hdr_BaseFee head).
Qed.
Lemma UpdateGasPrice_sound resp tx d :
  carries tx resp ->
  sound (working resp) moves (Batcher_UpdateGasPrice cfg tx) (fun tx _ => carries tx resp) d.
Proof.
  intros (Ht & Hd & _). unfold Batcher_UpdateGasPrice.
  eapply sound_bind; [tc_solve|apply sound_steps, steps_call, Htip|]. intros tip d1 _ _.
  eapply sound_bind; [tc_solve|apply sound_steps, steps_call, Hhead|]. intros head d2 _ _.
  apply sound_lift. intros tx' E. eapply sign_carries; [done..| |exact E]. by exists (hdr_BaseFee head).
Qed.
(** The last block is recorded first, and still recorded when the transaction goes out. *)
Lemma SendTransaction_sound resp tx d :
  bundle_for answers resp -> carries tx resp ->
  sound (working resp) moves (Batcher_SendTransaction tx) (fun _ _ => True) d.
Proof.
  intros Hb Hc. unfold Batcher_SendTransaction.
  eapply sound_bind; [tc_solve|apply currentBatch_sound|]. intros batch d1 _ ->.
  eapply sound_bind; [tc_solve|apply sound_call, Happend|]. intros [] d2 _ Hr.
  intros [s w] [Es Hm] [Hs Hw]. cbn in Es, Hm, Hs, Hw. apply Hm in Hr. unfold call. cbn.
  destruct (Hsend tx resp w Hc Hb Hr Hw). destruct (SendTransaction tx w). by repeat split.
Qed.

Lemma GetBlockRange_spec s w :
  I w -> I (Batcher_GetBlockRange cfg (s, w)).2.2 /\
  forall start end_, (Batcher_GetBlockRange cfg (s, w)).1 = Ok (start, end_) -> start <> end_ ->
  exists resp, bundle_for answers resp /\ (Batcher_GetBlockRange cfg (s, w)).2.1 = Some resp.
Proof.
  intros Hw. unfold Batcher_GetBlockRange, modify, call, lift, mbind, M_bind. cbn.
  pose proof (Hload w Hw) as Hw1. destruct (LoadHistory w) as [[h|e| |] w1]; cbn in *; [|by split..].
  destruct (LatestID h) as [latest|e| |]; cbn; [|by split..].
  match goal with |- context [rc_GetBatchBundle ?r] => destruct (Hbundle r w1 Hw1) as [Hw2 Hr];
    destruct (rc_GetBatchBundle r w1) as [[[resp|]|e| |] w2] end; cbn in *;
    [|split; [done|]; by intros ? ? [= <- <-]|by split..].
  destruct (Z.eqb_spec (br_LastL2BlockHash resp) (br_PrevL2BlockHash resp)) as [|Hne].
  { split; [done|]. by intros ? ? [= <- <-]. }
  case_bool_decide as Hb.
  - pose proof (sound_run _ _ _ _ w2 (Happend (mkBlockID (br_LastL2BlockHash resp) (br_LastL2BlockNum resp)) w2) Hw2)
      as (Hw3 & _ & _).
    cbn [fst snd]. match goal with |- context [run ?m w2] => change (I (run m w2).2) in Hw3; 
      destruct (run m w2) as [[[]|e| |] w3] end; cbn in *;
      [split; [done|]; by intros ? ? [= <- <-]|by split..].
  - cbn. split; [done|]. intros ? ? _ _. exists resp. split; [|done]. split; [|by split].
    exists h. by apply (Hr (Some resp)).
Qed.

Lemma submit_keeps resp start end_ :
  bundle_for answers resp ->
  preserves (working resp) (@eventLoop_submit _ _ (BatcherDriver cfg walletAddr) _ nonceAt start end_).
Proof.
  intros Hb. apply (eventLoop_submit_preserves (ServiceDriver0 := BatcherDriver cfg walletAddr) nonceAt _ moves
    (fun tx => carries tx resp) (Hown resp)).
  - intros sw [Hs Hw]. destruct (Hnonce walletAddr sw Hw) as [? ?]. split; [by etrans|done].
  - intros tx d. apply UpdateGasPrice_sound.
  - intros tx d Htx. by apply SendTransaction_sound.
  - intros nonce. apply CraftTx_keeps.
Qed.

(** A tick of the batcher service: it hands to the L1 client only transactions to the
    batch inbox that carry a non-empty bundle the rollup node answered in this tick for the
    batcher's own history, and only after the history has recorded the last block of that
    bundle.  Any property that such publications keep, a tick keeps. *)
Lemma eventLoop_tick_publishes s w :
  I w -> I (@eventLoop_tick _ _ (BatcherDriver cfg walletAddr) _ nonceAt (s, w)).2.2.
Proof.
  intros Hw. destruct (GetBlockRange_spec s w Hw) as [Hw1 Hrange].
  unfold eventLoop_tick, mbind, M_bind, attempt.
  change (@GetBlockRange _ _ (BatcherDriver cfg walletAddr)) with (Batcher_GetBlockRange (W:=W) cfg).
  destruct (Batcher_GetBlockRange cfg (s, w)) as [[[start end_]|e| |] sw1]; try done.
  destruct (Z.eqb_spec start end_) as [|Hne]; [done|].
  destruct (Hrange start end_ eq_refl Hne) as (resp & Hb & Es).
  by apply (submit_keeps resp start end_ Hb sw1).
Qed.
End BatcherProofs.

(** ** What the proposer commits to *)
Section ProposerProofs.
Context `{Keccak} `{GethTypes} `{Signing} {W : Type} `{!EthClient W} `{!RollupClient W} `{!L2OutputOracle W}.
Context (PrivKey : SigningKey) (ChainID : bigInt) (l2HeaderByNumber : bigInt -> M W Header).

(** A crafted transaction commits to the output root, of the supported version, of the
    block before [end_], which the contract expects next and whose time is the expected
    timestamp, anchored at the latest L1 block. *)
Lemma Proposer_CraftTx_spec start end_ nonce w tx w' :
  Proposer_CraftTx PrivKey ChainID l2HeaderByNumber start end_ nonce w = (Ok tx, w') ->
  exists root timestamp l1 l2 w1 w2 w3 w4 w5,
    rc_OutputAtBlock (end_ - 1) w = (Ok [supportedL2OutputVersion; root], w1) /\
    NextTimestamp w1 = (Ok timestamp, w2) /\
    ComputeL2BlockNumber timestamp w2 = (Ok (end_ - 1), w3) /\
    HeaderByNumber None w3 = (Ok l1, w4) /\ l2HeaderByNumber (end_ - 1) w4 = (Ok l2, w5) /\
    hdr_Time l2 = wrap 64 timestamp /\
    AppendL2Output PrivKey ChainID nonce root timestamp (header_Hash l1) (hdr_Number l1) w5 = (Ok tx, w').
Proof.
  intros E. apply M_bind_ok in E as (root & w1 & Eo & E). apply M_bind_ok in Eo as (out & w0 & Eo & Er).
  destruct out as [|version [|root' [|]]]; try done.
  destruct (Z.eqb_spec version supportedL2OutputVersion) as [->|]; [|done].
  cbn in Er. injection Er as -> ->.
  apply M_bind_ok in E as (timestamp & w2 & Et & E). apply M_bind_ok in E as (n & w3 & En & E).
  destruct (Z.eqb_spec (end_ - 1) n) as [<-|]; [|done]. cbn [negb] in E.
  apply M_bind_ok in E as (l1 & w4 & E1 & E). apply M_err_ok in E1.
  apply M_bind_ok in E as (l2 & w5 & E2 & E). apply M_err_ok in E2.
  destruct (Z.eqb_spec (hdr_Time l2) (wrap 64 timestamp)); [|done]. cbn [negb] in E.
  exists root, timestamp, l1, l2, w1, w2, w3, w4, w5. by split_and!.
Qed.
(** The range ends one block after the contract's next output, or is empty before its
    time. *)
Lemma Proposer_GetBlockRange_spec w start end_ w' :
  Proposer_GetBlockRange w = (Ok (start, end_), w') ->
  end_ = start \/ exists timestamp w1 w2, NextTimestamp w1 = (Ok timestamp, w2) /\
    exists w3, ComputeL2BlockNumber timestamp w3 = (Ok (end_ - 1), w').
Proof.
  intros E. apply M_bind_ok in E as (ts & w1 & _ & E). apply M_bind_ok in E as (n & w2 & _ & E).
  apply M_bind_ok in E as (nts & w3 & En & E). apply M_bind_ok in E as (h & w4 & _ & E).
  cbv zeta in E. destruct (to_int64 (hdr_Time h) <? nts); [injection E as <- <- <-; by left|].
  apply M_bind_ok in E as (e & w5 & Ee & E). injection E as <- <- <-. right.
  exists nts, w2, w3. split; [done|]. exists w4. by rewrite Z.add_simpl_r.
Qed.
End ProposerProofs.

(** ** Signed transactions that are their fields *)
Definition ToySigning : Signing := {|
  SignedTx := DynamicFeeTx; SigningKey := unit; tx_inner := id;
  SignNewTx := fun _ _ raw => Ok raw; IntrinsicGas := fun data => Ok (21000 + 16 * zlen data) |}.
Lemma ToySigningLaws : @SigningLaws ToySigning.
Proof. split. by intros k id raw tx [= ->]. Qed.
