(* ===== verification/Sending.v ===== *)
(** * The transaction manager behind its interface

    op-proposer/txmgr/txmgr.go, [SimpleTxManager.Send] as the drivers call it: the step
    relation of TxMgr.v, its publishing go-routines calling the driver's two functions and
    the backend in the order of a schedule.  A call of one of the driver's functions takes
    a turn for each of its steps, so that the calls of several publishers interleave.  It
    implements the interface [TxManager] that Submitter.v relies on, for every schedule. *)

From S2P Require Import Prelude Types Threads Geth TxMgr Submitter.

(** [txmgr.Config], times in nanoseconds *)
Record TxMgrConfig := mkTxMgrConfig {
  tm_Name : string;
  tm_ResubmissionTimeout : Z;
  tm_ReceiptQueryInterval : Z;
  tm_NumConfirmations : uint64;
  tm_SafeAbortNonceTooLowCount : uint64;
}.

(** [ReceiptSource], what it uses of the L1 client; no receipt and no error for a
    transaction that is not found. *)
Class ReceiptSource (D : Type) := {
  BlockNumber : M D uint64;
  TransactionReceipt : Hash -> M D (option Receipt);
}.

(** What the Go scheduler and the timers decide: which publisher goes on, or which event
    of the main go-routine is next. *)
Inductive choice :=
  | ChPublisher (i : nat)
  | ChQueryDone (i : nat)        (* the context's Done rather than the ticker *)
  | ChMain (ev : send_event).

Section Sending.
Context `{Signing} {D : Type} `{!ReceiptSource D}.
Context (txHash : SignedTx -> Hash) (ErrNonceTooLow_text : string) (cfg : TxMgrConfig).
Context (updateGasPrice : Co D SignedTx) (sendTx : SignedTx -> Co D unit).

(** What is left of the call that a publisher is in *)
Inductive running :=
  | Updating (c : Co D SignedTx)
  | Publishing (c : Co D unit).
(** The go-routines, the transactions the publishers hold and the calls they are in *)
Record sending := mkSending {
  sg_state : send_state;
  sg_txs : gmap nat SignedTx;
  sg_calls : gmap nat running;
}.
Definition with_tx (i : nat) (tx : SignedTx) (s : sending) : sending :=
  mkSending (sg_state s) (<[i := tx]> (sg_txs s)) (sg_calls s).
Definition with_call (i : nat) (c : running) (s : sending) : sending :=
  mkSending (sg_state s) (sg_txs s) (<[i := c]> (sg_calls s)).
(** The call that publisher [i] is in, or is about to make *)
Definition updating (i : nat) (s : sending) : Co D SignedTx :=
  match sg_calls s !! i with Some (Updating c) => c | _ => updateGasPrice end.
Definition publishing (i : nat) (tx : SignedTx) (s : sending) : Co D unit :=
  match sg_calls s !! i with Some (Publishing c) => c | _ => sendTx tx end.

(** The next step of publisher [i], with the call that it makes: one within a function of
    the driver has no event in TxMgr.v; its return has. *)
Definition publisher_call (i : nat) (s : sending) : M D (option send_event * sending) :=
  match sd_publishers (sg_state s) !! i with
  | Some PUpdating =>
      match updating i s with
      | CoRet r =>
          tx ← attempt (lift r);
          mret match tx with
               | inl _ => (Some (EvUpdateGasPrice i None), s)
               | inr tx => (Some (EvUpdateGasPrice i (Some (txHash tx))), with_tx i tx s)
               end
      | c => c ← co_step c; mret (None, with_call i (Updating c) s)
      end
  | Some (PSending _) =>
      match sg_txs s !! i with
      | Some tx =>
          match publishing i tx s with
          | CoRet r =>
              err ← attempt (lift r);
              mret (Some (EvSendTx i (match err with inl e => Some e | inr _ => None end)), s)
          | c => c ← co_step c; mret (None, with_call i (Publishing c) s)
          end
      | None => mret (None, s)
      end
  | Some PFailed => mret (Some (EvCheckAbort i), s)
  | Some (PWaiting h) =>
      receipt ← attempt (TransactionReceipt h);
      mret (Some (match receipt with
                  | inl _ => EvTransactionReceipt i None true
                  | inr receipt => EvTransactionReceipt i receipt false
                  end), s)
  | Some (PMined _ _ _) =>
      tipHeight ← attempt BlockNumber;
      mret (Some (EvBlockNumber i (match tipHeight with inl _ => None | inr n => Some n end)), s)
  | Some (PPolling _) => mret (Some (EvQueryTick i), s)
  | Some (PConfirmed _) => mret (Some (EvReport i), s)
  | Some PDone | None => mret (None, s)
  end.

Definition choose (c : choice) (s : sending) : M D (option send_event * sending) :=
  match c with
  | ChPublisher i => publisher_call i s
  | ChQueryDone i => mret (Some (EvQueryDone i), s)
  | ChMain ev => mret (match event_publisher ev with None => Some ev | Some _ => None end, s)
  end.

(** The main go-routine has returned, or the program has crashed. *)
Definition send_outcome (s : send_state) : option (res Receipt) :=
  match sd_main s with
  | SReturned (Some receipt) => Some (Ok receipt)
  | SReturned None => Some (Err ECanceled)
  | SCrashed => Some Panic
  | _ => None
  end.

(** A choice that is not enabled changes nothing; without choices left it still waits. *)
Fixpoint send_schedule (cs : list choice) (s : sending) : M D Receipt :=
  match send_outcome (sg_state s) with
  | Some r => lift r
  | None =>
      match cs with
      | [] => lift OutOfFuel
      | c :: cs =>
          '(ev, s1) ← choose c s;
          match ev with
          | Some ev =>
              match send_step ErrNonceTooLow_text (tm_NumConfirmations cfg) ev (sg_state s) with
              | Some s' => send_schedule cs (mkSending s' (sg_txs s1) (sg_calls s1))
              | None => send_schedule cs s
              end
          | None => send_schedule cs s1
          end
      end
  end.

(** [SimpleTxManager.Send] *)
Definition SimpleTxManager_Send (schedule : D -> list choice) : M D Receipt := fun d =>
  (sendState ← lift (NewSendState (tm_SafeAbortNonceTooLowCount cfg));
   send_schedule (schedule d) (mkSending (Send_start sendState) ∅ ∅)) d.
End Sending.

(** ** It implements the interface *)
Section Implements.
Context `{Signing} {D : Type} `{!ReceiptSource D}.
Context (txHash : SignedTx -> Hash) (ErrNonceTooLow_text : string) (cfg : TxMgrConfig).
Context (schedule : D -> list choice).

Definition SimpleTxManager : TxManager D := {|
  Send := fun update send => SimpleTxManager_Send txHash ErrNonceTooLow_text cfg update send schedule;
|}.

Section Run.
Context (I : D -> Prop) (G : D -> D -> Prop) `{!PreOrder G} (Q : SignedTx -> Prop).
Context (update : Co D SignedTx) (send : SignedTx -> Co D unit).
Context (Hupdate : forall d, sound I G update (fun tx _ => Q tx) d).
Context (Hsend : forall tx d, Q tx -> sound I G (send tx) (fun _ _ => True) d).
Context (Hblock : steps I G BlockNumber) (Hreceipt : forall h, steps I G (TransactionReceipt h)).

(** The transactions held are good, and so is what is left of the calls, whatever the
    other publishers do. *)
Definition call_ok (d : D) (c : running) : Prop :=
  match c with
  | Updating c => sound I G c (fun tx _ => Q tx) d
  | Publishing c => sound I G c (fun _ _ => True) d
  end.
Definition holds_ok (s : sending) (d : D) : Prop :=
  map_Forall (fun _ tx => Q tx) (sg_txs s) /\ map_Forall (fun _ => call_ok d) (sg_calls s).

Lemma holds_later s d d' : G d d' -> holds_ok s d -> holds_ok s d'.
Proof.
  intros Hd [Htx Hc]. split; [done|]. intros i c Hi. specialize (Hc i c Hi).
  destruct c; cbn in *; (eapply sound_later; [tc_solve| |exact Hd|exact Hc]); apply stable_pure.
Qed.
Lemma updating_ok i s d : holds_ok s d -> sound I G (updating update i s) (fun tx _ => Q tx) d.
Proof.
  intros [_ Hc]. unfold updating. destruct (sg_calls s !! i) as [[c|c]|] eqn:E; try apply Hupdate.
  exact (Hc i _ E).
Qed.
Lemma publishing_ok i tx s d : holds_ok s d -> Q tx -> sound I G (publishing send i tx s) (fun _ _ => True) d.
Proof.
  intros [_ Hc] Htx. unfold publishing.
  destruct (sg_calls s !! i) as [[c|c]|] eqn:E; [by apply Hsend| |by apply Hsend]. exact (Hc i _ E).
Qed.
Lemma with_call_ok i c s d : holds_ok s d -> call_ok d c -> holds_ok (with_call i c s) d.
Proof. intros [? ?] ?. split; [done|]. by apply map_Forall_insert_2. Qed.
Lemma with_tx_ok i tx s d : holds_ok s d -> Q tx -> holds_ok (with_tx i tx s) d.
Proof. intros [? ?] ?. split; [by apply map_Forall_insert_2|done]. Qed.

Definition choice_ok (d : D) (p : res (option send_event * sending) * D) : Prop :=
  I p.2 /\ G d p.2 /\ forall ev s, p.1 = Ok (ev, s) -> holds_ok s p.2.
Lemma choice_ok_same s d ev : I d -> holds_ok s d -> choice_ok d (Ok (ev, s), d).
Proof. intros ? ?. split; [done|]. split; [done|]. by intros ? ? [= _ <-]. Qed.
Lemma choice_ok_crash r d : I d -> returns r = false -> choice_ok d (r, d).
Proof. intros ? ?. split; [done|]. split; [done|]. intros ? ? E. cbn in E. by subst r. Qed.
(** A query of the backend, whose answer is only the event *)
Lemma query_ok {B} (c : M D B) (f : error + B -> send_event) s d :
  steps I G c -> I d -> holds_ok s d -> choice_ok d ((r ← attempt c; mret (Some (f r), s)) d).
Proof.
  intros Hc Hd Hs. unfold mbind, M_bind, attempt. destruct (Hc d Hd) as [Hd' HG].
  destruct (c d) as [[r|e| |] d']; cbn in *; split_and!; try done; intros ? ? [= _ <-]; by eapply holds_later.
Qed.
(** A step of a driver's function *)
Lemma running_ok {B} (c : Co D B) R (f : Co D B -> running) i s d :
  (forall c d', sound I G c R d' -> call_ok d' (f c)) ->
  sound I G c R d -> I d -> holds_ok s d ->
  choice_ok d ((c' ← co_step c; mret (None, with_call i (f c') s)) d).
Proof.
  intros Hf Hc Hd Hs. destruct (sound_step I G c R d Hc Hd) as (c' & d' & E & Hd' & HG & Hc').
  unfold mbind, M_bind. rewrite E. split; [done|]. split; [done|]. intros ? ? [= _ <-].
  apply with_call_ok; [by eapply holds_later|]. by apply Hf.
Qed.
Lemma choose_ok c s d : I d -> holds_ok s d -> choice_ok d (choose txHash update send c s d).
Proof.
  intros Hd Hs. destruct c as [i|i|ev]; cbn [choose]; try by apply choice_ok_same.
  unfold publisher_call. destruct (_ !! i) as [[]|]; try by apply choice_ok_same; try by apply query_ok.
  - pose proof (updating_ok i s d Hs) as Hu.
    destruct (updating update i s) as [r|B c k]; [|by eapply (running_ok (CoCall c k) _ Updating)].
    destruct r as [tx|e| |]; cbn; try by first [apply choice_ok_same|apply choice_ok_crash].
    apply choice_ok_same; [done|]. apply with_tx_ok; [done|]. by apply Hu.
  - destruct (sg_txs s !! i) as [stx|] eqn:Etx; [|by apply choice_ok_same].
    pose proof (publishing_ok i stx s d Hs (proj1 Hs i stx Etx)) as Hp.
    destruct (publishing send i stx s) as [r|B c k]; [|by eapply (running_ok (CoCall c k) _ Publishing)].
    destruct r; cbn; by first [apply choice_ok_same|apply choice_ok_crash].
  - by apply query_ok.
  - by apply query_ok.
Qed.
Lemma send_schedule_preserves cs s d :
  I d -> holds_ok s d -> I (send_schedule txHash ErrNonceTooLow_text cfg update send cs s d).2.
Proof.
  revert s d. induction cs as [|c cs IH]; intros s d Hd Hs; cbn [send_schedule];
    (destruct (send_outcome (sg_state s)); [done|]); [done|].
  unfold mbind, M_bind. destruct (choose_ok c s d Hd Hs) as (Hd' & HG & Hn).
  destruct (choose _ _ _ c s d) as [[[[ev|] s1]|e| |] d']; cbn in *; try done; [|by apply IH; [|eapply Hn]].
  destruct (send_step _ _ _ _); apply IH; try done; [by apply (Hn _ _ eq_refl)|by eapply holds_later].
Qed.
End Run.

(** The steps that the queries of the backend are *)
Definition backend_steps (I : D -> Prop) (G : D -> D -> Prop) : Prop :=
  steps I G BlockNumber /\ forall h, steps I G (TransactionReceipt h).
Lemma SimpleTxManager_laws : TxManagerLaws (H0 := SimpleTxManager) backend_steps.
Proof.
  split. intros I G Q update send HG [Hb Hr] Hu Hs d Hd. cbn. unfold SimpleTxManager_Send, mbind, M_bind, lift.
  destruct (NewSendState _) as [ss|e| |]; try exact Hd.
  eapply send_schedule_preserves; done.
Qed.

(** An error of a call is not the manager's, and a turn leaves the state of TxMgr.v to the
    event that it is. *)
Definition turn_ok (s : sending (D := D)) (r : res (option send_event * sending (D := D))) : Prop :=
  match r with
  | Ok (_, s1) => sg_state s1 = sg_state s
  | Err _ => False
  | _ => True
  end.
Lemma attempt_turn {B} (c : M D B) f s d :
  (forall r, sg_state (f r).2 = sg_state s) -> turn_ok s ((r ← attempt c; mret (f r)) d).1.
Proof.
  intros Hf. unfold mbind, M_bind, attempt. destruct (c d) as [[a|e| |] d']; cbn; try done.
  - specialize (Hf (inr a)). by destruct (f _).
  - specialize (Hf (inl e)). by destruct (f _).
Qed.
Lemma step_turn {B} (c : Co D B) f s d :
  (forall c', sg_state (f c') = sg_state s) -> turn_ok s ((c' ← co_step c; mret (None, f c')) d).1.
Proof.
  intros Hf. unfold mbind, M_bind, co_step. destruct c as [r|X c k]; cbn; [apply Hf|].
  destruct (c d). cbn. apply Hf.
Qed.
Lemma choose_turn update send c s d : turn_ok s (choose txHash update send c s d).1.
Proof.
  destruct c as [i|i|ev]; try done. cbn [choose]. unfold publisher_call.
  destruct (_ !! i) as [[]|]; try done.
  - destruct (updating update i s); [apply attempt_turn; by intros []|by apply step_turn].
  - destruct (sg_txs s !! i); [|done].
    destruct (publishing send i _ s); [apply attempt_turn; by intros []|by apply step_turn].
  - by apply attempt_turn.
  - by apply attempt_turn.
Qed.

(** What [Send] returns it returns at the end of a run of the step relation: a receipt is
    confirmed, an error means that the publication was called off. *)
Lemma send_schedule_reachable update send ss cs s tr d r d' :
  send_reachable ErrNonceTooLow_text (tm_NumConfirmations cfg) ss tr (sg_state s) ->
  send_schedule txHash ErrNonceTooLow_text cfg update send cs s d = (r, d') -> returns r = true ->
  exists tr' s', send_reachable ErrNonceTooLow_text (tm_NumConfirmations cfg) ss tr' s' /\
    sd_main s' = SReturned (match r with Ok receipt => Some receipt | _ => None end).
Proof.
  revert s tr d. induction cs as [|c cs IH]; intros s tr d Hr E Hret; cbn [send_schedule] in E;
    (destruct (send_outcome (sg_state s)) as [o|] eqn:Eo;
      [injection E as -> <-; exists tr, (sg_state s); split; [done|];
       unfold send_outcome in Eo; destruct (sd_main (sg_state s)) as [|?|[]|]; try done;
       injection Eo as <-; done|]).
  { by injection E as <- <-. }
  pose proof (choose_turn update send c s d) as Ht. unfold mbind, M_bind in E.
  destruct (choose _ _ _ c s d) as [[[[ev|] s1]|e| |] d1]; cbn in Ht; try done.
  - destruct (send_step _ _ ev (sg_state s)) as [s'|] eqn:Es; [|by eapply IH].
    eapply (IH (mkSending s' _ _)); [by eapply send_reach_step|done..].
  - eapply (IH s1); [by rewrite Ht|done..].
  - by injection E as <- _.
  - by injection E as <- _.
Qed.
End Implements.
