(* ===== verification/Discovery.v ===== *)
(** * Peer discovery

    op-node/p2p/discovery.go: the record by which nodes of one rollup find each other, and
    which peers are dialled. *)

From S2P Require Import Prelude Types Batches.

(** ** encoding/binary *)
Definition MaxVarintLen64 : nat := 10.

(** [PutUvarint]: the bytes written; ten suffice for 64 bits. *)
Fixpoint PutUvarint (fuel : nat) (x : uint64) : list byte :=
  match fuel with
  | O => []
  | S fuel =>
      if 0x80 <=? x then z2b (Z.lor x 0x80) :: PutUvarint fuel (Z.shiftr x 7) else [z2b x]
  end.

(** [ReadUvarint] at byte [i] of at most [MaxVarintLen64]: the value and the bytes left *)
Fixpoint ReadUvarint (fuel : nat) (i : Z) (x : uint64) (s : Z) (r : list byte) : res (uint64 * list byte) :=
  match fuel with
  | O => Err (EMsg "binary: varint overflows a 64-bit integer")
  | S fuel =>
      match r with
      | [] => Err (EMsg (if 0 <? i then "unexpected EOF" else "EOF"))
      | b :: r =>
          if b2z b <? 0x80 then
            if (i =? Z.of_nat MaxVarintLen64 - 1) && (1 <? b2z b)
            then Err (EMsg "binary: varint overflows a 64-bit integer")
            else Ok (Z.lor x (wrap 64 (Z.shiftl (b2z b) s)), r)
          else
            ReadUvarint fuel (i + 1) (Z.lor x (wrap 64 (Z.shiftl (Z.land (b2z b) 0x7f) s))) (s + 7) r
      end
  end.

(** ** discovery.go *)
Record OptimismENRData := mkOptimismENRData {
  od_chainID : uint64;
  od_version : uint64;
}.
Definition ENRKey : string := "optimism".
(** The entries of a node record *)
Abbreviation enode := (gmap string (list byte)).

Section ENR.
Context `{RLP}.

(** [OptimismENRData.EncodeRLP] *)
Definition ENR_EncodeRLP (o : OptimismENRData) : res (list byte) :=
  let out := replicate (2 * MaxVarintLen64) x00 in
  let chainID := PutUvarint MaxVarintLen64 (od_chainID o) in
  out ← blit out 0 (zlen out) chainID;
  let offset := zlen chainID in
  let version := PutUvarint MaxVarintLen64 (od_version o) in
  out ← blit out offset (zlen out) version;
  let offset := offset + zlen version in
  out ← slice out 0 offset;
  Ok (rlp_bytes out).

(** [OptimismENRData.DecodeRLP] *)
Definition ENR_DecodeRLP (s : list byte) : res OptimismENRData :=
  b ← map_err (wrapv "failed to decode outer ENR entry: ") (rlp_s_Bytes s);
  '(chainID, r) ← map_err (wrapv "failed to read chain ID var int: ") (ReadUvarint MaxVarintLen64 0 0 0 b);
  '(version, _) ← map_err (wrapv "failed to read version var int: ") (ReadUvarint MaxVarintLen64 0 0 0 r);
  Ok (mkOptimismENRData chainID version).

(** [Load] finds the entry of a key and decodes it. *)
Definition Load (node : enode) : res OptimismENRData :=
  match node !! ENRKey with
  | None => Err ENotFound
  | Some v => ENR_DecodeRLP v
  end.
(** [localNode.Set(&dat)] *)
Definition Set_ENR (dat : OptimismENRData) (node : enode) : res enode :=
  v ← ENR_EncodeRLP dat; Ok (<[ENRKey := v]> node).

Definition FilterEnodes (cfg : Config) (node : enode) : bool :=
  match Load node with
  | Ok dat =>
      if negb (wrap 64 (cfg_L2ChainID cfg) =? od_chainID dat) then false
      else od_version dat =? 0
  | _ => false
  end.

(** The entry that [Config.Discovery] and [Prepared.Discovery] put in the local record *)
Definition Discovery_entry (rollupCfg : Config) : OptimismENRData :=
  mkOptimismENRData (wrap 64 (cfg_L2ChainID rollupCfg)) 0.
End ENR.

(** The TCP port of the record: the advertised one, the one the host is bound to, or the
    configured one *)
Definition Discovery_tcp (AdvertiseTCPPort tcpPort ListenTCPPort : Z) : res Z :=
  if negb (AdvertiseTCPPort =? 0) then Ok AdvertiseTCPPort
  else if negb (tcpPort =? 0) then Ok tcpPort
  else if negb (ListenTCPPort =? 0) then Ok ListenTCPPort
  else Err (EMsg "no TCP port to put in discovery record").

(** ** [DiscoveryProcess]

    Its go-routines: the main loop, the buffering of nodes found by walking the table, the
    kick-off with the known nodes, and the dialling workers.  They share two channels, which
    the main loop closes when it ends. *)
Section Discovery.
Context `{RLP}.
(** The configuration, our own peer id, the number of connections wanted, and the peer and
    addresses that a record stands for ([enrToAddrInfo]) *)
Context (cfg : Config) (self : Z) (connectGoal : uint64) (enrToAddrInfo : enode -> res (Z * list string)).

Definition connectionBufferSize : Z := 10.
Definition discoveredNodesBuffer : Z := 3.

(** A scheduled dial, with the connections at the tick that scheduled it *)
Record dial := mkDial { dl_peer : Z; dl_connected : list Z }.

Inductive main_pc :=
  | MainSelect
  | MainLoop (existing : list Z) (peers : list Z)   (* in [peerLoop] *)
  | MainSend (d : dial) (peers : list Z)            (* about to schedule *)
  | MainEnd.
Inductive buf_pc := BufSelect | BufSend (found : enode) | BufEnd.
Inductive kick_pc := KickWait | KickLoop (recs : list enode) | KickSend (rec : enode) (recs : list enode) | KickEnd.
Record disc := mkDisc {
  di_main : main_pc;
  di_buf : buf_pc;
  di_kick : kick_pc;
  di_connAttempts : list dial;
  di_randomNodes : list enode;
  di_closed : bool;                     (* the channels are closed *)
  di_cancelled : bool;                  (* the context is *)
  di_fast : bool;                       (* the tickers' interval *)
  di_known : list (Z * list string);    (* what was added to the peerstore *)
  di_dialled : list dial;
  di_panicked : bool;
}.
Definition disc0 : disc := mkDisc MainSelect BufSelect KickWait [] [] false false true [] [] false.

Definition set_main m d := mkDisc m (di_buf d) (di_kick d) (di_connAttempts d) (di_randomNodes d) (di_closed d) (di_cancelled d) (di_fast d) (di_known d) (di_dialled d) (di_panicked d).
Definition set_buf b d := mkDisc (di_main d) b (di_kick d) (di_connAttempts d) (di_randomNodes d) (di_closed d) (di_cancelled d) (di_fast d) (di_known d) (di_dialled d) (di_panicked d).
Definition set_kick k d := mkDisc (di_main d) (di_buf d) k (di_connAttempts d) (di_randomNodes d) (di_closed d) (di_cancelled d) (di_fast d) (di_known d) (di_dialled d) (di_panicked d).
Definition set_attempts l d := mkDisc (di_main d) (di_buf d) (di_kick d) l (di_randomNodes d) (di_closed d) (di_cancelled d) (di_fast d) (di_known d) (di_dialled d) (di_panicked d).
Definition set_nodes l d := mkDisc (di_main d) (di_buf d) (di_kick d) (di_connAttempts d) l (di_closed d) (di_cancelled d) (di_fast d) (di_known d) (di_dialled d) (di_panicked d).
Definition set_fast b d := mkDisc (di_main d) (di_buf d) (di_kick d) (di_connAttempts d) (di_randomNodes d) (di_closed d) (di_cancelled d) b (di_known d) (di_dialled d) (di_panicked d).
Definition add_known k d := mkDisc (di_main d) (di_buf d) (di_kick d) (di_connAttempts d) (di_randomNodes d) (di_closed d) (di_cancelled d) (di_fast d) (di_known d ++ [k]) (di_dialled d) (di_panicked d).
Definition add_dialled x d := mkDisc (di_main d) (di_buf d) (di_kick d) (di_connAttempts d) (di_randomNodes d) (di_closed d) (di_cancelled d) (di_fast d) (di_known d) (di_dialled d ++ [x]) (di_panicked d).
Definition end_main d := mkDisc MainEnd (di_buf d) (di_kick d) (di_connAttempts d) (di_randomNodes d) true (di_cancelled d) (di_fast d) (di_known d) (di_dialled d) (di_panicked d).
Definition cancel_disc d := mkDisc (di_main d) (di_buf d) (di_kick d) (di_connAttempts d) (di_randomNodes d) (di_closed d) true (di_fast d) (di_known d) (di_dialled d) (di_panicked d).
Definition panic_disc d := mkDisc (di_main d) (di_buf d) (di_kick d) (di_connAttempts d) (di_randomNodes d) (di_closed d) (di_cancelled d) (di_fast d) (di_known d) (di_dialled d) true.

(** Sending a node: a full channel blocks, a closed one panics. *)
Definition send_node (rec : enode) (next : disc -> disc) (d : disc) : option disc :=
  if di_closed d then Some (panic_disc d)
  else if zlen (di_randomNodes d) <? discoveredNodesBuffer
  then Some (next (set_nodes (di_randomNodes d ++ [rec]) d))
  else None.

Inductive disc_event :=
  | Cancel
  | BufTick (found : option enode)      (* the next node of the walk, if it goes on *)
  | BufSent | BufDone
  | KickStart (recs : list enode)
  | KickNext | KickSent | KickDone
  | MainDone
  | MainFound
  | MainTick (connected : list Z) (peersWithAddrs : option (list Z))   (* shuffled, or the shuffle's error *)
  | MainNext (cannotConnect : bool)
  | MainSent | MainTimeout
  | Worker.

(** One step; [None] when it is not enabled.  [randomNodeIter] yields records that pass the
    filter. *)
Definition disc_step (ev : disc_event) (d : disc) : option disc :=
  if di_panicked d then None else
  match ev with
  | Cancel => Some (cancel_disc d)
  | BufTick found =>
      match di_buf d, found with
      | BufSelect, None => Some (set_buf BufEnd d)
      | BufSelect, Some rec => if FilterEnodes cfg rec then Some (set_buf (BufSend rec) d) else None
      | _, _ => None
      end
  | BufSent =>
      match di_buf d with BufSend rec => send_node rec (set_buf BufSelect) d | _ => None end
  | BufDone =>
      match di_buf d with
      | BufEnd => None
      | _ => if di_cancelled d then Some (set_buf BufEnd d) else None
      end
  | KickStart recs =>
      match di_kick d with KickWait => Some (set_kick (KickLoop recs) d) | _ => None end
  | KickNext =>
      match di_kick d with
      | KickLoop [] => Some (set_kick KickEnd d)
      | KickLoop (rec :: recs) =>
          Some (set_kick (if FilterEnodes cfg rec then KickSend rec recs else KickLoop recs) d)
      | _ => None
      end
  | KickSent =>
      match di_kick d with
      | KickSend rec recs => send_node rec (set_kick (KickLoop recs)) d
      | _ => None
      end
  | KickDone =>
      match di_kick d with
      | KickSend _ _ => if di_cancelled d then Some (set_kick KickEnd d) else None
      | _ => None
      end
  | MainDone =>
      match di_main d with
      | MainSelect => if di_cancelled d then Some (end_main d) else None
      | _ => None
      end
  | MainFound =>
      match di_main d, di_randomNodes d with
      | MainSelect, found :: rest =>
          let d := set_nodes rest d in
          match Load found with
          | Ok _ => match enrToAddrInfo found with Ok info => Some (add_known info d) | _ => Some d end
          | _ => Some d
          end
      | _, _ => None
      end
  | MainTick connected peersWithAddrs =>
      match di_main d with
      | MainSelect =>
          if zlen connected <? connectGoal then
            let d := set_fast true d in
            match peersWithAddrs with
            | None => Some d
            | Some peers => Some (set_main (MainLoop connected peers) d)
            end
          else Some (set_fast false d)
      | _ => None
      end
  | MainNext cannotConnect =>
      match di_main d with
      | MainLoop existing [] => Some (set_main MainSelect d)
      | MainLoop existing (id :: peers) =>
          if self =? id then Some (set_main (MainLoop existing peers) d)
          else if bool_decide (id ∈ existing) then Some (set_main (MainLoop existing peers) d)
          else if cannotConnect then Some (set_main (MainLoop existing peers) d)
          else Some (set_main (MainSend (mkDial id existing) peers) d)
      | _ => None
      end
  | MainSent =>
      match di_main d with
      | MainSend x peers =>
          if zlen (di_connAttempts d) <? connectionBufferSize
          then Some (set_main (MainLoop (dl_connected x) peers) (set_attempts (di_connAttempts d ++ [x]) d))
          else None
      | _ => None
      end
  | MainTimeout =>
      match di_main d with
      | MainSend _ _ => Some (set_main MainSelect d)
      | _ => None
      end
  | Worker =>
      match di_connAttempts d with
      | x :: rest => Some (add_dialled x (set_attempts rest d))
      | [] => None
      end
  end.
Fixpoint disc_run (evs : list disc_event) (d : disc) : option disc :=
  match evs with
  | [] => Some d
  | ev :: evs => d ← disc_step ev d; disc_run evs d
  end.
End Discovery.

(** ** Varints *)
Lemma land_lor_low x : Z.land ((Z.lor x 0x80) mod 256) 0x7f = Z.land x 0x7f.
Proof.
  change 256 with (2 ^ 8). rewrite <-Z.land_ones by lia. change 0x7f with (Z.ones 7).
  apply Z.bits_inj'. intros n Hn. rewrite !Z.land_spec, Z.lor_spec.
  destruct (Z.lt_ge_cases n 7) as [Hlt|Hge].
  - rewrite !Z.ones_spec_low by lia. change 0x80 with (2 ^ 7).
    rewrite Z.pow2_bits_false by lia. by rewrite orb_false_r, !andb_true_r.
  - rewrite (Z.ones_spec_high 7) by lia. by rewrite !andb_false_r.
Qed.
Lemma lor_high x : 0x80 <= (Z.lor x 0x80) mod 256.
Proof.
  pose proof (Z.mod_pos_bound (Z.lor x 0x80) 256 ltac:(lia)) as Hb.
  destruct (Z.lt_ge_cases ((Z.lor x 0x80) mod 256) 0x80) as [Hlt|]; [|done].
  assert (Hbit : Z.testbit ((Z.lor x 0x80) mod 256) 7 = true).
  { change 256 with (2 ^ 8). rewrite Z.mod_pow2_bits_low by lia. rewrite Z.lor_spec. apply orb_true_r. }
  rewrite <-(Z.mod_small ((Z.lor x 0x80) mod 256) (2 ^ 7)) in Hbit by lia.
  by rewrite Z.mod_pow2_bits_high in Hbit by lia.
Qed.
Lemma shiftl_split x s :
  0 <= s -> Z.lor (Z.shiftl (Z.land x 0x7f) s) (Z.shiftl (Z.shiftr x 7) (s + 7)) = Z.shiftl x s.
Proof.
  intros Hs. change 0x7f with (Z.ones 7). apply Z.bits_inj'. intros n Hn.
  rewrite Z.lor_spec. rewrite !Z.shiftl_spec by done. rewrite Z.land_spec.
  destruct (Z.lt_ge_cases (n - s) 0) as [H0|H0].
  { rewrite !(Z.testbit_neg_r _ (n - s)) by done. by rewrite (Z.testbit_neg_r _ (n - (s + 7))) by lia. }
  destruct (Z.lt_ge_cases (n - s) 7) as [H7|H7].
  - rewrite Z.ones_spec_low, andb_true_r by lia. by rewrite (Z.testbit_neg_r _ (n - (s + 7))), orb_false_r by lia.
  - rewrite (Z.ones_spec_high 7), andb_false_r by lia. rewrite Z.shiftr_spec by lia.
    cbn [orb]. f_equal. lia.
Qed.
Lemma shiftl_small x s : 0 <= s -> 0 <= x -> x * 2 ^ s < 2 ^ 64 -> wrap 64 (Z.shiftl x s) = Z.shiftl x s.
Proof. intros. apply wrap_small. unfold in_range. rewrite Z.shiftl_mul_pow2 by done. nia. Qed.

Lemma ReadUvarint_Put fuel i x acc s rest :
  Z.of_nat fuel + i = Z.of_nat MaxVarintLen64 -> s = 7 * i -> 0 <= i -> (0 < fuel)%nat ->
  0 <= x -> x * 2 ^ s < 2 ^ 64 ->
  ReadUvarint fuel i acc s (PutUvarint fuel x ++ rest) = Ok (Z.lor acc (Z.shiftl x s), rest).
Proof.
  revert i x acc s. induction fuel as [|fuel IH]; intros i x acc s Hi Hs Hi0 Hf Hx Hb; [lia|].
  assert (Hs0 : 0 <= s) by lia. pose proof (Z.pow_pos_nonneg 2 s ltac:(lia) Hs0) as Hp.
  cbn [PutUvarint]. destruct (Z.leb_spec 0x80 x) as [Hge|Hlt]; cbn [app ReadUvarint]; rewrite b2z_z2b.
  - rewrite (proj2 (Z.ltb_ge _ _)) by apply lor_high. rewrite land_lor_low.
    assert (Hlow : 0 <= Z.land x 0x7f <= x).
    { change 0x7f with (Z.ones 7). rewrite Z.land_ones by lia.
      pose proof (Z.mod_pos_bound x (2 ^ 7) ltac:(lia)). pose proof (Z.mod_le x (2 ^ 7) Hx ltac:(lia)). lia. }
    rewrite shiftl_small by (lia || nia).
    assert (Hshr : Z.shiftr x 7 * 2 ^ 7 <= x).
    { rewrite Z.shiftr_div_pow2 by lia. pose proof (Z.mul_div_le x (2 ^ 7) ltac:(lia)). lia. }
    assert (Hshr0 : 1 <= Z.shiftr x 7) by (rewrite Z.shiftr_div_pow2 by lia; apply Z.div_le_lower_bound; lia).
    assert (Hmore : (0 < fuel)%nat).
    { destruct fuel; [|lia]. assert (s = 63) as -> by (unfold MaxVarintLen64 in Hi; lia). lia. }
    rewrite IH; [|lia|lia|lia|done|lia|rewrite Z.pow_add_r by lia; nia].
    by rewrite <-Z.lor_assoc, shiftl_split.
  - rewrite Z.mod_small by lia. rewrite (proj2 (Z.ltb_lt _ _)) by done.
    replace ((i =? _) && (1 <? x)) with false.
    + by rewrite shiftl_small by lia.
    + symmetry. apply andb_false_iff. destruct (Z.eqb_spec i (Z.of_nat MaxVarintLen64 - 1)) as [->|]; [right|by left].
      apply Z.ltb_ge. assert (s = 63) as -> by (unfold MaxVarintLen64 in Hs; lia). lia.
Qed.
Lemma ReadUvarint_roundtrip x rest :
  in_range 64 x -> ReadUvarint MaxVarintLen64 0 0 0 (PutUvarint MaxVarintLen64 x ++ rest) = Ok (x, rest).
Proof.
  intros [? ?]. rewrite ReadUvarint_Put by (unfold MaxVarintLen64; lia).
  by rewrite Z.lor_0_l, Z.shiftl_0_r.
Qed.
Lemma PutUvarint_length fuel x : (length (PutUvarint fuel x) <= fuel)%nat.
Proof.
  revert x. induction fuel as [|fuel IH]; intros x; cbn [PutUvarint]; [cbn; lia|].
  destruct (_ <=? _); cbn; [specialize (IH (Z.shiftr x 7))|]; lia.
Qed.

(** ** The discovery record *)
Section ENRProofs.
Context `{RLPLaws}.

Lemma ENR_EncodeRLP_layout o :
  ENR_EncodeRLP o =
    Ok (rlp_bytes (PutUvarint MaxVarintLen64 (od_chainID o) ++ PutUvarint MaxVarintLen64 (od_version o))).
Proof.
  unfold ENR_EncodeRLP. set (c := PutUvarint MaxVarintLen64 (od_chainID o)).
  set (v := PutUvarint MaxVarintLen64 (od_version o)).
  assert (Hc : (length c <= 10)%nat) by apply (PutUvarint_length 10).
  assert (Hv : (length v <= 10)%nat) by apply (PutUvarint_length 10).
  change (2 * MaxVarintLen64)%nat with 20%nat. cbv zeta.
  pose proof (blit_short [] (replicate 20 x00) c 0 (zlen (replicate 20 x00))
    eq_refl ltac:(len) ltac:(len)) as Ec. cbn [app] in Ec. rewrite Ec. cbn [mbind res_bind].
  rewrite blit_short by len. cbn [mbind res_bind].
  rewrite drop_drop, drop_replicate, app_assoc.
  pose proof (slice_app [] (c ++ v) (replicate (20 - (length c + length v)) x00) 0 (zlen c + zlen v)
    eq_refl ltac:(len)) as Es. cbn [app] in Es. by rewrite Es.
Qed.
Lemma ENR_roundtrip o :
  in_range 64 (od_chainID o) -> in_range 64 (od_version o) ->
  exists e, ENR_EncodeRLP o = Ok e /\ ENR_DecodeRLP e = Ok o.
Proof.
  intros Hc Hv. rewrite ENR_EncodeRLP_layout. eexists. split; [done|].
  unfold ENR_DecodeRLP. rewrite rlp_s_Bytes_bytes. cbn [map_err mbind res_bind].
  rewrite ReadUvarint_roundtrip by done. cbn [map_err mbind res_bind].
  rewrite <-(app_nil_r (PutUvarint MaxVarintLen64 (od_version o))).
  rewrite ReadUvarint_roundtrip by done. by destruct o.
Qed.

(** Nodes of one rollup find each other, and only they do: the entry a node puts in
    its record reads back as its chain id and version, whatever else the record holds, and
    the filter of another node accepts that record exactly when the chain ids agree (in
    their low 64 bits). *)
Lemma FilterEnodes_advertised node rollupCfg cfg :
  exists node', Set_ENR (Discovery_entry rollupCfg) node = Ok node' /\
    Load node' = Ok (Discovery_entry rollupCfg) /\
    (forall k, k <> ENRKey -> node' !! k = node !! k) /\
    FilterEnodes cfg node' =
      bool_decide (wrap 64 (cfg_L2ChainID cfg) = wrap 64 (cfg_L2ChainID rollupCfg)).
Proof.
  destruct (ENR_roundtrip (Discovery_entry rollupCfg)) as (e & Ee & Ed);
    [by apply wrap_range|unfold in_range; cbn; lia|].
  exists (<[ENRKey := e]> node).
  assert (El : Load (<[ENRKey := e]> node) = Ok (Discovery_entry rollupCfg))
    by (unfold Load; by rewrite lookup_insert_eq).
  split_and!; [unfold Set_ENR; by rewrite Ee|done|intros; by apply lookup_insert_ne|].
  unfold FilterEnodes. rewrite El. cbn.
  destruct (Z.eqb_spec (wrap 64 (cfg_L2ChainID cfg)) (wrap 64 (cfg_L2ChainID rollupCfg))) as [Eq|Ne]; cbn.
  - by rewrite bool_decide_true.
  - by rewrite bool_decide_false.
Qed.
End ENRProofs.

(** ** Runs of the discovery *)
Section Runs.
Context `{RLP} (cfg : Config) (self : Z) (connectGoal : uint64) (enrToAddrInfo : enode -> res (Z * list string)).

Definition dial_ok (x : dial) : Prop :=
  dl_peer x <> self /\ (dl_peer x ∉ dl_connected x) /\ zlen (dl_connected x) < connectGoal.
Definition rec_ok (rec : enode) : Prop := FilterEnodes cfg rec = true.
Definition known_ok (k : Z * list string) : Prop := exists rec, rec_ok rec /\ enrToAddrInfo rec = Ok k.
Record disc_inv (d : disc) : Prop := {
  inv_main : match di_main d with
             | MainLoop existing _ => (zlen existing < connectGoal)
             | MainSend x _ => dial_ok x
             | _ => True
             end;
  inv_buf : match di_buf d with BufSend rec => rec_ok rec | _ => True end;
  inv_kick : match di_kick d with KickSend rec _ => rec_ok rec | _ => True end;
  inv_nodes : Forall rec_ok (di_randomNodes d) /\ zlen (di_randomNodes d) <= discoveredNodesBuffer;
  inv_attempts : Forall dial_ok (di_connAttempts d) /\ zlen (di_connAttempts d) <= connectionBufferSize;
  inv_dialled : Forall dial_ok (di_dialled d);
  inv_known : Forall known_ok (di_known d);
  inv_closed : di_closed d = true -> di_cancelled d = true;
  inv_panicked : di_panicked d = true -> di_closed d = true;
}.
Lemma rec_ok_Load rec : rec_ok rec -> Load rec = Ok (Discovery_entry cfg).
Proof.
  unfold rec_ok, FilterEnodes, Discovery_entry. destruct (Load rec) as [[c v]| | |]; try done. cbn.
  destruct (Z.eqb_spec (wrap 64 (cfg_L2ChainID cfg)) c) as [->|]; [cbn|done]. by intros ->%Z.eqb_eq.
Qed.
Lemma disc_inv0 : disc_inv disc0.
Proof. split; cbn; try done; split; cbn; done || constructor. Qed.

Lemma send_node_inv rec next d d' :
  rec_ok rec -> disc_inv d -> (forall d, disc_inv d -> disc_inv (next d)) ->
  send_node rec next d = Some d' -> disc_inv d'.
Proof.
  unfold send_node. intros Hr [] Hn. destruct (di_closed d) eqn:Ec.
  - intros [= <-]. by split; cbn; auto; rewrite Ec.
  - destruct (Z.ltb_spec (zlen (di_randomNodes d)) discoveredNodesBuffer) as [Hlt|]; [|done].
    intros [= <-]. apply Hn. split; cbn; auto; rewrite ?Ec; auto.
    destruct inv_nodes0 as [? ?]. split; [by apply Forall_app_2; [|constructor]|].
    rewrite zlen_app, zlen_cons. cbn. unfold zlen in *. cbn. lia.
Qed.
Lemma disc_step_inv ev d d' :
  disc_inv d -> disc_step cfg self connectGoal enrToAddrInfo ev d = Some d' -> disc_inv d'.
Proof.
  intros Hi. unfold disc_step. destruct (di_panicked d) eqn:Ep; [done|]. pose proof Hi as Hi0. destruct Hi.
  assert (Hpop : forall x l, di_connAttempts d = x :: l -> dial_ok x /\ Forall dial_ok l /\ zlen l <= connectionBufferSize).
  { intros x l El. rewrite El in inv_attempts0. destruct inv_attempts0 as [[? ?]%Forall_cons Hl].
    rewrite zlen_cons in Hl. split_and!; done || lia. }
  destruct ev as [|found| | |recs| | | | | |connected peers|cc| | |].
  - intros [= <-]. split; cbn; auto.
  - destruct (di_buf d) eqn:Eb; try done. destruct found as [rec|]; [|intros [= <-]; split; cbn; auto].
    destruct (FilterEnodes cfg rec) eqn:Ef; [|done]. intros [= <-]. split; cbn; auto.
  - destruct (di_buf d) eqn:Eb; try done. apply send_node_inv; [done|done|]. intros d1 []. split; cbn; auto.
  - destruct (di_buf d) eqn:Eb; try done; destruct (di_cancelled d) eqn:Ec; try done; intros [= <-];
      split; cbn; auto; by rewrite ?Ec.
  - destruct (di_kick d) eqn:Ek; try done. intros [= <-]. split; cbn; auto.
  - destruct (di_kick d) as [|[|rec recs]| |] eqn:Ek; try done; intros [= <-]; split; cbn; auto.
    by destruct (FilterEnodes cfg rec) eqn:Ef.
  - destruct (di_kick d) eqn:Ek; try done. apply send_node_inv; [done|done|]. intros d1 []. split; cbn; auto.
  - destruct (di_kick d) eqn:Ek; try done. destruct (di_cancelled d) eqn:Ec; try done. intros [= <-].
    split; cbn; auto; by rewrite ?Ec.
  - destruct (di_main d) eqn:Em; try done. destruct (di_cancelled d) eqn:Ec; try done. intros [= <-].
    split; cbn; auto.
  - destruct (di_main d) eqn:Em; try done. destruct (di_randomNodes d) as [|rec rest] eqn:Er; try done.
    destruct inv_nodes0 as [[Hr Hrest]%Forall_cons Hl]. rewrite zlen_cons in Hl.
    assert (Hd : disc_inv (set_nodes rest d)).
    { split; cbn; auto; [by rewrite Em|split; [done|lia]]. }
    destruct (Load rec); [|intros [= <-]; exact Hd..].
    destruct (enrToAddrInfo rec) as [info| | |] eqn:Ei; [|intros [= <-]; exact Hd..].
    intros [= <-]. destruct Hd. split; cbn; auto. apply Forall_app_2; [done|]. constructor; [by exists rec|constructor].
  - destruct (di_main d) eqn:Em; try done. destruct (Z.ltb_spec (zlen connected) connectGoal).
    + destruct peers; intros [= <-]; split; cbn; auto; by rewrite Em.
    + intros [= <-]. split; cbn; auto. by rewrite Em.
  - destruct (di_main d) as [|existing [|id peers]| |] eqn:Em; try done; [intros [= <-]; split; cbn; auto|].
    destruct (Z.eqb_spec self id); [intros [= <-]; split; cbn; auto|].
    case_bool_decide; [intros [= <-]; split; cbn; auto|].
    destruct cc; intros [= <-]; split; cbn; auto. split_and!; cbn; auto.
  - destruct (di_main d) as [| |x peers|] eqn:Em; try done.
    destruct (Z.ltb_spec (zlen (di_connAttempts d)) connectionBufferSize); [|done]. intros [= <-].
    split; cbn; auto; [apply inv_main0|]. destruct inv_attempts0.
    split; [by apply Forall_app_2; [|constructor]|]. rewrite zlen_app, zlen_cons. unfold zlen in *. cbn. lia.
  - destruct (di_main d) eqn:Em; try done. intros [= <-]. split; cbn; auto.
  - destruct (di_connAttempts d) as [|x rest] eqn:Ea; [done|]. intros [= <-].
    destruct (Hpop x rest eq_refl) as (Hx & Hr & Hl). split; cbn; auto.
    apply Forall_app_2; [done|]. by constructor.
Qed.
Lemma disc_run_inv evs d d' :
  disc_inv d -> disc_run cfg self connectGoal enrToAddrInfo evs d = Some d' -> disc_inv d'.
Proof.
  revert d. induction evs as [|ev evs IH]; intros d Hd E; cbn [disc_run] in E; [by injection E as <-|].
  apply bind_Some in E as (d1 & E1 & E). eapply IH; [|exact E]. by eapply disc_step_inv.
Qed.

(** [C26] Discovery, in every interleaving of its go-routines: it learns addresses only from
    records whose entry reads as this chain's id and version 0; it dials only peers other than itself that were not
    connected, at a tick with fewer connections than wanted; its channels stay within
    their buffers; and it can panic only after the context is cancelled and the main loop
    has closed the channels. *)
Theorem discovery_safe evs d :
  disc_run cfg self connectGoal enrToAddrInfo evs disc0 = Some d ->
  (forall k, k ∈ di_known d -> exists rec,
    Load rec = Ok (Discovery_entry cfg) /\ enrToAddrInfo rec = Ok k) /\
  (forall x, x ∈ di_dialled d ->
    dl_peer x <> self /\ (dl_peer x ∉ dl_connected x) /\ zlen (dl_connected x) < connectGoal) /\
  zlen (di_connAttempts d) <= connectionBufferSize /\ zlen (di_randomNodes d) <= discoveredNodesBuffer /\
  (di_panicked d = true -> di_closed d = true /\ di_cancelled d = true).
Proof.
  intros E. destruct (disc_run_inv _ _ _ disc_inv0 E). rewrite Forall_forall in inv_known0; rewrite Forall_forall in inv_dialled0.
  split_and!; [intros k (rec & Hr & Hk)%inv_known0; exists rec; by rewrite (rec_ok_Load rec)|exact inv_dialled0|apply inv_attempts0|apply inv_nodes0|auto].
Qed.
End Runs.

(** ** Witness: chain 300 *)
Definition enr_config (chainID : bigInt) : Config :=
  mkConfig (mkGenesis (mkBlockID 100 10) (mkBlockID 200 0) 1000) 2 10 2 900 chainID 77 78 80 907 79.
Lemma FilterEnodes_advertised_witness : exists node,
  @Set_ENR ToyRLP (Discovery_entry (enr_config 300)) {["tcp" := [x01]]} = Ok node /\
  @FilterEnodes ToyRLP (enr_config 300) node = true /\
  @FilterEnodes ToyRLP (enr_config 301) node = false.
Proof.
  destruct (@FilterEnodes_advertised ToyRLP ToyRLPLaws {["tcp" := [x01]]} (enr_config 300) (enr_config 300))
    as (node & E & _ & _ & F).
  destruct (@FilterEnodes_advertised ToyRLP ToyRLPLaws {["tcp" := [x01]]} (enr_config 300) (enr_config 301))
    as (node' & E' & _ & _ & F').
  assert (node' = node) as -> by (rewrite E in E'; by injection E').
  exists node. split; [exact E|]. rewrite F, F'. split; reflexivity.
Defined.

(** ** Witness: a run that learns peer 7 and dials it *)
Definition enr_node (chainID : bigInt) : enode :=
  match @Set_ENR ToyRLP (Discovery_entry (enr_config chainID)) ∅ with Ok node => node | _ => ∅ end.
Definition discovery_events : list disc_event :=
  [BufTick (Some (enr_node 300)); BufSent; MainFound; MainTick [4] (Some [7; 1; 4]); MainNext false; MainSent;
   MainNext false; MainNext false; MainNext false; Worker; Cancel; MainDone].
Definition toy_run := @disc_run ToyRLP (enr_config 300) 1 20 (fun rec => Ok (7, ["/ip4/1.2.3.4/tcp/9222"])).
Lemma discovery_safe_witness : exists d,
  toy_run discovery_events disc0 = Some d /\ di_dialled d = [mkDial 7 [4]] /\ di_known d = [(7, ["/ip4/1.2.3.4/tcp/9222"])] /\
  7 <> 1.
Proof.
  destruct (toy_run discovery_events disc0) as [d|] eqn:E; [|exfalso; vm_compute in E; discriminate E].
  assert (Hd : di_dialled d = [mkDial 7 [4]] /\ di_known d = [(7, ["/ip4/1.2.3.4/tcp/9222"])])
    by (vm_compute in E; injection E as <-; split; reflexivity).
  exists d. split; [reflexivity|]. destruct Hd as [Hx Hk]. split; [exact Hx|]. split; [exact Hk|].
  destruct (@discovery_safe ToyRLP (enr_config 300) 1 20 (fun rec => Ok (7, ["/ip4/1.2.3.4/tcp/9222"]))
    discovery_events d E) as (_ & Hdial & _).
  rewrite Hx in Hdial. destruct (Hdial (mkDial 7 [4])) as (Hs & _); [by left|exact Hs].
Defined.
(** A node that is stopped within three seconds of its start: the kick-off wakes up after the
    main loop has closed the channel, and may choose to send on it. *)
Example discovery_panics :
  di_panicked <$> toy_run [Cancel; MainDone; KickStart [enr_node 300]; KickNext; KickSent] disc0 = Some true.
Proof. vm_compute. reflexivity. Qed.
