(* ===== verification/Withdrawals.v ===== *)
(** * Withdrawal proofs

    op-node/withdrawals/proof.go and utils.go: the proof that a withdrawal was recorded on
    L2, the parameters that finalize it on L1, and the wait until they can be used. *)

From S2P Require Import Prelude Types Geth L2Source NodeAPI.

(** ** External code *)

(** gethclient's [StorageResult] and [AccountResult]; nodes and keys are hex strings. *)
Record StorageResult := mkStorageResult {
  sr_Key : string;
  sr_Value : bigInt;
  sr_Proof : list string;
}.
Record AccountProofResult := mkAccountProofResult {
  ap_Address : Address;
  ap_AccountProof : list string;
  ap_Balance : bigInt;
  ap_CodeHash : Hash;
  ap_Nonce : uint64;
  ap_StorageHash : Hash;
  ap_StorageProof : list StorageResult;
}.
(** The Withdrawer contract's event *)
Record WithdrawalInitiated := mkWithdrawalInitiated {
  wi_Nonce : bigInt;
  wi_Sender : Address;
  wi_Target : Address;
  wi_Value : bigInt;
  wi_GasLimit : bigInt;
  wi_Data : list byte;
}.
(** Hex strings of go-ethereum's common package, [trie.VerifyProof] over a store of nodes
    by hash (the empty value when the proof shows that the key is absent), RLP, and the
    generated contract bindings. *)
Class WithdrawalLibs := {
  FromHex : string -> list byte;
  Hash_String : Hash -> string;
  trie_VerifyProof : Hash -> list byte -> gmap Z (list byte) -> res (list byte);
  rlp_StateAccount : uint64 -> bigInt -> Hash -> Hash -> res (list byte);
  rlp_nodes : list (list byte) -> res (list byte);
  abi_Pack : WithdrawalInitiated -> res (list byte);
  contract_ParseWithdrawalInitiated : Log -> res WithdrawalInitiated;
}.
(** [ProofClient] *)
Class ProofClient (W : Type) := {
  TransactionReceipt : Hash -> M W Receipt;
  cl_GetProof : Address -> list string -> bigInt -> M W AccountProofResult;
}.

(** [Bytes] of a big integer: the absolute value, big endian, without leading zeros *)
Definition big_Bytes (z : bigInt) : list byte :=
  if z =? 0 then [] else be_bytes (Z.to_nat (Z.log2 (Z.abs z) / 8 + 1)) (Z.abs z).

Section Withdrawals.
Context `{Keccak} `{GethTypes} `{WithdrawalLibs}.

(** ** proof.go *)
Definition GenerateProofDB (proof : list string) : gmap Z (list byte) :=
  foldl (fun m s => let value := FromHex s in <[Keccak256 value := value]> m) ∅ proof.

Definition VerifyAccountProof (root : Hash) (address : Address)
    (nonce : uint64) (balance : bigInt) (storageRoot codeHash : Hash) (proof : list string) : res unit :=
  expected ← map_err (wrapw "failed to encode rlp: ")
               (rlp_StateAccount nonce balance storageRoot codeHash);
  let secureKey := Keccak256 (be_bytes 20 address) in
  let db := GenerateProofDB proof in
  value ← map_err (wrapw "failed to verify proof: ") (trie_VerifyProof root (be_bytes 32 secureKey) db);
  if bool_decide (value = expected) then Ok tt
  else Err (EMsg "proved value is not the same as the expected value").

Definition VerifyStorageProof (root : Hash) (proof : StorageResult) : res unit :=
  let secureKey := Keccak256 (FromHex (sr_Key proof)) in
  let db := GenerateProofDB (sr_Proof proof) in
  value ← map_err (wrapw "failed to verify proof: ") (trie_VerifyProof root (be_bytes 32 secureKey) db);
  let expected := big_Bytes (sr_Value proof) in
  if bool_decide (value = expected) then Ok tt
  else Err (EMsg "proved value is not the same as the expected value").

Fixpoint VerifyProof_storage (root : Hash) (proofs : list StorageResult) : res unit :=
  match proofs with
  | [] => Ok tt
  | p :: proofs =>
      _ ← map_err (wrapw "failed to validate storage proof: ") (VerifyStorageProof root p);
      VerifyProof_storage root proofs
  end.
Definition VerifyProof (stateRoot : Hash) (proof : AccountProofResult) : res unit :=
  _ ← map_err (wrapw "failed to validate account: ")
        (VerifyAccountProof stateRoot (ap_Address proof) (ap_Nonce proof) (ap_Balance proof)
           (ap_StorageHash proof) (ap_CodeHash proof) (ap_AccountProof proof));
  VerifyProof_storage (ap_StorageHash proof) (ap_StorageProof proof).

(** ** utils.go *)
Record FinalizedWithdrawalParameters := mkFinalizedWithdrawalParameters {
  fw_Nonce : bigInt;
  fw_Sender : Address;
  fw_Target : Address;
  fw_Value : bigInt;
  fw_GasLimit : bigInt;
  fw_Timestamp : bigInt;
  fw_Data : list byte;
  fw_Version : Hash;                (* OutputRootProof *)
  fw_StateRoot : Hash;
  fw_WithdrawerStorageRoot : Hash;
  fw_LatestBlockhash : Hash;
  fw_WithdrawalProof : list byte;
}.

Definition WithdrawalHash (ev : WithdrawalInitiated) : res Hash :=
  enc ← map_err (wrapw "failed to pack for withdrawal hash: ") (abi_Pack ev);
  Ok (Keccak256 enc).

Definition ParseWithdrawalInitiated (receipt : Receipt) : res WithdrawalInitiated :=
  match rc_Logs receipt with
  | [l] => map_err (wrapw "failed to parse log: ") (contract_ParseWithdrawalInitiated l)
  | _ => Err (EMsg "invalid length of logs")
  end.

Definition StorageSlotOfWithdrawalHash (hash : Hash) : res Hash :=
  let buf := replicate 64 x00 in
  buf ← blit buf 0 64 (be_bytes 32 hash);
  let buf := <[63%nat := x01]> buf in
  Ok (Keccak256 buf).

Definition FinalizeWithdrawalParameters {W} `{!ProofClient W} (txHash : Hash) (header : Header)
    : M W FinalizedWithdrawalParameters :=
  receipt ← TransactionReceipt txHash;
  ev ← lift (ParseWithdrawalInitiated receipt);
  withdrawalHash ← lift (WithdrawalHash ev);
  slot ← lift (StorageSlotOfWithdrawalHash withdrawalHash);
  p ← cl_GetProof WithdrawalContractAddress [Hash_String slot] (hdr_Number header);
  _ ← lift (VerifyProof (hdr_Root header) p);
  match ap_StorageProof p with
  | [sp] =>
      let trieNodes := FromHex <$> sr_Proof sp in
      withdrawalProof ← lift (rlp_nodes trieNodes);
      mret {|
        fw_Nonce := wi_Nonce ev;
        fw_Sender := wi_Sender ev;
        fw_Target := wi_Target ev;
        fw_Value := wi_Value ev;
        fw_GasLimit := wi_GasLimit ev;
        fw_Timestamp := hdr_Time header;
        fw_Data := wi_Data ev;
        fw_Version := 0;
        fw_StateRoot := hdr_Root header;
        fw_WithdrawerStorageRoot := ap_StorageHash p;
        fw_LatestBlockhash := header_Hash header;
        fw_WithdrawalProof := withdrawalProof;
      |}
  | _ => throw (EMsg "invalid amount of storage proofs")
  end.
End Withdrawals.

(** The contracts, the L1 client and the clock that [WaitForFinalizationPeriod] polls;
    [tick] waits for the ticker and fails when the context ends. *)
Class FinalizationEnv `{GethTypes} (W : Type) := {
  portal_L2ORACLE : M W Address;
  portal_FINALIZATIONPERIOD : M W bigInt;
  l2oo_LatestBlockTimestamp : Address -> M W bigInt;
  l2oo_GetL2Output_Timestamp : Address -> bigInt -> M W bigInt;
  l1_HeaderByNumber : option bigInt -> M W Header;
  tick : M W unit;
  sleep_until : bigInt -> M W unit;
}.

Section Wait.
Context `{GethTypes} {W : Type} `{!FinalizationEnv W}.

(** The first poll: until the oracle is past [timestampBig] *)
Fixpoint wait_submitted (fuel : nat) (l2OO : Address) (timestampBig : bigInt) : M W bigInt :=
  match fuel with
  | O => lift OutOfFuel
  | S fuel =>
      _ ← tick;
      next ← l2oo_LatestBlockTimestamp l2OO;
      if timestampBig <? next then mret next else wait_submitted fuel l2OO timestampBig
  end.
(** The second poll: until L1 is past [targetTimestamp] *)
Fixpoint wait_finalized (fuel : nat) (targetTimestamp : bigInt) (next : bigInt) : M W uint64 :=
  match fuel with
  | O => lift OutOfFuel
  | S fuel =>
      _ ← tick;
      header ← l1_HeaderByNumber None;
      if wrap 64 targetTimestamp <? hdr_Time header then mret (wrap 64 next)
      else wait_finalized fuel targetTimestamp next
  end.
Definition WaitForFinalizationPeriod (fuel : nat) (timestamp : uint64) : M W uint64 :=
  l2OO ← portal_L2ORACLE;
  finalizationPeriod ← portal_FINALIZATIONPERIOD;
  _ ← l2oo_LatestBlockTimestamp l2OO;
  next ← wait_submitted fuel l2OO timestamp;
  outputTimestamp ← l2oo_GetL2Output_Timestamp l2OO next;
  let targetTimestamp := outputTimestamp + finalizationPeriod in
  _ ← sleep_until targetTimestamp;
  wait_finalized fuel targetTimestamp next.
End Wait.

(** ** What the parameters prove *)
Section WithdrawalProofs.
Context `{Keccak} `{GethTypes} `{WithdrawalLibs}.

(** The storage slot of entry [hash] in the mapping at position 1 *)
Lemma StorageSlotOfWithdrawalHash_eq hash :
  StorageSlotOfWithdrawalHash hash = Ok (Keccak256 (be_bytes 32 hash ++ be_bytes 32 1)).
Proof.
  unfold StorageSlotOfWithdrawalHash. cbv zeta.
  pose proof (blit_short [] (replicate 64 x00) (be_bytes 32 hash) 0 64 eq_refl ltac:(len) ltac:(len)) as E.
  cbn [app] in E. rewrite E. cbn [mbind res_bind].
  by do 2 f_equal.
Qed.

Definition account_proven (root : Hash) (p : AccountProofResult) : Prop :=
  exists account, rlp_StateAccount (ap_Nonce p) (ap_Balance p) (ap_StorageHash p) (ap_CodeHash p) = Ok account /\
    trie_VerifyProof root (be_bytes 32 (Keccak256 (be_bytes 20 (ap_Address p))))
      (GenerateProofDB (ap_AccountProof p)) = Ok account.
Definition storage_proven (root : Hash) (sp : StorageResult) : Prop :=
  trie_VerifyProof root (be_bytes 32 (Keccak256 (FromHex (sr_Key sp)))) (GenerateProofDB (sr_Proof sp))
    = Ok (big_Bytes (sr_Value sp)).

Lemma VerifyStorageProof_ok root sp : VerifyStorageProof root sp = Ok tt <-> storage_proven root sp.
Proof.
  unfold VerifyStorageProof, storage_proven. cbv zeta.
  destruct (trie_VerifyProof _ _ _) as [v| | |]; cbn; try done.
  case_bool_decide as Hv; split; congruence.
Qed.
Lemma VerifyAccountProof_ok root p :
  VerifyAccountProof root (ap_Address p) (ap_Nonce p) (ap_Balance p) (ap_StorageHash p) (ap_CodeHash p)
    (ap_AccountProof p) = Ok tt <-> account_proven root p.
Proof.
  unfold VerifyAccountProof, account_proven. cbv zeta.
  destruct (rlp_StateAccount _ _ _ _) as [a| | |]; cbn; [|split; [done|by intros (? & ? & _)]..].
  destruct (trie_VerifyProof _ _ _) as [v| | |]; cbn; [|split; [done|by intros (? & _ & ?)]..].
  case_bool_decide as Hv; split; try done; [intros _; exists a; by rewrite Hv|].
  intros (b & [= <-] & [= ->]). done.
Qed.
Lemma VerifyProof_storage_ok root proofs :
  VerifyProof_storage root proofs = Ok tt <-> Forall (storage_proven root) proofs.
Proof.
  induction proofs as [|sp proofs IH]; cbn [VerifyProof_storage]; [by split|].
  rewrite Forall_cons, <-VerifyStorageProof_ok, <-IH.
  destruct (VerifyStorageProof root sp) as [[]| | |]; cbn; split; try done; try tauto; by intros [? _].
Qed.
Lemma VerifyProof_ok root p :
  VerifyProof root p = Ok tt <-> account_proven root p /\ Forall (storage_proven (ap_StorageHash p)) (ap_StorageProof p).
Proof.
  unfold VerifyProof. rewrite <-VerifyAccountProof_ok, <-VerifyProof_storage_ok.
  destruct (VerifyAccountProof _ _ _ _ _ _ _) as [[]| | |]; cbn; split; try done; try tauto; by intros [? _].
Qed.

(** [C39] Parameters that [FinalizeWithdrawalParameters] returns: they are those of the one
    event of the transaction's receipt; the account that the node answered for the
    withdrawal contract and the slot of this withdrawal is proven against the header's
    state root, and its single storage value against the account's storage root; the output
    root proof hashes to the output root of that header and storage root; and the
    withdrawal proof encodes the nodes that were verified. *)
Theorem FinalizeWithdrawalParameters_spec {W} `{!ProofClient W} txHash header (w : W) params w' :
  FinalizeWithdrawalParameters txHash header w = (Ok params, w') ->
  exists receipt w1 l ev enc p sp,
    TransactionReceipt txHash w = (Ok receipt, w1) /\ rc_Logs receipt = [l] /\
    contract_ParseWithdrawalInitiated l = Ok ev /\ abi_Pack ev = Ok enc /\
    cl_GetProof WithdrawalContractAddress
      [Hash_String (Keccak256 (be_bytes 32 (Keccak256 enc) ++ be_bytes 32 1))] (hdr_Number header) w1 = (Ok p, w') /\
    account_proven (hdr_Root header) p /\ ap_StorageProof p = [sp] /\ storage_proven (ap_StorageHash p) sp /\
    mkWithdrawalInitiated (fw_Nonce params) (fw_Sender params) (fw_Target params) (fw_Value params)
      (fw_GasLimit params) (fw_Data params) = ev /\
    ComputeL2OutputRoot (fw_Version params) (fw_LatestBlockhash params) (fw_StateRoot params)
      (fw_WithdrawerStorageRoot params) =
      ComputeL2OutputRoot 0 (header_Hash header) (hdr_Root header) (ap_StorageHash p) /\
    fw_Timestamp params = hdr_Time header /\
    rlp_nodes (FromHex <$> sr_Proof sp) = Ok (fw_WithdrawalProof params).
Proof.
  intros E. apply M_bind_ok in E as (receipt & w1 & Er & E).
  apply M_bind_ok in E as (ev & ? & Ee & E). apply lift_ok in Ee as [Ee <-].
  apply M_bind_ok in E as (hash & ? & Eh & E). apply lift_ok in Eh as [Eh <-].
  apply M_bind_ok in E as (slot & ? & Es & E). apply lift_ok in Es as [Es <-].
  apply M_bind_ok in E as (p & w2 & Ep & E).
  apply M_bind_ok in E as ([] & ? & Ev & E). apply lift_ok in Ev as [Ev <-].
  destruct (ap_StorageProof p) as [|sp [|]] eqn:Esp; try done.
  apply M_bind_ok in E as (nodes & ? & En & E). apply lift_ok in En as [En <-]. injection E as <- <-.
  unfold ParseWithdrawalInitiated in Ee. destruct (rc_Logs receipt) as [|l [|]] eqn:El; try done.
  apply map_err_ok in Ee. apply res_bind_ok in Eh as (enc & Eenc & Eh). apply map_err_ok in Eenc.
  apply Ok_inj in Eh as <-. rewrite StorageSlotOfWithdrawalHash_eq in Es. apply Ok_inj in Es as <-.
  apply VerifyProof_ok in Ev as [Ha Hs]. rewrite Esp in Hs. apply Forall_cons in Hs as [Hs _].
  exists receipt, w1, l, ev, enc, p, sp. split_and!; try done. by destruct ev.
Qed.
End WithdrawalProofs.

(** What is waited for: the timestamp returned is past the withdrawal's, and the output
    for it is final by the time of L1. *)
Lemma WaitForFinalizationPeriod_spec `{GethTypes} {W} `{!FinalizationEnv W} fuel timestamp (w : W) next w' :
  WaitForFinalizationPeriod fuel timestamp w = (Ok next, w') ->
  exists big oracle w1 w2 outputTime period w3 w4 header,
    timestamp < big /\ next = wrap 64 big /\
    l2oo_GetL2Output_Timestamp oracle big w1 = (Ok outputTime, w2) /\
    l1_HeaderByNumber None w3 = (Ok header, w4) /\ wrap 64 (outputTime + period) < hdr_Time header.
Proof.
  assert (H1 : forall fuel oracle (w w' : W) big, wait_submitted fuel oracle timestamp w = (Ok big, w') ->
    timestamp < big).
  { intros fuel'. induction fuel' as [|fuel' IH]; intros oracle w0 w0' big E; [done|].
    apply M_bind_ok in E as ([] & w1 & _ & E). apply M_bind_ok in E as (b & w2 & _ & E).
    destruct (Z.ltb_spec timestamp b); [injection E as <- <-; done|by eapply IH]. }
  assert (H2 : forall fuel target big (w w' : W) n, wait_finalized fuel target big w = (Ok n, w') ->
    n = wrap 64 big /\ exists w3 w4 header, l1_HeaderByNumber None w3 = (Ok header, w4) /\
      wrap 64 target < hdr_Time header).
  { intros fuel'. induction fuel' as [|fuel' IH]; intros target big w0 w0' n E; [done|].
    apply M_bind_ok in E as ([] & w1 & _ & E). apply M_bind_ok in E as (h & w2 & Eh & E).
    destruct (Z.ltb_spec (wrap 64 target) (hdr_Time h)); [|by eapply IH].
    injection E as <- <-. split; [done|]. by exists w1, w2, h. }
  intros E. apply M_bind_ok in E as (oracle & w1 & _ & E). apply M_bind_ok in E as (period & w2 & _ & E).
  apply M_bind_ok in E as (n0 & w3 & _ & E). apply M_bind_ok in E as (big & w4 & Eb & E).
  apply M_bind_ok in E as (out & w5 & Eo & E). apply M_bind_ok in E as ([] & w6 & _ & E).
  apply H1 in Eb. apply H2 in E as (-> & w7 & w8 & h & Eh & Hh).
  exists big, oracle, w4, w5, out, period, w7, w8, h. done.
Qed.

(** ** Witness: tries of one entry, a node being the key and the value *)
Definition hexed (b : list byte) : string := String.string_of_list_byte b.
Definition ToyWithdrawalLibs : WithdrawalLibs := {|
  FromHex := String.list_byte_of_string;
  Hash_String := fun h => hexed (be_bytes 32 h);
  trie_VerifyProof := fun root key db =>
    match db !! root with
    | Some node => Ok (if bool_decide (take 32 node = key) then drop 32 node else [])
    | None => Err (EMsg "proof node missing")
    end;
  rlp_StateAccount := fun nonce balance storageRoot codeHash => Ok (be_bytes 8 nonce ++ be_bytes 32 storageRoot);
  rlp_nodes := fun l => Ok (concat l);
  abi_Pack := fun ev => Ok (be_bytes 32 (wi_Nonce ev) ++ wi_Data ev);
  contract_ParseWithdrawalInitiated := fun l =>
    Ok (mkWithdrawalInitiated 3 4 5 6 7 (log_Data l));
|}.
#[local] Existing Instance ToyKeccak.
#[local] Existing Instance ToyGeth.
#[local] Existing Instance ToyWithdrawalLibs.

Definition toy_node (key value : list byte) : list byte := be_bytes 32 (Keccak256 key) ++ value.
(** The account at the predeploy, whose storage is one slot *)
Definition toy_account (slot : string) (present : bool) : AccountProofResult :=
  let value := if present then [x01] else [] in
  let stored := toy_node (if present then FromHex slot else [x00]) [x01] in
  let storageRoot := Keccak256 stored in
  mkAccountProofResult WithdrawalContractAddress
    [hexed (toy_node (be_bytes 20 WithdrawalContractAddress) (be_bytes 8 1 ++ be_bytes 32 storageRoot))]
    0 9 1 storageRoot [mkStorageResult slot (be_value value) [hexed stored]].
Definition ToyProofClient (present : bool) : ProofClient unit := {|
  TransactionReceipt := fun h w => (Ok (mkReceipt x02 [] 1 21000 0 [mkLog 0 [] [x05] 0 0 0 0 0 false] 0 (Some 7) 0 h), w);
  cl_GetProof := fun a keys n w =>
    match keys with [k] => (Ok (toy_account k present), w) | _ => (Err ENotFound, w) end |}.
Definition toy_withdrawal_slot : string :=
  Hash_String (Keccak256 (be_bytes 32 (Keccak256 (be_bytes 32 3 ++ [x05])) ++ be_bytes 32 1)).
Definition withdrawal_header (present : bool) : Header :=
  {| hdr_ParentHash := 0; hdr_UncleHash := 0; hdr_Coinbase := 0;
     hdr_Root := Keccak256 (toy_node (be_bytes 20 WithdrawalContractAddress)
       (be_bytes 8 1 ++ be_bytes 32 (ap_StorageHash (toy_account toy_withdrawal_slot present))));
     hdr_TxHash := 0; hdr_ReceiptHash := 0; hdr_Bloom := 0; hdr_Difficulty := 0; hdr_Number := 10;
     hdr_GasLimit := 0; hdr_GasUsed := 0; hdr_Time := 1234; hdr_Extra := []; hdr_MixDigest := 0;
     hdr_Nonce := 0; hdr_BaseFee := 7 |}.

Lemma FinalizeWithdrawalParameters_spec_witness : exists params,
  @FinalizeWithdrawalParameters _ _ _ unit (ToyProofClient true) 70 (withdrawal_header true) tt = (Ok params, tt) /\
  fw_Timestamp params = 1234.
Proof.
  destruct (@FinalizeWithdrawalParameters _ _ _ unit (ToyProofClient true) 70 (withdrawal_header true) tt)
    as [[params|e| |] []] eqn:E.
  2-4: exfalso; assert (Hok : is_ok (@FinalizeWithdrawalParameters _ _ _ unit (ToyProofClient true) 70
    (withdrawal_header true) tt).1 = true) by (vm_compute; reflexivity); rewrite E in Hok; discriminate Hok.
  exists params. split; [reflexivity|].
  destruct (@FinalizeWithdrawalParameters_spec _ _ _ unit (ToyProofClient true) 70 (withdrawal_header true) tt
    params tt E) as (receipt & w1 & l & ev & enc & p & sp & _ & _ & _ & _ & _ & _ & _ & _ & _ & _ & Ht & _).
  exact Ht.
Defined.

(** A proof that the slot holds nothing is accepted as well: the parameters are returned
    for a withdrawal that the header's state does not contain. *)
Lemma FinalizeWithdrawalParameters_absent :
  is_ok (@FinalizeWithdrawalParameters _ _ _ unit (ToyProofClient false) 70 (withdrawal_header false) tt).1 = true /\
  sr_Value <$> ap_StorageProof (toy_account toy_withdrawal_slot false) = [0].
Proof. split; vm_compute; reflexivity. Qed.
