(* ===== verification/Resources.v ===== *)
(** * The resources of a node

    What a node's libraries open and close, recorded in a trace, and the set-up of the
    peer-to-peer side as the node sees it: op-node/p2p/config.go [SetupP2P].  Node.v uses the
    interface; DiscoverySetup.v gives its two implementations. *)

From S2P Require Import Prelude Types.
#[local] Open Scope Z_scope.

Inductive role := L1Role | EngineRole (i : nat) | RPCRole.
#[export] Instance role_eq_dec : EqDecision role.
Proof. solve_decision. Defined.
Inductive resource :=
  | RClient (who : role)   (* an RPC client *)
  | RContext               (* the context of the node's resources *)
  | RHeadsSub              (* the subscription to L1 heads *)
  | RHost | RGossip | RDiscovery
  | RSigner
  | RDriver (who : role)   (* the loop of a driver *)
  | RServer                (* the HTTP server *)
  | RPeerstore             (* a peerstore that no host holds yet *)
  | RUDP.                  (* a UDP socket that no discovery service holds yet *)
#[export] Instance resource_eq_dec : EqDecision resource.
Proof. solve_decision. Defined.

(** [Taken]: by the service that was started on it, and that closes it. *)
Inductive nodeev :=
  | Opened (r : resource)
  | Closed (r : resource)
  | Taken (r : resource)
  | NoHost                 (* the p2p set-up answered nil for the host *)
  | HostFailed             (* it answered an error for the host *)
  | DiscoveryFailed        (* ... or for discovery *)
  | ServerNotStarted.
#[export] Instance nodeev_eq_dec : EqDecision nodeev.
Proof. solve_decision. Defined.

Create HintDb resources.
Abbreviation Trace := (list nodeev).
Section Effects.
Context {W : Type}.
Definition ext {A} (f : W -> A * W) : M (Trace * W) A := fun tw =>
  let '(a, w) := f tw.2 in (Ok a, (tw.1, w)).
Definition logev (e : nodeev) : M (Trace * W) unit := modify (fun t => t ++ [e]).
Lemma wp_ext {A} (f : W -> A * W) Q t w : Q (Ok (f w).1) (t, (f w).2) -> wp (ext f) Q (t, w).
Proof. unfold wp, ext. cbn. by destruct (f w). Qed.
Lemma wp_logev e Q t (w : W) : Q (Ok tt) (t ++ [e], w) -> wp (logev e) Q (t, w).
Proof. done. Qed.
(** A call of a library that opens nothing. *)
Lemma wp_returns {A} (c : M W A) (Q : res A -> Trace * W -> Prop) t w :
  M_returns c -> (forall a w', Q (Ok a) (t, w')) -> (forall e w', Q (Err e) (t, w')) -> wp (call c) Q (t, w).
Proof.
  intros Hr Ho He. apply wp_call. unfold wp. specialize (Hr w).
  destruct (c w) as [[a|e| |] w']; cbn in *; auto; done.
Qed.
Lemma wp_call_returns {A B} msg (c : M W A) (f : A -> M (Trace * W) B) Q t w :
  M_returns c -> (forall e w', Q (Err e) (t, w')) -> (forall a w', wp (f a) Q (t, w')) ->
  wp (M_err msg (call c) ≫= f) Q (t, w).
Proof. intros Hr He Ho. wp_step. wp_step. apply wp_returns; [done|exact Ho|intros; apply He]. Qed.
Lemma wp_lift_returns {A B} msg (r : res A) (f : A -> M (Trace * W) B) Q (tw : Trace * W) :
  returns r = true -> (forall e, Q (Err e) tw) -> (forall a, wp (f a) Q tw) ->
  wp (lift (map_err msg r) ≫= f) Q tw.
Proof. intros Hr He Ho. wp_step. wp_step. destruct r; cbn; auto; done. Qed.
End Effects.
Ltac wp_go := repeat first [wp_step | apply wp_ext | apply wp_logev].

(** ** What is open *)
Definition live (t : Trace) (r : resource) : Prop := (Opened r ∈ t) /\ (Closed r ∉ t) /\ (Taken r ∉ t).

Lemma live_nil r : ~ live [] r.
Proof. intros [Ho _]. by apply elem_of_nil in Ho. Qed.
Lemma live_seen t e r : (forall r, e <> Opened r) -> live (t ++ [e]) r -> live t r.
Proof.
  unfold live. rewrite !elem_of_app, !list_elem_of_singleton. intros He ([Ho|Ho] & Hc & Ht).
  - split; [done|tauto].
  - by destruct (He r).
Qed.
Lemma live_Opened t r0 r : live (t ++ [Opened r0]) r -> r = r0 \/ live t r.
Proof.
  unfold live. rewrite !elem_of_app, !list_elem_of_singleton. intros ([Ho|[= ->]] & Hc & Ht); [right|by left].
  split; [done|tauto].
Qed.
Lemma live_Closed t r0 r : live (t ++ [Closed r0]) r -> live t r /\ r <> r0.
Proof.
  intros Hl. split; [eapply live_seen; [|exact Hl]; done|]. destruct Hl as (_ & Hc & _). intros ->. apply Hc. set_solver.
Qed.
Lemma live_Taken t r0 r : live (t ++ [Taken r0]) r -> live t r /\ r <> r0.
Proof.
  intros Hl. split; [eapply live_seen; [|exact Hl]; done|]. destruct Hl as (_ & _ & Ht). intros ->. apply Ht. set_solver.
Qed.

Definition extends (t t' : Trace) : Prop := forall e, e ∈ t -> e ∈ t'.
Lemma extends_refl t : extends t t.
Proof. by intros e. Qed.
Lemma extends_snoc t t' e : extends t t' -> extends t (t' ++ [e]).
Proof. intros He x Hx. apply elem_of_app. left. auto. Qed.
Lemma extends_trans t1 t2 t3 : extends t1 t2 -> extends t2 t3 -> extends t1 t3.
Proof. intros H1 H2 e He. auto. Qed.
#[export] Hint Resolve extends_refl extends_snoc : resources.

(** ** The set-up of the peer-to-peer side *)

(** [SetupP2P]; false is nil: p2p, or discovery, is disabled. *)
Class SetupP2P (W : Type) := {
  setup_Check : option error;
  setup_Host : M (Trace * W) bool;
  setup_Discovery : Z -> M (Trace * W) bool;
}.
(** What a set-up may leave open: nothing beside the host, or the discovery service, that it
    answers; when it fails, the host (or a peerstore made for it), or the UDP socket. *)
Class SetupP2PLaws (W : Type) `{!SetupP2P W} := {
  setup_Host_opens : forall t (w : W), wp setup_Host (fun r '(t', _) => match r with
    | Ok true => forall x, live t' x -> live t x \/ x = RHost
    | Ok false => t' = t
    | Err _ => forall x, live t' x -> live t x \/ x = RHost \/ x = RPeerstore
    | _ => False end) (t, w);
  setup_Discovery_opens : forall tcpPort t (w : W), wp (setup_Discovery tcpPort) (fun r '(t', _) => match r with
    | Ok true => forall x, live t' x -> live t x \/ x = RDiscovery
    | Ok false => t' = t
    | Err _ => forall x, live t' x -> live t x \/ x = RUDP
    | _ => False end) (t, w);
}.
