(* ===== verification/Node.v ===== *)
(** * The node around its drivers

    op-node/backoff: retries; op-node/node/node.go, op-node/p2p/node.go and
    op-node/node/server.go: the resources a node opens, what it does when one of them fails,
    and how it closes them; how blocks and heads pass between the peer-to-peer network, L1
    and the drivers. *)

From S2P Require Import Prelude Types Geth L1Source Resources.
From stdpp Require Import pretty.
#[local] Open Scope Z_scope.

(** ** backoff *)

(** The clock and the random numbers *)
Class Clock (W : Type) := {
  time_Sleep : Z -> M W unit;
  rand_Intn : Z -> M W Z;
}.

Section Backoff.
Context {W : Type} `{!Clock W}.

(** [Do]: [attempt_] operations were tried before; [Duration] is the strategy's, in
    milliseconds. *)
Fixpoint Do_loop (fuel : nat) (attempt_ maxAttempts : Z) (Duration : Z -> M W Z) (op : M W unit) : M W unit :=
  match fuel with
  | O => lift OutOfFuel
  | S fuel =>
      let attempt_ := attempt_ + 1 in
      err ← attempt op;
      match err with
      | inr _ => mret tt
      | inl err =>
          if attempt_ =? maxAttempts then
            throw (EMsg ("operation failed permanently after " +:+ pretty maxAttempts +:+
                         " attempts: " +:+ error_text err))
          else
            d ← Duration (attempt_ - 1);
            _ ← time_Sleep d;
            Do_loop fuel attempt_ maxAttempts Duration op
      end
  end.
Definition Do (maxAttempts : nat) := Do_loop maxAttempts 0 (Z.of_nat maxAttempts).

(** [ExponentialStrategy.Duration], for the strategy of [Exponential]: its floating-point
    arithmetic is exact up to the maximum. *)
Record ExponentialStrategy := mkExponentialStrategy { es_Min : Z; es_Max : Z; es_MaxJitter : Z }.
Definition Exponential : ExponentialStrategy := mkExponentialStrategy 0 10000 250.
Definition Exponential_Duration (e : ExponentialStrategy) (attempt_ : Z) : M W Z :=
  jitter ← (if 0 <? es_MaxJitter e then rand_Intn (es_MaxJitter e) else mret 0);
  let dur := es_Min e + 2 ^ attempt_ * 1000 in
  let dur := dur + jitter in
  if es_Max e <? dur then mret (es_Max e) else mret dur.
Definition Fixed_Duration (dur : Z) (attempt_ : Z) : M W Z := mret dur.
End Backoff.

(** ** The libraries

    What they open and close is recorded in the trace of Resources.v. *)

(** The libraries.  Dialling gives an error and no client, or a client and perhaps an
    error; closing may report an error. *)
Class NodeEnv (W : Type) := {
  node_Clock :: Clock W;
  DialContext : string -> W -> (error + option error) * W;
  node_Setup :: SetupP2P W;
  NewGossip : W -> option error * W;                 (* NewGossipSub and JoinGossip *)
  host_TCPPorts : W -> list (option Z);              (* the TCP port of each address, if any *)
  (* p2p.SignerSetup: the signer may be nil, also without an error *)
  SetupSigner : W -> (bool * option error) * W;
  driver_Start : role -> W -> option error * W;
  server_Start : W -> option error * W;              (* RegisterApis and net.Listen *)
  close_resource : resource -> W -> option error * W;
}.
Class NodeEnvLaws (W : Type) `{!NodeEnv W} := {
  time_Sleep_returns : forall d (w : W), is_ok (time_Sleep d w).1 = true;
  rand_Intn_returns : forall n (w : W), 0 < n -> is_ok (rand_Intn n w).1 = true;
  node_SetupLaws :: SetupP2PLaws W;
}.

Section Closing.
Context {W : Type}.
Definition close_ `{!NodeEnv W} (r : resource) : M (Trace * W) (option error) :=
  _ ← logev (Closed r); ext (close_resource r).
(** [multierror.Append], when there is an error *)
Definition append_err (msg : string) (result : list error) (err : option error) : list error :=
  match err with Some e => result ++ [wrapv msg e] | None => result end.
End Closing.

(** ** p2p/node.go *)

(** [FindActiveTCPPort]; addresses without a 16-bit port are skipped. *)
Fixpoint FindActiveTCPPort (ports : list (option Z)) : Z :=
  match ports with
  | [] => 0
  | Some p :: ports => if in_rangeb 16 p then p else FindActiveTCPPort ports
  | None :: ports => FindActiveTCPPort ports
  end.

Section NodeP2P.
Context {W : Type} `{!NodeEnv W}.

(** [NodeP2P]: which of its parts there are *)
Record NodeP2P := mkNodeP2P {
  np_host : bool;
  np_gsOut : bool;
  np_dv5Udp : bool;
}.
Definition nodeP2P0 : NodeP2P := mkNodeP2P false false false.

(** [NodeP2P.init] *)
Definition NodeP2P_init : M (NodeP2P * (Trace * W)) unit :=
  r ← attempt (call setup_Host);
  match r with
  | inl err => _ ← call (logev HostFailed); throw (wrapv "failed to start p2p host: " err)
  | inr false => call (logev NoHost)
  | inr true =>
      _ ← modify (fun n => mkNodeP2P true (np_gsOut n) (np_dv5Udp n));
      err ← call (ext NewGossip);
      match err with
      | Some err => throw (wrapv "failed to start or join gossip: " err)
      | None =>
          _ ← call (logev (Opened RGossip));
          _ ← modify (fun n => mkNodeP2P (np_host n) true (np_dv5Udp n));
          ports ← call (ext (fun w => (host_TCPPorts w, w)));
          let tcpPort := FindActiveTCPPort ports in
          r ← attempt (call (setup_Discovery tcpPort));
          match r with
          | inl err => _ ← call (logev DiscoveryFailed); throw (wrapv "failed to start discv5: " err)
          | inr false => mret tt
          | inr true => modify (fun n => mkNodeP2P (np_host n) (np_gsOut n) true)
          end
      end
  end.

(** [NodeP2P.Close]: every part that is there is closed; the errors are collected. *)
Definition NodeP2P_Close (n : NodeP2P) : M (Trace * W) (list error) :=
  _ ← (if np_dv5Udp n then close_ RDiscovery else mret None);
  e2 ← (if np_gsOut n then close_ RGossip else mret None);
  e3 ← (if np_host n then close_ RHost else mret None);
  mret (append_err "failed to close p2p host cleanly: "
          (append_err "failed to close gossip cleanly: " [] e2) e3).

(** [NewNodeP2P]: nil without an error when there is no host; the errors of closing are
    logged. *)
Definition NewNodeP2P : M (Trace * W) (option NodeP2P) := fun tw =>
  let '(r, (n, tw)) := NodeP2P_init (nodeP2P0, tw) in
  match r with
  | Err err => (_ ← NodeP2P_Close n; throw err) tw
  | Ok _ => (Ok (if np_host n then Some n else None), tw)
  | Panic => (Panic, tw)
  | OutOfFuel => (OutOfFuel, tw)
  end.
End NodeP2P.

(** ** node.go *)
Section OpNode.
Context `{GethTypes} `{LRU} {W : Type} `{!NodeEnv W}.

(** [node.Config], with the parts that decide what is opened *)
Record NodeConfig := mkNodeConfig {
  nc_L1NodeAddr : string;
  nc_L2EngineAddrs : list string;
  nc_L2NodeAddr : string;
  nc_L1TrustRPC : bool;
  nc_Rollup : Config;
  nc_P2PSigner : bool;    (* a signer set-up is given *)
  nc_P2P : bool;          (* a p2p set-up is given *)
}.
Definition NodeConfig_Check (cfg : NodeConfig) : res unit :=
  _ ← map_err (wrapv "rollup config error: ") (Config_Check (nc_Rollup cfg));
  if nc_P2P cfg then
    match setup_Check with Some err => Err (wrapv "p2p config error: " err) | None => Ok tt end
  else Ok tt.

(** [rpcServer]: whether p2p is enabled on it and whether it was started *)
Record rpcServer := mkRpcServer { sv_p2p : bool; sv_httpServer : bool }.

Record OpNode := mkOpNode {
  on_l1HeadsSub : bool;
  on_l1Source : option Source;      (* it holds the client of L1 *)
  on_l2Engines : list role;         (* the drivers, by the client of their engine *)
  on_l2Nodes : list role;
  on_server : option rpcServer;
  on_p2pNode : option NodeP2P;
  on_p2pSigner : bool;
}.
Definition OpNode0 : OpNode := mkOpNode false None [] [] None None false.
Definition set_l1HeadsSub b n := mkOpNode b (on_l1Source n) (on_l2Engines n) (on_l2Nodes n) (on_server n) (on_p2pNode n) (on_p2pSigner n).
Definition set_l1Source s n := mkOpNode (on_l1HeadsSub n) s (on_l2Engines n) (on_l2Nodes n) (on_server n) (on_p2pNode n) (on_p2pSigner n).
Definition add_engine d c n := mkOpNode (on_l1HeadsSub n) (on_l1Source n) (on_l2Engines n ++ [d]) (on_l2Nodes n ++ [c]) (on_server n) (on_p2pNode n) (on_p2pSigner n).
Definition set_server s n := mkOpNode (on_l1HeadsSub n) (on_l1Source n) (on_l2Engines n) (on_l2Nodes n) s (on_p2pNode n) (on_p2pSigner n).
Definition set_p2pNode p n := mkOpNode (on_l1HeadsSub n) (on_l1Source n) (on_l2Engines n) (on_l2Nodes n) (on_server n) p (on_p2pSigner n).
Definition set_p2pSigner b n := mkOpNode (on_l1HeadsSub n) (on_l1Source n) (on_l2Engines n) (on_l2Nodes n) (on_server n) (on_p2pNode n) b.

(** The operation that [dialRPCClientWithBackoff] retries, on the variable [ret] *)
Definition dial_op (who : role) (addr : string) : M (option role * (Trace * W)) unit :=
  r ← call (ext (DialContext addr));
  match r with
  | inl err => throw (wrapw "failed to dial address: " err)
  | inr _ =>
      _ ← call (logev (Opened (RClient who)));
      modify (fun _ => Some who)
  end.
#[local] Instance local_Clock : Clock (option role * (Trace * W)) := {|
  time_Sleep := fun d => call (call (time_Sleep d));
  rand_Intn := fun n => call (call (rand_Intn n));
|}.
Definition dialRPCClientWithBackoff (who : role) (addr : string) : M (Trace * W) (option role) := fun tw =>
  let '(r, (ret, tw)) := Do 10 (Exponential_Duration Exponential) (dial_op who addr) (None, tw) in
  match r with
  | Ok _ => (Ok ret, tw)
  | Err err => (Err err, tw)
  | Panic => (Panic, tw)
  | OutOfFuel => (OutOfFuel, tw)
  end.
(** The client, which [Do] leaves nil only with an error *)
Definition client_ok (c : option role) : M (OpNode * (Trace * W)) role :=
  match c with Some c => mret c | None => lift Panic end.

Definition initL1 (cfg : NodeConfig) : M (OpNode * (Trace * W)) unit :=
  l1Node ← M_err (wrapw "failed to dial L1 address: ")
             (call (dialRPCClientWithBackoff L1Role (nc_L1NodeAddr cfg)));
  match NewSource (L1_DefaultConfig (nc_Rollup cfg) (nc_L1TrustRPC cfg)) with
  | Ok source =>
      _ ← client_ok l1Node;
      _ ← modify (set_l1Source (Some source));
      _ ← call (logev (Opened RHeadsSub));
      modify (set_l1HeadsSub true)
  | Err err => throw (wrapv "failed to create L1 source: " err)
  | Panic => lift Panic
  | OutOfFuel => lift OutOfFuel
  end.

(** [AttachEngine]: [l2.NewSource] and [driver.NewDriver] build objects and do not fail. *)
Definition AttachEngine (addr : string) : M (OpNode * (Trace * W)) unit :=
  n ← get;
  l2Node ← call (dialRPCClientWithBackoff (EngineRole (length (on_l2Nodes n))) addr);
  l2Node ← client_ok l2Node;
  modify (add_engine l2Node l2Node).
Fixpoint initL2 (addrs : list string) : M (OpNode * (Trace * W)) unit :=
  match addrs with
  | [] => mret tt
  | addr :: addrs =>
      _ ← M_err (wrapv "failed to attach configured engine ") (AttachEngine addr);
      initL2 addrs
  end.

Definition initP2PSigner (cfg : NodeConfig) : M (OpNode * (Trace * W)) unit :=
  if nc_P2PSigner cfg then
    '(signer, err) ← call (ext SetupSigner);
    _ ← (if signer then call (logev (Opened RSigner)) else mret tt);
    _ ← modify (set_p2pSigner signer);
    match err with Some err => throw err | None => mret tt end
  else mret tt.

(** [initP2P]: [Dv5Udp] reads a field of the p2p node, which may be nil. *)
Definition initP2P (cfg : NodeConfig) : M (OpNode * (Trace * W)) unit :=
  if nc_P2P cfg then
    p2pNode ← call NewNodeP2P;
    _ ← modify (set_p2pNode p2pNode);
    match p2pNode with
    | None => lift Panic
    | Some _ => mret tt    (* starts [DiscoveryProcess], which the context stops *)
    end
  else mret tt.

(** [initRPCServer]: the client of L2 is kept by the server's API only. *)
Definition initRPCServer (cfg : NodeConfig) : M (OpNode * (Trace * W)) unit :=
  _ ← M_err (wrapw "failed to dial l2 address: ")
        (call (dialRPCClientWithBackoff RPCRole (nc_L2NodeAddr cfg)));
  _ ← modify (set_server (Some (mkRpcServer false false)));
  n ← get;
  _ ← (match on_p2pNode n with
       | Some _ => modify (set_server (Some (mkRpcServer true false)))
       | None => mret tt
       end);
  err ← call (ext server_Start);
  match err with
  | Some err => _ ← call (logev ServerNotStarted); throw (wrapw "unable to start RPC server: " err)
  | None =>
      _ ← call (logev (Opened RServer));
      modify (fun n => set_server ((fun s => mkRpcServer (sv_p2p s) true) <$> on_server n) n)
  end.

Definition OpNode_init (cfg : NodeConfig) : M (OpNode * (Trace * W)) unit :=
  _ ← initL1 cfg;
  _ ← initL2 (nc_L2EngineAddrs cfg);
  _ ← initP2PSigner cfg;
  _ ← initP2P cfg;
  initRPCServer cfg.

(** [OpNode.Start]: the first driver that does not start ends it. *)
Fixpoint Start_engines (engines : list role) : M (Trace * W) unit :=
  match engines with
  | [] => mret tt
  | eng :: engines =>
      err ← ext (driver_Start eng);
      match err with
      | Some err => throw err
      | None => _ ← logev (Opened (RDriver eng)); Start_engines engines
      end
  end.
Definition OpNode_Start (n : OpNode) : M (Trace * W) unit := Start_engines (on_l2Engines n).

(** [OpNode.Close]; [rpcServer.Stop] calls a method of the HTTP server, which is nil until
    the server is started. *)
Fixpoint close_all (r : role -> resource) (l : list role) (msg : string) (result : list error)
    : M (Trace * W) (list error) :=
  match l with
  | [] => mret result
  | x :: l => err ← close_ (r x); close_all r l msg (append_err msg result err)
  end.
Definition OpNode_Close (n : OpNode) : M (Trace * W) (list error) :=
  _ ← (match on_server n with
       | None => mret None
       | Some s => if sv_httpServer s then close_ RServer else lift Panic
       end);
  result ← (match on_p2pNode n with
            | None => mret []
            | Some p =>
                errs ← NodeP2P_Close p;
                mret (match errs with [] => [] | e :: _ => [wrapv "failed to close p2p node: " e] end)
            end);
  result ← (if on_p2pSigner n
            then err ← close_ RSigner; mret (append_err "failed to close p2p signer: " result err)
            else mret result);
  _ ← close_ RContext;
  _ ← (if on_l1HeadsSub n then close_ RHeadsSub else mret None);
  result ← close_all RDriver (on_l2Engines n) "failed to close L2 engine driver cleanly: " result;
  _ ← close_all RClient (on_l2Nodes n) "" [];
  _ ← (match on_l1Source n with None => mret None | Some _ => close_ (RClient L1Role) end);
  mret result.

(** [New]: a node that fails to initialize is closed. *)
Definition New_node (cfg : NodeConfig) : M (Trace * W) OpNode := fun tw =>
  let '(r, (n, tw)) := OpNode_init cfg (OpNode0, tw) in
  match r with
  | Ok _ => (Ok n, tw)
  | Err err =>
      (errs ← OpNode_Close n;
       match errs with
       | [] => throw err
       | closeErr :: _ => throw (EMsg (error_text err +:+ error_text closeErr))   (* both *)
       end) tw
  | Panic => (Panic, tw)
  | OutOfFuel => (OutOfFuel, tw)
  end.
Definition OpNode_New (cfg : NodeConfig) : M (Trace * W) OpNode :=
  _ ← lift (NodeConfig_Check cfg);
  _ ← logev (Opened RContext);
  New_node cfg.
End OpNode.

(** ** Blocks and heads *)
Section Events.
Context `{GethTypes}.

(** [OpNode.PublishL2Payload]: [p2pNode] is the publisher of the p2p node, if there is one. *)
Definition OpNode_PublishL2Payload {W Signer} (p2pNode : option (ExecutionPayload -> Signer -> M W unit))
    (p2pSigner : option Signer) (payload : ExecutionPayload) : M W unit :=
  match p2pNode with
  | Some publish =>
      match p2pSigner with
      | None => throw (EMsg "node has no p2p signer, payload cannot be published")
      | Some signer => publish payload signer
      end
  | None => mret tt
  end.
(** [OpNode.OnUnsafeL2Payload]: the notifications it starts, one per driver; [self] is the
    identity of the p2p host, if there is one. *)
Definition OpNode_OnUnsafeL2Payload {D} (self : option Z) (from : Z) (l2Engines : list D)
    (payload : ExecutionPayload) : list (D * ExecutionPayload) :=
  if bool_decide (self = Some from) then [] else (fun eng => (eng, payload)) <$> l2Engines.
(** [OpNode.OnNewL1Head] *)
Definition OpNode_OnNewL1Head {D} (l2Engines : list D) (sig : L1BlockRef) : list (D * L1BlockRef) :=
  (fun eng => (eng, sig)) <$> l2Engines.

(** [WatchHeadChanges]: one round of its loop gives a signal, or the end with an error or
    none. *)
Inductive watch_event := NewHeader (header : Header) | SubErr (err : option error) | CtxDone | Quit.
Definition WatchHeadChanges_step (ev : watch_event) : L1BlockRef + option error :=
  match ev with
  | NewHeader header =>
      inl (mkL1BlockRef (header_Hash header) (wrap 64 (hdr_Number header)) (hdr_ParentHash header)
             (hdr_Time header))
  | SubErr err => inr err
  | CtxDone => inr (Some ECanceled)
  | Quit => inr None
  end.
(** The signals of a run, and how it ended *)
Fixpoint WatchHeadChanges (evs : list watch_event) : list L1BlockRef * option (option error) :=
  match evs with
  | [] => ([], None)
  | ev :: evs =>
      match WatchHeadChanges_step ev with
      | inl sig => let '(sigs, r) := WatchHeadChanges evs in (sig :: sigs, r)
      | inr r => ([], Some r)
      end
  end.
End Events.

(** ** Retries *)
Section BackoffProofs.
Context {W : Type} `{!Clock W} (Duration : Z -> M W Z) (op : M W unit).

(** [Do] ends after at most [maxAttempts] operations. *)
Lemma Do_loop_returns fuel attempt_ maxAttempts :
  M_returns op -> (forall d, M_returns (time_Sleep d)) -> (forall a, M_returns (Duration a)) ->
  (0 < fuel)%nat -> attempt_ + Z.of_nat fuel = maxAttempts ->
  M_returns (Do_loop fuel attempt_ maxAttempts Duration op).
Proof.
  intros Hop Hsl Hd. revert attempt_. induction fuel as [|fuel IH]; intros at_ Hf Hm; [lia|]. cbn [Do_loop].
  apply M_returns_bind; [by apply M_returns_attempt|]. intros [e|[]] ? w _; [|done].
  destruct (Z.eqb_spec (at_ + 1) maxAttempts) as [|Hne]; [done|].
  revert w. apply M_returns_bind; [apply Hd|]. intros d ? w _.
  revert w. apply M_returns_bind; [apply Hsl|]. intros [] ? w _. apply IH; lia.
Qed.
Lemma Do_returns maxAttempts :
  (0 < maxAttempts)%nat -> M_returns op -> (forall d, M_returns (time_Sleep d)) ->
  (forall a, M_returns (Duration a)) -> M_returns (Do maxAttempts Duration op).
Proof. intros. by apply Do_loop_returns. Qed.
(** It succeeds only by an operation that succeeded, the last one. *)
Lemma Do_loop_ok fuel attempt_ maxAttempts w w' :
  Do_loop fuel attempt_ maxAttempts Duration op w = (Ok tt, w') ->
  exists w1, op w1 = (Ok tt, w').
Proof.
  revert attempt_ w. induction fuel as [|fuel IH]; intros at_ w E; [done|]. cbn [Do_loop] in E.
  apply M_bind_ok in E as ([e|[]] & w1 & Ea & E).
  - destruct (_ =? _); [done|]. apply M_bind_ok in E as (d & w2 & _ & E).
    apply M_bind_ok in E as ([] & w3 & _ & E). by eapply IH.
  - injection E as <-. exists w. unfold attempt in Ea. by destruct (op w) as [[[]|e| |] w2]; simplify_eq.
Qed.
(** The rule for a loop whose operation leaves an assertion when it fails *)
Lemma Do_loop_wp fuel attempt_ maxAttempts (I : W -> Prop) (Q : W -> Prop) w :
  (0 < fuel)%nat -> 0 <= attempt_ -> attempt_ + Z.of_nat fuel = maxAttempts ->
  (forall w, I w -> wp op (fun r w' => match r with Ok _ => Q w' | Err _ => I w' | _ => False end) w) ->
  (forall a w, 0 <= a -> I w -> wp (Duration a) (fun r w' => is_ok r = true /\ I w') w) ->
  (forall d w, I w -> wp (time_Sleep d) (fun r w' => is_ok r = true /\ I w') w) ->
  I w -> wp (Do_loop fuel attempt_ maxAttempts Duration op)
           (fun r w' => match r with Ok _ => Q w' | Err _ => I w' | _ => False end) w.
Proof.
  intros Hf Ha Hm Hop Hd Hsl. revert attempt_ w Hf Ha Hm.
  induction fuel as [|fuel IH]; intros at_ w Hf Ha Hm Hw; [lia|]. cbn [Do_loop].
  wp_step. wp_step. eapply wp_mono; [by apply Hop|]. intros [[]|e| |] w1 H1; try done.
  destruct (Z.eqb_spec (at_ + 1) maxAttempts) as [|Hne]; [done|].
  wp_step. eapply wp_mono; [apply Hd; [lia|done]|]. intros [d|?| |] w2 [? H2]; try done.
  wp_step. eapply wp_mono; [by apply Hsl|]. intros [[]|?| |] w3 [? H3]; try done.
  apply IH; [lia..|done].
Qed.
End BackoffProofs.

(** The delays of the exponential strategy grow up to ten seconds and stay there. *)
Lemma Exponential_Duration_bounds {W} `{!Clock W} attempt_ (w w' : W) d :
  (forall n w w' j, rand_Intn n w = (Ok j, w') -> 0 <= j < n) -> 0 <= attempt_ ->
  Exponential_Duration Exponential attempt_ w = (Ok d, w') -> 1000 <= d <= 10000.
Proof.
  intros Hr Ha E. apply M_bind_ok in E as (j & w1 & Ej & E). apply Hr in Ej.
  pose proof (Z.pow_pos_nonneg 2 attempt_ ltac:(lia) ltac:(lia)).
  unfold Exponential, es_Min, es_Max, es_MaxJitter in *.
  destruct (Z.ltb_spec 10000 (0 + 2 ^ attempt_ * 1000 + j)); injection E as <- <-; lia.
Qed.

(** ** Who holds what *)
Definition np_held (p : NodeP2P) (r : resource) : Prop :=
  match r with
  | RHost => np_host p = true
  | RGossip => np_gsOut p = true
  | RDiscovery => np_dv5Udp p = true
  | _ => False
  end.

Section Ownership.
Context {W : Type} `{!NodeEnv W} `{!NodeEnvLaws W}.

Lemma wp_close r Q t w :
  (forall err w', Q (Ok err) (t ++ [Closed r], w')) -> wp (close_ r) Q (t, w).
Proof. intros HQ. unfold close_. wp_step. apply wp_logev. apply wp_ext. apply HQ. Qed.

(** A closing only ends a part that is there. *)
Lemma wp_close_if (b : bool) r Q t w :
  (forall err t' w', extends t t' -> (forall r', live t' r' -> live t r' /\ (b = true -> r' <> r)) ->
     Q (Ok err) (t', w')) ->
  wp (if b then close_ r else mret None) Q (t, w).
Proof.
  intros HQ. destruct b.
  - apply wp_close. intros err w'. apply HQ; [auto with resources|]. by intros r' [? ?]%live_Closed.
  - apply wp_ret. apply HQ; [auto with resources|]. by intros r' ?.
Qed.
Lemma NodeP2P_Close_wp p Q t w :
  (forall errs t' w', extends t t' -> (forall r, live t' r -> live t r /\ ~ np_held p r) -> Q (Ok errs) (t', w')) ->
  wp (NodeP2P_Close p) Q (t, w).
Proof.
  intros HQ. unfold NodeP2P_Close. wp_step. apply wp_close_if. intros _ t1 w1 E1 H1.
  wp_step. apply wp_close_if. intros e2 t2 w2 E2 H2. wp_step. apply wp_close_if. intros e3 t3 w3 E3 H3.
  apply wp_ret. apply HQ; [by eapply extends_trans; [eapply extends_trans|]|].
  intros r [[[? N1]%H1 N2]%H2 N3]%H3. split; [done|].
  destruct r; cbn; intuition congruence.
Qed.
(** What the p2p set-up left behind when it failed *)
Definition setup_loss (t : Trace) (r : resource) : Prop :=
  (r = RHost \/ r = RPeerstore) /\ HostFailed ∈ t \/ r = RUDP /\ DiscoveryFailed ∈ t.
Lemma NodeP2P_init_wp t w :
  wp NodeP2P_init (fun r '(p, (t', _)) => match r with
    | Ok _ => (forall r, live t' r -> live t r \/ np_held p r) /\ (np_host p = true \/ NoHost ∈ t')
    | Err _ => forall r, live t' r -> live t r \/ np_held p r \/ setup_loss t' r
    | _ => False end) (nodeP2P0, (t, w)).
Proof.
  unfold NodeP2P_init. wp_step. wp_step. wp_step. eapply wp_mono; [apply setup_Host_opens|].
  intros [[|]|e| |] [t1 w1] H1; try done.
  2:{ subst t1. wp_go. split; [intros r Hr; left; by apply live_seen in Hr|]. right. set_solver. }
  2:{ wp_go. intros r Hr. apply live_seen in Hr; [|done]. unfold setup_loss.
      destruct (H1 r Hr) as [?|?]; [by left|right; right; left]. split; [done|set_solver]. }
  wp_go. destruct (NewGossip _).1.
  { wp_go. intros r [Hr| ->]%H1; cbn; auto. }
  wp_go. eapply wp_mono; [apply setup_Discovery_opens|].
  intros [[|]|e| |] [t2 w2] H2; try done; wp_go.
  - split; [|by left]. intros r [[->|[?| ->]%H1]%live_Opened| ->]%H2; cbn; auto.
  - subst t2. split; [|by left]. intros r [->|[?| ->]%H1]%live_Opened; cbn; auto.
  - intros r Hr. apply live_seen in Hr; [|done].
    destruct (H2 r Hr) as [[->|[?| ->]%H1]%live_Opened| ->]; cbn; auto.
    right. right. right. split; [done|set_solver].
Qed.
Lemma NewNodeP2P_wp t w :
  wp NewNodeP2P (fun r '(t', _) => match r with
    | Ok (Some p) => forall r, live t' r -> live t r \/ np_held p r
    | Ok None => NoHost ∈ t'
    | Err _ => forall r, live t' r -> live t r \/ setup_loss t' r
    | _ => False end) (t, w).
Proof.
  pose proof (NodeP2P_init_wp t w) as Hi. unfold wp, NewNodeP2P in *.
  destruct (NodeP2P_init (nodeP2P0, (t, w))) as [[[]|e| |] [p [t' w']]]; cbn in *; try done.
  - destruct Hi as [Hl Hi]. by destruct (np_host p), Hi.
  - apply (wp_bind (NodeP2P_Close p)). apply NodeP2P_Close_wp. intros errs t2 w2 E2 H2. apply wp_throw.
    intros r [Hr Hn]%H2. destruct (Hi r Hr) as [?|[?|Hs]]; [by left|done|right].
    unfold setup_loss in *. destruct Hs as [[? ?]|[? ?]]; auto.
Qed.
Lemma close_all_wp (f : role -> resource) l msg result Q t w :
  (forall errs t' w', extends t t' ->
     (forall r, live t' r -> live t r /\ (forall x, x ∈ l -> r <> f x)) -> Q (Ok errs) (t', w')) ->
  wp (close_all f l msg result) Q (t, w).
Proof.
  revert result t w. induction l as [|x l IH]; intros result t w HQ; cbn [close_all].
  - apply wp_ret. apply HQ; [auto with resources|]. intros r Hr. split; [done|]. by intros x ?%elem_of_nil.
  - wp_step. apply wp_close. intros err w1. apply IH. intros errs t' w' E' H'.
    apply HQ; [by eapply extends_trans; [|exact E']; auto with resources|].
    intros r [[Hr Hne]%live_Closed Hl]%H'. split; [done|]. intros y [->|]%elem_of_cons; auto.
Qed.
End Ownership.

Section Lifecycle.
Context `{GethTypes} `{LRU} {W : Type} `{!NodeEnv W} `{!NodeEnvLaws W}.
#[local] Existing Instance local_Clock.

Definition held (n : OpNode) (r : resource) : Prop :=
  match r with
  | RClient L1Role => is_Some (on_l1Source n)
  | RClient RPCRole => False
  | RClient who => who ∈ on_l2Nodes n
  | RContext => True
  | RHeadsSub => on_l1HeadsSub n = true
  | RHost | RGossip | RDiscovery => exists p, on_p2pNode n = Some p /\ np_held p r
  | RSigner => on_p2pSigner n = true
  | RDriver who => who ∈ on_l2Engines n
  | RServer => exists s, on_server n = Some s /\ sv_httpServer s = true
  | RPeerstore | RUDP => False
  end.
(** Every live resource is the node's, or one of [lost]. *)
Definition owned (lost : resource -> Prop) (n : OpNode) (t : Trace) : Prop :=
  forall r, live t r -> held n r \/ lost r.

(** *** Dialling *)
Lemma dial_wp who addr t w :
  wp (dialRPCClientWithBackoff who addr) (fun r '(t', _) => match r with
    | Ok c => c = Some who /\ t' = t ++ [Opened (RClient who)]
    | Err _ => t' = t
    | _ => False end) (t, w).
Proof.
  set (I := fun s : option role * (Trace * W) => s.2.1 = t).
  set (Q := fun s : option role * (Trace * W) => s.1 = Some who /\ s.2.1 = t ++ [Opened (RClient who)]).
  assert (Hd : wp (Do 10 (Exponential_Duration Exponential) (dial_op who addr))
    (fun r s => match r with Ok _ => Q s | Err _ => I s | _ => False end) (None, (t, w))).
  { apply Do_loop_wp; [lia..| | | |done].
    - intros [ret [t1 w1]] Ht. change (t1 = t) in Ht. subst t1. unfold dial_op. wp_go.
      destruct (DialContext addr w1).1; wp_go; done.
    - intros a [ret [t1 w1]] _ Ht. unfold Exponential_Duration. wp_step. cbn [Exponential es_MaxJitter].
      cbn. unfold wp at 1. cbn. unfold call. cbn. pose proof (rand_Intn_returns 250 w1 ltac:(lia)) as Hr.
      destruct (rand_Intn 250 w1) as [[j| | |] w2]; try done. cbn.
      destruct (_ <? _); apply wp_ret; done.
    - intros d [ret [t1 w1]] Ht. unfold wp, time_Sleep, local_Clock, call. cbn.
      pose proof (time_Sleep_returns d w1) as Hr.
      destruct (time_Sleep d w1) as [[] w2]; done. }
  unfold wp, dialRPCClientWithBackoff in *.
  destruct (Do 10 _ _ _) as [[[]| | |] [ret [t1 w1]]]; try done.
Qed.

(** *** Opening *)
Lemma owned_seen lost n t e : (forall r, e <> Opened r) -> owned lost n t -> owned lost n (t ++ [e]).
Proof. intros He Ho r Hr%live_seen; auto. Qed.
Lemma owned_opened (lost : resource -> Prop) n n' t r0 :
  owned lost n t -> (forall r, held n r -> held n' r) -> held n' r0 \/ lost r0 -> owned lost n' (t ++ [Opened r0]).
Proof. intros Ho Hh Hr0 r [->|Hr]%live_Opened; [done|]. destruct (Ho r Hr); auto. Qed.
Lemma owned_lost (lost lost' : resource -> Prop) n t :
  (forall r, lost r -> lost' r) -> owned lost n t -> owned lost' n t.
Proof. intros Hl Ho r Hr. destruct (Ho r Hr); auto. Qed.

Definition bad_config (cfg : NodeConfig) : Prop :=
  exists e, SourceConfig_Check (L1_DefaultConfig (nc_Rollup cfg) (nc_L1TrustRPC cfg)) = Err e.
Definition no_loss (r : resource) : Prop := False.
Definition L1_loss (cfg : NodeConfig) (r : resource) : Prop := r = RClient L1Role /\ bad_config cfg.
Definition RPC_loss (r : resource) : Prop := r = RClient RPCRole.

(** What is opened later is not there yet. *)
Definition fresh (n : OpNode) : Prop := on_server n = None /\ on_p2pNode n = None /\ on_p2pSigner n = false.

Lemma initL1_wp cfg t w :
  owned no_loss OpNode0 t ->
  wp (initL1 cfg) (fun r '(n, (t', _)) => match r with
    | Ok _ => owned no_loss n t' /\ fresh n
    | Err _ => owned (L1_loss cfg) n t' /\ fresh n
    | _ => False end) (OpNode0, (t, w)).
Proof.
  intros Ho. unfold initL1. wp_step. wp_step. wp_step. eapply wp_mono; [apply dial_wp|].
  intros [c|e| |] [t1 w1] H1; try done; cbn [map_err].
  2:{ subst t1. split; [|done]. by eapply owned_lost; [|exact Ho]. }
  destruct H1 as [-> ->]. unfold NewSource, bad_config, L1_loss.
  destruct (SourceConfig_Check _) as [[]|e| |] eqn:Ec; cbn [map_err mbind res_bind].
  - wp_go. split; [|done].
    eapply owned_opened; [|by intros r Hr|by left]. eapply owned_opened; [exact Ho| |left; by eexists].
    intros r Hr. destruct r as [[]| | | | | | | | | |]; cbn in *; try done; by destruct Hr.
  - wp_go. split; [|done]. eapply (owned_opened _ OpNode0); [by eapply owned_lost; [|exact Ho]|done|].
    right. split; [done|by exists e].
  - exfalso. revert Ec. unfold SourceConfig_Check, fail_if.
    repeat (case_match; cbn [mbind res_bind]); congruence.
  - exfalso. revert Ec. unfold SourceConfig_Check, fail_if.
    repeat (case_match; cbn [mbind res_bind]); congruence.
Qed.

Lemma initL2_wp addrs n t w :
  owned no_loss n t -> fresh n ->
  wp (initL2 addrs) (fun r '(n', (t', _)) => match r with
    | Ok _ | Err _ => owned no_loss n' t' /\ fresh n' | _ => False end) (n, (t, w)).
Proof.
  revert n t w. induction addrs as [|a addrs IH]; intros n t w Ho Hs; cbn [initL2]; [by apply wp_ret|].
  wp_step. wp_step. unfold AttachEngine. wp_go. eapply wp_mono; [apply dial_wp|].
  intros [c|e| |] [t1 w1] H1; try done; cbn [map_err fst snd].
  2:{ by subst t1. }
  destruct H1 as [-> ->]. cbn [client_ok]. wp_go. apply IH; [|done].
  eapply owned_opened; [exact Ho| |].
  - intros r Hr. destruct r as [[]| | | | | | | | | |]; cbn in *; rewrite ?elem_of_app; auto.
  - left. cbn. set_solver.
Qed.

Lemma initP2PSigner_wp cfg n t w :
  owned no_loss n t -> fresh n ->
  wp (initP2PSigner cfg) (fun r '(n', (t', _)) => match r with
    | Ok _ | Err _ => owned no_loss n' t' /\ on_server n' = None /\ on_p2pNode n' = None
    | _ => False end) (n, (t, w)).
Proof.
  intros Ho (Hs & Hp & Hg). unfold initP2PSigner. destruct (nc_P2PSigner cfg); [|by apply wp_ret].
  wp_go. destruct (SetupSigner w) as [[signer err] w1]; cbn [fst snd]. wp_step.
  assert (Ho' : owned no_loss (set_p2pSigner signer n) (if signer then t ++ [Opened RSigner] else t)).
  { destruct signer.
    - eapply owned_opened; [exact Ho| |by left]. intros [[]| | | | | | | | | |] Hr; cbn in *; auto.
    - intros r Hr. destruct (Ho r Hr) as [Hh|[]]. left. destruct r as [[]| | | | | | | | | |]; cbn in *; congruence || auto. }
  destruct signer; wp_go; destruct err; wp_go; done.
Qed.
Lemma initP2P_wp cfg n t w :
  owned no_loss n t -> on_server n = None -> on_p2pNode n = None ->
  wp (initP2P cfg) (fun r '(n', (t', _)) => match r with
    | Ok _ => owned no_loss n' t' /\ on_server n' = None
    | Err _ => owned (setup_loss t') n' t' /\ on_server n' = None
    | Panic => NoHost ∈ t'
    | OutOfFuel => False end) (n, (t, w)).
Proof.
  intros Ho Hs Hp. unfold initP2P. destruct (nc_P2P cfg); [|by apply wp_ret].
  wp_go. eapply wp_mono; [apply NewNodeP2P_wp|]. intros [[p|]|e| |] [t1 w1] H1; try done.
  - wp_go. split; [|done]. intros r [Hr|Hr]%H1.
    + destruct (Ho r Hr) as [Hh|[]]. left. destruct r as [[]| | | | | | | | | |]; cbn in *; auto.
      all: by destruct Hh as (? & ? & ?); simplify_eq.
    + left. destruct r; cbn in *; try done; by exists p.
  - split; [|done]. intros r [Hr|Hr]%H1; [|by right]. destruct (Ho r Hr) as [?|[]]. by left.
Qed.
Lemma initRPCServer_wp cfg n t w :
  owned no_loss n t -> on_server n = None ->
  wp (initRPCServer cfg) (fun r '(n', (t', _)) => match r with
    | Ok _ => owned RPC_loss n' t' /\ exists b, on_server n' = Some (mkRpcServer b true)
    | Err _ => owned RPC_loss n' t' /\ (on_server n' = None \/ ServerNotStarted ∈ t')
    | _ => False end) (n, (t, w)).
Proof.
  intros Ho Hs. unfold initRPCServer. wp_go. eapply wp_mono; [apply dial_wp|].
  intros [c|e| |] [t1 w1] H1; try done; cbn [map_err].
  2:{ subst t1. split; [|by left]. by eapply owned_lost; [|exact Ho]. }
  destruct H1 as [-> ->].
  assert (Ho' : forall b c, owned RPC_loss (set_server (Some (mkRpcServer b c)) n) (t ++ [Opened (RClient RPCRole)])).
  { intros b c. eapply owned_opened; [by eapply owned_lost; [|exact Ho]| |by right].
    intros r Hr. destruct r as [[]| | | | | | | | | |]; cbn in *; try done. destruct Hr as (? & ? & _). congruence. }
  wp_go. cbn [fst on_p2pNode set_server].
  apply (wp_mono _ (fun r '(n', (t', _)) => is_ok r = true /\ t' = t ++ [Opened (RClient RPCRole)] /\
    exists b, n' = set_server (Some (mkRpcServer b false)) n)).
  { destruct (on_p2pNode n); wp_go; split_and!; try done; [by exists true|by exists false]. }
  intros [[]| | |] [n' [t' w']] (? & -> & b & ->); try done. wp_go.
  destruct (server_Start w').1; wp_go.
  - split; [by apply owned_seen|right; set_solver].
  - split; [|by exists b]. eapply owned_opened; [apply (Ho' b false)| |left; by eexists].
    intros r Hr. destruct r as [[]| | | | | | | | | |]; cbn in *; try done. by destruct Hr as (? & [= <-] & ?).
Qed.

(** *** Closing *)
(** One step of the closing: what is live afterwards was live, and is not of [closed]. *)
Definition closes {A} (closed : resource -> Prop) (c : M (Trace * W) A) : Prop := forall t w,
  wp c (fun r '(t', _) => is_ok r = true /\ extends t t' /\ forall r, live t' r -> live t r /\ ~ closed r) (t, w).

Lemma closes_bind {A B} (P Q : resource -> Prop) (c : M (Trace * W) A) (f : A -> M (Trace * W) B) :
  closes P c -> (forall a, closes Q (f a)) -> closes (fun r => P r \/ Q r) (c ≫= f).
Proof.
  intros Hc Hf t w. wp_step. eapply wp_mono; [apply Hc|]. intros [a|?| |] [t1 w1] (Ha & E1 & H1); try done.
  eapply wp_mono; [apply Hf|]. intros r [t2 w2] (Hr & E2 & H2). split; [done|].
  split; [by eapply extends_trans|]. intros r' [[? Hn1]%H1 Hn2]%H2. split; [done|]. tauto.
Qed.
Lemma closes_ret {A} (a : A) : closes no_loss (mret a).
Proof. intros t w. apply wp_ret. split_and!; [done|auto with resources|]. intros r Hr. split; [done|by intros []]. Qed.
Lemma closes_close r : closes (eq r) (close_ r).
Proof.
  intros t w. apply wp_close. intros err w'. split_and!; [done|auto with resources|].
  intros r' [? ?]%live_Closed. auto.
Qed.
Lemma closes_close_if (b : bool) r : closes (fun r' => b = true /\ r' = r) (if b then close_ r else mret None).
Proof.
  intros t w. apply wp_close_if. intros err t' w' E Hr. split_and!; [done..|]. intros r' [? Hn]%Hr.
  split; [done|]. intros [? ?]. by apply Hn.
Qed.
Lemma closes_all f l msg result : closes (fun r => exists x, x ∈ l /\ r = f x) (close_all f l msg result).
Proof.
  intros t w. apply close_all_wp. intros errs t' w' E Hr. split_and!; [done..|]. intros r [? Hn]%Hr.
  split; [done|]. intros (x & Hx & ->). by eapply Hn.
Qed.
Lemma closes_weaken {A} (P Q : resource -> Prop) (c : M (Trace * W) A) :
  (forall r, Q r -> P r) -> closes P c -> closes Q c.
Proof.
  intros HQ Hc t w. eapply wp_mono; [apply Hc|]. intros r [t1 w1] (? & ? & H1). split_and!; [done..|].
  intros r' [? ?]%H1. auto.
Qed.
Lemma OpNode_Close_closes n :
  (forall b, on_server n <> Some (mkRpcServer b false)) -> closes (held n) (OpNode_Close n).
Proof.
  intros Hs. eapply closes_weaken.
  2:{ unfold OpNode_Close. apply (closes_bind (fun r => r = RServer /\ is_Some (on_server n))); [|intros _].
    { destruct (on_server n) as [[b [|]]|]; cbn [sv_httpServer]; [|by destruct (Hs b)|].
      - eapply closes_weaken; [|apply closes_close]. by intros r [-> _].
      - eapply closes_weaken; [|apply closes_ret]. by intros r [_ [? ?]]. }
    apply (closes_bind (fun r => exists p, on_p2pNode n = Some p /\ np_held p r)); [|intros result].
    { destruct (on_p2pNode n) as [p|].
      - eapply closes_weaken; [|apply (closes_bind (np_held p) no_loss)].
        + intros r (? & [= <-] & ?). by left.
        + intros t w. apply NodeP2P_Close_wp. by intros errs t' w' E Hr.
        + intros errs. destruct errs; apply closes_ret.
      - eapply closes_weaken; [|apply closes_ret]. by intros r (? & ? & _). }
    apply (closes_bind (fun r => on_p2pSigner n = true /\ r = RSigner)); [|intros result'].
    { destruct (on_p2pSigner n).
      - eapply closes_weaken; [|eapply closes_bind; [apply closes_close|intros; apply closes_ret]].
        intros r [_ ->]. by left.
      - eapply closes_weaken; [|apply closes_ret]. by intros r [? _]. }
    eapply closes_bind; [apply closes_close|intros _].
    eapply closes_bind; [apply closes_close_if|intros _].
    eapply closes_bind; [apply closes_all|intros result2].
    eapply closes_bind; [apply closes_all|intros _].
    apply (closes_bind (fun r => is_Some (on_l1Source n) /\ r = RClient L1Role)); [|intros; apply closes_ret].
    destruct (on_l1Source n).
    - eapply closes_weaken; [|apply closes_close]. by intros r [_ ->].
    - eapply closes_weaken; [|apply closes_ret]. by intros r [[? ?] _]. }
  intros r Hr. cbn beta. destruct r as [[]| | | | | | | | | |]; cbn in Hr; try (destruct Hr as (? & ? & ?));
    repeat first [left; solve [eauto] | right]; eauto 8.
Qed.

Lemma OpNode_init_wp cfg t w :
  owned no_loss OpNode0 t ->
  wp (OpNode_init cfg) (fun r '(n, (t', _)) => match r with
    | Ok _ => owned RPC_loss n t' /\ exists b, on_server n = Some (mkRpcServer b true)
    | Err _ => owned (fun r => RPC_loss r \/ L1_loss cfg r \/ setup_loss t' r) n t' /\
        (on_server n = None \/ ServerNotStarted ∈ t')
    | Panic => NoHost ∈ t'
    | OutOfFuel => False end) (OpNode0, (t, w)).
Proof.
  intros Ho. unfold OpNode_init. wp_step. eapply wp_mono; [by apply initL1_wp|].
  intros [[]|e| |] [n1 [t1 w1]] H1; try done.
  2:{ destruct H1 as [H1 (? & _)]. split; [|by left]. eapply owned_lost; [|exact H1]. auto. }
  wp_step. eapply wp_mono; [apply initL2_wp; apply H1|]. intros [[]|e| |] [n2 [t2 w2]] H2; try done.
  2:{ destruct H2 as [H2 (? & _)]. split; [|by left]. eapply owned_lost; [|exact H2]. by intros r []. }
  wp_step. eapply wp_mono; [apply initP2PSigner_wp; apply H2|]. intros [[]|e| |] [n3 [t3 w3]] H3; try done.
  2:{ destruct H3 as [H3 (? & _)]. split; [|by left]. eapply owned_lost; [|exact H3]. by intros r []. }
  destruct H3 as (Ho3 & Hs3 & Hp3). wp_step. eapply wp_mono; [by apply initP2P_wp|].
  intros [[]|e| |] [n4 [t4 w4]] H4; try done.
  2:{ destruct H4 as [H4 ?]. split; [|by left]. eapply owned_lost; [|exact H4]. auto. }
  destruct H4 as [Ho4 Hs4]. eapply wp_mono; [by apply initRPCServer_wp|].
  intros [[]|e| |] [n5 [t5 w5]] H5; try done.
  destruct H5 as [Ho5 ?]. split; [|done]. eapply owned_lost; [|exact Ho5]. by left.
Qed.
Lemma Start_engines_wp (lost : resource -> Prop) n engines t w :
  (forall x, x ∈ engines -> x ∈ on_l2Engines n) -> owned lost n t ->
  wp (Start_engines engines) (fun r '(t', _) => match r with
    | Ok _ | Err _ => owned lost n t' | _ => False end) (t, w).
Proof.
  revert t w. induction engines as [|x engines IH]; intros t w Hin Ho; cbn [Start_engines]; [by apply wp_ret|].
  wp_go. destruct (driver_Start x w).1; wp_go; [done|]. apply IH; [set_solver|].
  eapply owned_opened; [exact Ho|done|]. left. cbn. set_solver.
Qed.

End Lifecycle.

(** With a p2p set-up whose host is disabled the node does not start: it dereferences the
    nil p2p node. *)
Lemma initP2P_disabled_panics `{GethTypes} `{LRU} {W} `{!NodeEnv W} cfg n t (w w' : W) :
  nc_P2P cfg = true -> setup_Host (t, w) = (Ok false, (t, w')) ->
  (initP2P cfg (n, (t, w))).1 = Panic.
Proof.
  intros Ep Eh. unfold initP2P. rewrite Ep.
  unfold NewNodeP2P, NodeP2P_init, attempt, call, logev, modify, mbind, M_bind. cbn. rewrite Eh. by cbn.
Qed.
(** A node's own gossip does not come back to its drivers. *)
Lemma OnUnsafeL2Payload_self {D} self (l2Engines : list D) payload :
  OpNode_OnUnsafeL2Payload (Some self) self l2Engines payload = [].
Proof. unfold OpNode_OnUnsafeL2Payload. by rewrite bool_decide_true. Qed.
(** The signals are those of the headers received, in order, until the subscription ends. *)
Lemma WatchHeadChanges_headers `{GethTypes} headers rest r :
  WatchHeadChanges_step rest = inr r ->
  WatchHeadChanges (map NewHeader headers ++ [rest]) =
    ((fun h => mkL1BlockRef (header_Hash h) (wrap 64 (hdr_Number h)) (hdr_ParentHash h) (hdr_Time h)) <$> headers,
     Some r).
Proof.
  intros Er. induction headers as [|h headers IH]; cbn [map app WatchHeadChanges]; [by rewrite Er|].
  by rewrite IH.
Qed.

(** ** Examples: two engines; the L2 client of the RPC server stays open *)
Definition ToyNode (host server : bool) (bad : string) : NodeEnv unit := {|
  node_Clock := {| time_Sleep := fun _ => mret tt; rand_Intn := fun _ => mret 0 |};
  DialContext := fun addr w =>
    (if bool_decide (addr = bad) then inl (EMsg "refused") else inr None, w);
  node_Setup := {|
    setup_Check := None;
    setup_Host := if host then _ ← logev (Opened RHost); mret true else mret false;
    setup_Discovery := fun _ => _ ← logev (Opened RDiscovery); mret true;
  |};
  NewGossip := fun w => (None, w);
  host_TCPPorts := fun _ => [Some 9222];
  SetupSigner := fun w => (true, None, w);
  driver_Start := fun _ w => (None, w);
  server_Start := fun w => (if server then None else Some (EMsg "address already in use"), w);
  close_resource := fun _ w => (None, w) |}.
Definition node_config : NodeConfig :=
  mkNodeConfig "l1" ["engine"; "engine2"] "l2" false
    (mkConfig (mkGenesis (mkBlockID 100 10) (mkBlockID 200 0) 1000) 2 10 4 900 901 77 78 80 907 79) true true.
Definition live_after (t : Trace) : list resource :=
  omap (fun e => match e with
    | Opened r => if decide (Closed r ∈ t) then None else Some r | _ => None end) t.
Example OpNode_runs :
  let run env := @OpNode_New ToyGeth OneEntry unit env node_config ([], tt) in
  (match run (ToyNode true true "") with
   | (Ok n, s) => live_after (@OpNode_Close ToyGeth OneEntry unit (ToyNode true true "") n s).2.1 | _ => [] end,
   match run (ToyNode true true "engine2") with
   | (Err _, (t, _)) => Some (live_after t) | _ => None end,
   returns (run (ToyNode false true "")).1, returns (run (ToyNode true false "")).1) =
  ([RClient RPCRole], Some [], false, false).
Proof. reflexivity. Qed.
Lemma ToyNodeLaws host server bad : @NodeEnvLaws unit (ToyNode host server bad).
Proof.
  constructor; [done..|]. constructor.
  - intros t w. destruct host; wp_go; [|done]. intros x [->|?]%live_Opened; auto.
  - intros p t w. wp_go. intros x [->|?]%live_Opened; auto.
Qed.
