(* ===== verification/PeerAPI.v ===== *)
(** * Administration of peers

    op-node/p2p/rpc_server.go and rpc_api.go: what the node reports about its peers, and the
    blocking, protecting and connecting of peers on request. *)

From S2P Require Import Prelude.

(** ** The libp2p and discovery objects *)

(** Connectedness of a peer, and the direction of a connection *)
Inductive Connectedness := NotConnected | Connected | CanConnect | CannotConnect.
#[export] Instance Connectedness_eq_dec : EqDecision Connectedness.
Proof. solve_decision. Defined.
Inductive Direction := DirUnknown | DirInbound | DirOutbound.
(** Public keys, with the node identity that their hash gives *)
Inductive PubKey := TestBogusPublicKey (id : Z) | Secp256k1PublicKey (id : Z) | OtherPublicKey.
(** Values in the metadata of a peerstore *)
Inductive metadata := MString (s : string) | MUint64 (n : uint64) | MNode (enr : string).
(** Go's pair of a value, perhaps nil, and an error *)
Abbreviation pair_err A := (option A * option error)%type.

(** What one request finds: the peerstore, the network, the gossip topic and discovery.
    The connection manager, the gater, discovery and the local record may be nil. *)
Class PeerNode := {
  peer_String : Z -> string;
  host_ID : Z;
  pstore_PubKey : Z -> option PubKey;
  pstore_Get : Z -> string -> pair_err metadata;
  pstore_Addrs : Z -> list string;
  AddrInfoToP2pAddrs : Z -> list string -> error + list string;
  pstore_GetProtocols : Z -> list string * option error;
  pstore_LatencyEWMA : Z -> Z;
  pstore_Peers : list Z;
  nw_Connectedness : Z -> Connectedness;
  nw_ConnsToPeer : Z -> list Direction;
  nw_Peers : list Z;
  connMgr_IsProtected : option (Z -> bool);
  BlocksTopicPeers : list Z;
  gater_ListBlocked : option (list Z * list string * list string);   (* peers, subnets, addresses *)
  Dv5Local_ENR : option string;
  Dv5Udp_AllNodes : option (list string);
}.

(** ** rpc_api.go *)
Record PeerInfo := mkPeerInfo {
  pi_PeerID : Z;
  pi_NodeID : Z;
  pi_UserAgent : string;
  pi_ProtocolVersion : string;
  pi_ENR : string;
  pi_Addresses : list string;
  pi_Protocols : list string;
  pi_Connectedness : Connectedness;
  pi_Direction : Direction;
  pi_Protected : bool;
  pi_ChainID : uint64;
  pi_Latency : Z;
  pi_GossipBlocks : bool;
}.
Record PeerDump := mkPeerDump {
  pd_TotalConnected : Z;
  pd_Peers : gmap string PeerInfo;
  pd_BannedPeers : list Z;
  pd_BannedIPS : list string;
  pd_BannedSubnets : list string;
}.
Record PeerStats := mkPeerStats {
  ps_Connected : Z;
  ps_Table : Z;
  ps_BlocksTopic : Z;
  ps_Banned : Z;
  ps_Known : Z;
}.

(** ** rpc_server.go *)
Section PeerAPI.
Context `{PeerNode}.

(** The metadata is read when [Get] returns an error. *)
Definition read_metadata {A} (r : pair_err metadata) (cast : metadata -> option A) (default : A) : A :=
  match r with
  | (dat, Some _) => match dat ≫= cast with Some a => a | None => default end
  | (_, None) => default
  end.
Definition as_string (m : metadata) : option string := match m with MString s => Some s | _ => None end.
Definition as_uint64 (m : metadata) : option uint64 := match m with MUint64 n => Some n | _ => None end.
Definition as_node (m : metadata) : option string := match m with MNode s => Some s | _ => None end.

Definition dumpPeer (id : Z) : res PeerInfo :=
  NodeID ← (match pstore_PubKey id with
            | None => Ok 0
            | Some (TestBogusPublicKey n) | Some (Secp256k1PublicKey n) => Ok n
            | Some OtherPublicKey => Err (EMsg "unexpected pubkey type: ")
            end);
  Ok {|
    pi_PeerID := id;
    pi_NodeID := NodeID;
    pi_ProtocolVersion := read_metadata (pstore_Get id "ProtocolVersion") as_string "";
    pi_UserAgent := read_metadata (pstore_Get id "AgentVersion") as_string "";
    pi_ENR := read_metadata (pstore_Get id "ENR") as_node "";
    pi_Addresses := match AddrInfoToP2pAddrs id (pstore_Addrs id) with inr addrs => addrs | inl _ => [] end;
    pi_Connectedness := nw_Connectedness id;
    pi_Protocols := match pstore_GetProtocols id with (protocols, Some _) => protocols | (_, None) => [] end;
    pi_Direction := match nw_ConnsToPeer id with [] => DirUnknown | c :: _ => c end;
    pi_ChainID := read_metadata (pstore_Get id "optimismChainID") as_uint64 0;
    pi_Latency := pstore_LatencyEWMA id;
    pi_Protected := match connMgr_IsProtected with Some p => p id | None => false end;
    pi_GossipBlocks := false;
  |}.

Definition set_GossipBlocks (p : PeerInfo) : PeerInfo :=
  mkPeerInfo (pi_PeerID p) (pi_NodeID p) (pi_UserAgent p) (pi_ProtocolVersion p) (pi_ENR p) (pi_Addresses p)
    (pi_Protocols p) (pi_Connectedness p) (pi_Direction p) (pi_Protected p) (pi_ChainID p) (pi_Latency p) true.

(** [APIBackend.Self] *)
Definition Self : res PeerInfo :=
  info ← dumpPeer host_ID;
  let info := set_GossipBlocks info in
  Ok (mkPeerInfo (pi_PeerID info) (pi_NodeID info) (pi_UserAgent info) (pi_ProtocolVersion info)
        (match Dv5Local_ENR with Some enr => enr | None => pi_ENR info end)
        (pi_Addresses info) (pi_Protocols info) (pi_Connectedness info) (pi_Direction info)
        (pi_Protected info) (pi_ChainID info) 0 (pi_GossipBlocks info)).

(** [APIBackend.Peers]: a peer that cannot be dumped is left out. *)
Definition Peers_add (dump : Z * gmap string PeerInfo) (id : Z) : Z * gmap string PeerInfo :=
  match dumpPeer id with
  | Ok peerInfo =>
      (if decide (pi_Connectedness peerInfo = Connected) then dump.1 + 1 else dump.1,
       <[peer_String id := peerInfo]> dump.2)
  | _ => dump
  end.
Definition Peers (connected : bool) : PeerDump :=
  let peers := if connected then nw_Peers else pstore_Peers in
  let '(total, dumped) := foldl Peers_add (0, ∅) peers in
  let dumped := foldl (fun m id => alter set_GossipBlocks (peer_String id) m) dumped BlocksTopicPeers in
  match gater_ListBlocked with
  | Some (banned, subnets, ips) => mkPeerDump total dumped banned ips subnets
  | None => mkPeerDump total dumped [] [] []
  end.

(** [APIBackend.PeerStats] *)
Definition PeerStats_ : PeerStats := {|
  ps_Connected := zlen nw_Peers;
  ps_BlocksTopic := zlen BlocksTopicPeers;
  ps_Known := zlen pstore_Peers;
  ps_Banned := match gater_ListBlocked with Some (banned, _, _) => zlen banned | None => 0 end;
  ps_Table := match Dv5Udp_AllNodes with Some nodes => zlen nodes | None => 0 end;
|}.
Definition DiscoveryTable : res (list string) :=
  match Dv5Udp_AllNodes with
  | Some nodes => Ok nodes
  | None => Err (EMsg "discovery disabled")
  end.
End PeerAPI.

(** The methods that act through the gater, the connection manager and the host: each
    needs its object. *)
Definition NoConnectionGater : error := EMsg "no connection gater".
Definition NoConnectionManager : error := EMsg "no connection manager".
Class Gater (W : Type) := {
  gater_BlockPeer : Z -> M W unit;
  gater_UnblockPeer : Z -> M W unit;
  gater_ListBlockedPeers : M W (list Z);
  gater_BlockAddr : string -> M W unit;
  gater_UnblockAddr : string -> M W unit;
  gater_ListBlockedAddrs : M W (list string);
  gater_BlockSubnet : string -> M W unit;
  gater_UnblockSubnet : string -> M W unit;
  gater_ListBlockedSubnets : M W (list string);
}.
Class ConnManager (W : Type) := {
  connMgr_Protect : Z -> string -> M W unit;
  connMgr_Unprotect : Z -> string -> M W unit;
}.
Section Admin.
Context {W : Type} (gater : option (Gater W)) (manager : option (ConnManager W)).

Definition with_gater {A} (f : Gater W -> M W A) : M W A :=
  match gater with None => throw NoConnectionGater | Some g => f g end.
Definition BlockPeer p := with_gater (fun g => gater_BlockPeer p).
Definition UnblockPeer p := with_gater (fun g => gater_UnblockPeer p).
Definition ListBlockedPeers := with_gater (fun g => gater_ListBlockedPeers).
Definition BlockAddr ip := with_gater (fun g => gater_BlockAddr ip).
Definition UnblockAddr ip := with_gater (fun g => gater_UnblockAddr ip).
Definition ListBlockedAddrs := with_gater (fun g => gater_ListBlockedAddrs).
Definition BlockSubnet ipnet := with_gater (fun g => gater_BlockSubnet ipnet).
Definition UnblockSubnet ipnet := with_gater (fun g => gater_UnblockSubnet ipnet).
Definition ListBlockedSubnets := with_gater (fun g => gater_ListBlockedSubnets).

Definition with_manager {A} (f : ConnManager W -> M W A) : M W A :=
  match manager with None => throw NoConnectionManager | Some m => f m end.
Definition ProtectPeer p := with_manager (fun m => connMgr_Protect p "api-protected").
Definition UnprotectPeer p := with_manager (fun m => connMgr_Unprotect p "api-protected").

(** [ConnectPeer] and [DisconnectPeer], over the host's methods *)
Definition ConnectPeer {AddrInfo} (AddrInfoFromString : string -> res AddrInfo) (Connect : AddrInfo -> M W unit)
    (addr : string) : M W unit :=
  addrInfo ← lift (map_err (wrapv "bad peer address: ") (AddrInfoFromString addr));
  Connect addrInfo.
Definition DisconnectPeer (ClosePeer : Z -> M W unit) (id : Z) : M W unit := ClosePeer id.
End Admin.

(** ** What the dump holds *)
Section PeersSpec.
Context `{PeerNode} `{!Inj (=) (=) peer_String}.

Definition is_connected (kv : string * PeerInfo) : Prop := pi_Connectedness kv.2 = Connected.
#[local] Instance is_connected_dec kv : Decision (is_connected kv).
Proof. unfold is_connected. apply _. Defined.
Definition connected_in (m : gmap string PeerInfo) : Z := Z.of_nat (size (filter is_connected m)).

Lemma connected_in_insert m k i :
  m !! k = None ->
  connected_in (<[k := i]> m) = if decide (pi_Connectedness i = Connected) then connected_in m + 1 else connected_in m.
Proof.
  intros Hk. unfold connected_in. destruct (decide _) as [Hc|Hc].
  - rewrite map_filter_insert_True by exact Hc.
    rewrite map_size_insert_None by (rewrite map_lookup_filter_None; by left). lia.
  - rewrite map_filter_insert_False by exact Hc. by rewrite delete_id.
Qed.
Lemma connected_in_alter m k : connected_in (alter set_GossipBlocks k m) = connected_in m.
Proof.
  destruct (m !! k) as [i|] eqn:Ek; [|by rewrite (alter_id _ m k) by (intros; congruence)].
  rewrite <-(insert_delete_id m k i Ek) at 2. rewrite <-(insert_delete_id m k i Ek) at 1.
  rewrite alter_insert_eq, !connected_in_insert by apply lookup_delete_eq. done.
Qed.

Lemma Peers_add_spec ids :
  NoDup ids ->
  let d := foldl Peers_add (0, ∅) ids in
  (forall k info, d.2 !! k = Some info <-> exists id, id ∈ ids /\ peer_String id = k /\ dumpPeer id = Ok info) /\
  d.1 = connected_in d.2.
Proof.
  induction ids as [|id ids IH] using rev_ind; intros Hnd; cbn zeta.
  { cbn. split; [|reflexivity]. intros k info. rewrite lookup_empty. split; [done|].
    by intros (? & ?%elem_of_nil & _). }
  apply NoDup_app in Hnd as (Hnd & Hn & _). specialize (IH Hnd) as [Hl Ht]. rewrite foldl_app. cbn [foldl].
  set (d := foldl Peers_add (0, ∅) ids) in *.
  assert (Hnew : d.2 !! peer_String id = None).
  { destruct (d.2 !! peer_String id) as [i|] eqn:E; [|done]. apply Hl in E as (id' & Hin & Es & _).
    apply (inj peer_String) in Es as ->. exfalso. apply (Hn id Hin). by left. }
  assert (Hskip : is_ok (dumpPeer id) = false -> forall k i,
    (exists id', id' ∈ ids /\ peer_String id' = k /\ dumpPeer id' = Ok i) <->
    (exists id', id' ∈ ids ++ [id] /\ peer_String id' = k /\ dumpPeer id' = Ok i)).
  { intros Hno k i. split; intros (id' & Hin & Es & Ei); exists id'; (split; [|done]); [set_solver|].
    apply elem_of_app in Hin as [?|Hin%list_elem_of_singleton]; [done|]. subst id'. by rewrite Ei in Hno. }
  unfold Peers_add. destruct (dumpPeer id) as [info|e| |] eqn:Ed; cbn [fst snd].
  - split; [|rewrite connected_in_insert by done; by rewrite Ht]. intros k i. rewrite lookup_insert_Some, Hl.
    split.
    + intros [[<- <-]|[Hne (id' & Hin & Es & Ei)]]; [exists id|exists id']; set_solver.
    + intros (id' & [Hin|Hin%list_elem_of_singleton]%elem_of_app & <- & Ei).
      * right. split; [|eauto]. intros Es%(inj peer_String). subst. apply (Hn id' Hin). by left.
      * subst id'. left. split; [done|]. congruence.
  - split; [|done]. intros k i. rewrite Hl. by apply Hskip.
  - split; [|done]. intros k i. rewrite Hl. by apply Hskip.
  - split; [|done]. intros k i. rewrite Hl. by apply Hskip.
Qed.

Lemma mark_topic_lookup topic (m : gmap string PeerInfo) k :
  foldl (fun m id => alter set_GossipBlocks (peer_String id) m) m topic !! k =
    (if decide (k ∈ peer_String <$> topic) then set_GossipBlocks <$> m !! k else m !! k).
Proof.
  revert m. induction topic as [|id topic IH]; intros m; cbn [foldl fmap list_fmap].
  { rewrite decide_False; [done|apply not_elem_of_nil]. }
  rewrite IH. destruct (decide (k = peer_String id)) as [->|Hne].
  - rewrite lookup_alter_eq, (decide_True (P := _ ∈ _ :: _)) by set_solver. destruct (decide _); [|done].
    by destruct (m !! _).
  - rewrite lookup_alter_ne by done. destruct (decide (k ∈ _)), (decide (k ∈ _ :: _)); set_solver.
Qed.
Lemma mark_topic_connected topic (m : gmap string PeerInfo) :
  connected_in (foldl (fun m id => alter set_GossipBlocks (peer_String id) m) m topic) = connected_in m.
Proof.
  revert m. induction topic as [|id topic IH]; intros m; cbn [foldl]; [done|].
  by rewrite IH, connected_in_alter.
Qed.

(** The dump holds exactly the listed peers that can be dumped, each once, under its
    name; those of the blocks topic are marked; the total counts the connected ones among
    them.  It does so if the lists name no peer twice. *)
Lemma Peers_spec (connected : bool) :
  NoDup nw_Peers -> NoDup pstore_Peers ->
  let ids := if connected then nw_Peers else pstore_Peers in
  (forall k info, pd_Peers (Peers connected) !! k = Some info <->
    exists id i, id ∈ ids /\ peer_String id = k /\ dumpPeer id = Ok i /\
      info = if decide (id ∈ BlocksTopicPeers) then set_GossipBlocks i else i) /\
  pd_TotalConnected (Peers connected) = connected_in (pd_Peers (Peers connected)).
Proof.
  intros Hn1 Hn2 ids. assert (Hn : NoDup ids) by (unfold ids; by destruct connected).
  destruct (Peers_add_spec ids Hn) as [Hl Ht].
  assert (Hp : pd_Peers (Peers connected) =
    foldl (fun m id => alter set_GossipBlocks (peer_String id) m) (foldl Peers_add (0, ∅) ids).2 BlocksTopicPeers /\
    pd_TotalConnected (Peers connected) = (foldl Peers_add (0, ∅) ids).1).
  { unfold Peers. fold ids. destruct (foldl Peers_add (0, ∅) ids) as [total m].
    by destruct gater_ListBlocked as [[[? ?] ?]|]. }
  destruct Hp as [-> ->]. rewrite mark_topic_connected. split; [|done].
  intros k info. rewrite mark_topic_lookup. split.
  - intros E. destruct (decide (k ∈ peer_String <$> BlocksTopicPeers)) as [Hk|Hk].
    + apply fmap_Some_1 in E as (i & Ei & ->). apply Hl in Ei as (id & Hin & <- & Ei).
      exists id, i. rewrite decide_True; [done|]. by apply list_elem_of_fmap_inj_2 in Hk.
    + apply Hl in E as (id & Hin & <- & Ei). exists id, info. rewrite decide_False; [done|].
      intros ?. apply Hk. by apply list_elem_of_fmap_2.
  - intros (id & i & Hin & <- & Ei & ->).
    assert (El : (foldl Peers_add (0, ∅) ids).2 !! peer_String id = Some i) by (apply Hl; eauto).
    rewrite El. destruct (decide (id ∈ BlocksTopicPeers)) as [Hb|Hb].
    + rewrite decide_True by (by apply list_elem_of_fmap_2). done.
    + rewrite decide_False; [done|]. by intros ?%list_elem_of_fmap_inj_2.
Qed.
End PeersSpec.

(** Metadata that the peerstore has, that is without an error, is left out of the dump: the
    tests of the errors are inverted. *)
Lemma dumpPeer_drops `{PeerNode} id i :
  (forall key, (pstore_Get id key).2 = None) -> (pstore_GetProtocols id).2 = None -> dumpPeer id = Ok i ->
  pi_ENR i = "" /\ pi_UserAgent i = "" /\ pi_ProtocolVersion i = "" /\ pi_ChainID i = 0 /\ pi_Protocols i = [].
Proof.
  intros Hg Hp E. unfold dumpPeer in E.
  assert (Hm : forall A key cast (d : A), read_metadata (pstore_Get id key) cast d = d).
  { intros A key cast d. specialize (Hg key). unfold read_metadata.
    destruct (pstore_Get id key) as [dat err]. cbn in Hg. by subst err. }
  rewrite !Hm in E. destruct (pstore_GetProtocols id) as [protocols err]. cbn in Hp. subst err.
  destruct (pstore_PubKey id) as [[]|]; cbn in E; try done; by injection E as <-.
Qed.
(** Without a gater every method that needs one fails and changes nothing. *)
Lemma with_gater_none {W A} (f : Gater W -> M W A) w : with_gater None f w = (Err NoConnectionGater, w).
Proof. done. Qed.
