(* ===== verification/P2PConfig.v ===== *)
(** * Configuration of the peer-to-peer side

    op-node/p2p/config.go: reading the configuration from the command line, with the
    network key that is created and stored when there is none, and checking it;
    op-node/p2p/host.go: the libp2p host made from it; op-node/p2p/prepared.go. *)

From S2P Require Import Prelude Flags Resources.
From Stdlib Require Import Strings.String Strings.Ascii.
From stdpp Require Import strings pretty.
#[local] Open Scope Z_scope.

(** ** strings and encoding/hex *)

(** Go's ASCII white space *)
Definition isSpace (c : ascii) : bool :=
  let n := Ascii.nat_of_ascii c in bool_decide (9 <= n <= 13)%nat || bool_decide (n = 32%nat).
Fixpoint TrimLeft (s : string) : string :=
  match s with
  | String c r => if isSpace c then TrimLeft r else s
  | EmptyString => EmptyString
  end.
Fixpoint TrimRight (s : string) : string :=
  match s with
  | EmptyString => EmptyString
  | String c r =>
      match TrimRight r with
      | EmptyString => if isSpace c then EmptyString else String c EmptyString
      | r => String c r
      end
  end.
Definition TrimSpace (s : string) : string := TrimRight (TrimLeft s).
(** [strings.Split] at commas: one piece more than there are commas *)
Fixpoint Split (s : string) : list string :=
  match s with
  | EmptyString => [EmptyString]
  | String c r =>
      if bool_decide (c = ","%char) then EmptyString :: Split r
      else match Split r with [] => [String c EmptyString] | p :: ps => String c p :: ps end
  end.
Definition lower (c : ascii) : ascii :=
  let n := Ascii.nat_of_ascii c in
  if bool_decide (65 <= n <= 90)%nat then Ascii.ascii_of_nat (n + 32) else c.
Fixpoint ToLower (s : string) : string :=
  match s with EmptyString => EmptyString | String c r => String (lower c) (ToLower r) end.

Definition hexdigit (n : nat) : ascii := default "0"%char (String.get n "0123456789abcdef").
Definition unhex (c : ascii) : option nat :=
  let n := Ascii.nat_of_ascii c in
  if bool_decide (48 <= n <= 57)%nat then Some (n - 48)%nat
  else if bool_decide (97 <= n <= 102)%nat then Some (n - 87)%nat
  else if bool_decide (65 <= n <= 70)%nat then Some (n - 55)%nat
  else None.
Fixpoint EncodeToString (b : list byte) : string :=
  match b with
  | [] => EmptyString
  | x :: b =>
      let n := Z.to_nat (b2z x) in
      String (hexdigit (Nat.div n 16)) (String (hexdigit (Nat.modulo n 16)) (EncodeToString b))
  end.
Fixpoint DecodeString (s : string) : option (list byte) :=
  match s with
  | EmptyString => Some []
  | String h (String l r) =>
      h ← unhex h; l ← unhex l; b ← DecodeString r;
      Some (z2b (Z.of_nat (16 * h + l)%nat) :: b)
  | _ => None
  end.

(** ** What the configuration is made of *)
Class P2PLibs := {
  PrivKey : Type;
  IP : Type;
  NodeRecord : Type;
  Multiaddr : Type;
  MuxC : Type;
  SecC : Type;
  UnmarshalSecp256k1PrivateKey : list byte -> option PrivKey;
  PrivKey_Raw : PrivKey -> res (list byte);
  ParseIP : string -> option IP;
  To4 : IP -> option IP;
  IP_String : IP -> string;
  enode_Parse : string -> res NodeRecord;
  NewMultiaddr : string -> res Multiaddr;
  yamux_Constructor : res MuxC;
  mplex_Constructor : res MuxC;
  noise_Constructor : res SecC;
  tls_Constructor : res SecC;
  noise_ID : string;
  tls_ID : string;
}.
(** Files are kept apart from the rest of the world; an access may fail. *)
Abbreviation FileSystem := (gmap string string).
Class P2PEnv `{P2PLibs} (W : Type) := {
  open_fault : string -> W -> option error * W;
  read_fault : string -> W -> option error * W;
  write_fault : string -> W -> option error * W;
  GenerateSecp256k1Key : W -> res PrivKey * W;
  enode_OpenDB : string -> W -> option error * W;
  leveldb_NewDatastore : string -> W -> option error * W;
}.

(** A muxer or security protocol, with its identity; the zero value has none. *)
Record MsMuxC `{P2PLibs} := mkMsMuxC { mux_C : MuxC; mux_ID : string }.
Inductive MsSecC `{P2PLibs} := zeroSecC | mkMsSecC (sec_C : SecC) (sec_ID : string).
Arguments mkMsMuxC {_}.
Arguments zeroSecC {_}.
Arguments mkMsSecC {_}.

Inductive Datastore := MapDatastore | Leveldb (path : string).

#[export] Instance Datastore_eq_dec : EqDecision Datastore.
Proof. solve_decision. Defined.

Record P2PConfig `{P2PLibs} := mkP2PConfig {
  pc_Priv : option PrivKey;
  pc_DisableP2P : bool;
  pc_NoDiscovery : bool;
  pc_ListenIP : option IP;
  pc_ListenTCPPort : Z;
  pc_ListenUDPPort : Z;
  pc_AdvertiseIP : option IP;
  pc_AdvertiseTCPPort : Z;
  pc_AdvertiseUDPPort : Z;
  pc_Bootnodes : list NodeRecord;
  pc_DiscoveryDB : option string;    (* its path; the empty path is in memory *)
  pc_StaticPeers : list Multiaddr;
  pc_HostMux : list MsMuxC;
  pc_HostSecurity : list MsSecC;
  pc_NoTransportSecurity : bool;
  pc_PeersLo : uint64;
  pc_PeersHi : uint64;
  pc_PeersGrace : Z;
  pc_NAT : bool;
  pc_UserAgent : string;
  pc_TimeoutNegotiation : Z;
  pc_TimeoutAccept : Z;
  pc_TimeoutDial : Z;
  pc_Store : option Datastore;
  pc_ConnGater : bool;               (* the constructors are given *)
  pc_ConnMngr : bool;
}.

Arguments mkP2PConfig {_}.

Definition validatePort (p : uint64) : res Z :=
  if p =? 0 then Ok 0
  else if Z.shiftl 1 16 <=? p then Err (EMsg "port out of range: ")
  else if p <? 1024 then Err (EMsg "port is reserved for system: ")
  else Ok (wrap 16 p).

Section Load.
Context `{P2PLibs} {W : Type} `{!P2PEnv W} (ctx : cliContext).

Definition fs_ext {A} (f : W -> A * W) : M (FileSystem * W) A := fun fw =>
  let '(a, w) := f fw.2 in (Ok a, (fw.1, w)).
Definition fs_check (msg : string) (f : W -> option error * W) : M (FileSystem * W) unit :=
  err ← fs_ext f;
  match err with Some err => throw (wrapv msg err) | None => mret tt end.

(** [parsePriv]: [data] is longer than the prefix when this is taken off. *)
Definition strip0x (data : string) : string :=
  match data with
  | String a (String b (String c r)) =>
      if bool_decide (a = "0"%char) && bool_decide (b = "x"%char) then String c r else data
  | _ => data
  end.
Definition parsePriv (data : string) : res PrivKey :=
  match DecodeString (strip0x data) with
  | None => Err (EMsg "p2p priv key is not formatted in hex chars")
  | Some b =>
      match UnmarshalSecp256k1PrivateKey b with
      | None => Err (EMsg "failed to parse priv key from bytes")
      | Some p => Ok p
      end
  end.

(** [loadNetworkPrivKey]: a key file that does not exist is created with a new key. *)
Definition createNetworkPrivKey (keyPath : string) : M (FileSystem * W) PrivKey :=
  r ← fs_ext GenerateSecp256k1Key;
  p ← lift (map_err (wrapv "failed to generate new p2p priv key: ") r);
  b ← lift (map_err (wrapv "failed to encode new p2p priv key: ") (PrivKey_Raw p));
  _ ← fs_check "failed to store new p2p priv key: " (open_fault keyPath);
  _ ← modify (fun files => <[keyPath := ""]> files);
  _ ← fs_check "failed to write new p2p priv key: " (write_fault keyPath);
  _ ← modify (fun files => <[keyPath := EncodeToString b]> files);
  mret p.
Definition loadNetworkPrivKey : M (FileSystem * W) PrivKey :=
  let raw := GlobalString ctx (flag_Name OpNode.P2PPrivRaw) in
  if bool_decide (raw <> "") then lift (parsePriv raw)
  else
    let keyPath := GlobalString ctx (flag_Name OpNode.P2PPrivPath) in
    fault ← fs_ext (open_fault keyPath);
    files ← Prelude.get;
    match fault, files !! keyPath with
    | Some err, _ => throw (wrapv "failed to read priv key file: " err)   (* reads a nil file *)
    | None, None => createNetworkPrivKey keyPath
    | None, Some data =>
        _ ← fs_check "failed to read priv key file: " (read_fault keyPath);
        lift (parsePriv (TrimSpace data))
    end.

Definition loadIP (flag : string) : res (option IP) :=
  let s := GlobalString ctx flag in
  if bool_decide (s <> "") then
    match ParseIP s with
    | Some ip => Ok (Some ip)
    | None => Err (EMsg ("failed to parse IP " +:+ s))
    end
  else Ok None.

(** [loadListenOpts] *)
Definition loadListenOpts : res (option IP * Z * Z) :=
  ListenIP ← loadIP (flag_Name OpNode.ListenIP);
  ListenTCPPort ← map_err (wrapv "bad listen TCP port: ")
                    (validatePort (GlobalUint ctx (flag_Name OpNode.ListenTCPPort)));
  ListenUDPPort ← map_err (wrapv "bad listen UDP port: ")
                    (validatePort (GlobalUint ctx (flag_Name OpNode.ListenUDPPort)));
  Ok (ListenIP, ListenTCPPort, ListenUDPPort).

(** [loadDiscoveryOpts] *)
Fixpoint loadBootnodes (records : list string) : res (list NodeRecord) :=
  match records with
  | [] => Ok []
  | recordB64 :: records =>
      let recordB64 := TrimSpace recordB64 in
      if bool_decide (recordB64 = "") then loadBootnodes records
      else
        nodeRecord ← map_err (wrapv "bootnode record is invalid: ") (enode_Parse recordB64);
        rest ← loadBootnodes records;
        Ok (nodeRecord :: rest)
  end.
Definition discovery_path : string :=
  let dbPath := GlobalString ctx (flag_Name OpNode.DiscoveryPath) in
  let dbPath := if bool_decide (dbPath = "") then "opnode_discovery_db" else dbPath in
  if bool_decide (dbPath = "memory") then "" else dbPath.
Definition loadDiscoveryOpts : M (FileSystem * W) (bool * Z * Z * option IP * string * list NodeRecord) :=
  AdvertiseTCPPort ← lift (map_err (wrapv "bad advertised TCP port: ")
                             (validatePort (GlobalUint ctx (flag_Name OpNode.AdvertiseTCPPort))));
  AdvertiseUDPPort ← lift (map_err (wrapv "bad advertised UDP port: ")
                             (validatePort (GlobalUint ctx (flag_Name OpNode.AdvertiseUDPPort))));
  AdvertiseIP ← lift (loadIP (flag_Name OpNode.AdvertiseIP));
  _ ← fs_check "failed to open discovery db: " (enode_OpenDB discovery_path);
  Bootnodes ← lift (loadBootnodes (Split (GlobalString ctx (flag_Name OpNode.Bootnodes))));
  mret (GlobalBool ctx (flag_Name OpNode.NoDiscovery), AdvertiseTCPPort, AdvertiseUDPPort, AdvertiseIP,
        discovery_path, Bootnodes).

(** [yamuxC], [mplexC], [noiseC] and [tlsC] *)
Definition yamuxC : res MsMuxC := mtpt ← yamux_Constructor; Ok (mkMsMuxC mtpt "/yamux/1.0.0").
Definition mplexC : res MsMuxC := mtpt ← mplex_Constructor; Ok (mkMsMuxC mtpt "/mplex/6.7.0").
Definition noiseC : res MsSecC := stpt ← noise_Constructor; Ok (mkMsSecC stpt noise_ID).
Definition tlsC : res MsSecC := stpt ← tls_Constructor; Ok (mkMsSecC stpt tls_ID).

(** The loops of [loadLibp2pOpts] *)
Fixpoint loadStaticPeers (addrs : list string) : res (list Multiaddr) :=
  match addrs with
  | [] => Ok []
  | addr :: addrs =>
      let addr := TrimSpace addr in
      if bool_decide (addr = "") then loadStaticPeers addrs
      else
        a ← map_err (wrapv "failed to parse multi addr of static peer: ") (NewMultiaddr addr);
        rest ← loadStaticPeers addrs;
        Ok (a :: rest)
  end.
Fixpoint loadHostMux (l : list string) : res (list MsMuxC) :=
  match l with
  | [] => Ok []
  | v :: l =>
      let v := ToLower (TrimSpace v) in
      mc ← map_err (wrapv "failed to make constructor: ")
             (if bool_decide (v = "yamux") then yamuxC
              else if bool_decide (v = "mplex") then mplexC
              else Err (EMsg ("could not recognize mux " +:+ v)));
      rest ← loadHostMux l;
      Ok (mc :: rest)
  end.
(** [secArr] is the whole list; the accumulated protocols and the no-security flag *)
Fixpoint loadHostSecurity (secArr l : list string) (HostSecurity : list MsSecC) (none : bool)
    : res (list MsSecC * bool) :=
  match l with
  | [] => Ok (HostSecurity, none)
  | v :: l =>
      let v := ToLower (TrimSpace v) in
      '(sc, none) ←
        (if bool_decide (v = "none") then
           if (0 <? zlen HostSecurity) || (1 <? zlen secArr)
           then Err (EMsg "cannot mix secure transport protocols with no-security")
           else Ok (zeroSecC, true)
         else if bool_decide (v = "noise") then
           sc ← map_err (wrapv "failed to make constructor: ") noiseC; Ok (sc, none)
         else if bool_decide (v = "tls") then
           sc ← map_err (wrapv "failed to make constructor: ") tlsC; Ok (sc, none)
         else Err (EMsg ("could not recognize security " +:+ v)));
      loadHostSecurity secArr l (HostSecurity ++ [sc]) none
  end.
Definition loadStore : M (FileSystem * W) Datastore :=
  let peerstorePath := GlobalString ctx (flag_Name OpNode.PeerstorePath) in
  if bool_decide (peerstorePath = "") then
    throw (EMsg "peerstore path must be specified, use 'memory' to explicitly not persist peer records")
  else if bool_decide (peerstorePath = "memory") then mret MapDatastore
  else
    _ ← fs_check "failed to open leveldb db for peerstore: " (leveldb_NewDatastore peerstorePath);
    mret (Leveldb peerstorePath).

(** [NewConfig]; a configuration that could not be loaded is not returned. *)
Definition disabledConfig : P2PConfig :=
  mkP2PConfig None true false None 0 0 None 0 0 [] None [] [] [] false 0 0 0 false "" 0 0 0 None false false.
Definition loadLibp2pOpts : M (FileSystem * W) (list Multiaddr * list MsMuxC * (list MsSecC * bool) * Datastore) :=
  StaticPeers ← lift (loadStaticPeers (Split (GlobalString ctx (flag_Name OpNode.StaticPeers))));
  HostMux ← lift (loadHostMux (Split (GlobalString ctx (flag_Name OpNode.HostMux))));
  let secArr := Split (GlobalString ctx (flag_Name OpNode.HostSecurity)) in
  security ← lift (loadHostSecurity secArr secArr [] false);
  store ← loadStore;
  mret (StaticPeers, HostMux, security, store).
Definition P2P_NewConfig : M (FileSystem * W) P2PConfig :=
  if GlobalBool ctx (flag_Name OpNode.DisableP2P) then mret disabledConfig
  else
    p ← M_err (wrapv "failed to load p2p priv key: ") loadNetworkPrivKey;
    '(ListenIP, ListenTCPPort, ListenUDPPort) ←
      M_err (wrapv "failed to load p2p listen options: ") (lift loadListenOpts);
    '(NoDiscovery, AdvertiseTCPPort, AdvertiseUDPPort, AdvertiseIP, dbPath, Bootnodes) ←
      M_err (wrapv "failed to load p2p discovery options: ") loadDiscoveryOpts;
    '(StaticPeers, HostMux, (HostSecurity, NoTransportSecurity), store) ←
      M_err (wrapv "failed to load p2p options: ") loadLibp2pOpts;
    mret {|
      pc_Priv := Some p; pc_DisableP2P := false; pc_NoDiscovery := NoDiscovery;
      pc_ListenIP := ListenIP; pc_ListenTCPPort := ListenTCPPort; pc_ListenUDPPort := ListenUDPPort;
      pc_AdvertiseIP := AdvertiseIP; pc_AdvertiseTCPPort := AdvertiseTCPPort;
      pc_AdvertiseUDPPort := AdvertiseUDPPort; pc_Bootnodes := Bootnodes; pc_DiscoveryDB := Some dbPath;
      pc_StaticPeers := StaticPeers; pc_HostMux := HostMux; pc_HostSecurity := HostSecurity;
      pc_NoTransportSecurity := NoTransportSecurity;
      pc_PeersLo := GlobalUint ctx (flag_Name OpNode.PeersLo);
      pc_PeersHi := GlobalUint ctx (flag_Name OpNode.PeersHi);
      pc_PeersGrace := GlobalDuration ctx (flag_Name OpNode.PeersGrace);
      pc_NAT := GlobalBool ctx (flag_Name OpNode.NAT);
      pc_UserAgent := GlobalString ctx (flag_Name OpNode.UserAgent);
      pc_TimeoutNegotiation := GlobalDuration ctx (flag_Name OpNode.TimeoutNegotiation);
      pc_TimeoutAccept := GlobalDuration ctx (flag_Name OpNode.TimeoutAccept);
      pc_TimeoutDial := GlobalDuration ctx (flag_Name OpNode.TimeoutDial);
      pc_Store := Some store; pc_ConnGater := true; pc_ConnMngr := true |}.

(** [Config.Check] and [TargetPeers] *)
Definition P2PConfig_Check (conf : P2PConfig) : res unit :=
  if pc_DisableP2P conf then Ok tt
  else
    _ ← fail_if (bool_decide (pc_Store conf = None))
          (EMsg "p2p requires a persistent or in-memory peerstore, but found none");
    _ ← fail_if (negb (pc_NoDiscovery conf) && bool_decide (pc_DiscoveryDB conf = None))
          (EMsg "discovery requires a persistent or in-memory discv5 db, but found none");
    _ ← fail_if ((pc_PeersLo conf =? 0) || (pc_PeersHi conf =? 0) || (pc_PeersHi conf <? pc_PeersLo conf))
          (EMsg "peers lo/hi tides are invalid: ");
    _ ← fail_if (negb (pc_ConnMngr conf)) (EMsg "need a connection manager");
    fail_if (negb (pc_ConnGater conf)) (EMsg "need a connection gater").
Definition TargetPeers (conf : P2PConfig) : uint64 := pc_PeersLo conf.
End Load.

(** ** prepared.go *)
Definition Prepared_TargetPeers : Z := 20.
Definition Prepared_Check (HostP2P LocalNode UDPv5 : bool) : res unit :=
  _ ← fail_if (xorb (negb LocalNode) (negb UDPv5)) (EMsg "inconsistent discv5 setup: ");
  fail_if (LocalNode && negb HostP2P) (EMsg "cannot provide discovery without p2p host").

(** ** host.go *)

(** The libp2p objects that [Host] makes; an [AddrInfo] is a peer and its addresses. *)
Class HostLibs `{P2PLibs} (W : Type) := {
  PeerstoreT : Type;
  GaterT : Type;
  ConnMngrT : Type;
  HostT : Type;
  IDFromPublicKey : PrivKey -> res Z;
  NewPeerstore : Datastore -> M W PeerstoreT;
  ps_AddPrivKey : PeerstoreT -> Z -> PrivKey -> M W unit;
  ps_AddPubKey : PeerstoreT -> Z -> PrivKey -> M W unit;
  DefaultConnGater : option Datastore -> M W GaterT;
  is_ConnectionGater : GaterT -> bool;
  DefaultConnManager : uint64 -> uint64 -> Z -> M W ConnMngrT;
  TransportConstructor : res unit;
  AddrInfoFromP2pAddr : Multiaddr -> res (Z * list Multiaddr);
  ps_AddAddrs : HostT -> Z -> list Multiaddr -> M W unit;
  connMngr_Protect : ConnMngrT -> Z -> string -> M W unit;
  go_DialPeer : HostT -> Z -> M W unit;                  (* starts the dialling *)
}.
(** [lconf.Config], as far as it depends on the configuration *)
Record lconfConfig `{P2PLibs} `{!HostLibs W} := mkLconf {
  lc_UserAgent : string;
  lc_PeerKey : PrivKey;
  lc_Muxers : list MsMuxC;
  lc_SecurityTransports : list MsSecC;
  lc_Insecure : bool;
  lc_DialTimeout : Z;
  lc_ListenAddr : Multiaddr;
  lc_ConnectionGater : GaterT;
  lc_ConnManager : ConnMngrT;
  lc_NATManager : bool;
  lc_Peerstore : PeerstoreT;
}.
Arguments mkLconf {_ _ _}.

Section Host.
Context `{P2PLibs} {W : Type} `{!HostLibs W} (NewNode : lconfConfig -> M W HostT).

(** [addrFromIPAndPort]; a nil address prints as such. *)
Definition addrFromIPAndPort (ip : option IP) (port : Z) : res Multiaddr :=
  let '(ipScheme, ip) := match ip ≫= To4 with Some ip4 => ("ip4", Some ip4) | None => ("ip6", ip) end in
  let s := match ip with Some ip => IP_String ip | None => "<nil>" end in
  NewMultiaddr ("/" +:+ ipScheme +:+ "/" +:+ s +:+ "/tcp/" +:+ pretty port).

(** [extraHost]: the gater only if it offers the whole interface *)
Record extraHost := mkExtraHost {
  eh_Host : HostT;
  eh_gater : option GaterT;
  eh_connMgr : ConnMngrT;
}.
Fixpoint Host_static (h : HostT) (connMngr : ConnMngrT) (peers : list Multiaddr) : M W unit :=
  match peers with
  | [] => mret tt
  | peerAddr :: peers =>
      '(ID, Addrs) ← lift (map_err (wrapv "bad peer address: ") (AddrInfoFromP2pAddr peerAddr));
      _ ← ps_AddAddrs h ID Addrs;
      _ ← connMngr_Protect connMngr ID "static";
      _ ← go_DialPeer h ID;
      Host_static h connMngr peers
  end.
(** [Config.Host], with what it opens in the trace; a method call through a nil constructor
    or on a nil key panics.  The host takes over the peerstore, and closes it. *)
Definition P2PConfig_Host (conf : P2PConfig) : M (Trace * W) (option extraHost) :=
  if pc_DisableP2P conf then mret None
  else
    priv ← (match pc_Priv conf with Some p => mret p | None => lift Panic end);
    store ← (match pc_Store conf with Some s => mret s | None => lift Panic end);
    pid ← lift (map_err (wrapv "failed to derive pubkey from network priv key: ") (IDFromPublicKey priv));
    ps ← M_err (wrapv "failed to open peerstore: ") (call (NewPeerstore store));
    _ ← logev (Opened RPeerstore);
    _ ← M_err (wrapv "failed to set up peerstore with priv key: ") (call (ps_AddPrivKey ps pid priv));
    _ ← M_err (wrapv "failed to set up peerstore with pub key: ") (call (ps_AddPubKey ps pid priv));
    _ ← (if pc_ConnGater conf then mret tt else lift Panic);
    connGtr ← M_err (wrapv "failed to open connection gater: ") (call (DefaultConnGater (pc_Store conf)));
    _ ← (if pc_ConnMngr conf then mret tt else lift Panic);
    connMngr ← M_err (wrapv "failed to open connection manager: ")
                 (call (DefaultConnManager (pc_PeersLo conf) (pc_PeersHi conf) (pc_PeersGrace conf)));
    listenAddr ← lift (map_err (wrapv "failed to make listen addr: ")
                         (addrFromIPAndPort (pc_ListenIP conf) (pc_ListenTCPPort conf)));
    _ ← lift (map_err (wrapv "failed to create TCP transport: ") TransportConstructor);
    h ← call (NewNode (mkLconf (pc_UserAgent conf) priv (pc_HostMux conf) (pc_HostSecurity conf)
                   (pc_NoTransportSecurity conf) (pc_TimeoutDial conf) listenAddr connGtr connMngr
                   (pc_NAT conf) ps));
    _ ← logev (Taken RPeerstore);
    _ ← logev (Opened RHost);
    _ ← call (Host_static h connMngr (pc_StaticPeers conf));
    mret (Some (mkExtraHost h (if is_ConnectionGater connGtr then Some connGtr else None) connMngr)).
End Host.

(** ** strings and hex *)
Lemma unhex_hexdigit n : (n < 16)%nat -> unhex (hexdigit n) = Some n /\ isSpace (hexdigit n) = false /\ hexdigit n <> "x"%char.
Proof. intros Hn. do 16 (destruct n as [|n]; [done|]). lia. Qed.
Lemma hex_roundtrip b : DecodeString (EncodeToString b) = Some b.
Proof.
  induction b as [|x b IH]; [done|]. cbn [EncodeToString DecodeString].
  pose proof (b2z_range x) as Hx. set (n := Z.to_nat (b2z x)).
  destruct (unhex_hexdigit (n / 16)) as [-> _]; [apply Nat.Div0.div_lt_upper_bound; lia|].
  destruct (unhex_hexdigit (n mod 16)) as [-> _]; [apply Nat.mod_upper_bound; lia|]. rewrite IH. cbn [mbind option_bind].
  do 2 f_equal. rewrite <-(Nat.div_mod_eq n 16). unfold n. rewrite Z2Nat.id by lia. apply z2b_b2z.
Qed.
Lemma EncodeToString_inv b :
  EncodeToString b = EmptyString \/
  exists h l r, EncodeToString b = String h (String l r) /\ isSpace h = false /\ l <> "x"%char /\ h <> "x"%char.
Proof.
  destruct b as [|x b]; [by left|right]. pose proof (b2z_range x). set (n := Z.to_nat (b2z x)).
  destruct (unhex_hexdigit (n / 16)) as (_ & ? & ?); [apply Nat.Div0.div_lt_upper_bound; lia|].
  destruct (unhex_hexdigit (n mod 16)) as (_ & ? & ?); [apply Nat.mod_upper_bound; lia|].
  cbn [EncodeToString]. by eexists _, _, _.
Qed.
Lemma TrimRight_hex b : TrimRight (EncodeToString b) = EncodeToString b.
Proof.
  induction b as [|x b IH]; [done|]. cbn [EncodeToString TrimRight]. rewrite IH.
  pose proof (b2z_range x). set (n := Z.to_nat (b2z x)).
  destruct (unhex_hexdigit (n / 16)) as (_ & Hh & _); [apply Nat.Div0.div_lt_upper_bound; lia|].
  destruct (unhex_hexdigit (n mod 16)) as (_ & Hl & _); [apply Nat.mod_upper_bound; lia|].
  destruct (EncodeToString b); [by rewrite Hl|done].
Qed.
Lemma TrimSpace_hex b : TrimSpace (EncodeToString b) = EncodeToString b.
Proof.
  unfold TrimSpace. replace (TrimLeft (EncodeToString b)) with (EncodeToString b); [apply TrimRight_hex|].
  destruct (EncodeToString_inv b) as [->|(h & l & r & -> & Hh & _)]; [done|]. cbn [TrimLeft]. by rewrite Hh.
Qed.

Section ConfigProofs.
Context `{P2PLibs} {W : Type} `{!P2PEnv W}.
(** The key's encoding reads back. *)
Context (Unmarshal_Raw : forall p b, PrivKey_Raw p = Ok b -> UnmarshalSecp256k1PrivateKey b = Some p).

Lemma parsePriv_hex p b : PrivKey_Raw p = Ok b -> parsePriv (EncodeToString b) = Ok p.
Proof.
  intros Eb. unfold parsePriv. replace (strip0x (EncodeToString b)) with (EncodeToString b).
  - by rewrite hex_roundtrip, (Unmarshal_Raw _ _ Eb).
  - destruct (EncodeToString_inv b) as [->|(h & l & r & -> & _ & Hl & _)]; [done|].
    destruct r; [done|]. cbn [strip0x]. by rewrite (bool_decide_false (l = "x"%char)), andb_false_r.
Qed.
Lemma fs_check_ok msg f fs (w : W) u fs' w' :
  fs_check msg f (fs, w) = (Ok u, (fs', w')) -> fs' = fs /\ (f w).1 = None /\ w' = (f w).2.
Proof.
  unfold fs_check, fs_ext, mbind, M_bind. cbn. destruct (f w) as [[e|] w1]; [done|]. by intros [= _ <- <-].
Qed.

Lemma createNetworkPrivKey_ok keyPath fs (w : W) p fs' w' :
  createNetworkPrivKey keyPath (fs, w) = (Ok p, (fs', w')) ->
  exists b, PrivKey_Raw p = Ok b /\ fs' = <[keyPath := EncodeToString b]> (<[keyPath := ""]> fs).
Proof.
  intros E. apply M_bind_ok in E as (r & [fs1 w2] & Eg & E). unfold fs_ext in Eg. cbn in Eg.
  destruct (GenerateSecp256k1Key w) as [r0 w3]. injection Eg as -> <- <-.
  apply M_bind_ok in E as (p0 & s3 & Ep & E). apply lift_ok in Ep as [Ep <-].
  apply M_bind_ok in E as (b & s4 & Eb & E). apply lift_ok in Eb as [Eb%map_err_ok <-].
  apply M_bind_ok in E as ([] & [fs2 w4] & Ec & E). apply fs_check_ok in Ec as (-> & _ & _).
  apply M_bind_ok in E as ([] & s5 & Em & E). injection Em as <-.
  apply M_bind_ok in E as ([] & [fs3 w5] & Ec & E). apply fs_check_ok in Ec as (-> & _ & _).
  apply M_bind_ok in E as ([] & s6 & Em & E). injection Em as <-. injection E as <- <- <-. by exists b.
Qed.
Lemma loadNetworkPrivKey_reads ctx fs (w : W) content p :
  let keyPath := GlobalString ctx (flag_Name OpNode.P2PPrivPath) in
  GlobalString ctx (flag_Name OpNode.P2PPrivRaw) = "" -> fs !! keyPath = Some content -> parsePriv (TrimSpace content) = Ok p ->
  (open_fault keyPath w).1 = None -> (read_fault keyPath (open_fault keyPath w).2).1 = None ->
  exists w', loadNetworkPrivKey ctx (fs, w) = (Ok p, (fs, w')).
Proof.
  intros keyPath Hraw Hc Hp Ho Hr. unfold loadNetworkPrivKey. rewrite Hraw, bool_decide_false by tauto.
  fold keyPath. unfold fs_ext, fs_check, mbind, M_bind, Prelude.get, lift. cbn.
  destruct (open_fault keyPath w) as [f wb]. cbn in Ho, Hr. subst f. cbn. rewrite Hc. unfold fs_ext. cbn.
  destruct (read_fault keyPath wb) as [f wc]. cbn in Hr. subst f. cbn. rewrite Hp. by exists wc.
Qed.

(** The identity of a node on the network is stable: whatever key
    [loadNetworkPrivKey] returns, read from the command line, from the key file, or
    generated because there was no file, it returns again at the next start with the files
    it left, in any later world that lets it open and read the key file; and it never
    touches another file or overwrites an existing key. *)
Lemma loadNetworkPrivKey_stable ctx fs (w : W) p fs' w' :
  loadNetworkPrivKey ctx (fs, w) = (Ok p, (fs', w')) ->
  let keyPath := GlobalString ctx (flag_Name OpNode.P2PPrivPath) in
  (forall path, path <> keyPath \/ is_Some (fs !! path) -> fs' !! path = fs !! path) /\
  (forall w1, (open_fault keyPath w1).1 = None ->
    (read_fault keyPath (open_fault keyPath w1).2).1 = None ->
    exists w2, loadNetworkPrivKey ctx (fs', w1) = (Ok p, (fs', w2))).
Proof.
  intros E keyPath. destruct (decide (GlobalString ctx (flag_Name OpNode.P2PPrivRaw) = "")) as [Hraw|Hraw].
  2:{ unfold loadNetworkPrivKey in *. rewrite bool_decide_true in * by done.
      apply lift_ok in E as [E [= <- <-]]. split; [done|]. intros w1 _ _. exists w1. by rewrite E. }
  pose proof E as E0. unfold loadNetworkPrivKey in E0. rewrite Hraw, bool_decide_false in E0 by tauto.
  fold keyPath in E0. apply M_bind_ok in E0 as (fault & s1 & E1 & E0). unfold fs_ext in E1. cbn in E1.
  destruct (open_fault keyPath w) as [fault0 w1]. injection E1 as -> <-.
  apply M_bind_ok in E0 as (files & s2 & E2 & E0). injection E2 as <- <-. cbn [fst] in E0.
  destruct fault as [err|]; [done|]. destruct (fs !! keyPath) as [data|] eqn:Ed.
  - apply M_bind_ok in E0 as ([] & [fs1 w2] & Ec & E0). apply fs_check_ok in Ec as (-> & _ & _).
    apply lift_ok in E0 as [Ep [= <- <-]]. split; [done|]. intros. by eapply loadNetworkPrivKey_reads.
  - apply createNetworkPrivKey_ok in E0 as (b & Eb & ->). split.
    + intros path Hp. assert (path <> keyPath) by (destruct Hp as [?|[? ?]]; congruence).
      by rewrite !lookup_insert_ne.
    + intros. eapply loadNetworkPrivKey_reads; [done|by rewrite lookup_insert_eq| |done..].
      rewrite TrimSpace_hex. by apply parsePriv_hex.
Qed.

(** A port passes only as an unprivileged one, or as 0 for "any". *)
Definition port_ok (p : Z) : Prop := p = 0 \/ 1024 <= p < 2 ^ 16.
Lemma validatePort_ok p q : 0 <= p -> validatePort p = Ok q -> port_ok q.
Proof.
  unfold validatePort, port_ok. intros Hp E. destruct (Z.eqb_spec p 0) as [->|]; [injection E as <-; auto|].
  change (Z.shiftl 1 16) with (2 ^ 16) in E. destruct (Z.leb_spec (2 ^ 16) p); [done|].
  destruct (Z.ltb_spec p 1024); [done|]. apply Ok_inj in E as <-.
  rewrite wrap_small by (unfold in_range; lia). lia.
Qed.
Lemma Split_nonempty s : Split s <> [].
Proof. destruct s as [|c r]; cbn; [done|]. case_bool_decide; [done|]. by destruct (Split r). Qed.

(** The security protocols: either one absent protocol and no security, or protocols. *)
Definition security_ok (sec : list MsSecC) (none : bool) : Prop :=
  if none then sec = [zeroSecC] else Forall (fun sc => sc <> zeroSecC) sec.
Lemma security_step sc sec : sc <> zeroSecC -> security_ok sec false -> security_ok (sec ++ [sc]) false.
Proof. unfold security_ok. intros. apply Forall_app. by rewrite Forall_singleton. Qed.
Lemma loadHostSecurity_ok secArr l acc none sec b :
  (length acc + length l = length secArr)%nat -> security_ok acc none -> (none = true -> length secArr = 1%nat) ->
  loadHostSecurity secArr l acc none = Ok (sec, b) ->
  security_ok sec b /\ length sec = length secArr.
Proof.
  revert acc none. induction l as [|v l IH]; intros acc none Hlen Hok H1 E; cbn [loadHostSecurity] in E.
  { injection E as <- <-. cbn in Hlen. split; [done|lia]. }
  destruct none.
  { specialize (H1 eq_refl). cbn in Hok. subst acc. cbn in Hlen. lia. }
  apply res_bind_ok in E as ([sc none'] & Es & E).
  assert (Hs : none' = false /\ sc <> zeroSecC \/ none' = true /\ sc = zeroSecC /\ acc = [] /\ (length secArr <= 1)%nat).
  { revert Es. case_bool_decide; [|case_bool_decide; [|case_bool_decide; [|done]]].
    - case_match eqn:Ec; [done|]. intros [= <- <-]. right. apply orb_false_iff in Ec as [Ea Eb].
      apply Z.ltb_ge in Ea, Eb. unfold zlen in *. split_and!; try done; [by destruct acc|lia].
    - unfold noiseC. destruct noise_Constructor; cbn; intros [= <- <-]; by left.
    - unfold tlsC. destruct tls_Constructor; cbn; intros [= <- <-]; by left. }
  cbn in Hlen. destruct Hs as [[-> Hsc]|(-> & -> & -> & Hl)]; (eapply IH; [| | |exact E]).
  - rewrite length_app. cbn. lia.
  - by apply security_step.
  - done.
  - cbn in *. lia.
  - done.
  - intros _. cbn in Hlen. lia.
Qed.
Lemma loadHostMux_ok l mux :
  loadHostMux l = Ok mux ->
  length mux = length l /\ Forall (fun mc => mux_ID mc = "/yamux/1.0.0" \/ mux_ID mc = "/mplex/6.7.0") mux.
Proof.
  revert mux. induction l as [|v l IH]; intros mux E; cbn [loadHostMux] in E; [by injection E as <-|].
  apply res_bind_ok in E as (mc & Em & E). apply map_err_ok in Em. apply res_bind_ok in E as (rest & Er & E).
  injection E as <-. apply IH in Er as [Hl Hr]. split; [by cbn; rewrite Hl|]. constructor; [|done]. revert Em.
  unfold yamuxC, mplexC. case_bool_decide; [|case_bool_decide; [|done]].
  - destruct yamux_Constructor; cbn; intros [= <-]; by left.
  - destruct mplex_Constructor; cbn; intros [= <-]; by right.
Qed.

(** What a configuration that [NewConfig] returns is: unless p2p is disabled, every port
    is 0 or an unprivileged one; there is a network key, at least one muxer, each yamux or
    mplex, and either security protocols, none of them absent, or the single absent
    protocol of a host without transport security, never both. *)
Definition P2PConfig_wf (disabled : bool) (conf : P2PConfig) : Prop :=
  if disabled then conf = disabledConfig
  else
    Forall port_ok [pc_ListenTCPPort conf; pc_ListenUDPPort conf; pc_AdvertiseTCPPort conf; pc_AdvertiseUDPPort conf] /\
    is_Some (pc_Priv conf) /\
    pc_HostMux conf <> [] /\
    Forall (fun mc => mux_ID mc = "/yamux/1.0.0" \/ mux_ID mc = "/mplex/6.7.0") (pc_HostMux conf) /\
    pc_HostSecurity conf <> [] /\
    security_ok (pc_HostSecurity conf) (pc_NoTransportSecurity conf).

(** ... and [Check] accepts it exactly when the bounds on the number of peers are in order. *)
Lemma P2P_NewConfig_wf ctx fs (w : W) conf fs' w' :
  (forall flag, 0 <= GlobalUint ctx flag) ->
  P2P_NewConfig ctx (fs, w) = (Ok conf, (fs', w')) ->
  P2PConfig_wf (GlobalBool ctx (flag_Name OpNode.DisableP2P)) conf /\
  (P2PConfig_Check conf = Ok tt <->
     GlobalBool ctx (flag_Name OpNode.DisableP2P) = true \/ 0 < pc_PeersLo conf <= pc_PeersHi conf).
Proof.
  intros Hu E. unfold P2P_NewConfig in E. unfold P2PConfig_wf. destruct (GlobalBool ctx (flag_Name OpNode.DisableP2P)).
  { injection E as <- _ _. split; [done|]. split; [by left|done]. }
  apply M_bind_ok in E as (p & s1 & _ & E).
  apply M_bind_ok in E as ([[lip ltcp] ludp] & s2 & El & E). apply M_err_ok, lift_ok in El as [El <-].
  apply M_bind_ok in E as ([[[[[nd atcp] audp] aip] db] boot] & s3 & Ed & E). apply M_err_ok in Ed.
  apply M_bind_ok in E as ([[[sp mux] [sec none]] store] & s4 & Ep & E). apply M_err_ok in Ep.
  injection E as <- _. cbn.
  unfold loadListenOpts in El. go_inv.
  unfold loadDiscoveryOpts in Ed. m_inv. unfold loadLibp2pOpts in Ep. m_inv.
  match goal with H : loadHostMux _ = _ |- _ => apply loadHostMux_ok in H as [Hml Hmux] end.
  match goal with H : loadHostSecurity _ _ _ _ = _ |- _ =>
    apply loadHostSecurity_ok in H as [Hsec Hsl]; [|done|by constructor|done] end.
  pose proof (Split_nonempty (GlobalString ctx (flag_Name OpNode.HostMux))) as Hm.
  pose proof (Split_nonempty (GlobalString ctx (flag_Name OpNode.HostSecurity))) as Hs.
  split_and!; try done.
  - rewrite !Forall_cons, Forall_nil. split_and!; try done; eapply validatePort_ok; eauto.
  - intros ->. by destruct (Split (GlobalString ctx (flag_Name OpNode.HostMux))).
  - intros ->. by destruct (Split (GlobalString ctx (flag_Name OpNode.HostSecurity))).
  - rewrite andb_false_r. cbn [fail_if mbind res_bind].
    pose proof (Hu (flag_Name OpNode.PeersLo)) as Hlo. pose proof (Hu (flag_Name OpNode.PeersHi)) as Hhi.
    cbn [flag_Name OpNode.PeersLo OpNode.PeersHi] in *.
    generalize dependent (GlobalUint ctx "p2p.peers.lo"). intros lo Hlo.
    generalize dependent (GlobalUint ctx "p2p.peers.hi"). intros hi Hhi.
    destruct (Z.eqb_spec lo 0), (Z.eqb_spec hi 0), (Z.ltb_spec hi lo); cbn; split; done || lia.
Qed.
End ConfigProofs.

(** A host is not made when p2p is disabled: it is nil, without an error. *)
Lemma P2PConfig_Host_disabled `{P2PLibs} {W} `{!HostLibs W} NewNode conf t (w : W) :
  pc_DisableP2P conf = true -> P2PConfig_Host NewNode conf (t, w) = (Ok None, (t, w)).
Proof. intros E. unfold P2PConfig_Host. by rewrite E. Qed.

(** *** What [Host] opens *)
(** The libraries return. *)
Record host_libs_return `{P2PLibs} {W} `{!HostLibs W} (NewNode : lconfConfig -> M W HostT) : Prop := {
  hr_ID p : returns (IDFromPublicKey p) = true;
  hr_Peerstore s : M_returns (NewPeerstore s);
  hr_AddPrivKey ps id p : M_returns (ps_AddPrivKey ps id p);
  hr_AddPubKey ps id p : M_returns (ps_AddPubKey ps id p);
  hr_Gater s : M_returns (DefaultConnGater s);
  hr_Manager lo hi grace : M_returns (DefaultConnManager lo hi grace);
  hr_Multiaddr s : returns (NewMultiaddr s) = true;
  hr_Transport : returns TransportConstructor = true;
  hr_Node c : M_returns (NewNode c);
  hr_AddrInfo a : returns (AddrInfoFromP2pAddr a) = true;
  hr_AddAddrs h id l : M_returns (ps_AddAddrs h id l);
  hr_Protect m id tag : M_returns (connMngr_Protect m id tag);
  hr_Dial h id : M_returns (go_DialPeer h id);
}.
(** A configuration that [Host] and [Discovery] can work on *)
Definition P2PConfig_ready `{P2PLibs} (conf : P2PConfig) : Prop :=
  is_Some (pc_Priv conf) /\ is_Some (pc_Store conf) /\ is_Some (pc_DiscoveryDB conf) /\
  pc_ConnGater conf = true /\ pc_ConnMngr conf = true.

Lemma P2P_NewConfig_ready `{P2PLibs} {W} `{!P2PEnv W} ctx s conf s' :
  P2P_NewConfig (W:=W) ctx s = (Ok conf, s') -> pc_DisableP2P conf = true \/ P2PConfig_ready conf.
Proof.
  unfold P2P_NewConfig. intros E. destruct (GlobalBool _ _); [left; by injection E as <- _|right].
  apply M_bind_ok in E as (p & s1 & _ & E).
  apply M_bind_ok in E as ([[lip ltcp] ludp] & s2 & _ & E).
  apply M_bind_ok in E as ([[[[[nd atcp] audp] aip] db] boot] & s3 & _ & E).
  apply M_bind_ok in E as ([[[sp mux] [sec none]] store] & s4 & _ & E).
  injection E as <- _. unfold P2PConfig_ready. cbn. by split_and!.
Qed.

Section HostOpens.
Context `{P2PLibs} {W : Type} `{!HostLibs W} (NewNode : lconfConfig -> M W HostT).
Context (Hlibs : host_libs_return NewNode).

Lemma Host_static_returns h m peers : M_returns (Host_static h m peers).
Proof.
  induction peers as [|a peers IH]; [done|]. cbn [Host_static].
  apply M_returns_bind; [apply M_returns_lift|].
  { pose proof (hr_AddrInfo _ Hlibs a). by destruct (AddrInfoFromP2pAddr a). }
  intros [id l] ? w _. revert w. apply M_returns_bind; [apply Hlibs|]. intros ? ? w _.
  revert w. apply M_returns_bind; [apply Hlibs|]. intros ? ? w _.
  revert w. apply M_returns_bind; [apply Hlibs|]. intros ? ? w _. apply IH.
Qed.

(** Nothing stays open but the host that it answers.  When it fails, the peerstore may, or,
    once libp2p made the host, the host: at a static peer with a bad address. *)
Lemma P2PConfig_Host_opens conf t (w : W) :
  pc_DisableP2P conf = true \/ P2PConfig_ready conf ->
  wp (P2PConfig_Host NewNode conf) (fun r '(t', _) => match r with
    | Ok (Some _) => forall x, live t' x -> live t x \/ x = RHost
    | Ok None => t' = t
    | Err _ => forall x, live t' x -> live t x \/ x = RHost \/ x = RPeerstore
    | _ => False end) (t, w).
Proof.
  intros Hc. unfold P2PConfig_Host. destruct (pc_DisableP2P conf); [by wp_step|].
  destruct Hc as [|([priv ->] & [store ->] & _ & -> & ->)]; [done|].
  assert (Herr : forall x, live (t ++ [Opened RPeerstore]) x -> live t x \/ x = RHost \/ x = RPeerstore)
    by (intros x [->|?]%live_Opened; auto).
  do 4 wp_step. apply wp_lift_returns; [apply Hlibs|by auto|]. intros pid.
  apply wp_call_returns; [apply Hlibs|by auto|]. intros ps w1. wp_step. apply wp_logev.
  apply wp_call_returns; [apply Hlibs|done|]. intros _ w2.
  apply wp_call_returns; [apply Hlibs|done|]. intros _ w3. do 2 wp_step.
  apply wp_call_returns; [apply Hlibs|done|]. intros gtr w4. do 2 wp_step.
  apply wp_call_returns; [apply Hlibs|done|]. intros mngr w5.
  apply wp_lift_returns; [|done|].
  { unfold addrFromIPAndPort. repeat case_match; apply (hr_Multiaddr _ Hlibs). }
  intros addr. apply wp_lift_returns; [apply Hlibs|done|]. intros _.
  wp_step. apply wp_returns; [apply Hlibs| |done]. intros h w6.
  wp_step. apply wp_logev. wp_step. apply wp_logev.
  assert (Hok : forall x, live (((t ++ [Opened RPeerstore]) ++ [Taken RPeerstore]) ++ [Opened RHost]) x ->
    live t x \/ x = RHost).
  { intros x [->|[[->|?]%live_Opened ?]%live_Taken]%live_Opened; [auto|done|auto]. }
  wp_step. apply wp_returns; [apply Host_static_returns| |].
  - intros _ w7. wp_step. exact Hok.
  - intros e w7 x [?|?]%Hok; auto.
Qed.
End HostOpens.
(** Every static peer that was reached is protected and dialled: the loop stops only at an
    address it cannot read. *)
Lemma Host_static_ok `{P2PLibs} {W} `{!HostLibs W} h connMngr peers (w w' : W) :
  Host_static h connMngr peers w = (Ok tt, w') -> Forall (fun a => is_ok (AddrInfoFromP2pAddr a) = true) peers.
Proof.
  revert w. induction peers as [|a peers IH]; intros w E; [constructor|]. cbn [Host_static] in E.
  apply M_bind_ok in E as ([ID addrs] & w1 & Ea & E). apply lift_ok in Ea as [Ea%map_err_ok _].
  apply M_bind_ok in E as ([] & w2 & _ & E). apply M_bind_ok in E as ([] & w3 & _ & E).
  apply M_bind_ok in E as ([] & w4 & _ & E). constructor; [by rewrite Ea|by eapply IH].
Qed.

(** ** Witnesses: keys are their encoding *)
Definition ToyP2PLibs : P2PLibs := {|
  PrivKey := list byte; IP := string; NodeRecord := string; Multiaddr := string; MuxC := unit; SecC := unit;
  UnmarshalSecp256k1PrivateKey := Some; PrivKey_Raw := fun p => Ok p;
  ParseIP := Some; To4 := Some; IP_String := fun s => s;
  enode_Parse := fun s => Ok s; NewMultiaddr := fun s => Ok s;
  yamux_Constructor := Ok tt; mplex_Constructor := Ok tt; noise_Constructor := Ok tt; tls_Constructor := Ok tt;
  noise_ID := "/noise"; tls_ID := "/tls/1.0.0" |}.
Definition ToyP2PEnv : @P2PEnv ToyP2PLibs unit :=
  @Build_P2PEnv ToyP2PLibs unit (fun _ w => (None, w)) (fun _ w => (None, w)) (fun _ w => (None, w))
    (fun w => (Ok [x0a; xff], w)) (fun _ w => (None, w)) (fun _ w => (None, w)).
Definition toy_cli : cliContext := mkCli
  (fun flag => if bool_decide (flag = "p2p.priv.path") then "opnode_p2p_priv.txt"
               else if bool_decide (flag = "p2p.mux") then "yamux, MPLEX"
               else if bool_decide (flag = "p2p.security") then "noise"
               else if bool_decide (flag = "p2p.peerstore.path") then "memory" else "")
  (fun _ => false) (fun _ => 0)
  (fun flag => if bool_decide (flag = "p2p.peers.lo") then 20
               else if bool_decide (flag = "p2p.peers.hi") then 30 else 9222)
  (fun _ => 0) (fun _ => 0) (fun _ => []) (fun _ => false).

Lemma loadNetworkPrivKey_stable_witness : exists fs',
  @loadNetworkPrivKey ToyP2PLibs unit ToyP2PEnv toy_cli (∅, tt) = (Ok [x0a; xff], (fs', tt)) /\
  fs' !! "opnode_p2p_priv.txt" = Some "0aff" /\
  exists w2, @loadNetworkPrivKey ToyP2PLibs unit ToyP2PEnv toy_cli (fs', tt) = (Ok [x0a; xff], (fs', w2)).
Proof.
  destruct (@loadNetworkPrivKey ToyP2PLibs unit ToyP2PEnv toy_cli (∅, tt)) as [r [fs' []]] eqn:E.
  assert (Er : r = Ok [x0a; xff]) by (vm_compute in E; injection E as <- _; reflexivity). subst r.
  exists fs'. split; [reflexivity|]. split.
  - vm_compute in E. injection E as <-. reflexivity.
  - refine (proj2 (@loadNetworkPrivKey_stable ToyP2PLibs unit ToyP2PEnv _ toy_cli ∅ tt [x0a; xff] fs' tt E) tt _ _).
    + intros p b [= ->]. reflexivity.
    + reflexivity.
    + reflexivity.
Defined.
