(* ===== verification/DiscoverySetup.v ===== *)
(** * Setting up discovery

    op-node/p2p/discovery.go: the local record and the discovery service that the
    configuration of P2PConfig.v asks for, and the address that another node reads from a
    record; op-node/p2p/prepared.go: the same for services that are already set up.  Both
    are set-ups in the sense of Resources.v. *)

From S2P Require Import Prelude Types Batches Discovery Resources P2PConfig.
From stdpp Require Import strings gmap pretty.
#[local] Open Scope Z_scope.

Section Setup.
Context `{RLP} `{P2PLibs}.

(** A node record: its entries but for the address, and the address and key that
    [enode.Node] reads from it. *)
Record Node := mkNode {
  nd_entries : enode;
  nd_IP : option IP;
  nd_TCP : Z;
  nd_UDP : Z;
  nd_Pubkey : PrivKey;       (* the public half of the key *)
}.

(** go-ethereum's [enode.LocalNode]: what was set on it. *)
Record LocalNode := mkLocalNode {
  ln_DB : string;
  ln_key : PrivKey;
  ln_StaticIP : option IP;
  ln_FallbackUDP : Z;
  ln_TCP : Z;
  ln_entries : enode;
}.
Definition NewLocalNode (db : string) (key : PrivKey) : LocalNode := mkLocalNode db key None 0 0 ∅.
Definition SetStaticIP ip n := mkLocalNode (ln_DB n) (ln_key n) (Some ip) (ln_FallbackUDP n) (ln_TCP n) (ln_entries n).
Definition SetFallbackUDP p n := mkLocalNode (ln_DB n) (ln_key n) (ln_StaticIP n) p (ln_TCP n) (ln_entries n).
Definition Set_TCP p n := mkLocalNode (ln_DB n) (ln_key n) (ln_StaticIP n) (ln_FallbackUDP n) p (ln_entries n).
Definition set_entries e n := mkLocalNode (ln_DB n) (ln_key n) (ln_StaticIP n) (ln_FallbackUDP n) (ln_TCP n) e.

(** The record that it signs, when its address is the static one *)
Definition LocalNode_Node (n : LocalNode) : Node :=
  mkNode (ln_entries n) (ln_StaticIP n) (ln_TCP n) (ln_FallbackUDP n) (ln_key n).

(** net.ListenUDP answers the port it bound; discover.ListenV5 starts the service. *)
Class UDP (W : Type) := {
  net_ListenUDP : option IP -> Z -> M W Z;
  discover_ListenV5 : Z -> LocalNode -> list NodeRecord -> M W unit;
}.

Section Discovery.
Context {W : Type} `{!UDP W}.

(** The record that [Config.Discovery] makes before it listens; a nil key panics. *)
Definition discovery_record (conf : P2PConfig) (rollupCfg : Config) (tcpPort : Z) : res LocalNode :=
  priv ← (match pc_Priv conf with Some priv => Ok priv | None => Panic end);
  db ← (match pc_DiscoveryDB conf with Some db => Ok db | None => Panic end);
  let localNode := NewLocalNode db priv in
  let localNode := match pc_AdvertiseIP conf with Some ip => SetStaticIP ip localNode | None => localNode end in
  let localNode := if negb (pc_AdvertiseUDPPort conf =? 0)
                   then SetFallbackUDP (pc_AdvertiseUDPPort conf) localNode else localNode in
  tcp ← Discovery_tcp (pc_AdvertiseTCPPort conf) tcpPort (pc_ListenTCPPort conf);
  let localNode := Set_TCP tcp localNode in
  entries ← Set_ENR (Discovery_entry rollupCfg) (ln_entries localNode);
  Ok (set_entries entries localNode).

(** [Config.Discovery], with what it opens in the trace: nil, without an error, when
    discovery is disabled.  The service takes over the socket, and closes it. *)
Definition P2PConfig_Discovery (conf : P2PConfig) (rollupCfg : Config) (tcpPort : Z)
    : M (Trace * W) (option LocalNode) :=
  if pc_NoDiscovery conf then mret None
  else
    localNode ← lift (discovery_record conf rollupCfg tcpPort);
    port ← call (net_ListenUDP (pc_ListenIP conf) (pc_ListenUDPPort conf));
    _ ← logev (Opened RUDP);
    let localNode := if pc_ListenUDPPort conf =? 0 then SetFallbackUDP port localNode else localNode in
    _ ← call (discover_ListenV5 port localNode (pc_Bootnodes conf));
    _ ← logev (Taken RUDP);
    _ ← logev (Opened RDiscovery);
    mret (Some localNode).

(** [Prepared.Discovery], on its local node if it has one *)
Definition Prepared_Discovery (localNode : option LocalNode) (rollupCfg : Config) (tcpPort : Z)
    : res (option LocalNode) :=
  match localNode with
  | None => Ok None
  | Some n =>
      entries ← Set_ENR (Discovery_entry rollupCfg) (ln_entries n);
      let n := set_entries entries n in
      Ok (Some (if negb (tcpPort =? 0) then Set_TCP tcpPort n else n))
  end.
End Discovery.

(** [enrToAddrInfo]: the peer and its address *)
Definition enrToAddrInfo {W} `{!HostLibs W} (r : Node) : res (Z * list Multiaddr) :=
  let '(ipScheme, ip) := match nd_IP r ≫= To4 with
                         | Some ip4 => ("ip4", Some ip4) | None => ("ip6", nd_IP r) end in
  let s := match ip with Some ip => IP_String ip | None => "<nil>" end in
  mAddr ← map_err (wrapv "could not construct multi addr: ")
            (NewMultiaddr ("/" +:+ ipScheme +:+ "/" +:+ s +:+ "/tcp/" +:+ pretty (nd_TCP r)));
  peerID ← map_err (wrapv "could not compute peer ID from pubkey for multi-addr: ")
             (IDFromPublicKey (nd_Pubkey r));
  Ok (peerID, [mAddr]).
End Setup.

(** ** What other nodes find *)
Section Found.
Context `{RLPLaws} `{P2PLibs}.

(** The record that discovery advertises: other nodes accept it exactly when they are of
    the same chain; it has the advertised address and key, and a TCP port, the advertised
    one if there is one. *)
Lemma discovery_record_found conf rollupCfg tcpPort n cfg :
  discovery_record conf rollupCfg tcpPort = Ok n ->
  FilterEnodes cfg (ln_entries n) =
    bool_decide (wrap 64 (cfg_L2ChainID cfg) = wrap 64 (cfg_L2ChainID rollupCfg)) /\
  pc_Priv conf = Some (ln_key n) /\ ln_StaticIP n = pc_AdvertiseIP conf /\
  ln_TCP n <> 0 /\ (pc_AdvertiseTCPPort conf <> 0 -> ln_TCP n = pc_AdvertiseTCPPort conf) /\
  ln_FallbackUDP n = pc_AdvertiseUDPPort conf.
Proof.
  unfold discovery_record. intros E.
  apply res_bind_ok in E as (priv & Ep & E). apply res_bind_ok in E as (db & _ & E).
  apply res_bind_ok in E as (tcp & Et & E). apply res_bind_ok in E as (entries & Ee & E).
  injection E as <-. cbn [ln_entries ln_key ln_StaticIP ln_TCP ln_FallbackUDP set_entries Set_TCP].
  destruct (pc_Priv conf) as [p|]; [|done]. injection Ep as ->.
  match type of Ee with Set_ENR _ ?node = _ =>
    destruct (FilterEnodes_advertised node rollupCfg cfg) as (node' & En & _ & _ & Hf) end.
  rewrite Ee in En. injection En as <-. split; [exact Hf|].
  unfold Discovery_tcp in Et.
  destruct (Z.eqb_spec (pc_AdvertiseTCPPort conf) 0), (Z.eqb_spec tcpPort 0),
    (Z.eqb_spec (pc_ListenTCPPort conf) 0); cbn in Et; try done; injection Et as <-;
    destruct (pc_AdvertiseIP conf); destruct (Z.eqb_spec (pc_AdvertiseUDPPort conf) 0); cbn;
    split_and!; done || congruence.
Qed.

(** The fallback UDP port of the record: the bound port when the port to listen on is
    chosen by the system, also over an advertised one, and else the advertised port, also
    when there is none: the port listened on is not taken over. *)
Lemma Discovery_udp {W} `{!UDP W} conf rollupCfg tcpPort (tw : Trace * W) n tw' :
  P2PConfig_Discovery conf rollupCfg tcpPort tw = (Ok (Some n), tw') ->
  exists port w1 w2, net_ListenUDP (pc_ListenIP conf) (pc_ListenUDPPort conf) w1 = (Ok port, w2) /\
    ln_FallbackUDP n = if pc_ListenUDPPort conf =? 0 then port else pc_AdvertiseUDPPort conf.
Proof.
  unfold P2PConfig_Discovery. intros E. destruct (pc_NoDiscovery conf); [done|].
  apply M_bind_ok in E as (n0 & tw1 & Er & E). apply lift_ok in Er as [Er <-].
  apply M_bind_ok in E as (port & tw2 & El & E). apply M_bind_ok in E as (u & tw3 & _ & E).
  apply M_bind_ok in E as (u' & tw4 & _ & E). apply M_bind_ok in E as (u2 & tw5 & _ & E).
  apply M_bind_ok in E as (u3 & tw6 & _ & E). injection E as <- _. unfold call in El.
  destruct (net_ListenUDP _ _ tw.2) as [r w2] eqn:En. injection El as -> _.
  exists port, tw.2, w2. split; [exact En|].
  destruct (discovery_record_found _ _ _ _ rollupCfg Er) as (_ & _ & _ & _ & _ & Hu).
  by destruct (_ =? 0).
Qed.

(** A node found by its record is dialled at the advertised address and port. *)
Lemma enrToAddrInfo_advertised {W} `{!HostLibs W} conf rollupCfg tcpPort n ip ip4 id a :
  discovery_record conf rollupCfg tcpPort = Ok n ->
  pc_AdvertiseIP conf = Some ip -> To4 ip = Some ip4 -> pc_AdvertiseTCPPort conf <> 0 ->
  IDFromPublicKey (ln_key n) = Ok id ->
  NewMultiaddr ("/ip4/" +:+ IP_String ip4 +:+ "/tcp/" +:+ pretty (pc_AdvertiseTCPPort conf)) = Ok a ->
  enrToAddrInfo (LocalNode_Node n) = Ok (id, [a]).
Proof.
  intros E Eip E4 Hp Eid Ea.
  destruct (discovery_record_found _ _ _ _ rollupCfg E) as (_ & _ & Hip & _ & Ht & _).
  unfold enrToAddrInfo, LocalNode_Node. cbn [nd_IP nd_TCP nd_Pubkey].
  rewrite Hip, Eip, (Ht Hp). change (Some ip ≫= To4) with (To4 ip). rewrite E4. cbn iota beta.
  rewrite Eid.
  match goal with |- context [NewMultiaddr ?s] => assert (NewMultiaddr s = Ok a) as -> by exact Ea end.
  done.
Qed.
End Found.

(** ** The two set-ups *)
Section Setups.
Context `{RLPLaws} `{P2PLibs} {W : Type} `{!HostLibs W} `{!UDP W}.
Context (NewNode : lconfConfig -> M W HostT) (rollupCfg : Config).

Definition check_error (r : res unit) : option error := match r with Err e => Some e | _ => None end.
Definition Config_SetupP2P (conf : P2PConfig) : SetupP2P W := {|
  setup_Check := check_error (P2PConfig_Check conf);
  setup_Host := h ← P2PConfig_Host NewNode conf; mret (bool_decide (is_Some h));
  setup_Discovery := fun tcpPort =>
    n ← P2PConfig_Discovery conf rollupCfg tcpPort; mret (bool_decide (is_Some n));
|}.
(** [Prepared]: a host and a discovery service that are there or not. *)
Definition Prepared_SetupP2P (HostP2P : bool) (localNode : option LocalNode) (UDPv5 : bool) : SetupP2P W := {|
  setup_Check := check_error (Prepared_Check HostP2P (bool_decide (is_Some localNode)) UDPv5);
  setup_Host := mret HostP2P;
  setup_Discovery := fun tcpPort =>
    _ ← lift (Prepared_Discovery localNode rollupCfg tcpPort); mret UDPv5;
|}.

Lemma Set_ENR_ok node : exists node', Set_ENR (Discovery_entry rollupCfg) node = Ok node'.
Proof. destruct (FilterEnodes_advertised node rollupCfg rollupCfg) as (node' & E & _). by exists node'. Qed.
Lemma discovery_record_returns conf tcpPort :
  P2PConfig_ready conf -> returns (discovery_record conf rollupCfg tcpPort) = true.
Proof.
  intros ([priv Ep] & _ & [db Ed] & _). unfold discovery_record. rewrite Ep, Ed. cbn [mbind res_bind]. cbv zeta.
  assert (Ht : returns (Discovery_tcp (pc_AdvertiseTCPPort conf) tcpPort (pc_ListenTCPPort conf)) = true)
    by (unfold Discovery_tcp; by repeat case_match).
  destruct (Discovery_tcp _ _ _) as [tcp|e| |]; try done. cbn [mbind res_bind].
  match goal with |- context [Set_ENR _ ?n] => destruct (Set_ENR_ok n) as [n' ->] end. done.
Qed.

(** [Config.Discovery] leaves nothing open but the service that it answers; when the
    service does not start, the socket stays open. *)
Lemma P2PConfig_Discovery_opens conf tcpPort t (w : W) :
  P2PConfig_ready conf \/ pc_NoDiscovery conf = true ->
  (forall ip port, M_returns (net_ListenUDP ip port)) ->
  (forall port n l, M_returns (discover_ListenV5 port n l)) ->
  wp (P2PConfig_Discovery conf rollupCfg tcpPort) (fun r '(t', _) => match r with
    | Ok (Some _) => forall x, live t' x -> live t x \/ x = RDiscovery
    | Ok None => t' = t
    | Err _ => forall x, live t' x -> live t x \/ x = RUDP
    | _ => False end) (t, w).
Proof.
  intros Hc Hl Hs. unfold P2PConfig_Discovery. destruct (pc_NoDiscovery conf); [by wp_step|].
  destruct Hc as [Hc|]; [|done]. wp_step. wp_step. pose proof (discovery_record_returns _ tcpPort Hc) as Hr.
  destruct (discovery_record conf rollupCfg tcpPort) as [n|e| |]; try done; [|by auto].
  wp_step. apply wp_returns; [apply Hl| |by auto]. intros port w1. wp_step. apply wp_logev. cbv zeta.
  wp_step. apply wp_returns; [apply Hs| |].
  - intros _ w2. wp_step. apply wp_logev. wp_step. apply wp_logev. wp_step.
    intros x [->|[[->|?]%live_Opened ?]%live_Taken]%live_Opened; [auto|done|auto].
  - intros e w2 x [->|?]%live_Opened; auto.
Qed.

(** They are what the node relies on. *)
Lemma Config_SetupP2PLaws conf :
  pc_DisableP2P conf = true \/ P2PConfig_ready conf -> host_libs_return NewNode ->
  (forall ip port, M_returns (net_ListenUDP ip port)) ->
  (forall port n l, M_returns (discover_ListenV5 port n l)) ->
  (pc_DisableP2P conf = true -> pc_NoDiscovery conf = true) ->
  @SetupP2PLaws W (Config_SetupP2P conf).
Proof.
  intros Hc Hlibs Hl Hs Hd. split; cbn [setup_Host setup_Discovery Config_SetupP2P].
  - intros t w. wp_step. eapply wp_mono; [by apply P2PConfig_Host_opens|].
    intros [[h|]|e| |] [t' w']; cbn; try done.
  - intros tcpPort t w. wp_step. eapply wp_mono; [apply P2PConfig_Discovery_opens; [|done..]; tauto|].
    intros [[n|]|e| |] [t' w']; cbn; try done.
Qed.
Lemma Prepared_SetupP2PLaws HostP2P localNode UDPv5 :
  @SetupP2PLaws W (Prepared_SetupP2P HostP2P localNode UDPv5).
Proof.
  split; cbn [setup_Host setup_Discovery Prepared_SetupP2P].
  - intros t w. wp_step. destruct HostP2P; auto.
  - intros tcpPort t w. wp_step. wp_step.
    assert (Hr : exists n, Prepared_Discovery localNode rollupCfg tcpPort = Ok n).
    { unfold Prepared_Discovery. destruct localNode as [n|]; [|by eexists].
      destruct (Set_ENR_ok (ln_entries n)) as [e ->]. by eexists. }
    destruct Hr as [n ->]. wp_step. destruct UDPv5; auto.
Qed.
End Setups.
