(* ===== verification/Service.v ===== *)
(** * The node program

    op-node/service.go, cmd/main.go, node/log.go, node/config.go and the signer set-up of
    p2p/signer.go: what the program reads from its flags, what it checks, and how it runs
    the node of Node.v. *)

From S2P Require Import Prelude Flags Types Geth L1Source Gossip Node P2PConfig Resources.
From stdpp Require Import strings gmap.
#[local] Open Scope Z_scope.

(** ** node/log.go *)

(** go-ethereum's log package: parsing a level, and the handlers, by how they were made. *)
Class LogLib := { LvlFromString : string -> res Z }.
Inductive Format := JSONFormat | JSONFormatEx (pretty lineSeparated : bool) | TerminalFormat (color : bool).
Inductive Handler :=
  | StreamHandler (f : Format)            (* to os.Stdout *)
  | FileHandler (path : string) (f : Format)
  | DiscardHandler
  | SyncHandler (h : Handler)
  | LvlFilterHandler (maxLvl : Z) (h : Handler).

Record LogConfig := mkLogConfig {
  lc_Level : string;
  lc_Color : bool;
  lc_Format : string;
}.

Section Log.
Context `{LogLib}.

(** [isTerminal] is whether standard output is a terminal. *)
Definition DefaultLogConfig (isTerminal : bool) : LogConfig := mkLogConfig "info" isTerminal "text".

(** [LogConfig.Check] *)
Definition LogConfig_Check (cfg : LogConfig) : res unit :=
  if negb (bool_decide (lc_Format cfg = "json") || bool_decide (lc_Format cfg = "json-pretty") ||
           bool_decide (lc_Format cfg = "terminal") || bool_decide (lc_Format cfg = "text"))
  then Err (EMsg ("unrecognized log format: " +:+ lc_Format cfg))
  else
    let level := ToLower (lc_Level cfg) in
    _ ← map_err (wrapw "unrecognized log level: ") (LvlFromString level);
    Ok tt.

Definition format (lf : string) (color : bool) : res Format :=
  if bool_decide (lf = "json") then Ok JSONFormat
  else if bool_decide (lf = "json-pretty") then Ok (JSONFormatEx true true)
  else if bool_decide (lf = "text") || bool_decide (lf = "terminal") then Ok (TerminalFormat color)
  else Panic.
Definition level (s : string) : res Z :=
  match LvlFromString (ToLower s) with Ok l => Ok l | _ => Panic end.

(** [LogConfig.NewLogger]: the logger's handler; the filter it makes is not used. *)
Definition NewLogger (cfg : LogConfig) : res Handler :=
  f ← format (lc_Format cfg) (lc_Color cfg);
  let handler := SyncHandler (StreamHandler f) in
  l ← level (lc_Level cfg);
  let _ := LvlFilterHandler l handler in
  Ok handler.

(** A configuration that passes [Check] makes a logger. *)
Lemma NewLogger_ok cfg : LogConfig_Check cfg = Ok tt -> exists h, NewLogger cfg = Ok h.
Proof.
  unfold LogConfig_Check, NewLogger, format, level. intros E.
  destruct (LvlFromString (ToLower (lc_Level cfg))) as [l| | |]; repeat case_bool_decide; cbn in *; eauto; done.
Qed.
(** The level has no effect on what is logged. *)
Lemma NewLogger_ignores_level cfg level' h h' :
  NewLogger cfg = Ok h -> NewLogger (mkLogConfig level' (lc_Color cfg) (lc_Format cfg)) = Ok h' -> h = h'.
Proof.
  unfold NewLogger. cbn [lc_Level lc_Color lc_Format]. destruct (format _ _); [|done..].
  cbn. destruct (level (lc_Level cfg)), (level level'); cbn; congruence.
Qed.
End Log.

(** ** service.go *)

(** encoding/json on [rollup.Config], and go-ethereum's [crypto.LoadECDSA]. *)
Class ServiceLibs `{Ecdsa} := {
  json_DecodeConfig : string -> res Config;
  LoadECDSA : string -> res PrivateKey;          (* of the contents of a file *)
  VersionParts : string * string;                (* version.Version and version.Meta *)
}.

(** [PreparedSigner], which holds a [LocalSigner] *)
Record PreparedSigner `{Ecdsa} := mkPreparedSigner { ps_Signer : option PrivateKey }.
Arguments mkPreparedSigner {_}.
Definition SetupSigner_Prepared `{Ecdsa} (p : PreparedSigner) : res (option PrivateKey) := Ok (ps_Signer p).

Record RPCConfig := mkRPCConfig { rpc_ListenAddr : string; rpc_ListenPort : Z }.

(** [node.Config] *)
Record nodeConfig `{Ecdsa} `{P2PLibs} := mkNodeConfigFull {
  cf_L1NodeAddr : string;
  cf_L2EngineAddrs : list string;
  cf_L2NodeAddr : string;
  cf_L1TrustRPC : bool;
  cf_Rollup : Config;
  cf_Sequencer : bool;
  cf_P2PSigner : option PreparedSigner;
  cf_RPC : RPCConfig;
  cf_P2P : option P2PConfig;
}.

(** cmd/main.go *)
Definition VersionWithMeta `{ServiceLibs} (GitCommit GitDate : string) : res string :=
  let '(v, meta) := VersionParts in
  v ← (if bool_decide (GitCommit <> "") then
         if (String.length GitCommit <? 8)%nat then Panic      (* GitCommit[:8] *)
         else Ok (v +:+ "-" +:+ String.substring 0 8 GitCommit)
       else Ok v);
  let v := if bool_decide (GitDate <> "") then v +:+ "-" +:+ GitDate else v in
  Ok (if bool_decide (meta <> "") then v +:+ "-" +:+ meta else v).

Section Service.
Context `{LogLib} `{ServiceLibs} `{P2PLibs} {W : Type} `{!P2PEnv W} (ctx : cliContext).

(** Reading a whole file *)
Definition read_file (msg : string) (path : string) : M (FileSystem * W) string :=
  _ ← fs_check msg (open_fault path);
  files ← Prelude.get;
  data ← (match files !! path with
          | Some data => mret data
          | None => throw (EMsg (msg +:+ "no such file or directory"))
          end);
  _ ← fs_check msg (read_fault path);
  mret data.

(** [NewRollupConfig] *)
Definition NewRollupConfig : M (FileSystem * W) Config :=
  let rollupConfigPath := GlobalString ctx (flag_Name OpNode.RollupConfig) in
  file ← read_file "failed to read rollup config: " rollupConfigPath;
  M_err (wrapv "failed to decode rollup config: ") (lift (json_DecodeConfig file)).

(** [LoadSignerSetup]: nil without a key file *)
Definition LoadSignerSetup : M (FileSystem * W) (option PreparedSigner) :=
  let keyFile := GlobalString ctx (flag_Name OpNode.SequencerP2PKeyFlag) in
  if bool_decide (keyFile <> "") then
    priv ← M_err (wrapv "failed to read batch submitter key: ")
             (data ← read_file "" keyFile; lift (LoadECDSA data));
    mret (Some (mkPreparedSigner (NewLocalSigner priv)))
  else mret None.

(** node's [Config.Check] *)
Definition nodeConfig_Check (cfg : nodeConfig) : res unit :=
  _ ← map_err (wrapv "rollup config error: ") (Config_Check (cf_Rollup cfg));
  match cf_P2P cfg with
  | Some conf => map_err (wrapv "p2p config error: ") (P2PConfig_Check conf)
  | None => Ok tt
  end.

(** [NewConfig] *)
Definition NewConfig : M (FileSystem * W) nodeConfig :=
  rollupConfig ← NewRollupConfig;
  let enableSequencing := GlobalBool ctx (flag_Name OpNode.SequencingEnabledFlag) in
  p2pSignerSetup ← M_err (wrapv "failed to load p2p signer: ") LoadSignerSetup;
  p2pConfig ← M_err (wrapv "failed to load p2p config: ") (P2P_NewConfig ctx);
  let cfg := {|
    cf_L1NodeAddr := GlobalString ctx (flag_Name OpNode.L1NodeAddr);
    cf_L2EngineAddrs := GlobalStringSlice ctx (flag_Name OpNode.L2EngineAddrs);
    cf_L2NodeAddr := GlobalString ctx (flag_Name OpNode.L2EthNodeAddr);
    cf_L1TrustRPC := GlobalBool ctx (flag_Name OpNode.L1TrustRPC);
    cf_Rollup := rollupConfig;
    cf_Sequencer := enableSequencing;
    cf_P2PSigner := p2pSignerSetup;
    cf_RPC := mkRPCConfig (GlobalString ctx (flag_Name OpNode.RPCListenAddr))
                (GlobalInt ctx (flag_Name OpNode.RPCListenPort));
    cf_P2P := Some p2pConfig;
  |} in
  _ ← lift (nodeConfig_Check cfg);
  mret cfg.

(** [NewLogConfig]; on an error the caller reads the error only. *)
Definition NewLogConfig (isTerminal : bool) : res LogConfig :=
  let cfg := DefaultLogConfig isTerminal in
  let cfg := mkLogConfig (GlobalString ctx (flag_Name OpNode.LogLevelFlag))
               (if IsSet ctx (flag_Name OpNode.LogColorFlag)
                then GlobalBool ctx (flag_Name OpNode.LogColorFlag) else lc_Color cfg)
               (GlobalString ctx (flag_Name OpNode.LogFormatFlag)) in
  _ ← LogConfig_Check cfg;
  Ok cfg.

(** [NewSnapshotLogger]: opening the file appends to it or creates it. *)
Definition NewSnapshotLogger : M (FileSystem * W) Handler :=
  let snapshotFile := GlobalString ctx (flag_Name OpNode.SnapshotLog) in
  handler ← (if bool_decide (snapshotFile <> "") then
               _ ← fs_check "" (open_fault snapshotFile);
               _ ← modify (fun files => <[snapshotFile := default "" (files !! snapshotFile)]> files);
               mret (FileHandler snapshotFile JSONFormat)
             else mret DiscardHandler);
  mret (SyncHandler handler).
End Service.

(** ** cmd/main.go *)
Section Main.
Context `{LogLib} `{ServiceLibs} `{P2PLibs} `{GethTypes} `{LRU} {W : Type} `{!P2PEnv W}.
(** The libraries that the node uses depend on its p2p configuration and signer. *)
Context (env : nodeConfig -> NodeEnv (FileSystem * W)).

(** What Node.v reads of the configuration *)
Definition node_part (cfg : nodeConfig) : NodeConfig :=
  mkNodeConfig (cf_L1NodeAddr cfg) (cf_L2EngineAddrs cfg) (cf_L2NodeAddr cfg) (cf_L1TrustRPC cfg)
    (cf_Rollup cfg) (bool_decide (is_Some (cf_P2PSigner cfg))) (bool_decide (is_Some (cf_P2P cfg))).

(** [RollupNodeMain], with the interrupt that ends the program after the start *)
Definition RollupNodeMain (ctx : cliContext) (isTerminal : bool) : M (Trace * (FileSystem * W)) unit :=
  cfg ← call (NewConfig ctx);
  logCfg ← lift (NewLogConfig ctx isTerminal);
  snapshotLog ← call (NewSnapshotLogger ctx);
  logger ← lift (NewLogger logCfg);
  n ← OpNode_New (NodeEnv0 := env cfg) (node_part cfg);
  _ ← OpNode_Start (NodeEnv0 := env cfg) n;
  _ ← OpNode_Close (NodeEnv0 := env cfg) n;
  mret tt.

(** A configuration that the program runs with *)
Definition nodeConfig_wf (ctx : cliContext) (cfg : nodeConfig) : Prop :=
  let r := cf_Rollup cfg in
  (* the rollup *)
  cfg_BlockTime r <> 0 /\ 2 <= cfg_SeqWindowSize r /\
  id_Hash (gen_L1 (cfg_Genesis r)) <> 0 /\ id_Hash (gen_L2 (cfg_Genesis r)) <> 0 /\
  id_Hash (gen_L1 (cfg_Genesis r)) <> id_Hash (gen_L2 (cfg_Genesis r)) /\
  cfg_DepositContractAddress r <> 0 /\
  (* the signer *)
  (cf_P2PSigner cfg = None <-> GlobalString ctx (flag_Name OpNode.SequencerP2PKeyFlag) = "") /\
  (* the peer-to-peer side *)
  exists conf, cf_P2P cfg = Some conf /\
    P2PConfig_wf (GlobalBool ctx (flag_Name OpNode.DisableP2P)) conf /\
    (GlobalBool ctx (flag_Name OpNode.DisableP2P) = true \/ 0 < pc_PeersLo conf <= pc_PeersHi conf).

Lemma Config_Check_wf r :
  Config_Check r = Ok tt ->
  cfg_BlockTime r <> 0 /\ 2 <= cfg_SeqWindowSize r /\
  id_Hash (gen_L1 (cfg_Genesis r)) <> 0 /\ id_Hash (gen_L2 (cfg_Genesis r)) <> 0 /\
  id_Hash (gen_L1 (cfg_Genesis r)) <> id_Hash (gen_L2 (cfg_Genesis r)) /\
  cfg_DepositContractAddress r <> 0.
Proof. unfold Config_Check. repeat case_match; try done. lia. Qed.

Lemma LoadSignerSetup_none ctx s p s' :
  LoadSignerSetup ctx s = (Ok p, s') ->
  p = None <-> GlobalString ctx (flag_Name OpNode.SequencerP2PKeyFlag) = "".
Proof.
  unfold LoadSignerSetup. intros E. case_bool_decide as Hk.
  - apply M_bind_ok in E as (priv & s1 & _ & E). injection E as <- _. split; [done|by intros].
  - injection E as <- _. split; [intros _|done]. by destruct (GlobalString _ _).
Qed.

Lemma NewConfig_wf ctx fs (w : W) cfg s' :
  (forall flag, 0 <= GlobalUint ctx flag) ->
  NewConfig ctx (fs, w) = (Ok cfg, s') -> nodeConfig_wf ctx cfg.
Proof.
  intros Hu E. unfold NewConfig in E.
  apply M_bind_ok in E as (r & s1 & _ & E).
  apply M_bind_ok in E as (sig & [fs2 w2] & Esig & E). apply M_err_ok, LoadSignerSetup_none in Esig.
  apply M_bind_ok in E as (conf & [fs3 w3] & Ep & E). apply M_err_ok in Ep.
  destruct (P2P_NewConfig_wf _ _ _ _ _ _ Hu Ep) as [Hwf Hc].
  apply M_bind_ok in E as ([] & s4 & Echk & E). apply lift_ok in Echk as [Echk _]. injection E as <- _.
  unfold nodeConfig_Check in Echk. cbn [cf_Rollup cf_P2P] in Echk.
  apply res_bind_ok in Echk as ([] & Er & Echk). apply map_err_ok in Er, Echk.
  apply Config_Check_wf in Er. unfold nodeConfig_wf. cbn [cf_Rollup cf_P2PSigner cf_P2P].
  destruct Er as (? & ? & ? & ? & ? & ?). split_and!; try done. exists conf. split; [done|]. split; [done|].
  by apply Hc.
Qed.
End Main.

(** ** A small instance for examples: any file is a configuration *)
Definition ToyLogLib : LogLib := {| LvlFromString := fun s => Ok 3 |}.
Definition ToyServiceLibs : @ServiceLibs ToyEcdsa := @Build_ServiceLibs ToyEcdsa
  (fun _ => Ok gossip_config) (fun _ => Ok 77) ("v0.0.0", "").
Definition ToyServiceNode : NodeEnv (FileSystem * unit) := {|
  node_Clock := {| time_Sleep := fun _ => mret tt; rand_Intn := fun _ => mret 0 |};
  DialContext := fun addr w => (inr None, w);
  node_Setup := {|
    setup_Check := None;
    setup_Host := _ ← logev (Opened RHost); mret true;
    setup_Discovery := fun _ => _ ← logev (Opened RDiscovery); mret true;
  |};
  NewGossip := fun w => (None, w);
  host_TCPPorts := fun _ => [Some 9222];
  SetupSigner := fun w => (true, None, w);
  driver_Start := fun _ w => (None, w);
  server_Start := fun w => (None, w);
  close_resource := fun _ w => (None, w) |}.
