(* ===== verification/Programs.v ===== *)
(** * The batch submitter and the output submitter

    The two programs around Submitter.v: op-batcher/batch_submitter.go and config.go,
    op-proposer/l2_output_submitter.go and config.go, the service of op-proposer/service.go
    and its loop, and the client of a rollup node (op-proposer/rollupclient). *)

From S2P Require Import Prelude Flags Types Threads Geth L2Source NodeAPI TxMgr History Submitter Sending P2PConfig Service.

(** ** External code *)

(** The wallet of go-ethereum-hdwallet, and go-ethereum's parsing of hexadecimal. *)
Class Wallets `{Signing} := {
  Wallet : Type;
  hdwallet_NewFromMnemonic : string -> res Wallet;
  wallet_PrivateKey : Wallet -> string -> res SigningKey;
  PubkeyToAddress : SigningKey -> Address;        (* of its public key *)
  IsHexAddress : string -> bool;
  HexToAddress : string -> Address;
  HexToHash : string -> Hash;
  hexutil_EncodeBig : bigInt -> string;
  signed_Hash : SignedTx -> Hash;
  core_ErrNonceTooLow : string;                   (* its text *)
}.
(** The connections: [ethclient.Client], [rpc.Client] with the two calls made on it, and
    the contract binding, which is generated. *)
Class Backends `{GethTypes} `{Signing} (W : Type) := {
  Client : Type;
  RPC : Type;
  ethclient_DialContext : string -> M W Client;
  rpc_DialContext : string -> M W RPC;
  client_ChainID : Client -> M W bigInt;
  client_Eth : Client -> EthClient W;
  client_BlockNumber : Client -> M W uint64;
  client_TransactionReceipt : Client -> Hash -> M W (option Receipt);
  rpc_CallBundle : RPC -> string -> BatchBundleRequest -> M W (option BatchBundleResponse);
  rpc_CallOutput : RPC -> string -> string -> M W (list Hash);
  NewL2OutputOracle : Address -> Client -> res (L2OutputOracle W);
  L2OutputOracle_ABI : res unit;                  (* abi.JSON on the contract's metadata *)
}.

(** ** rollupclient.go *)
Section RollupClientImpl.
Context `{GethTypes} `{Wallets} {W : Type} `{!Backends W}.

Definition NewRollupClient (rpc : RPC) : RollupClient W := {|
  rc_GetBatchBundle := fun req => rpc_CallBundle rpc "optimism_getBatchBundle" req;
  rc_OutputAtBlock := fun blockNum =>
    rpc_CallOutput rpc "optimism_outputAtBlock" (hexutil_EncodeBig blockNum);
|}.
End RollupClientImpl.

(** ** service.go *)

(** The context is cancelled by [Stop]. *)
Inductive loop_event := PollTick | Done.

(** A driver with fields [S] over the world [W]; the go-routines of [Send] run in the
    order of the schedule. *)
Section ServiceImpl.
Context `{GethTypes} `{Wallets} {W : Type} `{!Backends W} {S : Type}.
Abbreviation D := (S * W)%type.
Context (schedule : D -> list choice).

(** The L1 client as the transaction manager's backend *)
Definition L1_ReceiptSource (l1Client : Client) : ReceiptSource D := {|
  BlockNumber := call (client_BlockNumber l1Client);
  TransactionReceipt := fun h => call (client_TransactionReceipt l1Client h);
|}.

Record ServiceConfig := mkServiceConfig {
  sc_Driver : ServiceDriver D;
  sc_PollInterval : Z;
  sc_L1Client : Client;
  sc_TxManagerConfig : TxMgrConfig;
}.
Record ProgService := mkProgService { sv_cfg : ServiceConfig; sv_txMgr : TxManager D }.

Definition NewService (cfg : ServiceConfig) : res ProgService :=
  _ ← NewSimpleTxManager (tm_NumConfirmations (sc_TxManagerConfig cfg));
  Ok (mkProgService cfg (@SimpleTxManager _ D (L1_ReceiptSource (sc_L1Client cfg))
        signed_Hash core_ErrNonceTooLow (sc_TxManagerConfig cfg) schedule)).

(** A tick of [Service.eventLoop] with the service's driver, client and transaction manager *)
Definition Service_tick (s : ProgService) : M D (option Receipt) :=
  @eventLoop_tick _ _ (sc_Driver (sv_cfg s)) (sv_txMgr s)
    (fun addr => call (@NonceAt _ _ W (client_Eth (sc_L1Client (sv_cfg s))) addr)).

(** [Service.eventLoop] on what its [select] receives, until the context is done; the
    receipts of the ticks that published something.  At the end of the list it is waiting. *)
Fixpoint eventLoop (s : ProgService) (evs : list loop_event) : M D (list Receipt) :=
  match evs with
  | [] | Done :: _ => mret []
  | PollTick :: evs =>
      receipt ← Service_tick s;
      receipts ← eventLoop s evs;
      mret (match receipt with Some r => r :: receipts | None => receipts end)
  end.

(** [Start] and, after [evs], [Stop]: the loop runs in a go-routine that [Stop] waits for,
    on the driver's fields as it was made. *)
Definition Service_run (s : ProgService) (fields : S) (evs : list loop_event) : M W (list Receipt) :=
  fun w => let '(r, (_, w')) := eventLoop s (evs ++ [Done]) (fields, w) in (r, w').
End ServiceImpl.

(** ** What both programs share *)
Section Shared.
Context `{LogLib} `{GethTypes} `{Wallets} {W : Type} `{!Backends W}.

(** [parseAddress] *)
Definition parseAddress (address : string) : res Address :=
  if IsHexAddress address then Ok (HexToAddress address)
  else Err (EMsg ("invalid address: " +:+ address)).

(** [dialEthClientWithTimeout] and [dialRollupClientWithTimeout]: within the timeout or an error *)
Definition dialEthClientWithTimeout (url : string) : M W Client := ethclient_DialContext url.
Definition dialRollupClientWithTimeout (url : string) : M W (RollupClient W) :=
  client ← rpc_DialContext url;
  mret (NewRollupClient client).

(** The start of [Main]: the logger's handler *)
Definition Main_logger (LogLevel : string) (LogTerminal : bool) : res Handler :=
  let logHandler := StreamHandler (if LogTerminal then TerminalFormat true else JSONFormat) in
  logLevel ← LvlFromString LogLevel;
  Ok (LvlFilterHandler logLevel logHandler).

(** The private key of a path of the wallet *)
Definition wallet_key (Mnemonic path : string) : res SigningKey :=
  wallet ← hdwallet_NewFromMnemonic Mnemonic;
  wallet_PrivateKey wallet path.
End Shared.

(** ** op-batcher *)
Module Batcher.
Record Config := mkConfig {
  L1EthRpc : string;
  L2EthRpc : string;
  RollupRpc : string;
  MinL1TxSize : uint64;
  MaxL1TxSize : uint64;
  PollInterval : Z;
  NumConfirmations : uint64;
  SafeAbortNonceTooLowCount : uint64;
  ResubmissionTimeout : Z;
  Mnemonic : string;
  SequencerHDPath : string;
  SequencerHistoryDBFilename : string;
  SequencerGenesisHash : string;
  SequencerBatchInboxAddress : string;
  LogLevel : string;
  LogTerminal : bool;
}.

Definition NewConfig (ctx : cliContext) : Config := {|
  L1EthRpc := GlobalString ctx (flag_Name OpBatcher.L1EthRpcFlag);
  L2EthRpc := GlobalString ctx (flag_Name OpBatcher.L2EthRpcFlag);
  RollupRpc := GlobalString ctx (flag_Name OpBatcher.RollupRpcFlag);
  MinL1TxSize := GlobalUint64 ctx (flag_Name OpBatcher.MinL1TxSizeBytesFlag);
  MaxL1TxSize := GlobalUint64 ctx (flag_Name OpBatcher.MaxL1TxSizeBytesFlag);
  PollInterval := GlobalDuration ctx (flag_Name OpBatcher.PollIntervalFlag);
  NumConfirmations := GlobalUint64 ctx (flag_Name OpBatcher.NumConfirmationsFlag);
  SafeAbortNonceTooLowCount := GlobalUint64 ctx (flag_Name OpBatcher.SafeAbortNonceTooLowCountFlag);
  ResubmissionTimeout := GlobalDuration ctx (flag_Name OpBatcher.ResubmissionTimeoutFlag);
  Mnemonic := GlobalString ctx (flag_Name OpBatcher.MnemonicFlag);
  SequencerHDPath := GlobalString ctx (flag_Name OpBatcher.SequencerHDPathFlag);
  SequencerHistoryDBFilename := GlobalString ctx (flag_Name OpBatcher.SequencerHistoryDBFilenameFlag);
  SequencerGenesisHash := GlobalString ctx (flag_Name OpBatcher.SequencerGenesisHashFlag);
  SequencerBatchInboxAddress := GlobalString ctx (flag_Name OpBatcher.SequencerBatchInboxAddressFlag);
  LogLevel := GlobalString ctx (flag_Name OpBatcher.LogLevelFlag);
  LogTerminal := GlobalBool ctx (flag_Name OpBatcher.LogTerminalFlag);
|}.

Section Program.
Context `{LogLib} `{HistoryJSON} `{GethTypes} `{Wallets} {W : Type} `{!Backends W} `{!Files W}.
Abbreviation Fields := (option BatchBundleResponse).
Context (schedule : Fields * W -> list choice).

(** [sequencer.NewDriver] *)
Definition NewDriver (l1Client : Client) (rollupClient : RollupClient W) (historyDB : HistoryDatabase W)
    (cfg : BatcherConfig) : ServiceDriver (Fields * W) :=
  @BatcherDriver _ _ W (client_Eth l1Client) rollupClient historyDB cfg (PubkeyToAddress (bcfg_PrivKey cfg)).

Definition NewBatchSubmitter (cfg : Config) : M W ProgService :=
  sequencerPrivKey ← lift (wallet_key (Mnemonic cfg) (SequencerHDPath cfg));
  batchInboxAddress ← lift (parseAddress (SequencerBatchInboxAddress cfg));
  let genesisHash := HexToHash (SequencerGenesisHash cfg) in
  l1Client ← dialEthClientWithTimeout (L1EthRpc cfg);
  l2Client ← dialEthClientWithTimeout (L2EthRpc cfg);
  rollupClient ← dialRollupClientWithTimeout (RollupRpc cfg);
  historyDB ← OpenJSONFileDatabase (SequencerHistoryDBFilename cfg) 600 genesisHash;
  chainID ← client_ChainID l1Client;
  let sequencerDriver := NewDriver l1Client rollupClient (JSON_HistoryDatabase historyDB)
    (mkBatcherConfig _ (MinL1TxSize cfg) (MaxL1TxSize cfg) batchInboxAddress chainID sequencerPrivKey) in
  lift (NewService schedule {|
    sc_Driver := sequencerDriver;
    sc_PollInterval := PollInterval cfg;
    sc_L1Client := l1Client;
    sc_TxManagerConfig := mkTxMgrConfig "Batch Submitter" (ResubmissionTimeout cfg) time_Second
      (NumConfirmations cfg) (SafeAbortNonceTooLowCount cfg);
  |}).

(** [Main], with what its loop receives until the interrupt *)
Definition Main (ctx : cliContext) (evs : list loop_event) : M W (list Receipt) :=
  let cfg := NewConfig ctx in
  l ← lift (Main_logger (LogLevel cfg) (LogTerminal cfg));
  batchSubmitter ← NewBatchSubmitter cfg;
  Service_run batchSubmitter None evs.
End Program.
End Batcher.

(** ** op-proposer *)
Module Proposer.
Record Config := mkConfig {
  L1EthRpc : string;
  L2EthRpc : string;
  RollupRpc : string;
  L2OOAddress : string;
  PollInterval : Z;
  NumConfirmations : uint64;
  SafeAbortNonceTooLowCount : uint64;
  ResubmissionTimeout : Z;
  Mnemonic : string;
  L2OutputHDPath : string;
  LogLevel : string;
  LogTerminal : bool;
}.

Definition NewConfig (ctx : cliContext) : Config := {|
  L1EthRpc := GlobalString ctx (flag_Name OpProposer.L1EthRpcFlag);
  L2EthRpc := GlobalString ctx (flag_Name OpProposer.L2EthRpcFlag);
  RollupRpc := GlobalString ctx (flag_Name OpProposer.RollupRpcFlag);
  L2OOAddress := GlobalString ctx (flag_Name OpProposer.L2OOAddressFlag);
  PollInterval := GlobalDuration ctx (flag_Name OpProposer.PollIntervalFlag);
  NumConfirmations := GlobalUint64 ctx (flag_Name OpProposer.NumConfirmationsFlag);
  SafeAbortNonceTooLowCount := GlobalUint64 ctx (flag_Name OpProposer.SafeAbortNonceTooLowCountFlag);
  ResubmissionTimeout := GlobalDuration ctx (flag_Name OpProposer.ResubmissionTimeoutFlag);
  Mnemonic := GlobalString ctx (flag_Name OpProposer.MnemonicFlag);
  L2OutputHDPath := GlobalString ctx (flag_Name OpProposer.L2OutputHDPathFlag);
  LogLevel := GlobalString ctx (flag_Name OpProposer.LogLevelFlag);
  LogTerminal := GlobalBool ctx (flag_Name OpProposer.LogTerminalFlag);
|}.

(** A driver without fields of its own, for the service *)
Definition stateless `{Signing} {W} (d : ServiceDriver W) : ServiceDriver (unit * W) := {|
  WalletAddr := @WalletAddr _ _ d;
  GetBlockRange := call (@GetBlockRange _ _ d);
  CraftTx := fun start end_ nonce => call (@CraftTx _ _ d start end_ nonce);
  UpdateGasPrice := fun tx => co_call (@UpdateGasPrice _ _ d tx);
  drv_SendTransaction := fun tx => co_call (@drv_SendTransaction _ _ d tx);
|}.

Section Program.
Context `{LogLib} `{Keccak} `{GethTypes} `{Wallets} {W : Type} `{!Backends W}.
Context (schedule : unit * W -> list choice).

(** [l2output.NewDriver] *)
Definition NewDriver (l1Client l2Client : Client) (rollupClient : RollupClient W)
    (L2OOAddr : Address) (ChainID : bigInt) (PrivKey : SigningKey) : res (ServiceDriver (unit * W)) :=
  l2ooContract ← NewL2OutputOracle L2OOAddr l1Client;
  _ ← L2OutputOracle_ABI;
  Ok (stateless (@ProposerDriver _ _ W (client_Eth l1Client) rollupClient l2ooContract
        PrivKey ChainID (PubkeyToAddress PrivKey)
        (fun n => @HeaderByNumber _ _ W (client_Eth l2Client) (Some n)))).

Definition NewL2OutputSubmitter (cfg : Config) : M W ProgService :=
  l2OutputPrivKey ← lift (wallet_key (Mnemonic cfg) (L2OutputHDPath cfg));
  l2ooAddress ← lift (parseAddress (L2OOAddress cfg));
  l1Client ← dialEthClientWithTimeout (L1EthRpc cfg);
  l2Client ← dialEthClientWithTimeout (L2EthRpc cfg);
  rollupClient ← dialRollupClientWithTimeout (RollupRpc cfg);
  chainID ← client_ChainID l1Client;
  l2OutputDriver ← lift (NewDriver l1Client l2Client rollupClient l2ooAddress chainID l2OutputPrivKey);
  lift (NewService schedule {|
    sc_Driver := l2OutputDriver;
    sc_PollInterval := PollInterval cfg;
    sc_L1Client := l1Client;
    sc_TxManagerConfig := mkTxMgrConfig "L2Output Submitter" (ResubmissionTimeout cfg) time_Second
      (NumConfirmations cfg) (SafeAbortNonceTooLowCount cfg);
  |}).

Definition Main (ctx : cliContext) (evs : list loop_event) : M W (list Receipt) :=
  let cfg := NewConfig ctx in
  l ← lift (Main_logger (LogLevel cfg) (LogTerminal cfg));
  l2OutputSubmitter ← NewL2OutputSubmitter cfg;
  Service_run l2OutputSubmitter tt evs.
End Program.
End Proposer.

(** ** Runs of the service *)
Section ServiceProofs.
Context `{GethTypes} `{Wallets} {W : Type} `{!Backends W} {S : Type}.
Context (I : W -> Prop) (s : ProgService (W := W) (S := S)).

Lemma eventLoop_preserves evs :
  preserves (fun sw => I sw.2) (Service_tick s) -> preserves (fun sw => I sw.2) (eventLoop s evs).
Proof.
  intros Ht. induction evs as [|[|] evs IH]; cbn [eventLoop]; [apply preserves_ret| |apply preserves_ret].
  apply preserves_bind; [exact Ht|]. intros receipt. apply preserves_bind; [exact IH|].
  intros receipts. apply preserves_ret.
Qed.
Lemma Service_run_preserves fields evs :
  preserves (fun sw => I sw.2) (Service_tick s) -> preserves I (Service_run s fields evs).
Proof.
  intros Ht w Hw. unfold Service_run.
  pose proof (eventLoop_preserves (evs ++ [Done]) Ht (fields, w) Hw) as Hr.
  by destruct (eventLoop s (evs ++ [Done]) (fields, w)) as [r [fields' w']].
Qed.
Lemma NewService_ok (schedule : S * W -> list choice) cfg svc :
  NewService schedule cfg = Ok svc ->
  svc = mkProgService cfg (@SimpleTxManager _ _ (L1_ReceiptSource (sc_L1Client cfg))
          signed_Hash core_ErrNonceTooLow (sc_TxManagerConfig cfg) schedule).
Proof.
  unfold NewService, NewSimpleTxManager. intros E.
  by destruct (_ =? 0); [|injection E as <-].
Qed.
End ServiceProofs.

(** ** What the batch submitter publishes *)
Section BatcherRun.
Context `{LogLib} `{HistoryJSONLaws} `{GethTypes} `{SigningLaws} `{!Wallets}.
Context {W : Type} `{!Backends W} `{FilesLaws W}.
Context (schedule : option BatchBundleResponse * W -> list choice) (ctx : cliContext).

(** The history file of the flags *)
Definition batcher_db : JSONFileDatabase :=
  let cfg := Batcher.NewConfig ctx in
  mkJSONFileDatabase (Batcher.SequencerHistoryDBFilename cfg) 600 (HexToHash (Batcher.SequencerGenesisHash cfg)).
(** The configuration of the driver is that of the flags, for the chain of the L1 client,
    which was dialled at the address of the flags. *)
Definition configured (l1 : Client) (cfg : BatcherConfig) : Prop :=
  let flags := Batcher.NewConfig ctx in
  bcfg_MinL1TxSize cfg = Batcher.MinL1TxSize flags /\ bcfg_MaxL1TxSize cfg = Batcher.MaxL1TxSize flags /\
  IsHexAddress (Batcher.SequencerBatchInboxAddress flags) = true /\
  bcfg_BatchInboxAddress cfg = HexToAddress (Batcher.SequencerBatchInboxAddress flags) /\
  wallet_key (Batcher.Mnemonic flags) (Batcher.SequencerHDPath flags) = Ok (bcfg_PrivKey cfg) /\
  (exists w w' : W, ethclient_DialContext (Batcher.L1EthRpc flags) w = (Ok l1, w')) /\
  exists w w' : W, client_ChainID l1 w = (Ok (bcfg_ChainID cfg), w').

(** A property [I] of the outside world that every call of the program but the publication
    of transactions keeps; [answers] is what the rollup node answers.  A block is [recorded]
    by a write to the history file of a history that has it; what has been recorded stays
    so, whatever the go-routines call afterwards. *)
Record batcher_calls (I : W -> Prop) (recorded : BlockID -> W -> Prop)
    (answers : BatchBundleRequest -> BatchBundleResponse -> Prop) : Prop := {
  bi_dial : forall url, preserves I (ethclient_DialContext url);
  bi_dial_rpc : forall url, preserves I (rpc_DialContext url);
  bi_chain : forall c, preserves I (client_ChainID c);
  bi_stat : preserves I (os_Stat_NotExist (jd_filename batcher_db));
  bi_create : preserves I (os_Create (jd_filename batcher_db));
  bi_open : steps I (remembers recorded) (os_OpenFile (jd_filename batcher_db));
  bi_write : forall b w, I w -> let '(r, w') := file_Write (jd_filename batcher_db) b w in
    I w' /\ remembers recorded w w' /\ (r = Ok tt -> forall id, has_block id b -> recorded id w');
  bi_bundle : forall rpc req, keeps I (rpc_CallBundle rpc "optimism_getBatchBundle" req)
    (fun r => forall resp, r = Some resp -> answers req resp);
  bi_tip : forall c, steps I (remembers recorded) (@SuggestGasTipCap _ _ W (client_Eth c));
  bi_head : forall c n, steps I (remembers recorded) (@HeaderByNumber _ _ W (client_Eth c) n);
  bi_nonce : forall c a, preserves I (@NonceAt _ _ W (client_Eth c) a);
  bi_block : forall c, steps I (remembers recorded) (client_BlockNumber c);
  bi_receipt : forall c h, steps I (remembers recorded) (client_TransactionReceipt c h);
}.
(** The publication of a transaction that carries, to the inbox, a bundle answered for the
    program's history whose last block has been recorded, keeps it too. *)
Definition batcher_sends (I : W -> Prop) (recorded : BlockID -> W -> Prop)
    (answers : BatchBundleRequest -> BatchBundleResponse -> Prop) : Prop :=
  forall c cfg tx resp w, configured c cfg -> carries cfg tx resp ->
    bundle_for cfg answers resp -> recorded (last_block resp) w -> I w ->
    let w' := (@SendTransaction _ _ W (client_Eth c) tx w).2 in I w' /\ remembers recorded w w'.

(** [AppendEntry] among the calls of the other go-routines *)
Lemma append_records I recorded answers id w :
  batcher_calls I recorded answers ->
  sound I (remembers recorded) (JSON_AppendEntry batcher_db id) (fun _ => recorded id) w.
Proof.
  intros []. apply JSON_AppendEntry_sound; [cbn; lia|exact (remembers_PreOrder recorded)|exact bi_open0|].
  intros b w1 Hw1. specialize (bi_write0 b w1 Hw1). destruct (file_Write _ b w1) as [r w2].
  destruct bi_write0 as (? & ? & Hr). split_and!; [done..|]. intros E. by apply Hr.
Qed.
(** [AppendEntry] while no other go-routine writes the file: the history that it leaves in
    the file has the block. *)
Definition in_history (id : BlockID) (w : W) : Prop :=
  exists h, JSON_LoadHistory batcher_db w = (Ok h, w) /\ id_Hash id ∈ id_Hash <$> h_BlockIDs h.
Lemma append_in_history id w w' :
  run (JSON_AppendEntry batcher_db id) w = (Ok tt, w') -> in_history id w'.
Proof.
  intros E. assert (exists h, JSON_LoadHistory batcher_db w = (Ok h, w)) as [h Hh].
  { unfold JSON_AppendEntry in E. rewrite run_bind in E. apply M_bind_ok in E as (h & w1 & El & _).
    rewrite run_atomic in El. exists h. rewrite El. f_equal. by eapply JSON_LoadHistory_pure. }
  pose proof (JSON_AppendEntry_holds batcher_db h id w w' Hh E) as Hh'.
  eexists. split; [exact Hh'|]. apply AppendEntry_in. cbn. lia.
Qed.

Lemma batcher_tick_keeps I recorded answers cfg l1 rpc tm :
  batcher_calls I recorded answers -> batcher_sends I recorded answers -> configured l1 cfg ->
  preserves (fun sw => I sw.2) (@eventLoop_tick _ _
    (Batcher.NewDriver l1 (NewRollupClient rpc) (JSON_HistoryDatabase batcher_db) cfg)
    (@SimpleTxManager _ _ (L1_ReceiptSource l1) signed_Hash core_ErrNonceTooLow tm schedule)
    (fun addr => call (@NonceAt _ _ W (client_Eth l1) addr))).
Proof.
  intros HI Hsend Hcfg [s w] Hw. cbn in Hw. pose proof HI as [].
  apply (eventLoop_tick_publishes (EthClient0 := client_Eth l1) (RollupClient0 := NewRollupClient rpc)
    (HistoryDatabase0 := JSON_HistoryDatabase batcher_db)
    (TxManagerLaws0 := @SimpleTxManager_laws _ _ (L1_ReceiptSource l1) _ _ tm schedule)
    cfg _ I recorded answers); try done.
  - intros w1 Hw1. cbn. destruct (JSON_LoadHistory batcher_db w1) as [r w2] eqn:E.
    by rewrite (JSON_LoadHistory_pure _ _ _ _ E).
  - intros req. apply bi_bundle0.
  - intros id w1. by apply (append_records I recorded answers).
  - intros a [s' w2] Hw2. unfold call. pose proof (bi_nonce0 l1 a w2 Hw2) as Hn. cbn in *.
    by destruct (@NonceAt _ _ W (client_Eth l1) a w2).
  - intros tx resp w2 Hc Hb Hr Hw2. by apply (Hsend l1 cfg tx resp).
  - intros resp. split; [apply steps_call, bi_block0|]. intros h. apply steps_call, bi_receipt0.
Qed.

Lemma NewBatchSubmitter_keeps I recorded answers :
  batcher_calls I recorded answers -> batcher_sends I recorded answers ->
  keeps I (Batcher.NewBatchSubmitter schedule (Batcher.NewConfig ctx))
    (fun svc => preserves (fun sw => I sw.2) (Service_tick svc)).
Proof.
  intros HI Hsend. pose proof HI as []. unfold Batcher.NewBatchSubmitter.
  eapply keeps_bind; [apply keeps_lift; intros ? E; exact E|]. intros key Hkey.
  eapply keeps_bind; [apply keeps_lift; intros ? E; exact E|]. intros inbox Hinbox.
  eapply keeps_bind; [apply keeps_answer, bi_dial0|]. intros l1 Hl1.
  eapply keeps_bind; [apply keeps_preserves, bi_dial0|]. intros l2 _.
  apply (keeps_bind _ _ (fun r => exists rpc, r = NewRollupClient rpc)).
  { unfold dialRollupClientWithTimeout. eapply keeps_bind; [apply keeps_preserves, bi_dial_rpc0|].
    intros rpc _. apply keeps_ret. by exists rpc. }
  intros rollup [rpc ->]. apply (keeps_bind _ _ (fun db => db = batcher_db)).
  { assert (Hopen : preserves I (OpenJSONFileDatabase (jd_filename batcher_db) 600 (jd_genesisHash batcher_db)))
      by (unfold OpenJSONFileDatabase; preserves_tac).
    intros w Hw. split; [by apply Hopen|].
    intros db. unfold OpenJSONFileDatabase, mbind, M_bind.
    destruct (os_Stat_NotExist _ w) as [[[]|e| |] w1]; try done; [|by intros [= <-]].
    by destruct (os_Create _ w1) as [[[]|e| |] w2]; [intros [= <-]|..]. }
  intros db ->. eapply keeps_bind; [apply keeps_answer, bi_chain0|].
  intros chainID Hc. apply keeps_lift. intros svc ->%NewService_ok.
  apply (batcher_tick_keeps I recorded answers); [done..|].
  unfold parseAddress in Hinbox. destruct (IsHexAddress _) eqn:Eh; [|done]. injection Hinbox as <-.
  by unfold configured; split_and!.
Qed.

(** Over a whole run of the program, from its flags on, through any number of ticks and
    however [Send] retries, errors and panics included, such transactions are all that it
    hands to the L1 client. *)
Lemma Batcher_Main_preserves I recorded answers evs :
  batcher_calls I recorded answers -> batcher_sends I recorded answers -> preserves I (Batcher.Main schedule ctx evs).
Proof.
  intros HI Hsend. unfold Batcher.Main. apply preserves_bind; [apply preserves_lift|]. intros l w Hw.
  unfold mbind, M_bind. destruct (NewBatchSubmitter_keeps I recorded answers HI Hsend w Hw) as [Hw' Hsvc].
  destruct (Batcher.NewBatchSubmitter _ _ w) as [[svc|e| |] w']; cbn in *; try done.
  by apply Service_run_preserves; [apply Hsvc|].
Qed.
End BatcherRun.

(** ** What the output submitter publishes *)

(** The binding of the contract at an address makes transactions to that address:
    [appendL2Output] with its arguments encoded, and raw ones with the given data. *)
Class OracleLaws `{GethTypes} `{Signing} (W : Type) `{!Backends W} := {
  appendL2Output_data : Hash -> bigInt -> Hash -> bigInt -> list byte;
  AppendL2Output_tx : forall addr c o k chainID nonce root ts h n (w w' : W) tx,
    NewL2OutputOracle addr c = Ok o ->
    @AppendL2Output _ W o k chainID nonce root ts h n w = (Ok tx, w') ->
    dt_To (tx_inner tx) = Some addr /\ dt_Data (tx_inner tx) = appendL2Output_data root ts h n;
  RawTransact_tx : forall addr c o k chainID nonce data (w w' : W) tx,
    NewL2OutputOracle addr c = Ok o ->
    @RawTransact _ W o k chainID nonce data w = (Ok tx, w') ->
    dt_To (tx_inner tx) = Some addr /\ dt_Data (tx_inner tx) = data;
}.

(** What the program's queries were answered *)
Record answered := mkAnswered {
  an_output : bigInt -> list Hash -> Prop;        (* the rollup node, of a block *)
  an_next : bigInt -> Prop;                       (* the contract: its next timestamp *)
  an_block : bigInt -> bigInt -> Prop;            (* the contract: the block of a timestamp *)
  an_l1 : Header -> Prop;                         (* the L1 client: its latest header *)
  an_l2 : bigInt -> Header -> Prop;               (* the L2 client: the header of a block *)
}.

Section OutputRun.
Context `{LogLib} `{Keccak} `{GethTypes} `{Wallets} {W : Type} `{!Backends W} `{!OracleLaws W}.
Context (schedule : unit * W -> list choice) (ctx : cliContext).

(** The transaction appends, to the configured contract, the output root that the rollup
    node answered for a block: the one that the contract gives for its next timestamp, and
    whose L2 header has that timestamp; anchored at a latest L1 header. *)
Definition commits (an : answered) (tx : SignedTx) : Prop :=
  let address := Proposer.L2OOAddress (Proposer.NewConfig ctx) in
  exists blockNum root timestamp l1 l2,
    an_output an blockNum [supportedL2OutputVersion; root] /\
    an_next an timestamp /\ an_block an timestamp blockNum /\
    an_l1 an l1 /\ an_l2 an blockNum l2 /\ hdr_Time l2 = wrap 64 timestamp /\
    IsHexAddress address = true /\ dt_To (tx_inner tx) = Some (HexToAddress address) /\
    dt_Data (tx_inner tx) = appendL2Output_data root timestamp (header_Hash l1) (hdr_Number l1).

(** A property [I] of the outside world that every call of the program keeps, but for the
    publication of a transaction that does not commit to what was answered. *)
Record output_invariant (I : W -> Prop) (an : answered) : Prop := {
  oi_dial : forall url, preserves I (ethclient_DialContext url);
  oi_dial_rpc : forall url, preserves I (rpc_DialContext url);
  oi_chain : forall c, preserves I (client_ChainID c);
  oi_l1 : forall c, keeps I (@HeaderByNumber _ _ W (client_Eth c) None) (an_l1 an);
  oi_l2 : forall c n, keeps I (@HeaderByNumber _ _ W (client_Eth c) (Some n)) (an_l2 an n);
  oi_nonce : forall c a, preserves I (@NonceAt _ _ W (client_Eth c) a);
  oi_block : forall c, preserves I (client_BlockNumber c);
  oi_receipt : forall c h, preserves I (client_TransactionReceipt c h);
  oi_output : forall rpc n, keeps I
    (rpc_CallOutput rpc "optimism_outputAtBlock" (hexutil_EncodeBig n)) (an_output an n);
  oi_oracle : forall addr c o, NewL2OutputOracle addr c = Ok o ->
    preserves I (@LatestBlockTimestamp _ W o) /\ keeps I (@NextTimestamp _ W o) (an_next an) /\
    (forall ts, keeps I (@ComputeL2BlockNumber _ W o ts) (an_block an ts)) /\
    (forall k id nonce root ts h n, preserves I (@AppendL2Output _ W o k id nonce root ts h n)) /\
    (forall k id nonce data, preserves I (@RawTransact _ W o k id nonce data));
  oi_send : forall c tx w, commits an tx -> I w -> I (@SendTransaction _ _ W (client_Eth c) tx w).2;
}.

Lemma outputRootAtBlock_keeps I an rpc n :
  output_invariant I an ->
  keeps I (@outputRootAtBlock W (NewRollupClient rpc) n)
    (fun root => an_output an n [supportedL2OutputVersion; root]).
Proof.
  intros HI. unfold outputRootAtBlock. eapply keeps_bind; [apply (oi_output I an HI)|].
  intros [|version [|root [|]]] Ho; try apply keeps_throw.
  destruct (Z.eqb_spec version supportedL2OutputVersion) as [->|]; [by apply keeps_ret|apply keeps_throw].
Qed.

Section Driver.
Context (I : W -> Prop) (an : answered) (HI : output_invariant I an).
Context (l1 l2 : Client) (rpc : RPC) (o : L2OutputOracle W) (key : SigningKey) (chainID : bigInt).
Context (Haddr : IsHexAddress (Proposer.L2OOAddress (Proposer.NewConfig ctx)) = true).
Context (Ho : NewL2OutputOracle (HexToAddress (Proposer.L2OOAddress (Proposer.NewConfig ctx))) l1 = Ok o).
#[local] Existing Instance o.
#[local] Instance driver_l1 : EthClient W := client_Eth l1.
#[local] Instance driver_rollup : RollupClient W := NewRollupClient rpc.
Abbreviation l2HeaderByNumber := (fun n => @HeaderByNumber _ _ W (client_Eth l2) (Some n)).

Lemma output_CraftTx_keeps start end_ nonce :
  keeps I (Proposer_CraftTx key chainID l2HeaderByNumber start end_ nonce) (commits an).
Proof.
  destruct (oi_oracle I an HI _ _ _ Ho) as (_ & Hnext & Hblock & Happend & _).
  unfold Proposer_CraftTx. cbv zeta.
  eapply keeps_bind; [by apply outputRootAtBlock_keeps|]. intros root Hroot.
  eapply keeps_bind; [apply Hnext|]. intros ts Hts.
  eapply keeps_bind; [apply Hblock|]. intros n Hn.
  destruct (Z.eqb_spec (end_ - 1) n) as [<-|]; cbn [negb]; [|apply keeps_throw].
  eapply keeps_bind; [apply keeps_M_err, (oi_l1 I an HI)|]. intros h1 Hh1.
  eapply keeps_bind; [apply keeps_M_err, (oi_l2 I an HI)|]. intros h2 Hh2.
  destruct (Z.eqb_spec (hdr_Time h2) (wrap 64 ts)) as [Ht|]; cbn [negb]; [|apply keeps_throw].
  intros w Hw. split; [by apply Happend|]. intros tx E.
  destruct (AppendL2Output key chainID nonce root ts (header_Hash h1) (hdr_Number h1) w) as [r w'] eqn:Ew.
  cbn in E. subst r. destruct (AppendL2Output_tx _ _ _ _ _ _ _ _ _ _ _ _ _ Ho Ew) as [Hto Hdata].
  exists (end_ - 1), root, ts, h1, h2. by split_and!.
Qed.
Lemma output_UpdateGasPrice_keeps tx :
  commits an tx ->
  keeps I (RawTransact key chainID (dt_Nonce (tx_inner tx)) (dt_Data (tx_inner tx))) (commits an).
Proof.
  destruct (oi_oracle I an HI _ _ _ Ho) as (_ & _ & _ & _ & Hraw).
  intros (n & root & ts & h1 & h2 & ? & ? & ? & ? & ? & ? & ? & Hto & Hdata) w Hw.
  split; [by apply Hraw|]. intros tx' E.
  destruct (RawTransact _ _ _ _ w) as [r w'] eqn:Ew. cbn in E. subst r.
  destruct (RawTransact_tx _ _ _ _ _ _ _ _ _ _ Ho Ew) as [Hto' Hdata'].
  exists n, root, ts, h1, h2. split_and!; try done. congruence.
Qed.
Lemma output_GetBlockRange_preserves : preserves I Proposer_GetBlockRange.
Proof.
  destruct (oi_oracle I an HI _ _ _ Ho) as (Hlatest & Hnext & Hblock & _).
  assert (Hk : forall {A} (c : M W A) Q, keeps I c Q -> preserves I c) by (intros A c Q Hc w Hw; by apply Hc).
  unfold Proposer_GetBlockRange. apply preserves_bind; [done|]. intros ts.
  apply preserves_bind; [eapply Hk, Hblock|]. intros start. cbv zeta.
  apply preserves_bind; [eapply Hk, Hnext|]. intros next.
  apply preserves_bind; [eapply Hk, (oi_l1 I an HI)|]. intros h.
  destruct (_ <? _); [apply preserves_ret|].
  apply preserves_bind; [eapply Hk, Hblock|]. intros e. apply preserves_ret.
Qed.

Lemma output_tick_preserves tm :
  preserves (fun sw => I sw.2) (@eventLoop_tick _ _
    (Proposer.stateless (ProposerDriver key chainID (PubkeyToAddress key) l2HeaderByNumber))
    (@SimpleTxManager _ _ (L1_ReceiptSource l1) signed_Hash core_ErrNonceTooLow tm schedule)
    (fun addr => call (@NonceAt _ _ W (client_Eth l1) addr))).
Proof.
  assert (Hcall : forall {A} (c : M W A) Q, keeps I c Q -> keeps (fun sw : unit * W => I sw.2) (call c) Q).
  { intros A c Q Hc [u w] Hw. unfold call. destruct (Hc w Hw). cbn in *. by destruct (c w). }
  assert (Hpre : forall {A} (c : M W A), preserves I c -> preserves (fun sw : unit * W => I sw.2) (call c)).
  { intros A c Hc [u w] Hw. unfold call. specialize (Hc w Hw). cbn in *. by destruct (c w). }
  assert (Hany : forall {A} (c : M (unit * W) A), preserves (fun sw => I sw.2) c ->
    steps (fun sw => I sw.2) any_step c) by (intros A c Hc sw Hw; split; [by apply Hc|done]).
  apply (eventLoop_tick_preserves (TxManagerLaws0 := @SimpleTxManager_laws _ _ (L1_ReceiptSource l1) _ _ tm schedule)
    (ServiceDriver0 := Proposer.stateless _) _ _ any_step (commits an)).
  - split; [apply Hany, Hpre, (oi_block I an HI)|intros h; apply Hany, Hpre, (oi_receipt I an HI)].
  - apply Hpre, (oi_nonce I an HI).
  - intros tx d Htx. pose proof (Hcall _ _ _ (output_UpdateGasPrice_keeps tx Htx)) as Hu.
    apply sound_keeps; [|exact Hu]. apply Hany. intros sw Hw. by apply Hu.
  - intros tx d Htx. apply sound_steps, Hany, Hpre. intros w Hw. by apply (oi_send I an HI).
  - apply Hpre, output_GetBlockRange_preserves.
  - intros start end_ nonce. apply Hcall, output_CraftTx_keeps.
Qed.
End Driver.

Lemma NewL2OutputSubmitter_keeps I an :
  output_invariant I an ->
  keeps I (Proposer.NewL2OutputSubmitter schedule (Proposer.NewConfig ctx))
    (fun svc => preserves (fun sw => I sw.2) (Service_tick svc)).
Proof.
  intros HI. pose proof HI as []. unfold Proposer.NewL2OutputSubmitter.
  eapply keeps_bind; [by apply keeps_preserves, preserves_lift|]. intros key _.
  eapply keeps_bind; [apply keeps_lift; intros ? E; exact E|]. intros addr Haddr.
  eapply keeps_bind; [apply keeps_preserves, oi_dial0|]. intros l1 _.
  eapply keeps_bind; [apply keeps_preserves, oi_dial0|]. intros l2 _.
  apply (keeps_bind _ _ (fun r => exists rpc, r = NewRollupClient rpc)).
  { unfold dialRollupClientWithTimeout. eapply keeps_bind; [apply keeps_preserves, oi_dial_rpc0|].
    intros rpc _. apply keeps_ret. by exists rpc. }
  intros rollup [rpc ->]. eapply keeps_bind; [apply keeps_preserves, oi_chain0|]. intros chainID _.
  eapply keeps_bind; [apply keeps_lift; intros ? E; exact E|]. intros driver Hd.
  apply keeps_lift. intros svc ->%NewService_ok.
  unfold parseAddress in Haddr. destruct (IsHexAddress _) eqn:Eh; [|done]. injection Haddr as <-.
  unfold Proposer.NewDriver in Hd. apply res_bind_ok in Hd as (o & Ho & Hd).
  apply res_bind_ok in Hd as (u & _ & Hd). injection Hd as <-.
  by apply (output_tick_preserves I an HI l1 l2 rpc o).
Qed.

(** [C23] What the output submitter publishes.  Over a whole run of the program, from its
    flags on, through any number of ticks, whatever the schedule of the go-routines that
    resend with higher gas prices, errors and panics included, it hands to the L1 client
    only transactions to the configured contract that append the output root, of the
    supported version, which the rollup node answered for a block: the block that the
    contract gave for its next timestamp, whose L2 header has that timestamp; with the hash
    and number of a header that was the latest of L1. *)
Theorem OutputSubmitter_publishes I an evs :
  output_invariant I an -> preserves I (Proposer.Main schedule ctx evs).
Proof.
  intros HI. unfold Proposer.Main. apply preserves_bind; [apply preserves_lift|]. intros l w Hw.
  unfold mbind, M_bind. destruct (NewL2OutputSubmitter_keeps I an HI w Hw) as [Hw' Hsvc].
  destruct (Proposer.NewL2OutputSubmitter _ _ w) as [[svc|e| |] w']; cbn in *; try done.
  by apply Service_run_preserves; [apply Hsvc|].
Qed.
End OutputRun.

(** ** Witness: a world that keeps the history file and what was ever written to it, and
    with every transaction sent what had been written at that time *)
Record prog_world (T : Type) := mkProgWorld {
  pw_file : list byte;
  pw_writes : list (list byte);
  pw_sent : list (T * list (list byte));
}.
Arguments mkProgWorld {T}.
Arguments pw_file {T}.
Arguments pw_writes {T}.
Arguments pw_sent {T}.
Definition send_tx {T} (tx : T) : M (prog_world T) unit := fun w =>
  (Ok tt, mkProgWorld (pw_file w) (pw_writes w) (pw_sent w ++ [(tx, pw_writes w)])).
Definition ProgFiles {T} : Files (prog_world T) := {|
  os_Stat_NotExist := fun _ w => (Ok (bool_decide (pw_file w = [])), w);
  os_Create := fun _ w => (Ok tt, mkProgWorld [] (pw_writes w) (pw_sent w));
  os_ReadFile := fun _ w => (Ok (pw_file w), w);
  os_OpenFile := fun _ w => (Ok tt, mkProgWorld [] (pw_writes w) (pw_sent w));
  file_Write := fun _ b w =>
    (Ok tt, mkProgWorld (b ++ drop (length b) (pw_file w)) (b :: pw_writes w) (pw_sent w)) |}.
Lemma ProgFilesLaws {T} : @FilesLaws (prog_world T) ProgFiles.
Proof.
  split; cbn.
  - by intros f w w' r [= _ ->].
  - by intros f w w' [= <-].
  - by intros f b c w w' [= <-] [= <-].
  - by intros f w w' [= <-].
Qed.
Definition prog_header (n time : Z) : Header :=
  {| hdr_ParentHash := 0; hdr_UncleHash := 0; hdr_Coinbase := 0; hdr_Root := 0; hdr_TxHash := 0;
     hdr_ReceiptHash := 0; hdr_Bloom := 0; hdr_Difficulty := 0; hdr_Number := n; hdr_GasLimit := 0;
     hdr_GasUsed := 0; hdr_Time := time; hdr_Extra := []; hdr_MixDigest := 0; hdr_Nonce := 0;
     hdr_BaseFee := 7 |}.
#[local] Existing Instance ToyGeth.
#[local] Existing Instance ToySigning.
#[local] Existing Instance ToyKeccak.
#[local] Existing Instance ToyLogLib.
Definition ProgWallets : Wallets := {|
  Wallet := string;
  hdwallet_NewFromMnemonic := fun s => Ok s;
  wallet_PrivateKey := fun _ _ => Ok tt;
  PubkeyToAddress := fun _ => 44;
  IsHexAddress := fun s => bool_decide (s = "0x37");
  HexToAddress := fun _ => 55;
  HexToHash := fun _ => 77;
  hexutil_EncodeBig := fun n => "0x";
  signed_Hash := fun tx => dt_Nonce tx;
  core_ErrNonceTooLow := "nonce too low" |}.
#[local] Existing Instance ProgWallets.
Abbreviation oworld := (prog_world DynamicFeeTx).
Definition prog_data (root timestamp h n : Z) : list byte :=
  be_bytes 32 root ++ be_bytes 32 timestamp ++ be_bytes 32 h ++ be_bytes 32 n.
Definition prog_tx (nonce : Z) (to_ : Z) (data : list byte) : DynamicFeeTx :=
  mkDynamicFeeTx 900 nonce (Some to_) 2 16 21000 data.
Definition ProgOracle (addr : Address) : L2OutputOracle oworld := {|
  LatestBlockTimestamp := mret 100;
  ComputeL2BlockNumber := fun ts => mret (ts / 2);
  NextTimestamp := mret 120;
  AppendL2Output := fun _ _ nonce root ts h n w => (Ok (prog_tx nonce addr (prog_data root ts h n)), w);
  RawTransact := fun _ _ nonce data w => (Ok (prog_tx nonce addr data), w) |}.
Definition ProgEthClient : EthClient oworld := {|
  SuggestGasTipCap := mret 2;
  HeaderByNumber := fun n => mret (match n with None => prog_header 10 130 | Some n => prog_header n (2 * n) end);
  SendTransaction := send_tx;
  NonceAt := fun _ => mret 3 |}.
Definition ProgBackends : Backends oworld := {|
  Client := unit; RPC := unit;
  ethclient_DialContext := fun _ => mret tt;
  rpc_DialContext := fun _ => mret tt;
  client_ChainID := fun _ => mret 900;
  client_Eth := fun _ => ProgEthClient;
  client_BlockNumber := fun _ => mret 20;
  client_TransactionReceipt := fun _ h => mret (Some (mkReceipt x02 [] 1 21000 0 [] h (Some 11) 0 0));
  rpc_CallBundle := fun _ _ _ => mret None;
  rpc_CallOutput := fun _ _ n => mret [0; 4242];
  NewL2OutputOracle := fun addr _ => Ok (ProgOracle addr);
  L2OutputOracle_ABI := Ok tt |}.
#[local] Existing Instance ProgBackends.
Definition ProgOracleLaws : OracleLaws oworld.
Proof.
  refine {| appendL2Output_data := prog_data |}.
  - intros addr c o k id nonce root ts h n w w' tx [= <-] [= <- _]. by split.
  - intros addr c o k id nonce data w w' tx [= <-] [= <- _]. by split.
Defined.
#[local] Existing Instance ProgOracleLaws.

Definition prog_ctx : cliContext := mkCli
  (fun flag => if bool_decide (flag = "sequencer-batch-inbox-address") then "0x37"
               else if bool_decide (flag = "l2oo-address") then "0x37" else flag)
  (fun _ => false) (fun _ => 0) (fun _ => 0)
  (fun flag => if bool_decide (flag = "max-l1-tx-size-bytes") then 1000 else 2)
  (fun _ => 1000) (fun _ => []) (fun _ => false).
(** The transaction is sent again with a higher price before the first one is mined; each
    publisher takes two turns to update the price, two to send and three until it reports. *)
Definition turns (i n : nat) : list choice := replicate n (ChPublisher i).
Definition prog_choices : list choice :=
  turns 0 4 ++ [ChMain EvResubmission] ++ turns 1 4 ++ turns 0 3 ++ [ChMain EvReceipt] ++
  turns 1 3 ++ [ChMain EvWaited].

Definition output_run :=
  Proposer.Main (fun _ => prog_choices) prog_ctx [PollTick] (mkProgWorld [] [] []).
Lemma OutputSubmitter_publishes_witness :
  length (pw_sent output_run.2) = 2%nat /\
  Forall (fun p => exists h n, dt_Data p.1 = prog_data 4242 120 h n) (pw_sent output_run.2).
Proof.
  split; [vm_compute; reflexivity|]. unfold output_run.
  apply (OutputSubmitter_publishes (fun _ => prog_choices) prog_ctx
    (fun w => Forall (fun p => exists h n, dt_Data p.1 = prog_data 4242 120 h n) (pw_sent w))
    (mkAnswered (fun _ out => out = [0; 4242]) (fun ts => ts = 120) (fun _ _ => True)
       (fun _ => True) (fun _ _ => True)) [PollTick]); [|constructor].
  split; try (intros; intros w Hw; exact Hw); try (intros; intros w Hw; split; [exact Hw|done]).
  - intros rpc n w Hw. split; [exact Hw|]. by intros a [= <-].
  - intros addr c o [= <-]. split_and!; try (intros; intros w Hw; exact Hw).
    + intros w Hw. split; [exact Hw|]. by intros a [= <-].
    + intros ts w Hw. by split.
  - intros c tx w (n & root & ts & h1 & h2 & Hout & -> & _ & _ & _ & _ & _ & _ & Hdata) Hw.
    apply Forall_app. split; [exact Hw|]. constructor; [|constructor]. injection Hout as ->. eauto.
Defined.
