(* ===== verification/Publication.v ===== *)
(** * From the L2 chain to its batches on L1

    The batch submitter (Programs.v), the rollup node it asks for bundles (NodeAPI.v) and
    the verifiers that read batches from L1 (Batches.v) together.  No code of its own; with a
    run in which two publishing go-routines leave a history file that nobody can read. *)

From S2P Require Import Prelude Flags Types Threads Geth L1Info Batches L2Source NodeAPI TxMgr History Submitter Sending P2PConfig Service Programs.

(** A signed transaction as L1 has it once it is included: the recipient, the data, and the
    sender of a transaction signed with a key. *)
Class L1Inclusion `{GethTypes} `{Wallets} := {
  as_L1 : SignedTx -> Transaction;
  as_L1_To : forall tx, tx_To (as_L1 tx) = dt_To (tx_inner tx);
  as_L1_Data : forall tx, tx_Data (as_L1 tx) = dt_Data (tx_inner tx);
  as_L1_Sender : forall key id raw tx, SignNewTx key id raw = Ok tx ->
    tx_Sender id (as_L1 tx) = Ok (PubkeyToAddress key);
}.

Section Publication.
Context `{LogLib} `{HistoryJSONLaws} `{GethTypes} `{SigningLaws} `{!Wallets} `{!L1Inclusion} `{RLPLaws}.
Context {W : Type} `{!Backends W} `{FilesLaws W} (schedule : option BatchBundleResponse * W -> list choice).
Context (ctx : cliContext).
(** The world of the rollup node, and its L2 client *)
Context {V : Type} `{!L2EthClient V}.

(** The answers of the node's [GetBatchBundle] *)
Definition node_answers (req : BatchBundleRequest) (resp : BatchBundleResponse) : Prop :=
  exists v v' : V, GetBatchBundle req v = (Ok (Some resp), v').

(** The verifiers are configured for this batch submitter. *)
Definition accepts (rollup : Config) (cfg : BatcherConfig) : Prop :=
  cfg_BatchInboxAddress rollup = bcfg_BatchInboxAddress cfg /\
  cfg_BatchSenderAddress rollup = PubkeyToAddress (bcfg_PrivKey cfg) /\
  cfg_L1ChainID rollup = bcfg_ChainID cfg.

(** The transaction holds the batches of consecutive blocks of the node's L2 client, all
    of them that have one, after a canonical block of a history of the submitter, and the
    last of these blocks has been recorded; every verifier reads exactly these batches from
    it. *)
Definition publishes_batches (recorded : BlockID -> W -> Prop) (cfg : BatcherConfig) (tx : SignedTx) (w : W) : Prop :=
  exists history found blocks batches,
    id_Hash found ∈ Ancestors history /\
    (exists n (v v' : V) ref, cl_L2BlockRefByNumber n v = (Ok ref, v') /\ found = L2BlockRef_ID ref) /\
    fetched (W := V) (id_Number found) blocks /\ zlen blocks <= MaxL2BlocksPerBatchResponse /\
    Forall2 (fun bl b => BlockToBatch bl = Ok b) blocks batches /\ omap id batches <> [] /\
    zlen (tx_Data (as_L1 tx)) <= bcfg_MaxL1TxSize cfg /\
    (forall rollup, accepts rollup cfg -> tx_batches rollup (as_L1 tx) = omap id batches) /\
    exists bl, last blocks = Some bl /\ recorded (mkBlockID (bl_Hash bl) (bl_NumberU64 bl)) w.

Lemma carries_publishes recorded cfg tx resp w :
  carries cfg tx resp -> bundle_for cfg node_answers resp -> recorded (last_block resp) w ->
  publishes_batches recorded cfg tx w.
Proof.
  intros (Hto & Hdata & _ & (raw & Hsign) & _) ([history (v & v' & Ha)] & Hne & Hlast) Hin.
  apply GetBatchBundle_spec in Ha as (found & blocks & batches & Hf & Hcanon & Hprev & Hfetch & Hl & Hlb & Hb & Hbundle).
  assert (Hbs : omap id batches <> []) by (intros E; by rewrite E in Hbundle).
  assert (Henc : EncodeBatches (omap id batches) = Ok (br_Bundle resp) /\
    zlen (br_Bundle resp) <= bcfg_MaxL1TxSize cfg) by by destruct (omap id batches).
  destruct Henc as [Henc Hsize]. apply EncodeBatches_roundtrip in Henc.
  exists history, found, blocks, batches. split_and!; try done.
  - destruct Hcanon as (n & w1 & ref & w2 & E & ->). by exists n, w1, w2, ref.
  - by rewrite as_L1_Data, Hdata.
  - intros rollup (Hinbox & Hsender & Hchain). unfold tx_batches.
    rewrite as_L1_To, Hto, Hinbox, bool_decide_true by done.
    rewrite Hchain, (as_L1_Sender _ _ _ _ Hsign), Hsender, Z.eqb_refl, as_L1_Data, Hdata.
    by rewrite Henc.
  - destruct (last blocks) as [bl|]; [|by rewrite <-Hprev in Hlb; injection Hlb].
    exists bl. split; [done|]. unfold last_block in Hin. by rewrite <-Hlb.
Qed.

(** [C22] From the L2 chain to its batches on L1.  Over a whole run of the batch submitter,
    from its flags on, through any number of ticks, whatever the schedule of the
    go-routines that resend with higher gas prices, whose calls interleave step by step,
    errors and panics included: each transaction that it hands to the L1 client has, for
    every verifier of the rollup, exactly the batches of consecutive L2 blocks that follow a
    canonical block of the submitter's history, none left out, at most 100 blocks and
    [MaxL1TxSize] bytes; and a history that has the last of these blocks has been written
    to the history file by then (another go-routine may have overwritten it since, see
    [racing_publishers]).  Stated over the properties of the outside world: one that all
    other calls and the publication of such transactions keep, the program keeps. *)
Theorem BatchSubmitter_publishes I recorded evs :
  batcher_calls ctx I recorded node_answers ->
  (forall c cfg tx w, configured ctx c cfg -> publishes_batches recorded cfg tx w -> I w ->
     let w' := (@SendTransaction _ _ W (client_Eth c) tx w).2 in I w' /\ remembers recorded w w') ->
  preserves I (Batcher.Main schedule ctx evs).
Proof.
  intros HI Hsend. apply (Batcher_Main_preserves schedule ctx I recorded node_answers); [done|].
  intros c cfg tx resp w Hcfg Hc Hb Hin Hw. apply (Hsend c cfg tx w Hcfg); [|done].
  by apply (carries_publishes recorded cfg tx resp w).
Qed.
End Publication.

(** ** Witness: the node of NodeAPI.v's example, and a transaction that is resent

    A signed transaction is its data; its recipient is the data's length, as in Geth.v. *)
#[export] Instance DynamicFeeTx_eq_dec : EqDecision DynamicFeeTx.
Proof. solve_decision. Defined.
Definition pub_inner (data : list byte) : DynamicFeeTx :=
  mkDynamicFeeTx 900 3 (Some (zlen data)) 2 16 (21000 + zlen data) data.
Definition PubSigning : Signing := {|
  SignedTx := list byte; SigningKey := unit; tx_inner := pub_inner;
  SignNewTx := fun _ id raw =>
    if bool_decide (id = 900 /\ raw = pub_inner (dt_Data raw)) then Ok (dt_Data raw)
    else Err (EMsg "tx type not supported");
  IntrinsicGas := fun data => Ok (21000 + zlen data) |}.
Lemma PubSigningLaws : @SigningLaws PubSigning.
Proof.
  split. intros k id raw tx. cbn. case_bool_decide as Hr; [|done]. intros [= <-]. by destruct Hr as [_ <-].
Qed.
#[local] Existing Instance ToyGeth.
#[local] Existing Instance ToyRLP.
#[local] Existing Instance ToyRLPLaws.
#[local] Existing Instance PubSigning.
#[local] Existing Instance PubSigningLaws.
#[local] Existing Instance ToyJSON.
#[local] Existing Instance ToyJSONLaws.
#[local] Existing Instance ToyLogLib.
#[local] Existing Instance ToyL2EthClient.
#[local] Existing Instance ProgFiles.
#[local] Existing Instance ProgFilesLaws.
Definition pub_inbox : Z := 100.                 (* the length of the example's bundle *)
Definition PubWallets : Wallets := {|
  Wallet := string;
  hdwallet_NewFromMnemonic := fun s => Ok s;
  wallet_PrivateKey := fun _ _ => Ok tt;
  PubkeyToAddress := fun _ => 907;
  IsHexAddress := fun s => true;
  HexToAddress := fun _ => pub_inbox;
  HexToHash := fun _ => 40;
  hexutil_EncodeBig := fun n => "0x";
  signed_Hash := fun tx => toy_keccak tx;
  core_ErrNonceTooLow := "nonce too low" |}.
#[local] Existing Instance PubWallets.
Definition PubInclusion : L1Inclusion.
Proof.
  refine {| as_L1 := fun data : @SignedTx PubSigning => (x02, data) : @Transaction ToyGeth |}; try done.
  intros key id raw tx. cbn. case_bool_decide as Hr; [|done]. by destruct Hr as [-> _].
Defined.
#[local] Existing Instance PubInclusion.
Abbreviation pworld := (prog_world (list byte)).
Definition PubEthClient : EthClient pworld := {|
  SuggestGasTipCap := mret 2;
  HeaderByNumber := fun n => mret (prog_header 10 130);
  SendTransaction := send_tx;
  NonceAt := fun _ => mret 3 |}.
Definition PubBackends : Backends pworld := {|
  Client := unit; RPC := unit;
  ethclient_DialContext := fun _ => mret tt;
  rpc_DialContext := fun _ => mret tt;
  client_ChainID := fun _ => mret 900;
  client_Eth := fun _ => PubEthClient;
  client_BlockNumber := fun _ => mret 20;
  client_TransactionReceipt := fun _ h => mret (Some (mkReceipt x02 [] 1 21000 0 [] h (Some 11) 0 0));
  rpc_CallBundle := fun _ _ req w => ((GetBatchBundle req tt).1, w);
  rpc_CallOutput := fun _ _ n => mret [0; 4242];
  NewL2OutputOracle := fun addr _ => Err (EMsg "no contract");
  L2OutputOracle_ABI := Ok tt |}.
#[local] Existing Instance PubBackends.
Definition pub_config : Config :=
  mkConfig (mkGenesis (mkBlockID 1 0) (mkBlockID 2 0) 100) 2 10 4 900 901 77 78 pub_inbox 907 79.

Definition written (id : BlockID) (w : pworld) : Prop := Exists (has_block id) (pw_writes w).
Definition pub_sound (w : pworld) : Prop :=
  Forall (fun p => exists blocks batches, Forall2 (fun bl b => BlockToBatch bl = Ok b) blocks batches /\
    tx_batches pub_config (x02, p.1) = omap id batches /\ omap id batches <> [] /\
    exists bl, last blocks = Some bl /\
      Exists (has_block (mkBlockID (bl_Hash bl) (bl_NumberU64 bl))) p.2) (pw_sent w).

Lemma pub_calls : batcher_calls prog_ctx pub_sound written (node_answers (V := unit)).
Proof.
  split; try (intros; intros w Hw; exact Hw); try (intros; intros w Hw; split; [exact Hw|by intros id Hid]).
  - intros b w Hw. cbn. split_and!; [exact Hw|by intros id Hid; right|by left].
  - intros rpc req w Hw. split; [exact Hw|]. intros a Ha resp ->. exists tt, tt.
    change ((GetBatchBundle req tt).1 = Ok (Some resp)) in Ha.
    destruct (GetBatchBundle req tt) as [r []]. by rewrite <-Ha.
Qed.
Lemma pub_sends (c : unit) cfg tx (w : pworld) :
  configured prog_ctx c cfg -> publishes_batches (V := unit) written cfg tx w -> pub_sound w ->
  let w' := (@SendTransaction _ _ pworld (client_Eth c) tx w).2 in pub_sound w' /\ remembers written w w'.
Proof.
  intros (_ & _ & _ & Hinbox & _ & _ & v & v' & Hchain)
    (history & found & blocks & batches & _ & _ & _ & _ & Hb & Hne & _ & Htx & bl & Hbl & Hin) Hw.
  split; [|by intros id Hid].
  apply Forall_app. split; [exact Hw|]. constructor; [|constructor]. exists blocks, batches.
  split_and!; [exact Hb| |exact Hne|exists bl; split; [exact Hbl|exact Hin]].
  apply (Htx pub_config). unfold accepts. cbn. split_and!; [by rewrite Hinbox|done|].
  cbn in Hchain. by injection Hchain.
Qed.

(** Two publishers, whose calls of [SendTransaction] have six turns each: the batch, the
    read, the truncation and the write of the history file, the transaction, the return. *)
Definition racing_choices : list choice :=
  turns 0 3 ++ [ChMain EvResubmission] ++ turns 1 3 ++
  turns 0 3 ++ turns 1 3 ++                      (* 1 reads the file that 0 has truncated *)
  turns 0 1 ++ turns 1 1 ++                      (* and writes over what 0 writes *)
  turns 0 2 ++ turns 1 2 ++ turns 0 3 ++ [ChMain EvReceipt] ++ turns 1 3 ++ [ChMain EvWaited].
Definition pub_history : History := mkHistory [mkBlockID 40 0; mkBlockID 1041 7; mkBlockID 1042 8].
Definition pub_world : pworld :=
  mkProgWorld (match toy_marshal pub_history with Ok b => b | _ => [] end) [] [].
Definition pub_run := Batcher.Main (fun _ => racing_choices) prog_ctx [PollTick] pub_world.

Lemma BatchSubmitter_publishes_witness : length (pw_sent pub_run.2) = 2%nat /\ pub_sound pub_run.2.
Proof.
  split; [vm_compute; reflexivity|]. unfold pub_run.
  apply (BatchSubmitter_publishes (V := unit) (fun _ => racing_choices) prog_ctx pub_sound written);
    [exact pub_calls|exact pub_sends|constructor].
Defined.

(** After the same run the history file cannot be parsed: the end of the longer history is
    left behind the shorter one.  The submitter, which reads it in every tick, publishes
    nothing more. *)
Example racing_publishers :
  JSON_LoadHistory (batcher_db prog_ctx) pub_run.2 =
    (Err (EMsg "invalid character after top-level value"), pub_run.2) /\
  forall schedule, let w := (Batcher.Main schedule prog_ctx [PollTick; PollTick] pub_run.2).2 in
    pw_sent w = pw_sent pub_run.2.
Proof. split; [vm_compute; reflexivity|]. intros schedule. vm_compute. reflexivity. Qed.
