(* ===== verification/CommandLine.v ===== *)
(** * The programs from their command lines

    The main functions of op-node/cmd, op-batcher/cmd and op-proposer/cmd: the library runs
    the program's action with what it read for the flags of Flags.v.  What the programs do
    with the flags that were given, and without them. *)

From Stdlib Require Import Strings.Ascii.
From stdpp Require Import strings gmap.
From S2P Require Import Prelude Flags Types Geth NodeAPI TxMgr Submitter Sending Node P2PConfig Resources Service Programs.
#[local] Open Scope Z_scope.

(** ** The programs *)
Section Mains.
Context `{CLI} `{LogLib}.

(** op-node's [main], up to the critical log of an error, which ends the program *)
Definition opnode_main `{ServiceLibs} `{P2PLibs} `{GethTypes} `{L1Source.LRU} {W} `{!P2PEnv W}
    (env : nodeConfig -> NodeEnv (FileSystem * W)) (isTerminal : bool) (inv : Invocation)
    : M (Trace * (FileSystem * W)) unit :=
  ctx ← lift (app_Run OpNode.Flags inv);
  RollupNodeMain env ctx isTerminal.
(** op-batcher's and op-proposer's [main] *)
Definition batcher_main `{History.HistoryJSON} `{GethTypes} `{Wallets} {W} `{!Backends W} `{!History.Files W}
    (schedule : option BatchBundleResponse * W -> list choice) (inv : Invocation) (evs : list loop_event)
    : M W (list Receipt) :=
  ctx ← lift (app_Run OpBatcher.Flags inv);
  Batcher.Main schedule ctx evs.
Definition proposer_main `{Keccak} `{GethTypes} `{Wallets} {W} `{!Backends W}
    (schedule : unit * W -> list choice) (inv : Invocation) (evs : list loop_event)
    : M W (list Receipt) :=
  ctx ← lift (app_Run OpProposer.Flags inv);
  Proposer.Main schedule ctx evs.
End Mains.

(** ** Only declared flags are read *)
Section Declared.
Context (ctx ctx' : cliContext).


Lemma Batcher_NewConfig_declared :
  Forall (same_reading ctx ctx') OpBatcher.Flags -> Batcher.NewConfig ctx = Batcher.NewConfig ctx'.
Proof. intros Hs. unfold Batcher.NewConfig. by rewrite_readings ctx ctx' Hs. Qed.
Lemma Proposer_NewConfig_declared :
  Forall (same_reading ctx ctx') OpProposer.Flags -> Proposer.NewConfig ctx = Proposer.NewConfig ctx'.
Proof. intros Hs. unfold Proposer.NewConfig. by rewrite_readings ctx ctx' Hs. Qed.

Context `{LogLib} `{ServiceLibs} `{P2PLibs} {W : Type} `{!P2PEnv W}.
Lemma P2P_NewConfig_declared :
  Forall (same_reading ctx ctx') OpNode.Flags -> P2P_NewConfig (W := W) ctx = P2P_NewConfig ctx'.
Proof.
  intros Hs.
  unfold P2P_NewConfig, loadNetworkPrivKey, loadListenOpts, loadDiscoveryOpts, discovery_path,
    loadLibp2pOpts, loadStore, loadIP.
  by rewrite_readings ctx ctx' Hs.
Qed.
Lemma NewConfig_declared :
  Forall (same_reading ctx ctx') OpNode.Flags ->
  NewConfig (W := W) ctx = NewConfig ctx' /\ NewLogConfig ctx = NewLogConfig ctx' /\
  NewSnapshotLogger (W := W) ctx = NewSnapshotLogger ctx'.
Proof.
  intros Hs. unfold NewConfig, NewRollupConfig, LoadSignerSetup, NewLogConfig, NewSnapshotLogger.
  rewrite (P2P_NewConfig_declared Hs). by rewrite_readings ctx ctx' Hs.
Qed.
End Declared.

Section SameSettings.
Context `{CLILaws} `{LogLib}.

Lemma same_readings flags inv inv' ctx ctx' :
  NoDup (flag_Name <$> flags) -> Forall (fun f => setting inv f = setting inv' f) flags ->
  app_Run flags inv = Ok ctx -> app_Run flags inv' = Ok ctx' -> Forall (same_reading ctx ctx') flags.
Proof.
  rewrite !Forall_forall. intros Hn Hs E E' f Hf. eapply settings_determine; eauto.
Qed.

(** The library accepts both, and they agree on the declared flags. *)
Definition same_settings (flags : list Flag) (inv inv' : Invocation) : Prop :=
  Forall (fun f => setting inv f = setting inv' f) flags /\
  is_ok (app_Run flags inv) = true /\ is_ok (app_Run flags inv') = true.

(** A program is a function of the settings of the flags it declares: for two command lines
    and environments that the library accepts and that agree on them, whatever else they
    hold, it reads the same configuration and does the same, in any world. *)
Lemma programs_of_settings
    `{ServiceLibs} `{P2PLibs} `{GethTypes} `{L1Source.LRU} {W} `{!P2PEnv W}
    `{History.HistoryJSON} `{Wallets} {V} `{!Backends V} `{!History.Files V} `{Keccak}
    (env : nodeConfig -> NodeEnv (FileSystem * W)) isTerminal schedule schedule' evs (inv inv' : Invocation) :
  (same_settings OpNode.Flags inv inv' ->
   forall s, opnode_main env isTerminal inv s = opnode_main env isTerminal inv' s) /\
  (same_settings OpBatcher.Flags inv inv' ->
   forall v : V, batcher_main schedule inv evs v = batcher_main schedule inv' evs v) /\
  (same_settings OpProposer.Flags inv inv' ->
   forall v : V, proposer_main schedule' inv evs v = proposer_main schedule' inv' evs v).
Proof.
  destruct names_distinct as (Hn & Hb & Hp).
  split_and!; intros (Hs & Hok & Hok') s; unfold opnode_main, batcher_main, proposer_main, mbind, M_bind, lift;
    destruct (app_Run _ inv) as [ctx| | |] eqn:E; try done;
    destruct (app_Run _ inv') as [ctx'| | |] eqn:E'; try done.
  - pose proof (same_readings _ _ _ _ _ Hn Hs E E') as Hr. unfold RollupNodeMain.
    destruct (NewConfig_declared (W := W) ctx ctx' Hr) as (E1 & E2 & E3). by rewrite E1, E2, E3.
  - unfold Batcher.Main. by rewrite (Batcher_NewConfig_declared _ _ (same_readings _ _ _ _ _ Hb Hs E E')).
  - unfold Proposer.Main. by rewrite (Proposer_NewConfig_declared _ _ (same_readings _ _ _ _ _ Hp Hs E E')).
Qed.
End SameSettings.

(** ** Without flags *)

(** What is read is the default, for the flags of [Hread]. *)
Ltac default_reading Hread :=
  repeat match goal with
  | |- context [?get ?ctx (flag_Name ?f)] =>
      let E := fresh "E" in
      pose proof (Hread f eq_refl) as E; cbn [reads flag_Value f] in E; rewrite E; clear E
  end.

Section Defaults.
Context `{CLILaws} `{LogLib} `{ServiceLibs} `{P2PLibs} {W : Type} `{!P2PEnv W}.

(** No access to a file or database fails, and keys can be made. *)
Record no_faults : Prop := {
  nf_open : forall path (w : W), (open_fault path w).1 = None;
  nf_read : forall path (w : W), (read_fault path w).1 = None;
  nf_write : forall path (w : W), (write_fault path w).1 = None;
  nf_discovery : forall path (w : W), (enode_OpenDB path w).1 = None;
  nf_store : forall path (w : W), (leveldb_NewDatastore path w).1 = None;
  nf_key : forall w : W, exists p b, (GenerateSecp256k1Key w).1 = Ok p /\ PrivKey_Raw p = Ok b;
}.
(** The key file does not exist yet, or holds a key. *)
Definition key_file_ok (fs : FileSystem) (path : string) : Prop :=
  match fs !! path with None => True | Some data => is_ok (parsePriv (TrimSpace data)) = true end.

(** The configuration that the defaults stand for *)
Definition defaultP2PConfig (p : PrivKey) (ip : IP) (yamux mplex : MuxC) (noise : SecC) : P2PConfig := {|
  pc_Priv := Some p; pc_DisableP2P := false; pc_NoDiscovery := false;
  pc_ListenIP := Some ip; pc_ListenTCPPort := 9222; pc_ListenUDPPort := 0;
  pc_AdvertiseIP := None; pc_AdvertiseTCPPort := 0; pc_AdvertiseUDPPort := 0;
  pc_Bootnodes := []; pc_DiscoveryDB := Some "opnode_discovery_db"; pc_StaticPeers := [];
  pc_HostMux := [mkMsMuxC yamux "/yamux/1.0.0"; mkMsMuxC mplex "/mplex/6.7.0"];
  pc_HostSecurity := [mkMsSecC noise noise_ID]; pc_NoTransportSecurity := false;
  pc_PeersLo := 20; pc_PeersHi := 30; pc_PeersGrace := 30 * time_Second; pc_NAT := false;
  pc_UserAgent := "optimism"; pc_TimeoutNegotiation := 10 * time_Second;
  pc_TimeoutAccept := 10 * time_Second; pc_TimeoutDial := 10 * time_Second;
  pc_Store := Some (Leveldb "opnode_peerstore_db"); pc_ConnGater := true; pc_ConnMngr := true;
|}.

Lemma wp_fs_check msg f Q fs (w : W) :
  (f w).1 = None -> (forall w', Q (Ok tt) (fs, w')) -> wp (fs_check msg f) Q (fs, w).
Proof.
  intros Hf HQ. unfold wp, fs_check, fs_ext, mbind, M_bind. cbn. destruct (f w) as [o w']. cbn in Hf. subst o. apply HQ.
Qed.
Lemma wp_lift_ok {A B} (r : res A) a (f : A -> M (FileSystem * W) B) Q s :
  r = Ok a -> wp (f a) Q s -> wp (lift r ≫= f) Q s.
Proof. by intros ->. Qed.
Lemma wp_fs_ext {A} (f : W -> A * W) Q fs (w : W) : Q (Ok (f w).1) (fs, (f w).2) -> wp (fs_ext f) Q (fs, w).
Proof. unfold wp, fs_ext. cbn. by destruct (f w). Qed.

Lemma loadNetworkPrivKey_works ctx fs (w : W) Q :
  no_faults -> GlobalString ctx (flag_Name OpNode.P2PPrivRaw) = "" ->
  key_file_ok fs (GlobalString ctx (flag_Name OpNode.P2PPrivPath)) ->
  (forall p fs' w', (forall path, path <> GlobalString ctx (flag_Name OpNode.P2PPrivPath) -> fs' !! path = fs !! path) ->
    Q (Ok p) (fs', w')) ->
  wp (loadNetworkPrivKey ctx) Q (fs, w).
Proof.
  intros Hnf Hraw Hk HQ. unfold loadNetworkPrivKey. rewrite Hraw, bool_decide_false by tauto.
  unfold key_file_ok in Hk. revert HQ Hk. generalize (GlobalString ctx (flag_Name OpNode.P2PPrivPath)). intros path HQ Hk.
  wp_step. apply wp_fs_ext. rewrite (nf_open Hnf). wp_step. wp_step. cbn [fst]. destruct (fs !! path) as [data|] eqn:Ed.
  - wp_step. apply wp_fs_check; [apply (nf_read Hnf)|]. intros w1. wp_step.
    destruct (parsePriv (TrimSpace data)); try done. by apply HQ.
  - unfold createNetworkPrivKey. wp_step. apply wp_fs_ext.
    destruct (nf_key Hnf (open_fault path w).2) as (p & b & -> & Eb). wp_step. apply wp_lift. cbn [map_err].
    wp_step. apply wp_lift. rewrite Eb. cbn [map_err].
    wp_step. apply wp_fs_check; [apply (nf_open Hnf)|]. intros w1. wp_step. wp_step.
    wp_step. apply wp_fs_check; [apply (nf_write Hnf)|]. intros w2. wp_step. wp_step. wp_step. apply HQ.
    intros path' Hp. by rewrite !lookup_insert_ne.
Qed.

(** The libraries accept the defaults. *)
Context (ip : IP) (y m : MuxC) (n : SecC).
Record defaults_supported : Prop := {
  ds_ip : ParseIP "0.0.0.0" = Some ip;
  ds_yamux : yamux_Constructor = Ok y;
  ds_mplex : mplex_Constructor = Ok m;
  ds_noise : noise_Constructor = Ok n;
}.

(** The readings are the defaults. *)
Context (ctx : cliContext).
Context (Hread : forall f, bool_decide (f ∈ OpNode.p2pFlags) = true -> reads ctx (flag_Name f) (flag_Value f)).
Lemma loadListenOpts_default : defaults_supported -> loadListenOpts ctx = Ok (Some ip, 9222, 0).
Proof. intros [Hip _ _ _]. unfold loadListenOpts, loadIP. default_reading Hread. rewrite Hip. reflexivity. Qed.
Lemma loadHostMux_default :
  defaults_supported ->
  loadHostMux (Split (GlobalString ctx (flag_Name OpNode.HostMux)))
    = Ok [mkMsMuxC y "/yamux/1.0.0"; mkMsMuxC m "/mplex/6.7.0"].
Proof.
  intros [_ Hy Hm _]. default_reading Hread. change (Split _) with ["yamux"; "mplex"]. cbn [loadHostMux].
  unfold yamuxC, mplexC. rewrite Hy, Hm. reflexivity.
Qed.
Lemma loadHostSecurity_default :
  defaults_supported ->
  let secArr := Split (GlobalString ctx (flag_Name OpNode.HostSecurity)) in
  loadHostSecurity secArr secArr [] false = Ok ([mkMsSecC n noise_ID], false).
Proof.
  intros [_ _ _ Hn]. default_reading Hread. change (Split _) with ["noise"]. cbn [loadHostSecurity].
  unfold noiseC. rewrite Hn. reflexivity.
Qed.
Lemma loadDiscoveryOpts_default Q fs (w : W) :
  no_faults -> (forall w', Q (Ok (false, 0, 0, None, "opnode_discovery_db", [])) (fs, w')) ->
  wp (loadDiscoveryOpts ctx) Q (fs, w).
Proof.
  intros Hnf HQ. unfold loadDiscoveryOpts, discovery_path, loadIP. default_reading Hread.
  do 3 (eapply wp_lift_ok; [reflexivity|]).
  wp_step. apply wp_fs_check; [apply (nf_discovery Hnf)|]. intros w1. eapply wp_lift_ok; [reflexivity|]. apply HQ.
Qed.
Lemma loadLibp2pOpts_default Q fs (w : W) :
  no_faults -> defaults_supported ->
  (forall w', Q (Ok ([], [mkMsMuxC y "/yamux/1.0.0"; mkMsMuxC m "/mplex/6.7.0"],
                     ([mkMsSecC n noise_ID], false), Leveldb "opnode_peerstore_db")) (fs, w')) ->
  wp (loadLibp2pOpts ctx) Q (fs, w).
Proof.
  intros Hnf Hds HQ. unfold loadLibp2pOpts. rewrite (loadHostMux_default Hds), (loadHostSecurity_default Hds).
  unfold loadStore. default_reading Hread. do 3 (eapply wp_lift_ok; [reflexivity|]).
  rewrite !bool_decide_false by done. wp_step. wp_step. apply wp_fs_check; [apply (nf_store Hnf)|]. intros w1. wp_step. wp_step. apply HQ.
Qed.
Lemma P2P_NewConfig_default fs (w : W) Q :
  no_faults -> defaults_supported -> key_file_ok fs "opnode_p2p_priv.txt" ->
  (forall p fs' w', (forall path, path <> "opnode_p2p_priv.txt" -> fs' !! path = fs !! path) ->
    Q (Ok (defaultP2PConfig p ip y m n)) (fs', w')) ->
  wp (P2P_NewConfig ctx) Q (fs, w).
Proof.
  intros Hnf Hds Hk HQ. unfold P2P_NewConfig. default_reading Hread. wp_step. wp_step.
  apply loadNetworkPrivKey_works; [done|by default_reading Hread..|]. default_reading Hread. intros p fs1 w1 Hfs. cbn [map_err].
  rewrite (loadListenOpts_default Hds). wp_step. wp_step. wp_step. cbn [map_err].
  wp_step. wp_step. apply loadDiscoveryOpts_default; [done|]. intros w2. cbn [map_err].
  wp_step. wp_step. apply loadLibp2pOpts_default; [done..|]. intros w3. cbn [map_err]. wp_step. by apply HQ.
Qed.
End Defaults.

Section DefaultNode.
Context `{CLILaws} `{LogLib} `{ServiceLibs} `{P2PLibs} {W : Type} `{!P2PEnv W}.
Context (ip : IP) (y m : MuxC) (n : SecC).

(** The node's configuration, with the required settings and the p2p defaults *)
Definition defaultConfig (ctx : cliContext) (rollup : Config) (p : PrivKey) : nodeConfig := {|
  cf_L1NodeAddr := GlobalString ctx (flag_Name OpNode.L1NodeAddr);
  cf_L2EngineAddrs := GlobalStringSlice ctx (flag_Name OpNode.L2EngineAddrs);
  cf_L2NodeAddr := GlobalString ctx (flag_Name OpNode.L2EthNodeAddr);
  cf_L1TrustRPC := GlobalBool ctx (flag_Name OpNode.L1TrustRPC);
  cf_Rollup := rollup;
  cf_Sequencer := GlobalBool ctx (flag_Name OpNode.SequencingEnabledFlag);
  cf_P2PSigner := None;
  cf_RPC := mkRPCConfig (GlobalString ctx (flag_Name OpNode.RPCListenAddr))
              (GlobalInt ctx (flag_Name OpNode.RPCListenPort));
  cf_P2P := Some (defaultP2PConfig p ip y m n);
|}.

Lemma wp_read_file msg path data Q fs (w : W) :
  no_faults (W := W) -> fs !! path = Some data -> (forall w', Q (Ok data) (fs, w')) ->
  wp (read_file msg path) Q (fs, w).
Proof.
  intros Hnf Hd HQ. unfold read_file. wp_step. apply wp_fs_check; [apply (nf_open Hnf)|]. intros w1.
  wp_step. wp_step. cbn [fst]. rewrite Hd. wp_step. wp_step.
  wp_step. apply wp_fs_check; [apply (nf_read Hnf)|]. intros w2. wp_step. apply HQ.
Qed.

(** The defaults work.  When none of the peer-to-peer and logging flags is given, and a
    rollup configuration that passes its check is, the program gets its configuration: a
    key from the key file, made if there was none, and the declared defaults, which pass
    the checks (the documented port, two muxers, one security protocol, the bounds on
    peers, databases on disk), no signer, and a logger; no other file is touched. *)
Lemma defaults_work inv ctx isTerminal fs (w : W) data rollup lvl :
  no_faults (W := W) -> defaults_supported ip y m n -> key_file_ok fs "opnode_p2p_priv.txt" ->
  LvlFromString "info" = Ok lvl ->
  app_Run OpNode.Flags inv = Ok ctx ->
  Forall (fun f => setting inv f = None) (OpNode.LogLevelFlag :: OpNode.LogFormatFlag :: OpNode.p2pFlags) ->
  fs !! GlobalString ctx (flag_Name OpNode.RollupConfig) = Some data ->
  json_DecodeConfig data = Ok rollup -> Config_Check rollup = Ok tt ->
  exists p fs' w', NewConfig ctx (fs, w) = (Ok (defaultConfig ctx rollup p), (fs', w')) /\
    (forall path, path <> "opnode_p2p_priv.txt" -> fs' !! path = fs !! path) /\
    exists h, (logCfg ← NewLogConfig ctx isTerminal; NewLogger logCfg) = Ok h.
Proof.
  intros Hnf Hds Hk Hl Hrun Hset Hdata Hjson Hchk.
  assert (Hread : forall f, bool_decide (f ∈ OpNode.LogLevelFlag :: OpNode.LogFormatFlag :: OpNode.p2pFlags) = true ->
    reads ctx (flag_Name f) (flag_Value f)).
  { intros f Hf%bool_decide_eq_true_1. rewrite Forall_forall in Hset.
    eapply default_reads; [exact (proj1 names_distinct)|exact Hrun| |by apply Hset].
    revert Hf. unfold OpNode.Flags, OpNode.optionalFlags, OpNode.requiredFlags.
    rewrite !elem_of_cons, !elem_of_app, !elem_of_cons. tauto. }
  assert (Hp2p : forall f, bool_decide (f ∈ OpNode.p2pFlags) = true -> reads ctx (flag_Name f) (flag_Value f)).
  { intros f Hf%bool_decide_eq_true_1. apply Hread, bool_decide_eq_true_2. rewrite !elem_of_cons. auto. }
  assert (HW : wp (NewConfig ctx) (fun r s' => exists p fs' w', r = Ok (defaultConfig ctx rollup p) /\ s' = (fs', w') /\
    (forall path, path <> "opnode_p2p_priv.txt" -> fs' !! path = fs !! path)) (fs, w)).
  { unfold NewConfig, NewRollupConfig. wp_step. wp_step. eapply wp_read_file; [done..|]. intros w1.
    wp_step. wp_step. rewrite Hjson. cbn [map_err]. unfold LoadSignerSetup.
    rewrite (Hp2p OpNode.SequencerP2PKeyFlag eq_refl). cbn [bool_decide]. wp_step. wp_step.
    rewrite bool_decide_false by tauto. wp_step. cbn [map_err]. wp_step. wp_step.
    apply (P2P_NewConfig_default ip y m n ctx Hp2p); [done..|]. intros p fs2 w2 Hfs. cbn [map_err].
    eapply (wp_lift_ok _ tt); [|wp_step; exists p, fs2, w2; by split_and!].
    unfold nodeConfig_Check. cbn [cf_Rollup cf_P2P]. by rewrite Hchk. }
  unfold wp in HW. destruct (NewConfig ctx (fs, w)) as [r s']. cbn [fst snd] in HW.
  destruct HW as (p & fs' & w' & -> & -> & Hfs). exists p, fs', w'. split_and!; [done..|].
  unfold NewLogConfig. default_reading Hread. set (cfg := mkLogConfig "info" _ "text").
  assert (Hc : LogConfig_Check cfg = Ok tt).
  { unfold LogConfig_Check. cbn -[ToLower]. change (ToLower "info") with "info". by rewrite Hl. }
  rewrite Hc. apply (NewLogger_ok cfg Hc).
Qed.
End DefaultNode.

(** ** The environment variable of the bootnodes *)
Section Bootnodes.
Context `{CLILaws} `{P2PLibs} {W : Type} `{!P2PEnv W}.

Lemma loadBootnodes_parse l nodes s :
  loadBootnodes l = Ok nodes -> s ∈ l -> TrimSpace s <> "" -> exists node, enode_Parse (TrimSpace s) = Ok node.
Proof.
  revert nodes. induction l as [|s0 l IH]; intros nodes E Hs Ht; [by apply not_elem_of_nil in Hs|].
  cbn [loadBootnodes] in E. apply elem_of_cons in Hs as [<-|Hs].
  - rewrite bool_decide_false in E by done. go_inv. eauto.
  - case_bool_decide; [by eapply IH|]. go_inv. by eapply IH.
Qed.
Lemma loadStaticPeers_parse l peers s :
  loadStaticPeers l = Ok peers -> s ∈ l -> TrimSpace s <> "" -> exists a, NewMultiaddr (TrimSpace s) = Ok a.
Proof.
  revert peers. induction l as [|s0 l IH]; intros peers E Hs Ht; [by apply not_elem_of_nil in Hs|].
  cbn [loadStaticPeers] in E. apply elem_of_cons in Hs as [<-|Hs].
  - rewrite bool_decide_false in E by done. go_inv. eauto.
  - case_bool_decide; [by eapply IH|]. go_inv. by eapply IH.
Qed.

Lemma P2P_NewConfig_peers ctx s conf s' :
  P2P_NewConfig (W := W) ctx s = (Ok conf, s') -> GlobalBool ctx (flag_Name OpNode.DisableP2P) = false ->
  is_ok (loadBootnodes (Split (GlobalString ctx (flag_Name OpNode.Bootnodes)))) = true /\
  is_ok (loadStaticPeers (Split (GlobalString ctx (flag_Name OpNode.StaticPeers)))) = true.
Proof.
  intros E Hd. unfold P2P_NewConfig in E. rewrite Hd in E.
  apply M_bind_ok in E as (p & s1 & _ & E).
  apply M_bind_ok in E as ([[lip ltcp] ludp] & s2 & _ & E).
  apply M_bind_ok in E as ([[[[[nd atcp] audp] aip] db] boot] & s3 & Ed & E).
  apply M_bind_ok in E as ([[[sp mux] [sec none]] store] & s4 & Ep & _).
  unfold loadDiscoveryOpts in Ed. unfold loadLibp2pOpts in Ep. m_inv.
  repeat match goal with H : loadBootnodes _ = _ |- _ => rewrite H | H : loadStaticPeers _ = _ |- _ => rewrite H end.
  done.
Qed.

(** What is read when only the environment variable of a flag is given *)
Lemma env_reads flags inv ctx f d s :
  NoDup (flag_Name <$> flags) -> app_Run flags inv = Ok ctx -> f ∈ flags -> flag_Value f = VString d ->
  argument inv f = None -> getenv inv (flag_EnvVar f) = Some s -> GlobalString ctx (flag_Name f) = s.
Proof.
  intros Hn Hr Hf Hv Ha He. pose proof (app_Run_reads _ _ _ _ Hn Hr Hf) as E. unfold setting in E.
  rewrite Ha, He, Hv in E. cbn in E. rewrite parse_env_string in E. by destruct E as (v & [= <-] & _ & E).
Qed.

Lemma bootnodes_env_P2P inv ctx s record s0 :
  (forall rec node, enode_Parse rec = Ok node -> is_ok (NewMultiaddr rec) = false) ->
  app_Run OpNode.Flags inv = Ok ctx ->
  argument inv OpNode.Bootnodes = None -> argument inv OpNode.StaticPeers = None ->
  setting inv OpNode.DisableP2P = None ->
  getenv inv "ROLLUP_NODE_P2P_BOOTNODES" = Some s ->
  record ∈ Split s -> TrimSpace record <> "" ->
  is_ok (P2P_NewConfig (W := W) ctx s0).1 = false.
Proof.
  intros Hrec Hrun Hb Hp Hd Henv Hin Ht.
  destruct (P2P_NewConfig ctx s0) as [[conf| | |] s'] eqn:E; try done. exfalso.
  assert (Hf : forall f, bool_decide (f ∈ OpNode.Flags) = true -> f ∈ OpNode.Flags) by (intros f; apply bool_decide_eq_true_1).
  pose proof (default_reads _ _ _ OpNode.DisableP2P (proj1 names_distinct) Hrun (Hf OpNode.DisableP2P eq_refl) Hd) as Hdis.
  destruct (P2P_NewConfig_peers _ _ _ _ E Hdis) as [Eb Ep].
  pose proof (fun f Hm Hv Ha He => env_reads _ inv ctx f "" s (proj1 names_distinct) Hrun (Hf f Hm) Hv Ha He) as Hread.
  rewrite (Hread OpNode.Bootnodes) in Eb by done. rewrite (Hread OpNode.StaticPeers) in Ep by done.
  destruct (loadBootnodes (Split s)) as [nodes| | |] eqn:EB; try done.
  destruct (loadStaticPeers (Split s)) as [peers| | |] eqn:EP; try done.
  destruct (loadBootnodes_parse _ _ _ EB Hin Ht) as [node Hn].
  destruct (loadStaticPeers_parse _ _ _ EP Hin Ht) as [a Ha].
  specialize (Hrec _ _ Hn). by rewrite Ha in Hrec.
Qed.
End Bootnodes.

(** ** The node program *)
Section Node.
Context `{CLILaws} `{LogLib} `{ServiceLibs} `{P2PLibs} `{GethTypes} `{L1Source.LRU} {W : Type} `{!P2PEnv W}.
Context (env : nodeConfig -> NodeEnv (FileSystem * W)) (isTerminal : bool).

(** Without a configuration nothing is opened. *)
Lemma opnode_main_fails inv fs (w : W) r t s' :
  opnode_main env isTerminal inv ([], (fs, w)) = (r, (t, s')) -> is_ok r = true \/ t <> [] ->
  exists ctx cfg s1, app_Run OpNode.Flags inv = Ok ctx /\ NewConfig ctx (fs, w) = (Ok cfg, s1).
Proof.
  intros E Ht. unfold opnode_main, mbind, M_bind, lift in E.
  destruct (app_Run OpNode.Flags inv) as [ctx| | |] eqn:Er; [|by injection E as <- <- _; destruct Ht..].
  exists ctx. destruct (NewConfig ctx (fs, w)) as [[cfg| | |] s1] eqn:Ec; [by exists cfg, s1|exfalso..].
  all: unfold RollupNodeMain, call, mbind, M_bind in E; cbn in E; rewrite Ec in E; cbn in E.
  all: injection E as <- <- _; by destruct Ht.
Qed.

(** [C40] Nothing runs on an unchecked configuration.  If the program dials a client, opens
    the p2p host, discovery or the HTTP server, or starts a driver, then every required flag
    was given, and the configuration it read has a block time, a sequencing window of at
    least two blocks, distinct non-empty genesis hashes and a deposit contract; it has a
    signer exactly when a key file was given; and either p2p is disabled, or its ports are
    unprivileged, there is a network key, the muxers are yamux or mplex, the security
    protocols are not mixed with no security, and the bounds on the number of peers are in
    order.  Reading the configuration is not part of this: it may already have made the key
    file and opened the two databases of the p2p side when the check fails
    ([rejected_leaves_key]). *)
Theorem opnode_main_configured inv fs (w : W) r t s' :
  opnode_main env isTerminal inv ([], (fs, w)) = (r, (t, s')) -> t <> [] ->
  Forall (fun f => is_Some (setting inv f)) OpNode.requiredFlags /\
  exists ctx cfg s1, app_Run OpNode.Flags inv = Ok ctx /\
    NewConfig ctx (fs, w) = (Ok cfg, s1) /\ nodeConfig_wf ctx cfg.
Proof.
  intros E Ht. destruct (opnode_main_fails _ _ _ _ _ _ E (or_intror Ht)) as (ctx & cfg & s1 & Er & Ec). split.
  - apply Forall_forall. intros f Hf. eapply required_set; [exact (proj1 names_distinct)|exact Er|..].
    + unfold OpNode.Flags. apply elem_of_app. by left.
    + revert Hf. clear. unfold OpNode.requiredFlags. rewrite !elem_of_cons, elem_of_nil. naive_solver.
  - exists ctx, cfg, s1. split_and!; [done..|]. eapply NewConfig_wf; [|exact Ec].
    intros flag. by apply (app_Run_uint _ _ _ flag) in Er as [? _].
Qed.

(** The environment variable for the bootnodes is of no use.  It is also the one of the
    static peers, and what parses as a node record does not parse as a multiaddress:
    without the two flags on the command line and with p2p enabled, the node does not
    start, nor open anything, with any value of the variable that lists a bootnode. *)
Lemma bootnodes_env_rejected inv s record fs (w : W) r t s' :
  (forall rec node, enode_Parse rec = Ok node -> is_ok (NewMultiaddr rec) = false) ->
  argument inv OpNode.Bootnodes = None -> argument inv OpNode.StaticPeers = None ->
  setting inv OpNode.DisableP2P = None ->
  getenv inv "ROLLUP_NODE_P2P_BOOTNODES" = Some s -> record ∈ Split s -> TrimSpace record <> "" ->
  opnode_main env isTerminal inv ([], (fs, w)) = (r, (t, s')) ->
  is_ok r = false /\ t = [].
Proof.
  intros Hrec Hb Hp Hd Henv Hin Ht E.
  destruct (is_ok r) eqn:Hr, t as [|op t]; try done; exfalso;
    destruct (opnode_main_fails _ _ _ _ _ _ E ltac:(auto)) as (ctx & cfg & s1 & Er & Ec).
  all: apply M_bind_ok in Ec as (rollup & s2 & _ & Ec); apply M_bind_ok in Ec as (sig & s3 & _ & Ec);
    apply M_bind_ok in Ec as (conf & s4 & Ec & _); apply M_err_ok in Ec.
  all: pose proof (bootnodes_env_P2P _ _ _ _ s3 Hrec Er Hb Hp Hd Henv Hin Ht) as Hf; by rewrite Ec in Hf.
Qed.
End Node.

(** ** Witnesses: a command line is a list of values by name and an environment *)
Definition ToyInvocation : Type := list (string * FlagValue) * list (string * string).
Fixpoint assoc {A} (l : list (string * A)) (name : string) : option A :=
  match l with [] => None | (n, a) :: l => if bool_decide (n = name) then Some a else assoc l name end.
Definition toy_parse (d : FlagValue) (s : string) : res FlagValue :=
  match d with VString _ => Ok (VString s) | VBool _ => Ok (VBool true) | _ => Err (EMsg "not a number") end.
Definition toy_setting (inv : ToyInvocation) (f : Flag) : option (res FlagValue) :=
  match Ok <$> assoc inv.1 (flag_Name f) with
  | Some r => Some r
  | None => toy_parse (flag_Value f) <$> assoc inv.2 (flag_EnvVar f)
  end.
Definition toy_value (inv : ToyInvocation) (f : Flag) : FlagValue :=
  match toy_setting inv f with Some (Ok v) => v | _ => flag_Value f end.
Definition toy_accepts (inv : ToyInvocation) (f : Flag) : bool :=
  match toy_setting inv f with
  | Some r => match r with Ok v => same_type (flag_Value f) v | _ => false end
  | None => negb (flag_Required f)
  end &&
  match toy_value inv f with VUint n => in_rangeb 64 n | _ => true end.
Fixpoint toy_find (flags : list Flag) (name : string) : option Flag :=
  match flags with [] => None | f :: flags => if bool_decide (flag_Name f = name) then Some f else toy_find flags name end.
Definition toy_get (flags : list Flag) (inv : ToyInvocation) (name : string) : option FlagValue :=
  toy_value inv <$> toy_find flags name.
Definition toy_context (flags : list Flag) (inv : ToyInvocation) : cliContext := mkCli
  (fun name => match toy_get flags inv name with Some (VString s) => s | _ => "" end)
  (fun name => match toy_get flags inv name with Some (VBool b) => b | _ => false end)
  (fun name => match toy_get flags inv name with Some (VInt n) => n | _ => 0 end)
  (fun name => match toy_get flags inv name with Some (VUint n) => if in_rangeb 64 n then n else 0 | _ => 0 end)
  (fun name => match toy_get flags inv name with Some (VUint64 n) => n | _ => 0 end)
  (fun name => match toy_get flags inv name with Some (VDuration d) => d | _ => 0 end)
  (fun name => match toy_get flags inv name with Some (VStringSlice l) => l | _ => [] end)
  (fun name => match toy_find flags name with Some f => bool_decide (is_Some (toy_setting inv f)) | None => false end).
Definition ToyCLI : CLI := {|
  Invocation := ToyInvocation;
  argument := fun inv f => Ok <$> assoc inv.1 (flag_Name f);
  getenv := fun inv name => assoc inv.2 name;
  parse_env := toy_parse;
  app_Run := fun flags inv =>
    if forallb (toy_accepts inv) flags then Ok (toy_context flags inv) else Err (EMsg "flags");
|}.

Lemma toy_run_ok flags inv :
  forallb (toy_accepts inv) flags = true -> @app_Run ToyCLI flags inv = Ok (toy_context flags inv).
Proof. intros E. cbn. by rewrite E. Qed.
Lemma toy_find_elem flags f : NoDup (flag_Name <$> flags) -> f ∈ flags -> toy_find flags (flag_Name f) = Some f.
Proof.
  intros Hn. induction flags as [|f0 flags IH]; intros Hf; [by apply not_elem_of_nil in Hf|].
  apply NoDup_cons in Hn as [Hn0 Hn]. cbn [toy_find]. apply elem_of_cons in Hf as [->|Hf].
  - by rewrite bool_decide_true.
  - rewrite bool_decide_false; [by apply IH|]. intros E. apply Hn0. rewrite E. by apply list_elem_of_fmap_2.
Qed.
Definition ToyCLILaws : @CLILaws ToyCLI.
Proof.
  split.
  - done.
  - intros flags inv ctx f Hn E Hf. cbn in E. destruct (forallb _ flags) eqn:Ha; [|done]. injection E as <-.
    rewrite forallb_forall in Ha. specialize (Ha f). rewrite <-list_elem_of_In in Ha. specialize (Ha Hf).
    unfold toy_accepts in Ha. apply andb_true_iff in Ha as [Ha Hr].
    assert (Hget : toy_get flags inv (flag_Name f) = Some (toy_value inv f))
      by (unfold toy_get; by rewrite toy_find_elem).
    change (@setting ToyCLI inv f) with (toy_setting inv f).
    unfold toy_value in Hget, Hr. destruct (toy_setting inv f) as [[v| | |]|]; try done.
    + exists v. split_and!; [done..|]. destruct v; cbn; rewrite Hget; try done. by rewrite Hr.
    + split; [by destruct (flag_Required f)|]. destruct (flag_Value f); cbn; rewrite Hget; try done. by rewrite Hr.
  - intros flags inv ctx f Hn E Hf. cbn in E. destruct (forallb _ flags); [|done]. injection E as <-. cbn.
    by rewrite toy_find_elem.
  - intros flags inv ctx name E. cbn in E. destruct (forallb _ flags); [|done]. injection E as <-. cbn.
    destruct (toy_get flags inv name) as [[]|]; try done. destruct (in_rangeb 64 n) eqn:Er; [|done].
    by apply in_rangeb_spec.
Defined.

Definition CmdP2PLibs : P2PLibs := {|
  PrivKey := list byte; IP := string; NodeRecord := string; Multiaddr := string; MuxC := unit; SecC := unit;
  UnmarshalSecp256k1PrivateKey := Some; PrivKey_Raw := fun p => Ok p;
  ParseIP := Some; To4 := Some; IP_String := fun s => s;
  enode_Parse := fun s => if String.prefix "enr:" s then Ok s else Err (EMsg "not a record");
  NewMultiaddr := fun s => if String.prefix "/" s then Ok s else Err (EMsg "must begin with /");
  yamux_Constructor := Ok tt; mplex_Constructor := Ok tt; noise_Constructor := Ok tt; tls_Constructor := Ok tt;
  noise_ID := "/noise"; tls_ID := "/tls/1.0.0" |}.
Definition CmdP2PEnv : @P2PEnv CmdP2PLibs unit :=
  @Build_P2PEnv CmdP2PLibs unit (fun _ w => (None, w)) (fun _ w => (None, w)) (fun _ w => (None, w))
    (fun w => (Ok [x0a; xff], w)) (fun _ w => (None, w)) (fun _ w => (None, w)).
#[local] Existing Instances ToyCLI ToyCLILaws ToyLogLib Gossip.ToyEcdsa ToyServiceLibs CmdP2PLibs CmdP2PEnv.
#[local] Existing Instances Geth.ToyGeth L1Source.OneEntry.
Definition cmd_args : list (string * FlagValue) :=
  [("l1", VString "http://l1"); ("l2", VStringSlice ["engine"]); ("rollup.config", VString "rollup.json");
   ("l2.eth", VString "http://l2"); ("rpc.addr", VString "127.0.0.1"); ("rpc.port", VInt 9545)].
Definition cmd_inv : Invocation (CLI := ToyCLI) := (cmd_args, [] : list (string * string)).
Definition cmd_files : FileSystem := {["rollup.json" := "{}"]}.
Definition cmd_run (inv : Invocation) := opnode_main (fun _ => ToyServiceNode) false inv ([], (cmd_files, tt)).

Lemma opnode_main_configured_witness : exists ctx cfg s1,
  length (cmd_run cmd_inv).2.1 = 19%nat /\
  NewConfig ctx (cmd_files, tt) = (Ok cfg, s1) /\ nodeConfig_wf ctx cfg.
Proof.
  assert (Hlen : length (cmd_run cmd_inv).2.1 = 19%nat) by (vm_compute; reflexivity).
  destruct (cmd_run cmd_inv) as [r [t s']] eqn:E. cbn [fst snd] in Hlen |- *.
  destruct (opnode_main_configured _ _ _ _ _ _ _ _ E) as (_ & ctx & cfg & s1 & _ & Ec & Hwf).
  - intros ->. discriminate Hlen.
  - exists ctx, cfg, s1. split; [exact Hlen|]. split; [exact Ec|exact Hwf].
Defined.

(** A configuration without a lower bound on the number of peers is refused, when the key
    file has been made: [NewConfig] of the p2p side runs before [Check]. *)
Definition rejected_run := cmd_run ((("p2p.peers.lo", VUint 0) :: cmd_args, []) : ToyInvocation).
Example rejected_leaves_key :
  (is_ok rejected_run.1, rejected_run.2.1, rejected_run.2.2.1 !! "opnode_p2p_priv.txt", cmd_files !! "opnode_p2p_priv.txt")
    = (false, [], Some "0aff", None).
Proof. vm_compute. reflexivity. Qed.

Definition cmd_ip : @IP CmdP2PLibs := "0.0.0.0".
Definition cmd_mux : @MuxC CmdP2PLibs := tt.
Definition cmd_sec : @SecC CmdP2PLibs := tt.
Definition cmd_ctx : cliContext := toy_context OpNode.Flags cmd_inv.
Lemma defaults_work_witness : exists p fs' w',
  NewConfig cmd_ctx (cmd_files, tt)
    = (Ok (defaultConfig cmd_ip cmd_mux cmd_mux cmd_sec cmd_ctx Gossip.gossip_config p), (fs', w')) /\
  pc_ListenTCPPort (defaultP2PConfig p cmd_ip cmd_mux cmd_mux cmd_sec) = 9222.
Proof.
  destruct (defaults_work (W := unit) cmd_ip cmd_mux cmd_mux cmd_sec cmd_inv cmd_ctx false cmd_files tt "{}"
    Gossip.gossip_config 3) as (p & fs' & w' & E & _).
  - split; intros; try reflexivity. exists [x0a; xff], [x0a; xff]. by split.
  - split; reflexivity.
  - exact I.
  - reflexivity.
  - apply toy_run_ok. vm_compute. reflexivity.
  - repeat constructor.
  - reflexivity.
  - reflexivity.
  - vm_compute. reflexivity.
  - exists p, fs', w'. split; [exact E|reflexivity].
Defined.

Definition bootnodes_inv : Invocation (CLI := ToyCLI) := (cmd_args, [("ROLLUP_NODE_P2P_BOOTNODES", "enr:-a,enr:-b")]).
Lemma cmd_record_no_multiaddr (rec : string) (node : @NodeRecord CmdP2PLibs) :
  enode_Parse rec = Ok node -> is_ok (NewMultiaddr rec) = false.
Proof.
  destruct rec as [|c rec]; [reflexivity|]. unfold enode_Parse, CmdP2PLibs. cbn [String.prefix].
  destruct (ascii_dec "e" c) as [<-|]; [reflexivity|discriminate].
Qed.
Lemma bootnodes_env_rejected_witness :
  is_ok (cmd_run bootnodes_inv).1 = false /\ (cmd_run bootnodes_inv).2.1 = [].
Proof.
  destruct (cmd_run bootnodes_inv) as [r [t s']] eqn:E.
  refine (bootnodes_env_rejected _ _ bootnodes_inv "enr:-a,enr:-b" "enr:-b" _ tt r t s' _ _ _ _ _ _ _ E);
    try reflexivity.
  - exact cmd_record_no_multiaddr.
  - right. left.
  - discriminate.
Defined.

(** An argument that is not a flag of the program, and a variable that a flag overrides *)
#[local] Existing Instances Prelude.ToyKeccak ToySigning ProgWallets ProgBackends History.ToyJSON ProgFiles.
Definition proposer_args : list (string * FlagValue) :=
  [("l1-eth-rpc", VString "http://l1"); ("l2-eth-rpc", VString "http://l2"); ("rollup-rpc", VString "http://node");
   ("l2oo-address", VString "0x37"); ("poll-interval", VDuration time_Second); ("num-confirmations", VUint64 2);
   ("safe-abort-nonce-too-low-count", VUint64 2); ("resubmission-timeout", VDuration time_Second);
   ("mnemonic", VString "test"); ("l2-output-hd-path", VString "m/0")].
Definition proposer_inv : Invocation (CLI := ToyCLI) := (proposer_args, [] : list (string * string)).
Definition proposer_inv' : Invocation (CLI := ToyCLI) :=
  (("verbose", VBool true) :: proposer_args, [("L2OO_ADDRESS", "0x38")]).
Definition proposer_run (inv : Invocation) : res (list Receipt) * prog_world DynamicFeeTx :=
  proposer_main (fun _ => prog_choices) inv [PollTick] (mkProgWorld [] [] []).
Lemma programs_of_settings_witness :
  length (pw_sent (proposer_run proposer_inv).2) = 2%nat /\ proposer_run proposer_inv = proposer_run proposer_inv'.
Proof.
  split; [vm_compute; reflexivity|]. unfold proposer_run.
  refine (proj2 (proj2 (programs_of_settings (fun _ => ToyServiceNode) false (fun _ => prog_choices)
    (fun _ => prog_choices) [PollTick] proposer_inv proposer_inv')) _ _).
  split; [|split; vm_compute; reflexivity]. repeat constructor.
Defined.
