(* ===== verification/NodeRPC.v ===== *)
(** * The node's RPC server and its clients

    op-node/node/server.go: the server and the APIs registered with it; the client of the
    L2 node behind the rollup API ([ReadOnlySource] of op-node/l2/source.go); and the clients
    of the server: op-node/p2p/rpc_client.go and op-proposer/rollupclient (Programs.v).
    go-ethereum's rpc package, which carries the calls, is a parameter. *)

From Stdlib Require Import Strings.Ascii.
From stdpp Require Import strings pretty.
From S2P Require Import Prelude Types Geth Batches L2Source NodeAPI Submitter Sending PeerAPI P2PConfig Service Programs.
#[local] Open Scope Z_scope.

(** ** The methods of an API *)

(** The types that the methods of the APIs and their clients pass *)
Inductive ty :=
  | TNone               (* no parameter, or only an error *)
  | TBool | TString | TBlockNumber | TPeerID | TIP | TSubnet
  | TPeerInfo | TPeerDump | TPeerStats | TNodes | TPeerIDs | TIPs | TSubnets
  | TBundleRequest | TBundleResponse | THashes.
#[export] Instance ty_eq_dec : EqDecision ty.
Proof. solve_decision. Defined.
Definition denote (t : ty) : Type :=
  match t with
  | TNone => unit
  | TBool => bool
  | TString | TIP | TSubnet => string
  | TBlockNumber | TPeerID => Z
  | TPeerInfo => PeerInfo
  | TPeerDump => PeerDump
  | TPeerStats => PeerStats
  | TNodes | TIPs | TSubnets => list string
  | TPeerIDs => list Z
  | TBundleRequest => BatchBundleRequest
  | TBundleResponse => option BatchBundleResponse
  | THashes => list Hash
  end.

(** An exported method of a Go object *)
Record method (W : Type) := mkMethod {
  m_name : string;
  m_arg : ty;
  m_ret : ty;
  m_fun : denote m_arg -> M W (denote m_ret);
}.
Arguments mkMethod {W}.
Arguments m_name {W}.
Arguments m_arg {W}.
Arguments m_ret {W}.
Arguments m_fun {W}.

(** [rpc.API], with the methods of its service *)
Record rpcAPI (W : Type) := mkAPI { Namespace : string; Service : list (method W) }.
Arguments mkAPI {W}.
Arguments Namespace {W}.
Arguments Service {W}.

(** go-ethereum's rpc and net: a server with registered APIs, a client of it, and the
    listener. *)
Class RPCLib (W : Type) := {
  Srv : Type;
  rpc_NewServer : Srv;
  RegisterApis : list (rpcAPI W) -> Srv -> res Srv;
  net_Listen : string -> M W string;                 (* the address that it listens on *)
  RPCClient : Type;
  CallContext : RPCClient -> forall a b : ty, string -> denote a -> M W (denote b);
  convert : forall a b : ty, denote a -> option (denote b);    (* through JSON *)
  formatName : string -> string;
  rpc_error : error -> error;                        (* what the client gets of an error *)
  method_crashed : error;
  reaches : RPCClient -> Srv -> Prop;                (* every call arrives and is answered *)
}.
(** What a caller gets of a method that the server runs *)
Definition answered `{RPCLib W} {A} (c : M W A) : M W A := fun w =>
  match c w with
  | (Err e, w') => (Err (rpc_error e), w')
  | (Panic, w') => (Err method_crashed, w')
  | r => r
  end.
Fixpoint has_underscore (s : string) : bool :=
  match s with EmptyString => false | String c s => bool_decide (c = "_"%char) || has_underscore s end.
(** Two computations that do the same in every world *)
Definition same_run {W A} (c c' : M W A) : Prop := forall w, c w = c' w.
Infix "=M" := same_run (at level 70, no associativity).

(** The documented behaviour: a call of a registered namespace's method, by its name with
    the first letter in lower case, runs the method on what the argument is in JSON.  The
    namespace ends at the first underscore. *)
Class RPCLaws W `{RPCLib W} := {
  CallContext_served : forall c srv apis api m a x y,
    RegisterApis apis rpc_NewServer = Ok srv -> reaches c srv ->
    NoDup (Namespace <$> apis) -> api ∈ apis -> has_underscore (Namespace api) = false ->
    NoDup ((fun m => formatName (m_name m)) <$> Service api) -> m ∈ Service api ->
    convert a (m_arg m) x = Some y ->
    CallContext c a (m_ret m) (Namespace api +:+ "_" +:+ formatName (m_name m)) x =M answered (m_fun m y);
  convert_same : forall a x, convert a a x = Some x;
  formatName_lower : forall c s, formatName (String c s) = String (lower c) s;
}.

(** ** op-node/l2/source.go: [ReadOnlySource] *)

(** The calls of the raw RPC client; [head] and the proof may stay nil. *)
Class L2RawRPC `{GethTypes} (W : Type) := {
  eth_getBlockByNumber : block_tag -> M W (option Header);
  eth_getProof : Address -> block_tag -> M W (option AccountResult);
}.
Section ReadOnlySource.
Context `{GethTypes} {W : Type} `{!L2RPC W} `{!L2RawRPC W} (genesis : Genesis).

Definition RO_GetProof (address : Address) (blockTag : block_tag) : M W (option AccountResult) :=
  getProofResponse ← eth_getProof address blockTag;
  match getProofResponse with
  | None => throw ENotFound
  | Some r => mret (Some r)
  end.
Definition RO_L2BlockRefByNumber (l2Num : option bigInt) : M W L2BlockRef :=
  block ← M_err (wrapw "failed to determine block-hash of height, could not get header: ")
            (client_BlockByNumber l2Num);
  lift (blockToBlockRef block genesis).
Definition RO_L2BlockRefByHash (l2Hash : Hash) : M W L2BlockRef :=
  block ← M_err (wrapw "failed to determine block-hash of height, could not get header: ")
            (client_BlockByHash l2Hash);
  lift (blockToBlockRef block genesis).
(** It is the L2 client of the rollup API. *)
Definition ReadOnlySource : L2EthClient W := {|
  GetBlockHeader := eth_getBlockByNumber;
  GetProof := RO_GetProof;
  BlockByNumber := fun number => client_BlockByNumber (Some number);
  cl_L2BlockRefByNumber := fun n => RO_L2BlockRefByNumber (Some n);
  cl_L2BlockRefByHash := RO_L2BlockRefByHash;
|}.
End ReadOnlySource.

(** ** node/server.go *)

(** [nodeAPI] with its exported methods; [Version] as it is in version.go *)
Definition nodeAPI_methods `{Keccak} `{GethTypes} `{RLP} `{TrieDB} {W} (l2 : L2EthClient W)
    (LatestBlockNumber PendingBlockNumber : Z) (Version Meta : string) : list (method W) :=
  [mkMethod "OutputAtBlock" TBlockNumber THashes (OutputAtBlock LatestBlockNumber PendingBlockNumber);
   mkMethod "Version" TNone TString (fun _ => mret (Version +:+ "-" +:+ Meta));
   mkMethod "GetBatchBundle" TBundleRequest TBundleResponse GetBatchBundle].

(** [p2p.API] *)
Class P2P_API (W : Type) := {
  api_Self : M W PeerInfo;
  api_Peers : bool -> M W PeerDump;
  api_PeerStats : M W PeerStats;
  api_DiscoveryTable : M W (list string);
  api_BlockPeer : Z -> M W unit;
  api_UnblockPeer : Z -> M W unit;
  api_ListBlockedPeers : M W (list Z);
  api_BlockAddr : string -> M W unit;
  api_UnblockAddr : string -> M W unit;
  api_ListBlockedAddrs : M W (list string);
  api_BlockSubnet : string -> M W unit;
  api_UnblockSubnet : string -> M W unit;
  api_ListBlockedSubnets : M W (list string);
  api_ProtectPeer : Z -> M W unit;
  api_UnprotectPeer : Z -> M W unit;
  api_ConnectPeer : string -> M W unit;
  api_DisconnectPeer : Z -> M W unit;
}.
Definition P2P_API_methods {W} (b : P2P_API W) : list (method W) :=
  [mkMethod "Self" TNone TPeerInfo (fun _ => api_Self);
   mkMethod "Peers" TBool TPeerDump api_Peers;
   mkMethod "PeerStats" TNone TPeerStats (fun _ => api_PeerStats);
   mkMethod "DiscoveryTable" TNone TNodes (fun _ => api_DiscoveryTable);
   mkMethod "BlockPeer" TPeerID TNone api_BlockPeer;
   mkMethod "UnblockPeer" TPeerID TNone api_UnblockPeer;
   mkMethod "ListBlockedPeers" TNone TPeerIDs (fun _ => api_ListBlockedPeers);
   mkMethod "BlockAddr" TIP TNone api_BlockAddr;
   mkMethod "UnblockAddr" TIP TNone api_UnblockAddr;
   mkMethod "ListBlockedAddrs" TNone TIPs (fun _ => api_ListBlockedAddrs);
   mkMethod "BlockSubnet" TSubnet TNone api_BlockSubnet;
   mkMethod "UnblockSubnet" TSubnet TNone api_UnblockSubnet;
   mkMethod "ListBlockedSubnets" TNone TSubnets (fun _ => api_ListBlockedSubnets);
   mkMethod "ProtectPeer" TPeerID TNone api_ProtectPeer;
   mkMethod "UnprotectPeer" TPeerID TNone api_UnprotectPeer;
   mkMethod "ConnectPeer" TString TNone api_ConnectPeer;
   mkMethod "DisconnectPeer" TPeerID TNone api_DisconnectPeer].

(** [APIBackend], the implementation of PeerAPI.v: reports are on the libp2p objects as the
    request finds them. *)
Definition APIBackend {W AddrInfo} (node : W -> PeerNode) (gater : option (Gater W)) (manager : option (ConnManager W))
    (AddrInfoFromString : string -> res AddrInfo) (Connect : AddrInfo -> M W unit) (ClosePeer : Z -> M W unit)
    : P2P_API W := {|
  api_Self := fun w => (@Self (node w), w);
  api_Peers := fun connected w => (Ok (@Peers (node w) connected), w);
  api_PeerStats := fun w => (Ok (@PeerStats_ (node w)), w);
  api_DiscoveryTable := fun w => (@DiscoveryTable (node w), w);
  api_BlockPeer := BlockPeer gater;
  api_UnblockPeer := UnblockPeer gater;
  api_ListBlockedPeers := ListBlockedPeers gater;
  api_BlockAddr := BlockAddr gater;
  api_UnblockAddr := UnblockAddr gater;
  api_ListBlockedAddrs := ListBlockedAddrs gater;
  api_BlockSubnet := BlockSubnet gater;
  api_UnblockSubnet := UnblockSubnet gater;
  api_ListBlockedSubnets := ListBlockedSubnets gater;
  api_ProtectPeer := ProtectPeer manager;
  api_UnprotectPeer := UnprotectPeer manager;
  api_ConnectPeer := ConnectPeer AddrInfoFromString Connect;
  api_DisconnectPeer := DisconnectPeer ClosePeer;
|}.

Definition NamespaceRPC : string := "opp2p".

Record rpcServer `{RPCLib W} := mkRPCServer {
  rs_endpoint : string;
  rs_apis : list (rpcAPI W);
  rs_httpServer : option Srv;        (* what its handler serves, beside /healthz *)
  rs_appVersion : string;
  rs_listenAddr : string;
}.
Arguments mkRPCServer {W _}.

Section Server.
Context `{RPCLib W}.

(** [newRPCServer], with the methods of the API that it makes *)
Definition newRPCServer (rpcCfg : RPCConfig) (api : list (method W)) (appVersion : string) : rpcServer :=
  mkRPCServer (rpc_ListenAddr rpcCfg +:+ ":" +:+ pretty (rpc_ListenPort rpcCfg))
    [mkAPI "optimism" api] None appVersion "".
Definition EnableP2P (backend : P2P_API W) (s : rpcServer) : rpcServer :=
  mkRPCServer (rs_endpoint s) (rs_apis s ++ [mkAPI NamespaceRPC (P2P_API_methods backend)])
    (rs_httpServer s) (rs_appVersion s) (rs_listenAddr s).
(** [Start]: serving is in a go-routine. *)
Definition rpcServer_Start (s : rpcServer) : M W rpcServer :=
  srv ← lift (RegisterApis (rs_apis s) rpc_NewServer);
  addr ← net_Listen (rs_endpoint s);
  mret (mkRPCServer (rs_endpoint s) (rs_apis s) (Some srv) (rs_appVersion s) addr).
Definition rpcServer_Addr (s : rpcServer) : string := rs_listenAddr s.
(** What GET /healthz answers *)
Definition healthzHandler (appVersion : string) : string := appVersion.

(** [initRPCServer]'s server, once the L2 node is dialled: the p2p API only with p2p *)
Definition serve (rpcCfg : RPCConfig) (api : list (method W)) (appVersion : string)
    (p2pNode : option (P2P_API W)) : M W rpcServer :=
  let s := newRPCServer rpcCfg api appVersion in
  let s := match p2pNode with Some backend => EnableP2P backend s | None => s end in
  M_err (wrapw "unable to start RPC server: ") (rpcServer_Start s).
End Server.

(** ** p2p/rpc_client.go *)
Section Client.
Context `{RPCLib W}.

Definition prefixRPC (method : string) : string := NamespaceRPC +:+ "_" +:+ method.

Definition P2PClient (c : RPCClient) : P2P_API W := {|
  api_Self := CallContext c TNone TPeerInfo (prefixRPC "self") tt;
  api_Peers := fun connected => CallContext c TBool TPeerDump (prefixRPC "peers") connected;
  api_PeerStats := CallContext c TNone TPeerStats (prefixRPC "peerStats") tt;
  api_DiscoveryTable := CallContext c TNone TNodes (prefixRPC "discoveryTable") tt;
  api_BlockPeer := fun p => CallContext c TPeerID TNone (prefixRPC "blockPeer") p;
  api_UnblockPeer := fun p => CallContext c TPeerID TNone (prefixRPC "unblockPeer") p;
  api_ListBlockedPeers := CallContext c TNone TPeerIDs (prefixRPC "listBlockedPeers") tt;
  api_BlockAddr := fun ip => CallContext c TIP TNone (prefixRPC "blockAddr") ip;
  api_UnblockAddr := fun ip => CallContext c TIP TNone (prefixRPC "unblockAddr") ip;
  api_ListBlockedAddrs := CallContext c TNone TIPs (prefixRPC "listBlockedAddrs") tt;
  api_BlockSubnet := fun ipnet => CallContext c TSubnet TNone (prefixRPC "blockSubnet") ipnet;
  api_UnblockSubnet := fun ipnet => CallContext c TSubnet TNone (prefixRPC "unblockSubnet") ipnet;
  api_ListBlockedSubnets := CallContext c TNone TSubnets (prefixRPC "listBlockedSubnets") tt;
  api_ProtectPeer := fun p => CallContext c TPeerID TNone (prefixRPC "protectPeer") p;
  api_UnprotectPeer := fun p => CallContext c TPeerID TNone (prefixRPC "unprotectPeer") p;
  api_ConnectPeer := fun addr => CallContext c TString TNone (prefixRPC "connectPeer") addr;
  api_DisconnectPeer := fun id => CallContext c TPeerID TNone (prefixRPC "disconnectPeer") id;
|}.
End Client.

(** ** Clients and server together *)

(** The API [a] gives what the server answers for [b]. *)
Record answers_for `{RPCLib W} (a b : P2P_API W) : Prop := {
  af_Self : @api_Self _ a =M answered (@api_Self _ b);
  af_Peers : forall x, @api_Peers _ a x =M answered (@api_Peers _ b x);
  af_PeerStats : @api_PeerStats _ a =M answered (@api_PeerStats _ b);
  af_DiscoveryTable : @api_DiscoveryTable _ a =M answered (@api_DiscoveryTable _ b);
  af_BlockPeer : forall x, @api_BlockPeer _ a x =M answered (@api_BlockPeer _ b x);
  af_UnblockPeer : forall x, @api_UnblockPeer _ a x =M answered (@api_UnblockPeer _ b x);
  af_ListBlockedPeers : @api_ListBlockedPeers _ a =M answered (@api_ListBlockedPeers _ b);
  af_BlockAddr : forall x, @api_BlockAddr _ a x =M answered (@api_BlockAddr _ b x);
  af_UnblockAddr : forall x, @api_UnblockAddr _ a x =M answered (@api_UnblockAddr _ b x);
  af_ListBlockedAddrs : @api_ListBlockedAddrs _ a =M answered (@api_ListBlockedAddrs _ b);
  af_BlockSubnet : forall x, @api_BlockSubnet _ a x =M answered (@api_BlockSubnet _ b x);
  af_UnblockSubnet : forall x, @api_UnblockSubnet _ a x =M answered (@api_UnblockSubnet _ b x);
  af_ListBlockedSubnets : @api_ListBlockedSubnets _ a =M answered (@api_ListBlockedSubnets _ b);
  af_ProtectPeer : forall x, @api_ProtectPeer _ a x =M answered (@api_ProtectPeer _ b x);
  af_UnprotectPeer : forall x, @api_UnprotectPeer _ a x =M answered (@api_UnprotectPeer _ b x);
  af_ConnectPeer : forall x, @api_ConnectPeer _ a x =M answered (@api_ConnectPeer _ b x);
  af_DisconnectPeer : forall x, @api_DisconnectPeer _ a x =M answered (@api_DisconnectPeer _ b x);
}.

(** [formatName] computed on a list of methods *)
Ltac distinct_names := cbn [fmap list_fmap m_name]; rewrite !formatName_lower;
  match goal with |- ?P => refine (bool_decide_unpack P _); vm_compute; exact I end.

(** Field [i] of the client, by what holds for every method of the API *)
Ltac served Hcall i :=
  let E := fresh "E" in
  pose proof (Hcall i _ eq_refl) as E; cbn in E; rewrite formatName_lower in E; exact (E tt) || exact E.

Section Served.
Context `{RPCLaws W}.

(** The APIs of the server *)
Definition node_apis (api : list (method W)) (p2pNode : option (P2P_API W)) : list (rpcAPI W) :=
  mkAPI "optimism" api ::
    match p2pNode with Some backend => [mkAPI NamespaceRPC (P2P_API_methods backend)] | None => [] end.
Lemma namespaces_distinct api p2pNode : NoDup (Namespace <$> node_apis api p2pNode).
Proof.
  destruct p2pNode; [|apply NoDup_singleton]. refine (bool_decide_unpack (NoDup ["optimism"; NamespaceRPC]) _).
  vm_compute. exact I.
Qed.

Lemma serve_registered rpcCfg api appVersion p2pNode w s w' :
  serve rpcCfg api appVersion p2pNode w = (Ok s, w') ->
  exists srv, rs_httpServer s = Some srv /\ RegisterApis (rs_apis s) rpc_NewServer = Ok srv /\
    rs_apis s = node_apis api p2pNode.
Proof.
  unfold serve. intros E. apply M_err_ok in E. unfold rpcServer_Start in E.
  apply M_bind_ok in E as (srv & w1 & Es & E). apply lift_ok in Es as [Es _].
  apply M_bind_ok in E as (addr & w2 & _ & E). injection E as <- _. exists srv.
  by destruct p2pNode.
Qed.

Lemma P2P_method_names backend : NoDup ((fun m => formatName (m_name m)) <$> P2P_API_methods (W := W) backend).
Proof. unfold P2P_API_methods. distinct_names. Qed.

Section Calls.
Context (c : RPCClient) (srv : Srv) (api : list (method W)) (p2pNode : option (P2P_API W)).
Context (Hapis : RegisterApis (node_apis api p2pNode) rpc_NewServer = Ok srv) (Hc : reaches c srv).

(** The method of the p2p API at an index *)
Lemma p2p_call i m backend x :
  p2pNode = Some backend -> P2P_API_methods backend !! i = Some m ->
  CallContext c (m_arg m) (m_ret m) (prefixRPC (formatName (m_name m))) x =M answered (m_fun m x).
Proof.
  intros -> Hm. eapply (CallContext_served c srv _ (mkAPI NamespaceRPC (P2P_API_methods backend)) m _ x x Hapis Hc).
  - apply namespaces_distinct.
  - right. by left.
  - reflexivity.
  - apply P2P_method_names.
  - by eapply list_elem_of_lookup_2.
  - apply convert_same.
Qed.
Lemma optimism_call i m a x y :
  NoDup ((fun m => formatName (m_name m)) <$> api) -> api !! i = Some m -> convert a (m_arg m) x = Some y ->
  CallContext c a (m_ret m) ("optimism_" +:+ formatName (m_name m)) x =M answered (m_fun m y).
Proof.
  intros Hn Hm Hy. eapply (CallContext_served c srv _ (mkAPI "optimism" api) m a x y Hapis Hc).
  - apply namespaces_distinct.
  - by left.
  - reflexivity.
  - done.
  - by eapply list_elem_of_lookup_2.
  - done.
Qed.
Lemma P2PClient_answers backend : p2pNode = Some backend -> answers_for (P2PClient c) backend.
Proof.
  intros Hb.
  assert (Hcall : forall i m, P2P_API_methods backend !! i = Some m -> forall x,
    CallContext c (m_arg m) (m_ret m) (prefixRPC (formatName (m_name m))) x =M answered (m_fun m x))
    by (intros; by eapply p2p_call).
  split; cbn.
  - served Hcall 0%nat.
  - served Hcall 1%nat.
  - served Hcall 2%nat.
  - served Hcall 3%nat.
  - served Hcall 4%nat.
  - served Hcall 5%nat.
  - served Hcall 6%nat.
  - served Hcall 7%nat.
  - served Hcall 8%nat.
  - served Hcall 9%nat.
  - served Hcall 10%nat.
  - served Hcall 11%nat.
  - served Hcall 12%nat.
  - served Hcall 13%nat.
  - served Hcall 14%nat.
  - served Hcall 15%nat.
  - served Hcall 16%nat.
Qed.
End Calls.
End Served.

(** The node's server, as [initRPCServer] starts it, with the client of the p2p API and the
    rollup client of the batch and output submitters *)
Section ServedNode.
Context `{RPCLaws W} `{Keccak} `{GethTypes} `{RLP} `{TrieDB} `{!L2RPC W} `{!L2RawRPC W} (genesis : Genesis).
Context (LatestBlockNumber PendingBlockNumber : Z) (Version Meta : string).
(** The submitters' RPC client is one of these. *)
Context `{Wallets} `{!Backends W} (as_client : RPC -> RPCClient).
Context (Hbundle : forall rpc name req,
  rpc_CallBundle rpc name req = CallContext (as_client rpc) TBundleRequest TBundleResponse name req).
Context (Houtput : forall rpc name n,
  rpc_CallOutput rpc name n = CallContext (as_client rpc) TString THashes name n).
Context (Hhex : forall n, 0 <= n < 2 ^ 63 -> convert TString TBlockNumber (hexutil_EncodeBig n) = Some n).

#[local] Instance node_l2 : L2EthClient W := ReadOnlySource genesis.
Definition node_methods : list (method W) :=
  nodeAPI_methods node_l2 LatestBlockNumber PendingBlockNumber Version Meta.
Lemma node_method_names : NoDup ((fun m => formatName (m_name m)) <$> node_methods).
Proof. unfold node_methods, nodeAPI_methods. distinct_names. Qed.

(** The clients of a running node get what its methods give.  Every call of the p2p client
    and of the rollup client, against the server that the node started, runs the method of
    the backend of the same name once, on the same argument, and returns its result; an
    error comes as the rpc package reports it, and a panic of the method as an error.
    Outputs are for the block numbers that the server can parse. *)
Lemma clients_of_node rpcCfg appVersion p2pNode w s w' srv c rpc :
  serve rpcCfg node_methods appVersion p2pNode w = (Ok s, w') ->
  rs_httpServer s = Some srv -> reaches c srv -> reaches (as_client rpc) srv ->
  (forall backend, p2pNode = Some backend -> answers_for (P2PClient c) backend) /\
  (forall req, @rc_GetBatchBundle _ (NewRollupClient rpc) req =M answered (GetBatchBundle req)) /\
  (forall n, 0 <= n < 2 ^ 63 ->
    @rc_OutputAtBlock _ (NewRollupClient rpc) n =M answered (OutputAtBlock LatestBlockNumber PendingBlockNumber n)).
Proof.
  intros E Hs Hc Hr. apply serve_registered in E as (srv' & Hs' & Ha & Hapis).
  rewrite Hs in Hs'. injection Hs' as <-. rewrite Hapis in Ha. split_and!.
  - intros backend Hb. by eapply P2PClient_answers.
  - intros req. cbn [rc_GetBatchBundle NewRollupClient]. rewrite Hbundle.
    pose proof (optimism_call _ _ _ _ Ha Hr 2 (mkMethod "GetBatchBundle" TBundleRequest TBundleResponse GetBatchBundle)
      TBundleRequest req req node_method_names eq_refl (convert_same TBundleRequest req)) as E. cbn in E. by rewrite formatName_lower in E.
  - intros n Hn. cbn [rc_OutputAtBlock NewRollupClient]. rewrite Houtput.
    pose proof (optimism_call _ _ _ _ Ha Hr 0
      (mkMethod "OutputAtBlock" TBlockNumber THashes (OutputAtBlock LatestBlockNumber PendingBlockNumber))
      TString _ n node_method_names eq_refl (Hhex n Hn)) as E.
    cbn in E. by rewrite formatName_lower in E.
Qed.
End ServedNode.

(** ** Witness: a client is the registered APIs of its server *)
Section ToyTransport.
Context {W : Type}.
(** [strings.SplitN] at the first underscore *)
Fixpoint split_underscore (s : string) : string * string :=
  match s with
  | EmptyString => (EmptyString, EmptyString)
  | String c r =>
      if bool_decide (c = "_"%char) then (EmptyString, r)
      else let '(a, b) := split_underscore r in (String c a, b)
  end.
Definition lower_first (s : string) : string := match s with String c r => String (lower c) r | _ => s end.
Definition cast {a b : ty} (E : a = b) : denote a -> denote b :=
  match E in _ = b return denote a -> denote b with eq_refl => fun x => x end.
Definition toy_convert (a b : ty) : denote a -> option (denote b) :=
  match decide (a = b) with
  | left E => fun x => Some (cast E x)
  | right _ =>
      match a, b return denote a -> option (denote b) with
      | TString, TBlockNumber => fun x => Some (Z.of_nat (String.length x))       (* in unary *)
      | _, _ => fun _ => None
      end
  end.
Definition toy_recovered {A} (r : res A) : res A :=
  match r with Err e => Err (EMsg (error_text e)) | Panic => Err (EMsg "method handler crashed") | r => r end.
Definition toy_call (apis : list (rpcAPI W)) (a b : ty) (name : string) (x : denote a) : M W (denote b) :=
  let '(ns, name) := split_underscore name in
  match list_find (fun api => Namespace api = ns) apis with
  | None => throw (EMsg "method not found")
  | Some (_, api) =>
      match list_find (fun m => lower_first (m_name m) = name) (Service api) with
      | None => throw (EMsg "method not found")
      | Some (_, m) =>
          match toy_convert a (m_arg m) x, decide (m_ret m = b) with
          | Some y, left E => fun w => let '(r, w') := m_fun m y w in
              (match toy_recovered r with
               | Ok v => Ok (cast E v) | Err e => Err e | Panic => Panic | OutOfFuel => OutOfFuel
               end, w')
          | _, _ => throw (EMsg "invalid argument")
          end
      end
  end.
Definition ToyRPCLib : RPCLib W := {|
  Srv := list (rpcAPI W);
  rpc_NewServer := [];
  RegisterApis := fun apis srv => Ok (srv ++ apis);
  net_Listen := fun endpoint => mret endpoint;
  RPCClient := list (rpcAPI W);
  CallContext := toy_call;
  convert := toy_convert;
  formatName := lower_first;
  rpc_error := fun e => EMsg (error_text e);
  method_crashed := EMsg "method handler crashed";
  reaches := fun c srv => c = srv;
|}.

Lemma split_namespace ns name : has_underscore ns = false -> split_underscore (ns +:+ "_" +:+ name) = (ns, name).
Proof.
  induction ns as [|c ns IH]; [done|]. cbn [has_underscore]. intros [Hc Hn]%orb_false_iff.
  change (String c ns +:+ "_" +:+ name) with (String c (ns +:+ "_" +:+ name)). cbn [split_underscore].
  by rewrite Hc, (IH Hn).
Qed.
Lemma find_unique {A B} (f : A -> B) `{EqDecision B} (l : list A) a :
  NoDup (f <$> l) -> a ∈ l -> exists i, list_find (fun x => f x = f a) l = Some (i, a).
Proof.
  intros Hn Ha. destruct (list_find_elem_of (fun x => f x = f a) l a Ha eq_refl) as [[i x] E].
  exists i. rewrite E. pose proof E as (Hi & Hx & _)%list_find_Some. do 2 f_equal.
  apply list_elem_of_lookup in Ha as [j Hj].
  assert (i = j) as ->; [|congruence].
  eapply (NoDup_lookup (f <$> l)); [done| |]; rewrite list_lookup_fmap, ?Hi, ?Hj; cbn; by rewrite ?Hx.
Qed.
Lemma cast_id a (E : a = a) (x : denote a) : cast E x = x.
Proof. by rewrite (proof_irrel E eq_refl). Qed.
Lemma toy_convert_same a x : toy_convert a a x = Some x.
Proof. unfold toy_convert. destruct (decide (a = a)) as [E|]; [|done]. by rewrite cast_id. Qed.
Lemma ToyRPCLaws : @RPCLaws W ToyRPCLib.
Proof.
  split; cbn.
  - intros c srv apis api m a x y [= <-] -> Hns Hapi Hu Hnames Hm Hy. unfold toy_call.
    rewrite split_namespace by done. destruct (find_unique Namespace apis api Hns Hapi) as [i ->].
    destruct (find_unique (fun m => lower_first (m_name m)) (Service api) m Hnames Hm) as [j ->].
    rewrite Hy. destruct (decide (m_ret m = m_ret m)) as [E|]; [|done]. intros w. unfold answered.
    destruct (m_fun m y w) as [[v| | |] w']; try done. cbn. by rewrite cast_id.
  - apply toy_convert_same.
  - done.
Qed.
End ToyTransport.

Fixpoint zeros (n : nat) : string := match n with O => "" | S n => String "0" (zeros n) end.
Lemma length_zeros n : String.length (zeros n) = n.
Proof. induction n as [|n IH]; cbn; [done|]. by rewrite IH. Qed.
#[local] Existing Instances ToyKeccak ToyGeth Batches.ToyRLP ToySigning.
Definition rpc_trie : TrieDB := {|
  Trie := unit; trie_New := fun _ _ => Err ENotFound; trie_TryGet := fun _ _ => Err ENotFound;
  rlp_account := fun _ _ _ _ => Err ENotFound |}.
Definition rpc_l2 : @L2RPC ToyGeth unit := {|
  client_BlockByHash := fun _ => throw ENotFound;
  client_BlockByNumber := fun _ => throw ENotFound;
  engine_forkchoiceUpdatedV1 := fun _ _ w =>
    ((mkForkchoiceUpdatedResult (mkPayloadStatusV1 ExecutionSyncing 0 "") None, Some ENotFound), w);
  engine_newPayloadV1 := fun _ w => ((mkPayloadStatusV1 ExecutionSyncing 0 "", Some ENotFound), w);
  engine_getPayloadV1 := fun _ => throw ENotFound |}.
Definition rpc_raw : @L2RawRPC ToyGeth unit := {|
  eth_getBlockByNumber := fun _ => mret None; eth_getProof := fun _ _ => mret None |}.

#[local] Existing Instances rpc_trie rpc_l2 rpc_raw.
Definition rpc_backends_lib : RPCLib unit := ToyRPCLib.
#[local] Existing Instance rpc_backends_lib.
Definition rpc_wallets : Wallets := {|
  Wallet := string; hdwallet_NewFromMnemonic := fun s => Ok s; wallet_PrivateKey := fun _ _ => Ok tt;
  PubkeyToAddress := fun _ => 44; IsHexAddress := fun s => true; HexToAddress := fun _ => 55; HexToHash := fun _ => 77;
  hexutil_EncodeBig := fun n => zeros (Z.to_nat n); signed_Hash := fun tx => dt_Nonce tx;
  core_ErrNonceTooLow := "nonce too low" |}.
#[local] Existing Instance rpc_wallets.
Definition rpc_backends : Backends unit := {|
  Client := unit; RPC := RPCClient;
  ethclient_DialContext := fun _ => throw ENotFound; rpc_DialContext := fun _ => throw ENotFound;
  client_ChainID := fun _ => mret 900;
  client_Eth := fun _ => {| SuggestGasTipCap := mret 2; HeaderByNumber := fun n => mret (prog_header 10 130);
                            SendTransaction := fun _ => mret tt; NonceAt := fun _ => mret 3 |};
  client_BlockNumber := fun _ => mret 20; client_TransactionReceipt := fun _ h => mret None;
  rpc_CallBundle := fun c name req => CallContext c TBundleRequest TBundleResponse name req;
  rpc_CallOutput := fun c name n => CallContext c TString THashes name n;
  NewL2OutputOracle := fun addr _ => Err ENotFound; L2OutputOracle_ABI := Ok tt |}.
#[local] Existing Instance rpc_backends.

(** A node without discovery, gater and connection manager *)
Definition rpc_peer_node : PeerNode := {|
  peer_String := pretty; host_ID := 1; pstore_PubKey := fun _ => None; pstore_Get := fun _ _ => (None, None);
  pstore_Addrs := fun _ => []; AddrInfoToP2pAddrs := fun _ _ => inr []; pstore_GetProtocols := fun _ => ([], None);
  pstore_LatencyEWMA := fun _ => 0; pstore_Peers := [1; 2]; nw_Connectedness := fun _ => Connected;
  nw_ConnsToPeer := fun _ => []; nw_Peers := [2]; connMgr_IsProtected := None; BlocksTopicPeers := [2];
  gater_ListBlocked := None; Dv5Local_ENR := None; Dv5Udp_AllNodes := None |}.
Definition rpc_backend : P2P_API unit :=
  APIBackend (fun _ => rpc_peer_node) None None (fun s => Ok s) (fun _ => mret tt) (fun _ => mret tt).
Definition rpc_methods : list (method unit) := node_methods genesis_example (-2) (-1) "v0.0.0" "dev".
Definition rpc_served := serve (mkRPCConfig "127.0.0.1" 9545) rpc_methods "v0.0.0" (Some rpc_backend) tt.

Definition rpc_srv : Srv := node_apis rpc_methods (Some rpc_backend).
Lemma rpc_served_eq : rpc_served =
  (Ok (mkRPCServer "127.0.0.1:9545" (node_apis rpc_methods (Some rpc_backend)) (Some rpc_srv) "v0.0.0" "127.0.0.1:9545"), tt).
Proof.
  unfold rpc_served, serve, newRPCServer. cbn [rpc_ListenAddr rpc_ListenPort].
  replace ("127.0.0.1" +:+ ":" +:+ pretty 9545) with "127.0.0.1:9545" by (vm_compute; reflexivity). reflexivity.
Qed.
Lemma rpc_hex n : 0 <= n < 2 ^ 63 -> convert TString TBlockNumber (hexutil_EncodeBig n) = Some n.
Proof.
  intros Hn. change (Some (Z.of_nat (String.length (zeros (Z.to_nat n)))) = Some n). rewrite length_zeros. f_equal. lia.
Qed.
Lemma clients_of_node_witness :
  @api_PeerStats _ (P2PClient rpc_srv) tt = (Ok (mkPeerStats 1 0 1 0 2), tt) /\
  @api_BlockPeer _ (P2PClient rpc_srv) 2 tt = (Err NoConnectionGater, tt).
Proof.
  pose proof (clients_of_node (H0 := ToyRPCLaws) genesis_example (-2) (-1) "v0.0.0" "dev" (fun rpc => rpc)
    (fun _ _ _ => eq_refl) (fun _ _ _ => eq_refl) rpc_hex (mkRPCConfig "127.0.0.1" 9545) "v0.0.0" (Some rpc_backend)
    tt _ tt rpc_srv rpc_srv rpc_srv rpc_served_eq eq_refl eq_refl eq_refl) as (Hp & _ & _).
  destruct (Hp rpc_backend eq_refl) as [_ _ Hs _ Hb]. split.
  - exact (Hs tt).
  - exact (Hb 2 tt).
Defined.
