(* ===== verification/StateViz.v ===== *)
(** * The viewer of snapshot logs

    op-node/cmd/stateviz/main.go: reading a snapshot log, and merging the entries of the
    rollup drivers into rows by their time. *)

From Stdlib Require Import Strings.Ascii.
From stdpp Require Import strings gmap sorting.
From S2P Require Import Prelude Types.
#[local] Open Scope Z_scope.

(** ** Reading the log *)
Record SnapshotState := mkSnapshotState {
  ss_Timestamp : string;
  ss_EngineAddr : string;
  ss_Event : string;
  ss_L1Head : L1BlockRef;
  ss_L2Head : L2BlockRef;
  ss_L2SafeHead : L2BlockRef;
  ss_L2FinalizedHead : BlockID;
  ss_L1WindowBuf : list BlockID;
}.
(** The outer struct of [UnmarshalJSON], with its raw messages *)
Record rawState := mkRawState {
  rs_Timestamp : string;
  rs_EngineAddr : string;
  rs_Event : string;
  rs_L1Head : string;
  rs_L2Head : string;
  rs_L2SafeHead : string;
  rs_L2FinalizedHead : string;
  rs_L1WindowBuf : string;
}.
(** encoding/json on the types, and [strconv.Unquote]; a window may be null. *)
Class VizJSON := {
  json_rawState : string -> res rawState;
  json_L1BlockRef : string -> res L1BlockRef;
  json_L2BlockRef : string -> res L2BlockRef;
  json_BlockID : string -> res BlockID;
  json_window : string -> res (option (list BlockID));
  Unquote : string -> option string;
}.

(** The entries of each driver, by the address of its engine *)
Abbreviation Entries := (gmap string (list SnapshotState)).
Definition entries_of (e : Entries) (k : string) : list SnapshotState := default [] (e !! k).

Section Load.
Context `{VizJSON}.

(** A value that is not a quoted string is read as the empty string. *)
Definition unquote (d : string) : string := default "" (Unquote d).
(** [SnapshotState.UnmarshalJSON] *)
Definition UnmarshalJSON (data : string) : res SnapshotState :=
  t ← json_rawState data;
  l1Head ← json_L1BlockRef (unquote (rs_L1Head t));
  l2Head ← json_L2BlockRef (unquote (rs_L2Head t));
  l2SafeHead ← json_L2BlockRef (unquote (rs_L2SafeHead t));
  l2FinalizedHead ← json_BlockID (unquote (rs_L2FinalizedHead t));
  l1WindowBuf ← json_window (unquote (rs_L1WindowBuf t));
  Ok (mkSnapshotState (rs_Timestamp t) (rs_EngineAddr t) (rs_Event t) l1Head l2Head l2SafeHead l2FinalizedHead
        (default [] l1WindowBuf)).

(** [bufio.Scanner] on lines: each without its end of line, and an error at a line that
    does not fit the buffer *)
Definition MaxScanTokenSize : Z := 65536.
Fixpoint split_lines (s : string) : list string :=
  match s with
  | EmptyString => []
  | String c r =>
      if bool_decide (c = "010"%char) then EmptyString :: split_lines r
      else match split_lines r with [] => [String c EmptyString] | l :: ls => String c l :: ls end
  end.
Fixpoint dropCR (s : string) : string :=
  match s with
  | EmptyString => EmptyString
  | String c EmptyString => if bool_decide (c = "013"%char) then EmptyString else s
  | String c r => String c (dropCR r)
  end.
Definition ErrTooLong : error := EMsg "bufio.Scanner: token too long".
Fixpoint scan (lines : list string) : list string * option error :=
  match lines with
  | [] => ([], None)
  | l :: ls =>
      if MaxScanTokenSize <=? Z.of_nat (String.length l) then ([], Some ErrTooLong)
      else let '(tokens, err) := scan ls in (dropCR l :: tokens, err)
  end.

Fixpoint loadSnapshot_loop (tokens : list string) (tempEntries : Entries) : res Entries :=
  match tokens with
  | [] => Ok tempEntries
  | text :: tokens =>
      entry ← map_err (wrapw ": failed to decode snapshot log") (UnmarshalJSON text);
      loadSnapshot_loop tokens
        (<[ss_EngineAddr entry := entries_of tempEntries (ss_EngineAddr entry) ++ [entry]]> tempEntries)
  end.
(** [loadSnapshot] on the file, or the error of opening it: what becomes of [entries] *)
Definition loadSnapshot (file : res string) (entries : Entries) : res unit * Entries :=
  match
    file ← map_err (wrapw ": failed to open snapshot file") file;
    let '(tokens, err) := scan (split_lines file) in
    tempEntries ← loadSnapshot_loop tokens ∅;
    match err with Some err => Err (wrapw ": failed to scan snapshot file" err) | None => Ok tempEntries end
  with
  | Ok tempEntries => (Ok tt, tempEntries)
  | Err e => (Err e, entries)
  | Panic => (Panic, entries)
  | OutOfFuel => (OutOfFuel, entries)
  end.
End Load.

(** ** The rows *)

(** Go's [<] on strings, and entries by their time *)
Definition earlier (a b : SnapshotState) : bool := String.ltb (ss_Timestamp a) (ss_Timestamp b).
Definition set_Timestamp (t : string) (s : SnapshotState) : SnapshotState :=
  mkSnapshotState t (ss_EngineAddr s) (ss_Event s) (ss_L1Head s) (ss_L2Head s) (ss_L2SafeHead s)
    (ss_L2FinalizedHead s) (ss_L1WindowBuf s).

Abbreviation kv := (string * list SnapshotState)%type.
(** The search for the earliest entry, in the order in which the map is visited *)
Definition find_min_step (acc : option (string * SnapshotState)) (e : kv) : option (string * SnapshotState) :=
  match e.2 with
  | [] => acc
  | s :: _ =>
      match acc with
      | None => Some (e.1, s)
      | Some (_, min) => if earlier s min then Some (e.1, s) else acc
      end
  end.
Definition find_min (visited : list kv) : option (string * SnapshotState) := foldl find_min_step None visited.
(** The next entries of the others, with the time of the row *)
Definition others (minKey : string) (min : SnapshotState) (visited : list kv) : list SnapshotState :=
  omap (fun e => match e.2 with
                 | s :: _ => if bool_decide (e.1 <> minKey) then Some (set_Timestamp (ss_Timestamp min) s) else None
                 | [] => None
                 end) visited.

Section Rows.
(** Go visits a map in any order; [order n] is that of the [n]th visit. *)
Context (order : nat -> list kv -> list kv).

(** The loop of [logsHandler] from visit [n] on *)
Fixpoint logs_loop (fuel n : nat) (entriesCopy : Entries) : res (list (list SnapshotState)) :=
  match fuel with
  | O => OutOfFuel
  | S fuel =>
      match find_min (order n (map_to_list entriesCopy)) with
      | None => Ok []
      | Some (minKey, min) =>
          let entriesCopy := <[minKey := tail (entries_of entriesCopy minKey)]> entriesCopy in
          let rec := min :: others minKey min (order (S n) (map_to_list entriesCopy)) in
          output ← logs_loop fuel (S (S n)) entriesCopy;
          Ok (rec :: output)
      end
  end.
(** The number of entries bounds the rounds. *)
Definition total (e : Entries) : nat := sum_list (length <$> (map_to_list e).*2).
Definition logsHandler (entries : Entries) : res (list (list SnapshotState)) := logs_loop (S (total entries)) 0 entries.
End Rows.

Lemma entries_of_insert k k' l e : entries_of (<[k := l]> e) k' = if decide (k = k') then l else entries_of e k'.
Proof. unfold entries_of. destruct (decide _) as [<-|]; [by rewrite lookup_insert_eq|by rewrite lookup_insert_ne]. Qed.

(** ** What is loaded *)
Section LoadProofs.
Context `{VizJSON}.

Lemma loadSnapshot_loop_spec tokens temp e :
  loadSnapshot_loop tokens temp = Ok e ->
  exists states, Forall2 (fun text s => UnmarshalJSON text = Ok s) tokens states /\
    forall k, entries_of e k = entries_of temp k ++ filter (fun s => ss_EngineAddr s = k) states.
Proof.
  revert temp. induction tokens as [|text tokens IH]; intros temp E; cbn [loadSnapshot_loop] in E.
  { injection E as <-. exists []. split; [constructor|]. intros k. by rewrite app_nil_r. }
  apply res_bind_ok in E as (s & Es & E). apply map_err_ok in Es.
  apply IH in E as (states & Hall & Hk). exists (s :: states). split; [by constructor|].
  intros k. rewrite Hk, entries_of_insert, filter_cons. destruct (decide _) as [<-|Hne]; [|done].
  by rewrite <-(assoc_L (++)).
Qed.
End LoadProofs.

(** ** What is shown *)

(** Not later *)
Definition ts_le (a b : SnapshotState) : Prop := earlier b a = false.

(** A specification of the rows: the entries, taken one by one in the order of their time.
    Each row has the next entry of all, an earliest one, and with its time the next entries
    of the other drivers. *)
Inductive merges : Entries -> list (list SnapshotState) -> Prop :=
  | merges_end e : (forall k, entries_of e k = []) -> merges e []
  | merges_row e k s rest row out :
      entries_of e k = s :: rest ->
      (forall k' s', head (entries_of e k') = Some s' -> ts_le s s') ->
      (forall x, x ∈ row <-> exists k' s', k' <> k /\ head (entries_of e k') = Some s' /\
                              x = set_Timestamp (ss_Timestamp s) s') ->
      merges (<[k := rest]> e) out ->
      merges e ((s :: row) :: out).

(** The order of strings *)
Lemma ltb_cons a s b t :
  String.ltb (String a s) (String b t) =
    match (N_of_ascii a ?= N_of_ascii b)%N with Lt => true | Eq => String.ltb s t | Gt => false end.
Proof. unfold String.ltb. cbn. unfold Ascii.compare. by destruct (_ ?= _)%N. Qed.
Lemma ltb_irrefl s : String.ltb s s = false.
Proof. induction s as [|a s IH]; [done|]. by rewrite ltb_cons, N.compare_refl. Qed.
Lemma ltb_false_trans a b c : String.ltb b a = false -> String.ltb c b = false -> String.ltb c a = false.
Proof.
  revert b c. induction a as [|x a IH]; intros [|y b] [|z c]; try done. rewrite !ltb_cons. intros Hba Hcb.
  destruct (N.compare_spec (N_of_ascii y) (N_of_ascii x)), (N.compare_spec (N_of_ascii z) (N_of_ascii y)),
    (N.compare_spec (N_of_ascii z) (N_of_ascii x)); try done; try lia. by eapply IH.
Qed.
Lemma ltb_asym a b : String.ltb a b = true -> String.ltb b a = false.
Proof.
  revert b. induction a as [|x a IH]; intros [|y b]; try done. rewrite !ltb_cons, (N.compare_antisym (N_of_ascii x)).
  destruct (N_of_ascii x ?= N_of_ascii y)%N; cbn; try done. apply IH.
Qed.
Lemma ts_le_refl a : ts_le a a.
Proof. apply ltb_irrefl. Qed.
Lemma ts_le_trans a b c : ts_le a b -> ts_le b c -> ts_le a c.
Proof. apply ltb_false_trans. Qed.
Lemma earlier_le a b : earlier a b = true -> ts_le a b.
Proof. apply ltb_asym. Qed.

(** The search finds an earliest entry, whatever the order, and one if there is any. *)
Lemma find_min_spec visited acc :
  match foldl find_min_step acc visited with
  | None => acc = None /\ (forall k l, (k, l) ∈ visited -> l = [])
  | Some (k, s) =>
      (acc = Some (k, s) \/ exists rest, (k, s :: rest) ∈ visited) /\
      (forall k' s', acc = Some (k', s') -> ts_le s s') /\
      (forall k' s' rest, (k', s' :: rest) ∈ visited -> ts_le s s')
  end.
Proof.
  revert acc. induction visited as [|[k0 l0] visited IH]; intros acc; cbn [foldl].
  { destruct acc as [[k s]|]; [|split; [done|]; by intros k l ?%not_elem_of_nil].
    split; [by left|]. split; [intros k' s' [= _ <-]; apply ts_le_refl|]. by intros k' s' rest ?%not_elem_of_nil. }
  specialize (IH (find_min_step acc (k0, l0))). destruct (foldl _ _ visited) as [[k s]|].
  - destruct IH as (Hin & Hacc & Hall). destruct l0 as [|s0 r0]; cbn [find_min_step fst snd] in Hin, Hacc.
    + split_and!; [|exact Hacc|]; [destruct Hin as [Hin|[rest Hin]]; [by left|right; exists rest; by right]|].
      intros k' s' rest [Hin'|Hin']%elem_of_cons; [congruence|by eapply Hall].
    + assert (H0 : ts_le s s0 /\ (forall k' s', acc = Some (k', s') -> ts_le s s')).
      { destruct acc as [[ka sa]|]; [|split; [by eapply Hacc|done]].
        destruct (earlier s0 sa) eqn:E; (split; [|intros k' s' [= <- <-]]); pose proof (Hacc _ _ eq_refl) as Hs; try done.
        - eapply ts_le_trans; [exact Hs|by apply earlier_le].
        - eapply ts_le_trans; [exact Hs|done]. }
      destruct H0 as [H0 Ha]. split_and!; [|exact Ha|].
      * destruct Hin as [Hin|[rest Hin]]; [|right; exists rest; by right].
        destruct acc as [[ka sa]|]; [destruct (earlier s0 sa)|]; try (by left);
          injection Hin as <- <-; right; exists r0; by left.
      * intros k' s' rest [Hin'|Hin']%elem_of_cons; [injection Hin' as _ -> _; done|by eapply Hall].
  - destruct IH as [Hn Hall]. destruct l0 as [|s0 r0]; cbn [find_min_step fst snd] in Hn.
    + split; [done|]. intros k l [Hin|Hin]%elem_of_cons; [by injection Hin|by eapply Hall].
    + destruct acc as [[ka sa]|]; [by destruct (earlier s0 sa)|done].
Qed.

(** ** The rows are such a merge *)
Section RowsProofs.
Context (order : nat -> list kv -> list kv) (Horder : forall n l, order n l ≡ₚ l).

Lemma visited_entries n (e : Entries) k l : (k, l) ∈ order n (map_to_list e) <-> e !! k = Some l.
Proof. rewrite (Horder n). apply elem_of_map_to_list. Qed.
Lemma entries_of_cons e k s rest : entries_of e k = s :: rest <-> e !! k = Some (s :: rest).
Proof. unfold entries_of. destruct (e !! k); cbn; split; congruence. Qed.

Lemma others_spec k min n (e : Entries) x :
  x ∈ others k min (order n (map_to_list e)) <->
  exists k' s', k' <> k /\ head (entries_of e k') = Some s' /\ x = set_Timestamp (ss_Timestamp min) s'.
Proof.
  unfold others. rewrite list_elem_of_omap. split.
  - intros ([k' [|s' r]] & Hin & Hx); [done|]. apply visited_entries in Hin. cbn in Hx. case_bool_decide; [|done].
    injection Hx as <-. exists k', s'. split_and!; [done| |done]. apply entries_of_cons in Hin. by rewrite Hin.
  - intros (k' & s' & Hne & Hh & ->). destruct (entries_of e k') as [|s0 r] eqn:E; [done|]. injection Hh as ->.
    exists (k', s' :: r). rewrite visited_entries, <-entries_of_cons. split; [done|]. cbn. by rewrite bool_decide_true.
Qed.

Lemma total_insert e k s rest : entries_of e k = s :: rest -> total e = S (total (<[k := rest]> e)).
Proof.
  intros E%entries_of_cons. unfold total.
  rewrite <-(insert_delete_id e k _ E) at 1. rewrite <-(insert_delete_eq e k rest).
  rewrite !map_to_list_insert by apply lookup_delete_eq. reflexivity.
Qed.

Lemma logs_loop_merges fuel n e :
  (total e < fuel)%nat -> exists out, logs_loop order fuel n e = Ok out /\ merges e out.
Proof.
  revert n e. induction fuel as [|fuel IH]; intros n e Hf; [lia|]. cbn [logs_loop].
  pose proof (find_min_spec (order n (map_to_list e)) None) as Hm. unfold find_min.
  destruct (foldl find_min_step None _) as [[k s]|].
  - destruct Hm as ([?|[rest Hin]] & _ & Hall); [done|]. apply visited_entries, entries_of_cons in Hin.
    rewrite Hin. cbn [tail]. pose proof (total_insert _ _ _ _ Hin) as Ht.
    destruct (IH (S (S n)) (<[k := rest]> e) ltac:(lia)) as (out & -> & Hout). cbn [mbind res_bind].
    eexists. split; [reflexivity|]. eapply merges_row; [exact Hin| | |exact Hout].
    + intros k' s' Hh. destruct (entries_of e k') as [|s0 r] eqn:E; [done|]. injection Hh as ->.
      eapply Hall. apply visited_entries, entries_of_cons. exact E.
    + intros x. rewrite others_spec. split; intros (k' & s' & Hne & Hh & ->); exists k', s'; (split_and!; [done| |done]).
      * by rewrite entries_of_insert, decide_False in Hh.
      * by rewrite entries_of_insert, decide_False.
  - destruct Hm as [_ Hall]. exists []. split; [done|]. apply merges_end. intros k. unfold entries_of.
    destruct (e !! k) as [l|] eqn:E; [|done]. eapply Hall. apply visited_entries. exact E.
Qed.
End RowsProofs.

(** ** What a merge shows *)
Abbreviation firsts rows := (omap head rows).

Lemma merges_first e out s : merges e out -> head (firsts out) = Some s -> exists k, head (entries_of e k) = Some s.
Proof. intros [|e' k s' rest row out' E _ _ _] Hh; [done|]. injection Hh as ->. exists k. by rewrite E. Qed.
Lemma merges_filter e out :
  merges e out -> (forall k s, s ∈ entries_of e k -> ss_EngineAddr s = k) ->
  forall k, filter (fun s => ss_EngineAddr s = k) (firsts out) = entries_of e k.
Proof.
  induction 1 as [e He|e k s rest row out E Hmin Hrow _ IH]; intros Hk k'; [by rewrite He|].
  assert (Hrest : forall k0 s0, s0 ∈ entries_of (<[k:=rest]> e) k0 -> ss_EngineAddr s0 = k0).
  { intros k0 s0. rewrite entries_of_insert. destruct (decide _) as [<-|]; [|apply Hk].
    intros Hin. apply Hk. rewrite E. by right. }
  specialize (IH Hrest k'). rewrite entries_of_insert in IH. cbn [omap list_omap head]. rewrite filter_cons.
  assert (Es : ss_EngineAddr s = k) by (apply Hk; rewrite E; by left). rewrite Es.
  destruct (decide (k = k')) as [<-|]; [by rewrite IH, E|done].
Qed.
Lemma merges_sorted e out :
  merges e out -> (forall k, Sorted ts_le (entries_of e k)) -> Sorted ts_le (firsts out).
Proof.
  induction 1 as [e He|e k s rest row out E Hmin Hrow Hm IH]; intros Hs; [constructor|].
  cbn [omap list_omap head]. pose proof (Hs k) as Hk. rewrite E in Hk. apply Sorted_inv in Hk as [Hr Hhd]. constructor.
  - apply IH. intros k'. rewrite entries_of_insert. by destruct (decide _).
  - destruct (firsts out) as [|s2 l] eqn:Ef; [constructor|]. constructor.
    destruct (merges_first _ _ s2 Hm ltac:(by rewrite Ef)) as [k2 Hk2]. rewrite entries_of_insert in Hk2.
    destruct (decide _) as [<-|]; [|by eapply Hmin]. destruct rest; [done|]. injection Hk2 as ->. by inversion Hhd.
Qed.
Lemma merges_times e out :
  merges e out ->
  Forall (fun row => exists s rest, row = s :: rest /\ Forall (fun x => ss_Timestamp x = ss_Timestamp s) rest) out.
Proof.
  induction 1 as [|e k s rest row out E Hmin Hrow _ IH]; constructor; [|done]. exists s, row. split; [done|].
  apply Forall_forall. intros x (k' & s' & _ & _ & ->)%Hrow. done.
Qed.

(** The viewer shows the log.  Whatever the order in which the map of the drivers is
    visited, once a file is loaded its rows come to an end, and their first entries are the
    entries of the file: of every driver all of them, in the order of the file; if the
    entries of every driver are in the order of time in the file then so are the rows, and
    all entries of a row are shown at the time of its first. *)
Lemma rows_of_log `{VizJSON} order content entries e :
  (forall n l, order n l ≡ₚ l) ->
  loadSnapshot (Ok content) entries = (Ok tt, e) ->
  exists log rows,
    Forall2 (fun text s => UnmarshalJSON text = Ok s) (scan (split_lines content)).1 log /\
    logsHandler order e = Ok rows /\
    (forall k, filter (fun s => ss_EngineAddr s = k) (firsts rows) = filter (fun s => ss_EngineAddr s = k) log) /\
    ((forall k, Sorted ts_le (filter (fun s => ss_EngineAddr s = k) log)) -> Sorted ts_le (firsts rows)) /\
    Forall (fun row => exists s rest, row = s :: rest /\ Forall (fun x => ss_Timestamp x = ss_Timestamp s) rest) rows.
Proof.
  intros Horder E. unfold loadSnapshot in E. cbn [map_err mbind res_bind] in E.
  destruct (scan (split_lines content)) as [tokens err]. cbn [fst].
  destruct (loadSnapshot_loop tokens ∅) as [e'| | |] eqn:El; try done. cbn in E. destruct err; [done|]. injection E as ->.
  apply loadSnapshot_loop_spec in El as (log & Hlog & Hk).
  assert (Hk' : forall k, entries_of e k = filter (fun s => ss_EngineAddr s = k) log)
    by (intros k; by rewrite Hk).
  destruct (logs_loop_merges order Horder (S (total e)) 0 e ltac:(lia)) as (rows & Er & Hm).
  exists log, rows. split_and!; [done|exact Er| | |by eapply merges_times].
  - intros k. rewrite <-Hk'. eapply merges_filter; [exact Hm|]. intros k0 s. rewrite Hk'.
    by intros [? _]%list_elem_of_filter.
  - intros Hs. eapply merges_sorted; [exact Hm|]. intros k. rewrite Hk'. apply Hs.
Qed.

(** ** Witness: two drivers, and a map that is visited in either order; a line is the time,
    the driver and the event, a character each *)
Definition ToyVizJSON : VizJSON := {|
  json_rawState := fun s => match s with
    | String t (String k ev) => Ok (mkRawState (String t "") (String k "") ev "" "" "" "" "")
    | _ => Err (EMsg "unexpected end of JSON input")
    end;
  json_L1BlockRef := fun _ => Ok (mkL1BlockRef 0 0 0 0);
  json_L2BlockRef := fun _ => Ok (mkL2BlockRef 0 0 0 0 zeroBlockID 0);
  json_BlockID := fun _ => Ok zeroBlockID;
  json_window := fun _ => Ok None;
  Unquote := fun _ => None;
|}.
#[local] Existing Instance ToyVizJSON.
Definition viz_file : string :=
  "1ax" +:+ String "010" ("2bx" +:+ String "010" ("3ay" +:+ String "010" ("5az" +:+ String "010" "4by"))).
Definition viz_order (n : nat) (l : list kv) : list kv := if Nat.even n then l else rev l.
Lemma viz_order_perm n l : viz_order n l ≡ₚ l.
Proof. unfold viz_order. destruct (Nat.even n); [done|]. symmetry. apply Permutation_rev. Qed.
Definition viz_entries : Entries := (loadSnapshot (Ok viz_file) ∅).2.
Lemma viz_loaded : loadSnapshot (Ok viz_file) ∅ = (Ok tt, viz_entries).
Proof. vm_compute. reflexivity. Qed.
Lemma rows_of_log_witness : exists rows,
  logsHandler viz_order viz_entries = Ok rows /\
  map ss_Timestamp (firsts rows) = ["1"; "2"; "3"; "4"; "5"] /\
  Forall (fun row => exists s rest, row = s :: rest /\ Forall (fun x => ss_Timestamp x = ss_Timestamp s) rest) rows.
Proof.
  destruct (rows_of_log viz_order viz_file ∅ viz_entries viz_order_perm viz_loaded)
    as (log & rows & _ & Er & _ & _ & Ht).
  exists rows. split; [exact Er|]. split; [|exact Ht].
  vm_compute in Er. injection Er as <-. reflexivity.
Defined.
